(* ===== verification/_CoqProject ===== *)
-Q . S2P
Prelude.v
GoFloat.v
Strconv.v
Flags.v
Budget.v
Authority.v
Crypto.v
EventLog.v
Codec.v
Effects.v
Lineage.v
Receipt.v
Identity.v
Checkpoint.v
Storage.v
Manifest.v
Wasm.v
Hostcall.v
ToyGuest.v
Instance.v
Replay.v
TickReplay.v
Inspector.v
Report.v
Timeline.v
Migration.v
Engine.v
Demo.v
Runner.v
P2p.v
Registry.v
Igord.v
Simulator.v
Cli.v
Sdk.v
SdkLogic.v
SdkLive.v
SdkNode.v
AgentKit.v
Watchers.v
Reconciler.v
Sentinel.v
X402.v
X402Node.v
SdkReplay.v
NodeLife.v
NodeAgents.v
DemoRun.v
MigrateLife.v
DemoLife.v
Deployer.v
MockCloud.v
Shipped.v
Mock.v
Pricing.v
