(* ===== verification/Prelude.v ===== *)
(** * The Igor agent runtime, verified: root of the development

    Igor runs autonomous agents as WASM modules.  A node gives an agent a
    budget, a clock, randomness, HTTP and payments through the "igor" host
    module, records every observation, charges every tick, saves signed
    checkpoints, and can hand the agent to another node or replay its ticks.
    This development models that program from the bytes of its formats up to
    the node's loops and the agents it ships with, and proves that the parts
    keep what they promise to each other.

    ** How the parts fit

    An [Instance] (internal/agent) holds the accounts of one agent beside its
    WASM module.  A tick calls the module, whose hostcalls are answered by
    internal/hostcall and recorded by internal/eventlog; the tick's pre-state,
    log and post-state hash become a snapshot.  Saving writes the checkpoint
    format through internal/storage; pkg/lineage signs it, pkg/receipt issues
    receipts.  internal/replay runs a snapshot again from its log,
    internal/inspector checks a whole history, internal/migration moves an
    agent under the leases of internal/authority, the runners and commands
    loop over ticks, and internal/simulator does the same in one process.
    Agents are written against sdk/igor, which turns its functions into raw
    hostcalls and its lifecycle into WASM exports.

    ** Files

    Foundations
    - Prelude.v: results, bytes and little-endian integers, machine-width
      wrap-around, the tactics and hint databases everything uses
    - GoFloat.v, Budget.v: Go's float64; pkg/budget
    - Strconv.v, Flags.v: Go's number parsers, and the flag package
    - Crypto.v: SHA-256 and Ed25519 as a class with laws
    - Wasm.v: WASM guests as trees of hostcalls; internal/wasmutil
    - ToyGuest.v: an executable guest for the witnesses

    Formats
    - Codec.v, Effects.v: sdk/igor/encoding.go and effects.go
    - EventLog.v: internal/eventlog
    - Lineage.v, Receipt.v, Identity.v, Manifest.v: the packages of pkg/
    - Checkpoint.v: [buildCheckpoint], [ParseCheckpointHeader] of
      internal/agent/instance.go

    The node
    - Authority.v: internal/authority (epochs and leases)
    - Storage.v: internal/storage (paths, atomic saves, the archive)
    - Hostcall.v: internal/hostcall (live host functions, registry)
    - Instance.v: the rest of internal/agent/instance.go
    - Replay.v, TickReplay.v: internal/replay, and live ticks against replay
    - Inspector.v, Report.v: internal/inspector, and the text it prints
    - Migration.v: internal/migration and pkg/protocol
    - Engine.v: internal/runtime, and loading an agent on an engine
    - P2p.v: internal/p2p over a libp2p given as functions
    - Runner.v, Igord.v: internal/runner, internal/config and the loops and
      start-up paths of cmd/igord and cmd/igord-lab
    - Registry.v, Pricing.v: internal/registry, internal/pricing
    - Simulator.v: internal/simulator
    - Cli.v: the [main] functions of cmd/igord and cmd/igord-lab, from the
      arguments to the exit code
    - Timeline.v, Demo.v: internal/timeline, and the reconciliation demo that
      runs an agent on two nodes

    The agents
    - Sdk.v: sdk/igor's wrappers and lifecycle; an agent as a WASM guest
    - SdkLogic.v: program logics for agent code
    - SdkLive.v, SdkNode.v, SdkReplay.v: what agent code does to a live node,
      and that a node's replay window of an agent verifies
    - AgentKit.v: what the agents share
    - Watchers.v: agents/heartbeat, research/example, pricewatcher and
      liquidation, a Module each
    - Reconciler.v: agents/research/reconciliation
    - Sentinel.v: agents/sentinel
    - X402.v, X402Node.v: agents/x402buyer and cmd/paywall; on a node
    - Deployer.v, MockCloud.v: agents/deployer and cmd/mockcloud; together
    - NodeLife.v, NodeAgents.v: what [igord run] leaves on the disk over any
      number of sessions and crashes, for any agent and for the shipped ones
    - MigrateLife.v: SDK agents under migration, whatever the network does
    - DemoRun.v, DemoLife.v: the reconciliation demo, run and for every node
    - Shipped.v: every agent keeps the agent contract
    - Mock.v: sdk/igor/mock and the native stubs

    A definition has the name of the Go function, method, type or constant it
    models; a trailing underscore avoids a clash with a Rocq name.  Methods
    take their receiver as last argument and return it.  Names in lower case
    that Go does not have stand for a block of a function.

    ** State and effects

    Go structs are records, maps are [gmap], slices are lists, bytes are
    [list Byte.byte], integers are [Z] with [u8], [u32], [u64], [i32], [i64]
    written where Go wraps.  Errors are the [Err] side of [result], with an
    inductive type per package; what is only logged is dropped.  Readings of
    the clock, of randomness, of HTTP and of tick durations are arguments, or
    lists in an environment that are consumed in order.  Storage has a script
    that decides for every file-system call whether it succeeds, fails, or
    the machine dies before or after it.  Agent code is a tree ([Sdk]) over
    the SDK's operations; its runs against all possible answers are
    [act_post], against one host [live_act], and [lived A P n s] says that
    [n] ticks, each into a state that satisfies [P], with restarts from
    checkpoints anywhere between them, can take agent [A] to state [s];
    [told_life A E n s l] says so of ticks whose answers satisfy [E], with
    the payments [l] that these answers stand for.

    ** Interfaces

    The parts meet in classes, with laws that are proved where the code under
    src/ implements them: [Wasm]/[WasmLaws] (the engine; instances
    [toy_wasm] and [sdk_wasm A]), [WalletState], [PricingState],
    [WalletPayState], [EventRecorder], [HostEnv] with [HostLaws] (what
    hostcall handlers need of an instance; Instance.v discharges them),
    [Store] and [Provider] with their laws (Storage.v discharges them),
    [Checkpointable] (what an agent must prove; one instance per shipped
    agent), [agent_contract] (what replay asks of a guest; Sdk.v derives it
    from [Checkpointable]).  Third-party code is a class too: [Crypto]
    (crypto/sha256, crypto/ed25519), [JSON], [CloudJSON] (encoding/json),
    [ErrorText] (error strings), [PriceNet] (libp2p streams), [RandSource]
    (math/rand/v2), [Runtime] with [RuntimeLaws] (wazero's table of modules);
    each has an executable instance that the witnesses use.

    ** What the theorems show

    - Determinism: a recorded tick, and a chain of them, replays to the same
      state; a replay that is accepted made the recorded hostcalls; neither
      the simulator nor self-verification accuses an agent whose ticks can be
      replayed.  That asks of the agent its contract, and of its module that
      the replay host offers what it imports ([replayable]): an importer of
      [http_request] never replays ([http_module_never_replays]), and a tick
      that reads a receipt in the simulator diverges
      ([receipt_reader_diverges]).
    - Durability: checkpoints round-trip and are signed as a whole, so that a
      tampered one is a forged signature; a save is atomic under any failure
      or crash; an agent saved with a budget that is not negative
      ([overspent_checkpoint_unloadable]) loads, restarts and migrates to the
      state it handed over; a valid history is tamper evident, and an honest
      one is valid.
    - Confinement: a module is loaded only with capabilities the node has,
      host functions its manifest declares and all lifecycle exports, else
      refused with the reason; an engine holds one module per agent ID.
    - Authority: no tick without a lease, one owner through migration,
      recovery only by a new major epoch, the lease operations against their
      documented table.
    - Money: metering without wrap-around, payments refused or exact,
      receipts that chain, a budget that bounds the ticks, at most one
      execution per declared effect.
    - Agents: the SDK's buffers and retries implement its functions; every
      shipped agent keeps the contract; the sentinel's books balance, the
      x402 buyer books what its node pays, the deployer pays once, the
      reconciler finalizes once and completes, the liquidation watcher does
      not notice its downtime, the price watcher's records survive restarts;
      native tests on the mock are answered as they were set up and stay
      within the lives; for an agent whose ticks never panic ([hosted]: all
      but the x402 buyer and the deployer), whatever [igord run] leaves
      on a disk over any number of sessions is a life of the agent, and
      whatever a migration tries, the agent lives on where it arrives and no
      target's disk holds a checkpoint of another life; the two-node demo ends after
      three ticks on the second node, and unless it stops with an error its
      agent has finalized exactly once.
    - Commands: the options of [igord run] reach the run, [igord verify] exits
      with the verdict on the history.
    - Queries: candidate selection for every map order; price scans for every
      schedule of the goroutines, which return every answer when all queries
      end, and never return when one peer stays silent
      ([silent_peer_hangs]).

    Where the code does not do what it means to, an [Example] next to the
    theorem shows it on a concrete run ([overspent_checkpoint_unloadable],
    [second_save_breaks_chain], [ambiguous_then_recovered],
    [resume_ignores_budget], [zero_clock_refills] and others).

    ** Fuel and bounds

    [Effects.unmarshal_loop] has the length of the data as fuel, each intent
    taking at least one byte ([unmarshal_loop_fuel]: more changes nothing);
    [Receipt.unmarshal_loop] likewise; [Identity.digits_loop] has the bits of
    the number; [GoFloat.pow_loop] the bits of the exponent;
    [Liquidation.catchUp] the number of missed slots;
    [Strconv.duration_loop] the length of the text, each part taking at least
    two characters; [Report.dump_rows] the length of the data.
    [Demo.runDemo] ticks on node B until the agent has no more work and has a
    number of ticks as fuel: three are enough ([DemoLife.demo_completes]).  All other recursion is
    structural: loops run over the list of events, attempts or durations they
    are given.  [int] is 64 bits wide, in agents too (TinyGo's is 32).

    ** Not modelled

    - The WASM engine below internal/runtime: wazero, whose contract is [Wasm]
      and [Runtime]; memory limits and wall-clock timeouts are traps.
    - The streams below internal/p2p, internal/migration and internal/pricing:
      libp2p.  A delivery is lost, refused, or arrives and is answered or not;
      a stream operation of a price query returns, fails or blocks for ever.
    - internal/logging and every log record; of the standard output, what the
      commands print themselves is modelled.
    - Failures to create a directory, a WASM engine or a temporary directory
      at start-up, which end the commands with exit code 1.
    - Mutexes: the operations they guard are atomic steps.
    - The guest's allocator, collector and compiler; [fmt] beyond what a
      claim reads; the sockets and signals of the HTTP servers.
    - src/tools.go and the generators of test fixtures. *)
From stdpp Require Export base option list numbers strings.
From Stdlib Require Export ZArith Lia Bool.
From Stdlib Require Strings.Byte Strings.String.
Open Scope Z_scope.

(** ** Byte strings *)

Abbreviation byte := Byte.byte.
Abbreviation bytes := (list Byte.byte).

#[export] Instance byte_eq_dec : EqDecision byte := Byte.byte_eq_dec.

Definition Z_of_byte (b : byte) : Z := Z.of_N (Byte.to_N b).

(** [byte(z)]: Go's conversion of an integer to an 8-bit value. *)
Definition byte_of_Z (z : Z) : byte :=
  match Byte.of_N (Z.to_N (z mod 256)) with Some b => b | None => Byte.x00 end.

(** A Go string is a byte sequence; [bytes_of] is the conversion [[]byte(s)]
    and [string_of] the conversion [string(b)]. *)
Definition bytes_of (s : string) : bytes := String.list_byte_of_string s.
Definition string_of (b : bytes) : string := String.string_of_list_byte b.

(** [len] of a slice, as Go's [int]. *)
Definition blen {A} (l : list A) : Z := Z.of_nat (length l).

(** [l[lo:hi]]; every use in the sources is guarded by a length check, and
    out of range the model truncates. *)
Definition slice {A} (lo hi : Z) (l : list A) : list A :=
  take (Z.to_nat (hi - lo)) (drop (Z.to_nat lo) l).

(** A zeroed array of [n] bytes ([make([]byte, n)], [[n]byte{}]). *)
Definition zeros (n : nat) : bytes := replicate n Byte.x00.

(** [copy(arr[:], src)] into a zeroed array of [n] bytes. *)
Definition copy_array (n : nat) (src : bytes) : bytes := take n (src ++ zeros n).

(** ** Machine integers *)

Definition u8 (x : Z) : Z := x mod 2 ^ 8.
Definition u16 (x : Z) : Z := x mod 2 ^ 16.
Definition u32 (x : Z) : Z := x mod 2 ^ 32.
Definition u64 (x : Z) : Z := x mod 2 ^ 64.
Definition i32 (x : Z) : Z := (x + 2 ^ 31) mod 2 ^ 32 - 2 ^ 31.
Definition i64 (x : Z) : Z := (x + 2 ^ 63) mod 2 ^ 64 - 2 ^ 63.

Definition is_u32 (x : Z) : Prop := 0 <= x < 2 ^ 32.
Definition is_u64 (x : Z) : Prop := 0 <= x < 2 ^ 64.
Definition is_i64 (x : Z) : Prop := - 2 ^ 63 <= x < 2 ^ 63.
Definition max_i64 : Z := 2 ^ 63 - 1.

(** ** Little-endian encoding (encoding/binary.LittleEndian) *)

Fixpoint le_bytes (n : nat) (z : Z) : bytes :=
  match n with
  | O => []
  | S n => byte_of_Z z :: le_bytes n (z / 256)
  end.

Fixpoint le_val (l : bytes) : Z :=
  match l with
  | [] => 0
  | b :: l => Z_of_byte b + 256 * le_val l
  end.

Definition put_u32 (z : Z) : bytes := le_bytes 4 z.
Definition put_u64 (z : Z) : bytes := le_bytes 8 z.
(** [binary.LittleEndian.Uint32(b)] and [Uint64(b)] read the first bytes. *)
Definition get_u32 (b : bytes) : Z := le_val (take 4 b).
Definition get_u64 (b : bytes) : Z := le_val (take 8 b).

#[global] Arguments put_u32 : simpl never.
#[global] Arguments put_u64 : simpl never.
#[global] Arguments zeros : simpl never.
#[global] Arguments u64 : simpl never.
#[global] Arguments u32 : simpl never.
#[global] Arguments i64 : simpl never.

(** ** Fallible results *)

Inductive result (E A : Type) : Type :=
| Ok (a : A)
| Err (e : E).
Arguments Ok {E A} a.
Arguments Err {E A} e.

#[export] Instance result_fmap {E} : FMap (result E) := fun _ _ f m => match m with Ok a => Ok (f a) | Err e => Err e end.
#[export] Instance result_ret {E} : MRet (result E) := fun _ a => Ok a.
#[export] Instance result_bind {E} : MBind (result E) :=
  fun _ _ f m => match m with Ok a => f a | Err e => Err e end.
#[export] Instance result_eq_dec {E A} `{EqDecision E, EqDecision A} : EqDecision (result E A).
Proof. solve_decision. Defined.

Definition map_err {E E' A} (f : E -> E') (m : result E A) : result E' A :=
  match m with Ok a => Ok a | Err e => Err (f e) end.
Definition is_ok {E A} (m : result E A) : bool := match m with Ok _ => true | Err _ => false end.
(** A guard that returns early with an error. *)
Definition guard_err {E} (b : bool) (e : E) : result E unit := if b then Ok tt else Err e.

(** ** Lemmas shared by the components *)

(** Split on the innermost [match] or [if] scrutinee of the goal. *)
Ltac case_match_goal :=
  match goal with
  | |- context [match ?x with _ => _ end] =>
      lazymatch x with context [match _ with _ => _ end] => fail | _ => destruct x eqn:? end
  end.
Ltac crush_match := repeat (case_match_goal; simplify_eq/=).
(** Booleans of [Z] comparisons turned into propositions. *)
Ltac zb :=
  repeat match goal with
  | H : (_ <? _) = true |- _ => apply Z.ltb_lt in H
  | H : (_ <? _) = false |- _ => apply Z.ltb_ge in H
  | H : (_ <=? _) = true |- _ => apply Z.leb_le in H
  | H : (_ <=? _) = false |- _ => apply Z.leb_gt in H
  | H : (_ =? _) = true |- _ => apply Z.eqb_eq in H
  | H : (_ =? _) = false |- _ => apply Z.eqb_neq in H
  | H : _ && _ = true |- _ => apply andb_true_iff in H as [? ?]
  | H : _ || _ = false |- _ => apply orb_false_iff in H as [? ?]
  | H : negb _ = true |- _ => apply negb_true_iff in H
  | H : negb _ = false |- _ => apply negb_false_iff in H
  end.

Create HintDb igor.
Create Rewrite HintDb igor_len.

Lemma Z_of_byte_range b : 0 <= Z_of_byte b < 256.
Proof.
  unfold Z_of_byte. pose proof (Byte.to_N_bounded b). lia.
Qed.

Lemma byte_of_Z_of_byte b : byte_of_Z (Z_of_byte b) = b.
Proof.
  unfold byte_of_Z. rewrite Z.mod_small by apply Z_of_byte_range.
  unfold Z_of_byte. by rewrite N2Z.id, Byte.of_to_N.
Qed.

Lemma Z_of_byte_of_Z z : Z_of_byte (byte_of_Z z) = z mod 256.
Proof.
  pose proof (Z.mod_pos_bound z 256 ltac:(lia)) as Hr.
  unfold Z_of_byte, byte_of_Z.
  destruct (Byte.of_N _) as [b|] eqn:E.
  - apply Byte.to_of_N in E. rewrite E. lia.
  - exfalso. pose proof (Byte.to_of_N_option_map (Z.to_N (z mod 256))) as H.
    rewrite E in H. simpl in H. destruct (_ <=? 255)%N eqn:E2; [done|].
    apply N.leb_gt in E2. lia.
Qed.

Lemma length_bytes_of s : length (bytes_of s) = String.length s.
Proof.
  unfold bytes_of. induction s as [|a s IH]; [done|].
  cbn. f_equal. apply IH.
Qed.

Lemma string_of_bytes_of s : string_of (bytes_of s) = s.
Proof. apply String.string_of_list_byte_of_string. Qed.
Lemma bytes_of_string_of b : bytes_of (string_of b) = b.
Proof. apply String.list_byte_of_string_of_list_byte. Qed.

Lemma bytes_of_inj s t : bytes_of s = bytes_of t -> s = t.
Proof. intros H. by rewrite <- (string_of_bytes_of s), H, string_of_bytes_of. Qed.

Lemma blen_app {A} (l k : list A) : blen (l ++ k) = blen l + blen k.
Proof. unfold blen. rewrite length_app. lia. Qed.
Lemma blen_nonneg {A} (l : list A) : 0 <= blen l.
Proof. unfold blen. lia. Qed.
Lemma blen_nil {A} : blen (@nil A) = 0.
Proof. done. Qed.
Lemma blen_cons {A} (x : A) l : blen (x :: l) = 1 + blen l.
Proof. unfold blen. simpl. lia. Qed.
Lemma blen_zeros n : blen (zeros n) = Z.of_nat n.
Proof. unfold blen, zeros. by rewrite length_replicate. Qed.

Lemma copy_array_id n b : blen b = Z.of_nat n -> copy_array n b = b.
Proof. intros H. apply take_app_length'. unfold blen in H. lia. Qed.
Lemma blen_copy_array n b : blen (copy_array n b) = Z.of_nat n.
Proof. unfold blen, copy_array, zeros. rewrite length_take, length_app, length_replicate. lia. Qed.

Lemma u64_range x : is_u64 (u64 x).
Proof. unfold is_u64, u64. apply Z.mod_pos_bound. lia. Qed.
Lemma u32_range x : is_u32 (u32 x).
Proof. unfold is_u32, u32. apply Z.mod_pos_bound. lia. Qed.
Lemma i64_range x : is_i64 (i64 x).
Proof.
  unfold is_i64, i64. pose proof (Z.mod_pos_bound (x + 2^63) (2^64) ltac:(lia)). lia.
Qed.
Lemma u64_id x : is_u64 x -> u64 x = x.
Proof. intros. unfold u64. by apply Z.mod_small. Qed.
Lemma u32_id x : is_u32 x -> u32 x = x.
Proof. intros. unfold u32. by apply Z.mod_small. Qed.
Lemma i64_id x : is_i64 x -> i64 x = x.
Proof. intros H. unfold i64, is_i64 in *. rewrite Z.mod_small; lia. Qed.
Lemma i64_u64 x : i64 (u64 x) = i64 x.
Proof. unfold i64, u64. f_equal. by rewrite Zplus_mod_idemp_l. Qed.
Lemma u64_i64 x : u64 (i64 x) = u64 x.
Proof.
  unfold i64, u64. rewrite Zminus_mod_idemp_l. f_equal. lia.
Qed.
Lemma i64_of_u64 x : is_i64 x -> i64 (u64 x) = x.
Proof. intros. by rewrite i64_u64, i64_id. Qed.

Lemma length_le_bytes n z : length (le_bytes n z) = n.
Proof. revert z; induction n; intros; simpl; [done|]. by rewrite IHn. Qed.
Lemma length_put_u32 z : length (put_u32 z) = 4%nat.
Proof. apply length_le_bytes. Qed.
Lemma length_put_u64 z : length (put_u64 z) = 8%nat.
Proof. apply length_le_bytes. Qed.
Lemma blen_put_u32 z : blen (put_u32 z) = 4.
Proof. unfold blen. by rewrite length_put_u32. Qed.
Lemma blen_put_u64 z : blen (put_u64 z) = 8.
Proof. unfold blen. by rewrite length_put_u64. Qed.

Lemma le_val_le_bytes n z : le_val (le_bytes n z) = z mod 2 ^ (8 * Z.of_nat n).
Proof.
  revert z; induction n as [|n IH]; intros z.
  - simpl. by rewrite Z.mod_1_r.
  - cbn [le_bytes le_val]. rewrite IH, Z_of_byte_of_Z.
    replace (8 * Z.of_nat (S n)) with (8 + 8 * Z.of_nat n) by lia.
    rewrite Z.pow_add_r by lia. change (2 ^ 8) with 256.
    rewrite Z.rem_mul_r; lia.
Qed.

Lemma le_bytes_le_val l : le_bytes (length l) (le_val l) = l.
Proof.
  induction l as [|b l IH]; [done|]. cbn [le_val length le_bytes].
  pose proof (Z_of_byte_range b).
  rewrite (Z.mul_comm 256), Z.div_add, Z.div_small by lia. simpl (0 + _). f_equal; [|done].
  unfold byte_of_Z. rewrite Z_mod_plus_full, Z.mod_small by lia.
  unfold Z_of_byte. by rewrite N2Z.id, Byte.of_to_N.
Qed.

Lemma le_val_range l : 0 <= le_val l < 2 ^ (8 * blen l).
Proof.
  pose proof (le_val_le_bytes (length l) (le_val l)) as H.
  rewrite le_bytes_le_val in H. rewrite H. unfold blen.
  apply Z.mod_pos_bound, Z.pow_pos_nonneg; lia.
Qed.

Lemma take_app_le_bytes n z k : take n (le_bytes n z ++ k) = le_bytes n z.
Proof. apply take_app_length'. by rewrite length_le_bytes. Qed.

Lemma get_put_u64 z k : get_u64 (put_u64 z ++ k) = u64 z.
Proof. unfold get_u64, put_u64. by rewrite take_app_le_bytes, le_val_le_bytes. Qed.
Lemma get_put_u32 z k : get_u32 (put_u32 z ++ k) = u32 z.
Proof. unfold get_u32, put_u32. by rewrite take_app_le_bytes, le_val_le_bytes. Qed.
Lemma get_put_u64' z : get_u64 (put_u64 z) = u64 z.
Proof. rewrite <- (app_nil_r (put_u64 z)). apply get_put_u64. Qed.

Lemma get_put_u32' z : get_u32 (put_u32 z) = u32 z.
Proof. rewrite <- (app_nil_r (put_u32 z)). apply get_put_u32. Qed.

Lemma get_u64_range b : is_u64 (get_u64 b).
Proof.
  unfold get_u64, is_u64. pose proof (le_val_range (take 8 b)) as H.
  assert (2 ^ (8 * blen (take 8 b)) <= 2 ^ 64); [|lia].
  apply Z.pow_le_mono_r; [lia|]. unfold blen. rewrite length_take. lia.
Qed.
Lemma get_u32_range b : is_u32 (get_u32 b).
Proof.
  unfold get_u32, is_u32. pose proof (le_val_range (take 4 b)) as H.
  assert (2 ^ (8 * blen (take 4 b)) <= 2 ^ 32); [|lia].
  apply Z.pow_le_mono_r; [lia|]. unfold blen. rewrite length_take. lia.
Qed.

(** Reading a field that sits after a prefix of known length. *)
Lemma slice_app_mid {A} (pre x post : list A) lo hi :
  lo = blen pre -> hi = blen pre + blen x -> slice lo hi (pre ++ x ++ post) = x.
Proof.
  intros -> ->. unfold slice, blen.
  rewrite Nat2Z.id, drop_app_length.
  apply take_app_length'. lia.
Qed.
Lemma slice_skip {A} (a r : list A) lo hi :
  blen a <= lo -> slice lo hi (a ++ r) = slice (lo - blen a) (hi - blen a) r.
Proof.
  intros Hlo. unfold slice. replace (hi - blen a - (lo - blen a)) with (hi - lo) by lia. f_equal.
  unfold blen in *. rewrite drop_app_ge by lia. f_equal. lia.
Qed.
Lemma slice_head {A} (x post : list A) lo hi : lo = 0 -> hi = blen x -> slice lo hi (x ++ post) = x.
Proof. intros -> ->. unfold slice, blen. rewrite drop_0. apply take_app_length'. lia. Qed.
Lemma drop_app_mid {A} (pre post : list A) n :
  n = blen pre -> drop (Z.to_nat n) (pre ++ post) = post.
Proof. intros ->. unfold blen. by rewrite Nat2Z.id, drop_app_length. Qed.

Lemma blen_slice {A} lo hi (l : list A) :
  0 <= lo <= hi -> hi <= blen l -> blen (slice lo hi l) = hi - lo.
Proof.
  unfold blen, slice. intros. rewrite length_take, length_drop. lia.
Qed.

(** Read the one [slice] of the goal out of a concatenation of fields whose
    lengths [lia] knows. *)
Ltac slice_read :=
  repeat rewrite slice_skip by (autorewrite with igor_len; lia);
  rewrite slice_head by (autorewrite with igor_len; lia).

#[export] Hint Resolve Z_of_byte_range u64_range u32_range i64_range blen_nonneg
  get_u64_range get_u32_range : igor.
#[export] Hint Rewrite @blen_app @blen_nil @blen_cons blen_put_u32 blen_put_u64 blen_zeros blen_copy_array
  @length_app length_put_u32 length_put_u64 : igor_len.
