(* ===== verification/GoFloat.v ===== *)
(** * Go's float64 values

    [float64] is IEEE 754 binary64.  The Standard Library's [SpecFloat] gives
    its arithmetic as computable functions on [spec_float]; this file fixes the
    precision and adds the conversions between [float64] and [int64] the
    sources use: [float64(n)], [int64(f)] (truncation; the amd64 result
    [-2^63] when the value does not fit) and [math.Pow] for a non-negative
    integer exponent (the multiply-and-square loop of Go's [math.pow] on the
    binary fraction and exponent). *)
From S2P Require Import Prelude.
From Corelib Require Import SpecFloat.

Abbreviation float64 := spec_float.

Definition f64_of_Z (z : Z) : float64 := binary_normalize 53 1024 z 0 false.
Definition f64_mul : float64 -> float64 -> float64 := SFmul 53 1024.
Definition f64_div : float64 -> float64 -> float64 := SFdiv 53 1024.
Definition f64_ltb : float64 -> float64 -> bool := SFltb.
Definition f64_leb : float64 -> float64 -> bool := SFleb.
Definition f64_zero : float64 := S754_zero false.
Definition f64_one : float64 := f64_of_Z 1.

(** The integer part, truncated toward zero; [None] for NaN and infinities. *)
Definition f64_trunc (f : float64) : option Z :=
  match f with
  | S754_zero _ => Some 0
  | S754_finite s m e =>
      let a := if 0 <=? e then Zpos m * 2 ^ e else Zpos m / 2 ^ (- e) in
      Some (if s then - a else a)
  | _ => None
  end.

(** [int64(f)]. *)
Definition i64_of_f64 (f : float64) : Z :=
  match f64_trunc f with
  | Some z => if (- 2 ^ 63 <=? z) && (z <? 2 ^ 63) then z else - 2 ^ 63
  | None => - 2 ^ 63
  end.

(** The loop of [math.pow]: [a1 * 2^ae] accumulates the product, [x1 * 2^xe] is
    the current square; one round per bit of [i]. *)
Fixpoint pow_loop (fuel : nat) (i : Z) (a1 : float64) (ae : Z) (x1 : float64) (xe : Z)
  : float64 * Z :=
  match fuel with
  | O => (a1, ae)
  | S fuel =>
      if i =? 0 then (a1, ae)
      else if (xe <? - 2 ^ 12) || (2 ^ 12 <? xe) then (a1, ae + xe)
      else
        let '(a1, ae) := if Z.odd i then (f64_mul a1 x1, ae + xe) else (a1, ae) in
        let x1 := f64_mul x1 x1 in
        let xe := 2 * xe in
        let '(x1, xe) :=
          if f64_ltb x1 (f64_div f64_one (f64_of_Z 2))
          then (SFadd 53 1024 x1 x1, xe - 1) else (x1, xe) in
        pow_loop fuel (Z.div2 i) a1 ae x1 xe
  end.

(** [math.Pow(x, float64(n))] for a finite positive [x] and an [int] [n >= 0]
    (64 rounds cover every 64-bit exponent). *)
Definition pow_f64 (x : float64) (n : Z) : float64 :=
  if (n =? 0) || SFeqb x f64_one then f64_one
  else if n =? 1 then x
  else
    let '(x1, xe) := SFfrexp 53 1024 x in
    let '(a1, ae) := pow_loop 64 n f64_one 0 x1 xe in
    SFldexp 53 1024 a1 ae.

Lemma i64_of_f64_range f : is_i64 (i64_of_f64 f).
Proof.
  unfold i64_of_f64, is_i64. destruct (f64_trunc f) as [z|]; [|lia].
  destruct (_ && _) eqn:E; zb; lia.
Qed.
#[export] Hint Resolve i64_of_f64_range : igor.

Example pow_2_10 : i64_of_f64 (pow_f64 (f64_of_Z 2) 10) = 1024.
Proof. vm_compute. reflexivity. Qed.
Example pow_3_5 : i64_of_f64 (pow_f64 (f64_of_Z 3) 5) = 243.
Proof. vm_compute. reflexivity. Qed.
