(* ===== verification/Strconv.v ===== *)
(** * Numbers from text (strconv and time.ParseDuration)

    The readers behind Go's [flag] package: [ParseBool], [ParseInt] and
    [ParseUint] with base 0 and 64 bits, [ParseFloat] and [ParseDuration]. *)
From S2P Require Import Prelude GoFloat.
From Corelib Require Import SpecFloat.
Open Scope Z_scope.

Inductive num_error := ErrSyntax | ErrRange.

Definition code (c : Ascii.ascii) : Z := Z.of_N (Ascii.N_of_ascii c).
Definition ch (n : Z) : Ascii.ascii := Ascii.ascii_of_N (Z.to_N n).
(** [c | 32]. *)
Definition lower (c : Ascii.ascii) : Z := Z.lor (code c) 32.
Definition within (lo hi n : Z) : bool := (lo <=? n) && (n <=? hi).
Definition is_digit (c : Ascii.ascii) : bool := within 48 57 (code c).
Definition is_hex (c : Ascii.ascii) : bool := within 97 102 (lower c).
Definition underscore (c : Ascii.ascii) : bool := code c =? 95.
(** An optional sign: whether it is a minus, and the rest. *)
Definition take_sign (s : string) : bool * string :=
  match s with
  | String c s' => if code c =? 43 then (false, s') else if code c =? 45 then (true, s') else (false, s)
  | EmptyString => (false, s)
  end.
(** A base prefix: [0b], [0o], [0x]. *)
Definition take_prefix (s : string) : option (Z * string) :=
  match s with
  | String z (String c s') =>
      if code z =? 48
      then if lower c =? 98 then Some (2, s') else if lower c =? 111 then Some (8, s') else if lower c =? 120 then Some (16, s') else None
      else None
  | _ => None
  end.

(** [underscoreOK]: underscores separate digits, or follow a base prefix. *)
Inductive saw := SawStart | SawDigit | SawUnderscore | SawOther.
#[export] Instance saw_eq_dec : EqDecision saw.
Proof. solve_decision. Defined.
Fixpoint underscore_loop (hex : bool) (p : saw) (s : string) : bool :=
  match s with
  | EmptyString => negb (bool_decide (p = SawUnderscore))
  | String c s =>
      if is_digit c || (hex && is_hex c) then underscore_loop hex SawDigit s
      else if underscore c then bool_decide (p = SawDigit) && underscore_loop hex SawUnderscore s
      else negb (bool_decide (p = SawUnderscore)) && underscore_loop hex SawOther s
  end.
Definition underscoreOK (s : string) : bool :=
  let s := snd (take_sign s) in
  match take_prefix s with
  | Some (b, s) => underscore_loop (b =? 16) SawDigit s
  | None => underscore_loop false SawStart s
  end.

Definition digit_value (c : Ascii.ascii) : option Z :=
  if is_digit c then Some (code c - 48) else if within 97 122 (lower c) then Some (lower c - 87) else None.
Fixpoint uint_loop (base n : Z) (s : string) : result num_error Z :=
  match s with
  | EmptyString => Ok n
  | String c s =>
      if underscore c then uint_loop base n s
      else match digit_value c with
           | None => Err ErrSyntax
           | Some d =>
               if base <=? d then Err ErrSyntax
               else if 2 ^ 64 <=? n * base + d then Err ErrRange
               else uint_loop base (n * base + d) s
           end
  end.
(** Base 0: the prefix chooses the base; a leading zero means octal. *)
Definition ParseUint (s : string) : result num_error Z :=
  match s with
  | EmptyString => Err ErrSyntax
  | String c s' =>
      let '(base, digits) :=
        if code c =? 48
        then match take_prefix s with Some (b, String d r) => (b, String d r) | _ => (8, s') end
        else (10, s) in
      n ← uint_loop base 0 digits;
      if underscoreOK s then Ok n else Err ErrSyntax
  end.
Definition ParseInt (s : string) : result num_error Z :=
  match s with
  | EmptyString => Err ErrSyntax
  | _ =>
      let '(neg, s) := take_sign s in
      un ← ParseUint s;
      if if neg then 2 ^ 63 <? un else 2 ^ 63 <=? un then Err ErrRange else Ok (if neg then - un else un)
  end.
Definition ParseBool (s : string) : result num_error bool :=
  if bool_decide (s ∈ ["1"; "t"; "T"; "TRUE"; "true"; "True"]%string) then Ok true
  else if bool_decide (s ∈ ["0"; "f"; "F"; "FALSE"; "false"; "False"]%string) then Ok false
  else Err ErrSyntax.

(** ** ParseFloat *)
(** The mantissa read so far: its digits as a number, how many follow the dot,
    whether there was a dot, whether there was a digit. *)
Record mantissa := mkMantissa { m_value : Z; m_frac : Z; m_dot : bool; m_seen : bool }.
Fixpoint read_mantissa (base : Z) (m : mantissa) (s : string) : mantissa * string :=
  match s with
  | EmptyString => (m, s)
  | String c s' =>
      if underscore c then read_mantissa base m s'
      else if code c =? 46
      then if m_dot m then (m, s) else read_mantissa base (mkMantissa (m_value m) (m_frac m) true (m_seen m)) s'
      else if is_digit c || ((base =? 16) && is_hex c)
      then let d := default 0 (digit_value c) in
           read_mantissa base (mkMantissa (m_value m * base + d) (if m_dot m then m_frac m + 1 else m_frac m) (m_dot m) true) s'
      else (m, s)
  end.
(** The digits of the exponent; past 9999 they are read but not counted. *)
Fixpoint read_exponent (e : Z) (s : string) : Z * string :=
  match s with
  | String c s' =>
      if underscore c then read_exponent e s'
      else if is_digit c then read_exponent (if e <? 10000 then e * 10 + (code c - 48) else e) s' else (e, s)
  | EmptyString => (e, s)
  end.
Definition exponent (hex : bool) (s : string) : option Z :=
  match s with
  | EmptyString => if hex then None else Some 0
  | String c s =>
      if lower c =? (if hex then 112 else 101) then
        let '(neg, s) := take_sign s in
        match s with
        | String d _ =>
            if is_digit d
            then match read_exponent 0 s with (e, EmptyString) => Some (if neg then - e else e) | _ => None end
            else None
        | EmptyString => None
        end
      else None
  end.
(** [m * 10^e] rounded to nearest, ties to even. *)
Definition decimal (neg : bool) (m e : Z) : float64 :=
  if m =? 0 then S754_zero neg
  else
    if 0 <=? e then binary_normalize 53 1024 (if neg then - (m * 10 ^ e) else m * 10 ^ e) 0 neg
    else let '(mz, ez, lz) := SFdiv_core_binary 53 1024 m 0 (10 ^ (- e)) 0 in binary_round_aux 53 1024 neg mz ez lz.
Definition binary (neg : bool) (m e : Z) : float64 :=
  if m =? 0 then S754_zero neg else binary_normalize 53 1024 (if neg then - m else m) e neg.

Fixpoint to_lower (s : string) : string :=
  match s with
  | EmptyString => EmptyString
  | String c s => String (if within 65 90 (code c) then ch (code c + 32) else c) (to_lower s)
  end.
Definition special (s : string) : option float64 :=
  let '(neg, r) := take_sign s in
  if bool_decide (to_lower r ∈ ["inf"; "infinity"]%string) then Some (S754_infinity neg)
  else if bool_decide (to_lower s = "nan"%string) then Some S754_nan else None.
Definition ParseFloat (s : string) : result num_error float64 :=
  match special s with
  | Some f => Ok f
  | None =>
      let '(neg, r) := take_sign s in
      let '(hex, r) := match take_prefix r with Some (16, String d r') => (true, String d r') | _ => (false, r) end in
      let '(m, rest) := read_mantissa (if hex then 16 else 10) (mkMantissa 0 0 false false) r in
      match exponent hex rest with
      | None => Err ErrSyntax
      | Some e =>
          if negb (m_seen m) || negb (underscoreOK s) then Err ErrSyntax
          else match (if hex then binary neg (m_value m) (e - 4 * m_frac m) else decimal neg (m_value m) (e - m_frac m)) with
               | S754_infinity _ => Err ErrRange
               | f => Ok f
               end
      end
  end.

(** ** time.ParseDuration *)
Fixpoint leading_int (x : Z) (s : string) : option (Z * string) :=
  match s with
  | String c s' =>
      if is_digit c
      then if 2 ^ 63 / 10 <? x then None
           else if 2 ^ 63 <? x * 10 + (code c - 48) then None else leading_int (x * 10 + (code c - 48)) s'
      else Some (x, s)
  | EmptyString => Some (x, s)
  end.
Fixpoint leading_fraction (x : Z) (scale : float64) (overflow : bool) (s : string) : Z * float64 * string :=
  match s with
  | String c s' =>
      if is_digit c
      then let y := x * 10 + (code c - 48) in
           if overflow || ((2 ^ 63 - 1) / 10 <? x) || (2 ^ 63 <? y) then leading_fraction x scale true s'
           else leading_fraction y (f64_mul scale (f64_of_Z 10)) false s'
      else (x, scale, s)
  | EmptyString => (x, scale, s)
  end.
Fixpoint leading_unit (s : string) : string * string :=
  match s with
  | String c s' => if (code c =? 46) || is_digit c then (EmptyString, s) else let '(u, r) := leading_unit s' in (String c u, r)
  | EmptyString => (EmptyString, s)
  end.
(** The micro sign and the letter mu in UTF-8. *)
Definition mu (b : Z) : string := String (ch (if b =? 181 then 194 else 206)) (String (ch (if b =? 181 then 181 else 188)) "s").
Definition unit_of (u : string) : option Z :=
  if bool_decide (u = "ns"%string) then Some 1
  else if bool_decide (u ∈ ["us"%string; mu 181; mu 188]) then Some 1000
  else if bool_decide (u = "ms"%string) then Some 1000000
  else if bool_decide (u = "s"%string) then Some 1000000000
  else if bool_decide (u = "m"%string) then Some 60000000000
  else if bool_decide (u = "h"%string) then Some 3600000000000
  else None.
(** One number with its unit: its nanoseconds and the rest. *)
Definition duration_part (s : string) : option (Z * string) :=
  '(v, r) ← leading_int 0 s;
  let pre := negb (bool_decide (r = s)) in
  let '(f, scale, post, r) :=
    match r with
    | String c r' =>
        if code c =? 46 then let '(f, scale, r2) := leading_fraction 0 f64_one false r' in (f, scale, negb (bool_decide (r2 = r')), r2)
        else (0, f64_one, false, r)
    | EmptyString => (0, f64_one, false, r)
    end in
  if negb pre && negb post then None
  else
    let '(u, r) := leading_unit r in
    unit ← unit_of u;
    if 2 ^ 63 / unit <? v then None
    else
      let extra := if 0 <? f then i64_of_f64 (f64_mul (f64_of_Z f) (f64_div (f64_of_Z unit) scale)) else 0 in
      if 2 ^ 63 <? v * unit + extra then None else Some (v * unit + extra, r).
(** Every part is at least two characters: the length bounds the rounds. *)
Fixpoint duration_loop (fuel : nat) (d : Z) (s : string) : option Z :=
  match s, fuel with
  | EmptyString, _ => Some d
  | _, O => None
  | _, S fuel => '(v, r) ← duration_part s; if 2 ^ 63 <? d + v then None else duration_loop fuel (d + v) r
  end.
Definition ParseDuration (s : string) : option Z :=
  let '(neg, r) := take_sign s in
  if bool_decide (r = "0"%string) then Some 0
  else if bool_decide (r = ""%string) then None
  else d ← duration_loop (String.length r) 0 r;
       if neg then Some (i64 (- d)) else if 2 ^ 63 - 1 <? d then None else Some d.
