(* ===== verification/Flags.v ===== *)
(** * Command lines (the flag package)

    Flag sets as the commands of Igor declare them, Go's parsing loop with
    [flag.ExitOnError], and [PrintDefaults]. *)
From S2P Require Import Prelude GoFloat Strconv.
From stdpp Require Import gmap strings.
Open Scope Z_scope.

Inductive flag_value :=
| VString (s : string) | VBool (b : bool) | VInt (z : Z) | VUint64 (z : Z) | VFloat64 (f : float64) | VDuration (nanos : Z).
(** A declared flag: its default with the text [PrintDefaults] shows for it
    (empty: the zero value, not shown). *)
Record Flag := mkFlag { fl_name : string; fl_value : flag_value; fl_text : string; fl_usage : string }.
Abbreviation values := (gmap string flag_value).
Definition defaults (formal : list Flag) : values := list_to_map ((fun f => (fl_name f, fl_value f)) <$> formal).

Definition get_string (name : string) (v : values) : string := match v !! name with Some (VString s) => s | _ => "" end.
Definition get_bool (name : string) (v : values) : bool := match v !! name with Some (VBool b) => b | _ => false end.
Definition get_int (name : string) (v : values) : Z := match v !! name with Some (VInt z) => z | _ => 0 end.
Definition get_uint64 (name : string) (v : values) : Z := match v !! name with Some (VUint64 z) => z | _ => 0 end.
Definition get_float64 (name : string) (v : values) : float64 := match v !! name with Some (VFloat64 f) => f | _ => f64_zero end.
Definition get_duration (name : string) (v : values) : Z := match v !! name with Some (VDuration z) => z | _ => 0 end.

(** [Value.Set]. *)
Definition set_value (old : flag_value) (text : string) : result num_error flag_value :=
  match old with
  | VString _ => Ok (VString text)
  | VBool _ => VBool <$> ParseBool text
  | VInt _ => VInt <$> ParseInt text
  | VUint64 _ => VUint64 <$> ParseUint text
  | VFloat64 _ => VFloat64 <$> ParseFloat text
  | VDuration _ => match ParseDuration text with Some d => Ok (VDuration d) | None => Err ErrSyntax end
  end.

Inductive flag_error :=
| ErrHelp
| BadFlagSyntax (arg : string)
| NotDefined (name : string)
| NeedsArgument (name : string)
| InvalidValue (text name : string) (boolean : bool) (e : num_error).

Definition dash (c : Ascii.ascii) : bool := code c =? 45.
Definition equals (c : Ascii.ascii) : bool := code c =? 61.
(** [name=value]: the name, and the value if there is an equals sign. *)
Fixpoint split_equals (s : string) : string * option string :=
  match s with
  | EmptyString => (EmptyString, None)
  | String c s => if equals c then (EmptyString, Some s) else let '(n, v) := split_equals s in (String c n, v)
  end.
(** What an argument is: no flag, the terminator, a malformed flag, or a named
    one. *)
Inductive arg_kind := Positional | Terminator | Malformed | Named (name : string) (value : option string).
Definition flag_name (name : string) : arg_kind :=
  match name with
  | EmptyString => Malformed
  | String c _ => if dash c || equals c then Malformed else let '(n, v) := split_equals name in Named n v
  end.
Definition arg_kind_of (s : string) : arg_kind :=
  match s with
  | String a (String b rest) =>
      if negb (dash a) then Positional
      else if dash b then match rest with EmptyString => Terminator | _ => flag_name rest end
      else flag_name (String b rest)
  | _ => Positional
  end.

Definition assign (name text : string) (boolean : bool) (old : flag_value) (vals : values) : result flag_error values :=
  match set_value old text with
  | Ok v => Ok (<[name := v]> vals)
  | Err e => Err (InvalidValue text name boolean e)
  end.
(** [FlagSet.Parse]: [parseOne] until the first argument that is no flag. *)
Fixpoint Parse (vals : values) (args : list string) : result flag_error (values * list string) :=
  match args with
  | [] => Ok (vals, [])
  | s :: rest =>
      match arg_kind_of s with
      | Positional => Ok (vals, args)
      | Terminator => Ok (vals, rest)
      | Malformed => Err (BadFlagSyntax s)
      | Named name value =>
          match vals !! name with
          | None => Err (if bool_decide (name ∈ ["help"; "h"]%string) then ErrHelp else NotDefined name)
          | Some (VBool b) => vals ← assign name (default "true"%string value) true (VBool b) vals; Parse vals rest
          | Some old =>
              match value, rest with
              | Some text, _ => vals ← assign name text false old vals; Parse vals rest
              | None, text :: rest => vals ← assign name text false old vals; Parse vals rest
              | None, [] => Err (NeedsArgument name)
              end
          end
      end
  end.
(** [flag.ExitOnError]. *)
Definition flag_exit (e : flag_error) : Z := match e with ErrHelp => 0 | _ => 2 end.

(** ** PrintDefaults *)
Definition type_name (v : flag_value) : string :=
  match v with
  | VString _ => " string" | VBool _ => "" | VInt _ => " int" | VUint64 _ => " uint" | VFloat64 _ => " float" | VDuration _ => " duration"
  end.
Definition quote (s : string) : string := String (ch 34) (s +:+ String (ch 34) "").
(** Flags with names longer than one letter; the list is sorted by name. *)
Definition print_default (f : Flag) : string :=
  "  -" +:+ fl_name f +:+ type_name (fl_value f) +:+ String (ch 10) ("    " +:+ String (ch 9) (fl_usage f)) +:+
  (if bool_decide (fl_text f = ""%string) then ""
   else " (default " +:+ match fl_value f with VString _ => quote (fl_text f) | _ => fl_text f end +:+ ")") +:+ String (ch 10) "".
Fixpoint insert_flag (f : Flag) (l : list Flag) : list Flag :=
  match l with
  | [] => [f]
  | g :: l => if String.leb (fl_name f) (fl_name g) then f :: g :: l else g :: insert_flag f l
  end.
Definition PrintDefaults (formal : list Flag) : string := String.concat "" (print_default <$> foldr insert_flag [] formal).

(** ** What parsing does *)
Lemma parse_positional vals s rest : arg_kind_of s = Positional -> Parse vals (s :: rest) = Ok (vals, s :: rest).
Proof. intros E. cbn [Parse]. by rewrite E. Qed.
(** [--name=value]. *)
Definition assignment (name text : string) : string := "--" +:+ name +:+ "=" +:+ text.
Definition plain_name (name : string) : bool :=
  match name with EmptyString => false | String c _ => negb (dash c) end && forallb (fun c => negb (equals c)) (String.list_ascii_of_string name).
Lemma split_assignment name text : forallb (fun c => negb (equals c)) (String.list_ascii_of_string name) = true ->
  split_equals (name +:+ "=" +:+ text) = (name, Some text).
Proof.
  induction name as [|c name IH]; [done|]. cbn [String.list_ascii_of_string forallb]. intros [Hc Hn]%andb_true_iff.
  change (split_equals (String c (name +:+ "=" +:+ text)) = (String c name, Some text)). cbn [split_equals].
  apply negb_true_iff in Hc. by rewrite Hc, (IH Hn).
Qed.
Lemma kind_assignment name text : plain_name name = true -> arg_kind_of (assignment name text) = Named name (Some text).
Proof.
  unfold plain_name. destruct name as [|c name]; [done|]. intros [Hc Hn]%andb_true_iff.
  change (arg_kind_of (String (ch 45) (String (ch 45) (String c (name +:+ "=" +:+ text)))) = Named (String c name) (Some text)).
  cbn [arg_kind_of]. change (dash (ch 45)) with true. cbn [negb]. unfold flag_name.
  pose proof (split_assignment (String c name) text Hn) as Hs. change (String c name +:+ "=" +:+ text) with (String c (name +:+ "=" +:+ text)) in Hs.
  cbn [String.list_ascii_of_string forallb] in Hn. apply andb_true_iff in Hn as [He _].
  apply negb_true_iff in Hc, He. rewrite Hc, He. cbn [orb]. by rewrite Hs.
Qed.
(** A value given with an equals sign is the value set. *)
Lemma parse_assignment vals name text old v rest :
  plain_name name = true -> vals !! name = Some old -> set_value old text = Ok v ->
  Parse vals (assignment name text :: rest) = Parse (<[name := v]> vals) rest.
Proof.
  intros Hp Ho Hs. cbn [Parse]. rewrite kind_assignment, Ho by done.
  change (default "true"%string (Some text)) with text. unfold assign. by destruct old; rewrite Hs.
Qed.
