(* ===== verification/Budget.v ===== *)
(** * pkg/budget: integer microcents *)
From S2P Require Import Prelude GoFloat.
From stdpp Require Import pretty.
Open Scope Z_scope.

Definition MicrocentScale : Z := 1000000.

(** [FromFloat]. *)
Definition FromFloat (f : float64) : Z :=
  i64_of_f64 (f64_mul f (f64_of_Z MicrocentScale)).

(** [%0nd] of a possibly negative integer: the sign counts in the width. *)
Fixpoint pad_zeros (n : nat) (s : string) : string :=
  match n with O => s | S n => String.append "0" (pad_zeros n s) end.
Definition pad0 (width : nat) (z : Z) : string :=
  let digits := pretty (Z.abs z) in
  let w := if z <? 0 then (width - 1)%nat else width in
  let body := pad_zeros (w - String.length digits) digits in
  if z <? 0 then String.append "-" body else body.

(** The sign, whole part and fraction [Format] prints (int64 negation wraps;
    Go's division truncates). *)
Definition format_parts (microcents : Z) : string * Z * Z :=
  let '(sign, m) :=
    if microcents <? 0 then ("-"%string, i64 (- microcents)) else (""%string, microcents) in
  (sign, Z.quot m MicrocentScale, Z.rem m MicrocentScale).

Definition Format (microcents : Z) : string :=
  let '(sign, whole, frac) := format_parts microcents in
  (sign +:+ pretty whole +:+ "." +:+ pad0 6 frac)%string.

Example Format_one_half : Format 1500000 = "1.500000"%string.
Proof. vm_compute. reflexivity. Qed.
Example Format_negative : Format (-42) = "-0.000042"%string.
Proof. vm_compute. reflexivity. Qed.
(** The one value whose negation wraps is printed with two signs. *)
Example Format_min_int64 : Format (- 2 ^ 63) = "--9223372036854.-775808"%string.
Proof. vm_compute. reflexivity. Qed.
Example FromFloat_default : FromFloat (f64_of_Z 1) = MicrocentScale.
Proof. vm_compute. reflexivity. Qed.

(** Every other amount is printed from a sign and two non-negative parts that
    add up to it: nothing is lost at the sixth decimal. *)
Lemma format_parts_exact m sign whole frac :
  - 2 ^ 63 < m < 2 ^ 63 -> format_parts m = (sign, whole, frac) ->
  0 <= frac < MicrocentScale /\ 0 <= whole /\
  (if decide (sign = "-"%string) then - (whole * MicrocentScale + frac)
   else whole * MicrocentScale + frac) = m.
Proof.
  unfold format_parts, MicrocentScale. intros Hm.
  destruct (m <? 0) eqn:E; zb; intros [= <- <- <-]; simpl.
  - rewrite i64_id by (unfold is_i64; lia).
    rewrite Z.quot_div_nonneg, Z.rem_mod_nonneg by lia.
    pose proof (Z.div_mod (- m) 1000000 ltac:(lia)).
    pose proof (Z.mod_pos_bound (- m) 1000000 ltac:(lia)).
    pose proof (Z.div_pos (- m) 1000000 ltac:(lia) ltac:(lia)). lia.
  - rewrite Z.quot_div_nonneg, Z.rem_mod_nonneg by lia.
    pose proof (Z.div_mod m 1000000 ltac:(lia)).
    pose proof (Z.mod_pos_bound m 1000000 ltac:(lia)).
    pose proof (Z.div_pos m 1000000 ltac:(lia) ltac:(lia)). lia.
Qed.
