(* ===== verification/Authority.v ===== *)
(** * internal/authority: epochs, lease states and the lease state machine

    [epoch], [state] and the lease operations of authority.go and lease.go.
    A [time.Time] is the number of nanoseconds since Go's zero time, so that
    [IsZero] is equality with 0; each reading of the clock is an argument of
    the operation that makes it (an operation that reads it twice takes two). *)
From S2P Require Import Prelude GoFloat.
From stdpp Require Import pretty.
Open Scope Z_scope.

(** ** Time *)
Abbreviation time := Z.
Definition second : Z := 1000000000.
Definition IsZero (t : time) : bool := t =? 0.
Definition After (t u : time) : bool := u <? t.
Definition Add (t : time) (d : Z) : time := t + d.
(** [t.Sub(u)] saturates to the range of a [Duration]. *)
Definition Sub (t u : time) : Z := Z.max (- 2 ^ 63) (Z.min max_i64 (t - u)).
(** The Unix epoch, counted from the zero time. *)
Definition unix_epoch : time := 62135596800 * second.
Definition UnixNano (t : time) : Z := i64 (t - unix_epoch).

(** ** Epochs *)
Record Epoch := mkEpoch { MajorVersion : Z; LeaseGeneration : Z }.
#[export] Instance Epoch_eq_dec : EqDecision Epoch.
Proof. solve_decision. Defined.

Definition Supersedes (e other : Epoch) : bool :=
  if negb (MajorVersion e =? MajorVersion other)
  then MajorVersion other <? MajorVersion e
  else LeaseGeneration other <? LeaseGeneration e.

Definition Epoch_Equal (e other : Epoch) : bool :=
  (MajorVersion e =? MajorVersion other) && (LeaseGeneration e =? LeaseGeneration other).

Definition Epoch_String (e : Epoch) : string :=
  ("(" +:+ pretty (MajorVersion e) +:+ "," +:+ pretty (LeaseGeneration e) +:+ ")")%string.

(** ** Authority states ([type State int]) *)
Inductive State :=
| StateActiveOwner
| StateHandoffInitiated
| StateHandoffPending
| StateRetired
| StateRecoveryRequired
| StateOther (n : Z).
#[export] Instance State_eq_dec : EqDecision State.
Proof. solve_decision. Defined.

Definition State_String (s : State) : string :=
  match s with
  | StateActiveOwner => "ACTIVE_OWNER"
  | StateHandoffInitiated => "HANDOFF_INITIATED"
  | StateHandoffPending => "HANDOFF_PENDING"
  | StateRetired => "RETIRED"
  | StateRecoveryRequired => "RECOVERY_REQUIRED"
  | StateOther n => "UNKNOWN(" +:+ pretty n +:+ ")"
  end%string.

Definition CanTick (s : State) : bool := bool_decide (s = StateActiveOwner).

(** ** Lease configuration *)
Record LeaseConfig := mkLeaseConfig {
  Duration : Z; RenewalWindow : float64; GracePeriod : Z }.

Definition DefaultLeaseConfig : LeaseConfig :=
  mkLeaseConfig (60 * second) (f64_div f64_one (f64_of_Z 2)) (10 * second).

Inductive config_error := ErrDuration (d : Z) | ErrRenewalWindow (w : float64) | ErrGracePeriod (g : Z).

Definition LeaseConfig_Validate (c : LeaseConfig) : result config_error unit :=
  if Duration c <=? 0 then Err (ErrDuration (Duration c))
  else if f64_leb (RenewalWindow c) f64_zero || f64_leb f64_one (RenewalWindow c)
  then Err (ErrRenewalWindow (RenewalWindow c))
  else if GracePeriod c <? 0 then Err (ErrGracePeriod (GracePeriod c))
  else Ok tt.

(** ** Leases *)
Record Lease := mkLease {
  lease_epoch : Epoch; Expiry : time; lease_state : State; config : LeaseConfig }.

Definition with_epoch (e : Epoch) (l : Lease) : Lease :=
  mkLease e (Expiry l) (lease_state l) (config l).
Definition with_expiry (t : time) (l : Lease) : Lease :=
  mkLease (lease_epoch l) t (lease_state l) (config l).
Definition with_state (s : State) (l : Lease) : Lease :=
  mkLease (lease_epoch l) (Expiry l) s (config l).

Definition NewLease (cfg : LeaseConfig) (now : time) : Lease :=
  mkLease (mkEpoch 0 0) (Add now (Duration cfg)) StateActiveOwner cfg.
Definition NewLeaseFromMigration (sourceMajor : Z) (cfg : LeaseConfig) (now : time) : Lease :=
  mkLease (mkEpoch (u64 (sourceMajor + 1)) 0) (Add now (Duration cfg)) StateActiveOwner cfg.
Definition NewLeaseFromCheckpoint (epoch : Epoch) (cfg : LeaseConfig) (now : time) : Lease :=
  mkLease epoch (Add now (Duration cfg)) StateActiveOwner cfg.

Definition IsExpired (now : time) (l : Lease) : bool :=
  negb (IsZero (Expiry l)) && After now (Expiry l).
Definition IsExpiredWithGrace (now : time) (l : Lease) : bool :=
  negb (IsZero (Expiry l)) && After now (Add (Expiry l) (GracePeriod (config l))).
Definition NeedsRenewal (now : time) (l : Lease) : bool :=
  if IsZero (Expiry l) then false
  else
    let remaining := Sub (Expiry l) now in
    let threshold := i64_of_f64 (f64_mul (f64_of_Z (Duration (config l))) (RenewalWindow (config l))) in
    remaining <=? threshold.

Inductive lease_error :=
| ErrCannotRenewState (s : State)
| ErrRenewExpired
| ErrTickForbidden (s : State)
| ErrTickExpired
| ErrCannotHandoff (s : State)
| ErrCannotRetire (s : State)
| ErrCannotRevert (s : State)
| ErrCannotRecover (s : State).

(** Every operation returns its error, if any, and the lease it leaves. *)
Definition Renew (now1 now2 : time) (l : Lease) : result lease_error unit * Lease :=
  if decide (lease_state l <> StateActiveOwner) then (Err (ErrCannotRenewState (lease_state l)), l)
  else if IsExpiredWithGrace now1 l then (Err ErrRenewExpired, l)
  else
    let e := lease_epoch l in
    (Ok tt, with_expiry (Add now2 (Duration (config l)))
              (with_epoch (mkEpoch (MajorVersion e) (u64 (LeaseGeneration e + 1))) l)).

Definition ValidateForTick (now : time) (l : Lease) : result lease_error unit * Lease :=
  if decide (lease_state l <> StateActiveOwner) then (Err (ErrTickForbidden (lease_state l)), l)
  else if IsExpiredWithGrace now l then (Err ErrTickExpired, with_state StateRecoveryRequired l)
  else (Ok tt, l).

Definition TransitionToHandoff (l : Lease) : result lease_error unit * Lease :=
  if decide (lease_state l <> StateActiveOwner) then (Err (ErrCannotHandoff (lease_state l)), l)
  else (Ok tt, with_state StateHandoffInitiated l).

Definition TransitionToRetired (l : Lease) : result lease_error unit * Lease :=
  if decide (lease_state l <> StateHandoffInitiated /\ lease_state l <> StateHandoffPending)
  then (Err (ErrCannotRetire (lease_state l)), l)
  else (Ok tt, with_state StateRetired l).

Definition RevertHandoff (l : Lease) : result lease_error unit * Lease :=
  if decide (lease_state l <> StateHandoffInitiated) then (Err (ErrCannotRevert (lease_state l)), l)
  else (Ok tt, with_state StateActiveOwner l).

Definition Recover (now : time) (l : Lease) : result lease_error unit * Lease :=
  if decide (lease_state l <> StateRecoveryRequired) then (Err (ErrCannotRecover (lease_state l)), l)
  else
    (Ok tt, with_state StateActiveOwner
              (with_expiry (Add now (Duration (config l)))
                 (with_epoch (mkEpoch (u64 (MajorVersion (lease_epoch l) + 1)) 0) l))).

Definition GetMajorVersion (l : Lease) : Z := MajorVersion (lease_epoch l).
Definition GetLeaseGeneration (l : Lease) : Z := LeaseGeneration (lease_epoch l).
Definition ExpiryUnixNano (l : Lease) : Z := UnixNano (Expiry l).

(** ** The state machine: one constructor per operation of the lease, with the
    migration service's direct write of RECOVERY_REQUIRED. *)
Inductive lease_op :=
| OpRenew (now1 now2 : time)
| OpValidateForTick (now : time)
| OpTransitionToHandoff
| OpTransitionToRetired
| OpRevertHandoff
| OpRecover (now : time).

Definition apply_op (op : lease_op) (l : Lease) : result lease_error unit * Lease :=
  match op with
  | OpRenew n1 n2 => Renew n1 n2 l
  | OpValidateForTick n => ValidateForTick n l
  | OpTransitionToHandoff => TransitionToHandoff l
  | OpTransitionToRetired => TransitionToRetired l
  | OpRevertHandoff => RevertHandoff l
  | OpRecover n => Recover n l
  end.

Definition run_ops (ops : list lease_op) (l : Lease) : Lease :=
  fold_left (fun l op => snd (apply_op op l)) ops l.

(** ** Epochs are totally ordered *)
Lemma Supersedes_spec e f :
  Supersedes e f = true <->
  MajorVersion f < MajorVersion e \/
  (MajorVersion f = MajorVersion e /\ LeaseGeneration f < LeaseGeneration e).
Proof.
  unfold Supersedes.
  destruct (Z.eqb_spec (MajorVersion e) (MajorVersion f)); simpl; rewrite Z.ltb_lt; lia.
Qed.

Lemma Epoch_Equal_spec e f : Epoch_Equal e f = true <-> e = f.
Proof.
  unfold Epoch_Equal. rewrite andb_true_iff, !Z.eqb_eq.
  destruct e, f; simpl. split; [intros [-> ->] | intros [= -> ->]]; done.
Qed.

Lemma Supersedes_trans e f g :
  Supersedes e f = true -> Supersedes f g = true -> Supersedes e g = true.
Proof. rewrite !Supersedes_spec. lia. Qed.

(** [Supersedes] is a strict total order on epochs: of two epochs exactly
    one of "the first supersedes", "they are equal" and "the second
    supersedes" holds, and supersession is transitive. *)
Theorem epochs_totally_ordered (e f : Epoch) :
  (Supersedes e f = true /\ e <> f /\ Supersedes f e = false) \/
  (e = f /\ Supersedes e f = false /\ Supersedes f e = false) \/
  (Supersedes f e = true /\ e <> f /\ Supersedes e f = false).
Proof.
  destruct (Supersedes e f) eqn:E1, (Supersedes f e) eqn:E2.
  - rewrite Supersedes_spec in *. lia.
  - left. split_and!; [done| |done]. intros ->. by rewrite E1 in E2.
  - right; right. split_and!; [done| |done]. intros ->. by rewrite E1 in E2.
  - right; left. split_and!; [|done|done].
    apply not_true_iff_false in E1, E2. rewrite Supersedes_spec in *.
    destruct e, f; simpl in *. f_equal; lia.
Qed.

(** ** Lease operations *)
Ltac lease_cases :=
  unfold apply_op, Renew, ValidateForTick, TransitionToHandoff, TransitionToRetired,
    RevertHandoff, Recover in *;
  repeat case_decide; try case_match; simplify_eq/=.

(** The transitions of AUTHORITY_STATE_MACHINE.md, section 3, as seen by the
    node that holds the lease. *)
Inductive documented_edge : State -> State -> Prop :=
| doc_initiate : documented_edge StateActiveOwner StateHandoffInitiated
| doc_relinquish : documented_edge StateHandoffInitiated StateHandoffPending
| doc_assume : documented_edge StateHandoffPending StateActiveOwner
| doc_acknowledge : documented_edge StateHandoffPending StateRetired
| doc_terminate : documented_edge StateActiveOwner StateRetired
| doc_ambiguous s : documented_edge s StateRecoveryRequired
| doc_recovery : documented_edge StateRecoveryRequired StateActiveOwner.

(** The two further transitions the operations make. *)
Inductive extra_edge : State -> State -> Prop :=
| extra_revert : extra_edge StateHandoffInitiated StateActiveOwner
| extra_retire : extra_edge StateHandoffInitiated StateRetired.

Lemma extra_not_documented s s' : extra_edge s s' -> ~ documented_edge s s'.
Proof. destruct 1; inversion 1. Qed.

(** C35: every operation of a lease either leaves the authority state alone or
    follows the documented transition table, with two exceptions, both out of
    HANDOFF_INITIATED: reverting to ACTIVE_OWNER and retiring without passing
    through HANDOFF_PENDING; a failed operation only ever enters
    RECOVERY_REQUIRED. *)
Theorem lease_ops_refine_table (op : lease_op) (l : Lease) :
  let l' := snd (apply_op op l) in
  (lease_state l' = lease_state l \/ documented_edge (lease_state l) (lease_state l') \/
   extra_edge (lease_state l) (lease_state l')) /\
  (is_ok (fst (apply_op op l)) = false ->
   l' = l \/ l' = with_state StateRecoveryRequired l).
Proof.
  destruct op; simpl; lease_cases; (split; [|by auto]); destruct l as [? ? [] ?]; simpl in *;
    try tauto; eauto using documented_edge, extra_edge.
  all: exfalso; naive_solver.
Qed.

(** a tick is permitted exactly when this node is ACTIVE_OWNER and the
    lease (with its grace period) has not run out; an ACTIVE_OWNER whose lease
    has run out enters RECOVERY_REQUIRED, and in every other case the lease is
    untouched. *)
Theorem validate_for_tick_spec (now : time) (l : Lease) :
  (is_ok (fst (ValidateForTick now l)) = true <->
   CanTick (lease_state l) = true /\
   (Expiry l = 0 \/ now <= Expiry l + GracePeriod (config l))) /\
  snd (ValidateForTick now l) =
    (if CanTick (lease_state l) && negb (is_ok (fst (ValidateForTick now l)))
     then with_state StateRecoveryRequired l else l).
Proof.
  unfold ValidateForTick, CanTick, IsExpiredWithGrace, IsZero, After, Add.
  destruct (decide (lease_state l <> StateActiveOwner)) as [Hs|Hs].
  - rewrite bool_decide_eq_false_2 by done. simpl. split; [|done]. split; [done|]. by intros [].
  - apply dec_stable in Hs. rewrite bool_decide_eq_true_2 by done. simpl.
    destruct (Z.eqb_spec (Expiry l) 0); simpl; [split; [|done]; split; auto|].
    destruct (Z.ltb_spec (Expiry l + GracePeriod (config l)) now); simpl; split; try done; split;
      try done; try tauto; lia.
Qed.

(** [counters_below n e]: at least [n] increments of either counter fit. *)
Definition counters_below (n : Z) (e : Epoch) : Prop :=
  0 <= MajorVersion e /\ MajorVersion e + n < 2 ^ 64 /\
  0 <= LeaseGeneration e /\ LeaseGeneration e + n < 2 ^ 64.

Lemma apply_op_epoch op l n :
  counters_below (1 + n) (lease_epoch l) -> 0 <= n ->
  let e' := lease_epoch (snd (apply_op op l)) in
  (e' = lease_epoch l \/ Supersedes e' (lease_epoch l) = true) /\ counters_below n e'.
Proof.
  unfold counters_below. intros (?&?&?&?) ?. rewrite Supersedes_spec.
  destruct op; simpl; lease_cases;
    rewrite ?u64_id by (unfold is_u64; lia);
    (split; [first [left; reflexivity | right; simpl; lia] | split_and!; simpl; lia]).
Qed.

Lemma run_ops_epoch ops : forall l,
  counters_below (blen ops) (lease_epoch l) ->
  lease_epoch (run_ops ops l) = lease_epoch l \/
  Supersedes (lease_epoch (run_ops ops l)) (lease_epoch l) = true.
Proof.
  induction ops as [|op ops IH]; intros l Hc; [by left|].
  rewrite blen_cons in Hc. destruct (apply_op_epoch op l _ Hc (blen_nonneg _)) as [H1 H2].
  change (run_ops (op :: ops) l) with (run_ops ops (snd (apply_op op l))).
  destruct (IH _ H2) as [->|H3]; [done|].
  destruct H1 as [H1|H1]; right; [by rewrite <- H1|]. eapply Supersedes_trans; eauto.
Qed.

(** along any sequence of lease operations the epoch never goes back: it
    is the initial one or supersedes it (as long as the 64-bit counters have
    room for the operations performed). *)
Theorem epoch_never_regresses (ops : list lease_op) (l : Lease) :
  counters_below (blen ops) (lease_epoch l) ->
  lease_epoch (run_ops ops l) = lease_epoch l \/
  Supersedes (lease_epoch (run_ops ops l)) (lease_epoch l) = true.
Proof. apply run_ops_epoch. Qed.

Definition example_lease (s : State) : Lease := with_state s (NewLease DefaultLeaseConfig 100).

Lemma epoch_never_regresses_witness :
  let ops := [OpRenew 5 6; OpTransitionToHandoff; OpRevertHandoff; OpRenew 7 8] in
  lease_epoch (run_ops ops (example_lease StateActiveOwner)) = mkEpoch 0 2 /\
  (lease_epoch (run_ops ops (example_lease StateActiveOwner)) = mkEpoch 0 0 \/
   Supersedes (lease_epoch (run_ops ops (example_lease StateActiveOwner))) (mkEpoch 0 0) = true).
Proof.
  split; [vm_compute; reflexivity|].
  apply (epoch_never_regresses _ (example_lease StateActiveOwner)).
  unfold counters_below; simpl; unfold blen; simpl; lia.
Defined.

Lemma run_ops_app ops ops' l : run_ops (ops ++ ops') l = run_ops ops' (run_ops ops l).
Proof. apply fold_left_app. Qed.

Lemma apply_op_retired op l : lease_state l = StateRetired -> snd (apply_op op l) = l.
Proof. intros H. destruct op; simpl; lease_cases; intuition congruence. Qed.

(** RETIRED is terminal: whatever is done with a retired lease, it stays
    as it is and never permits a tick again. *)
Theorem retired_is_terminal (ops : list lease_op) (l : Lease) :
  lease_state l = StateRetired ->
  run_ops ops l = l /\ CanTick (lease_state (run_ops ops l)) = false.
Proof.
  intros H. assert (run_ops ops l = l) as ->.
  { induction ops as [|op ops IH]; [done|]. simpl. by rewrite (apply_op_retired op l H). }
  by rewrite H.
Qed.

Lemma retired_is_terminal_witness :
  let l := example_lease StateRetired in
  run_ops [OpRecover 3; OpRenew 1 2; OpRevertHandoff] l = l /\
  CanTick (lease_state (run_ops [OpRecover 3; OpRenew 1 2; OpRevertHandoff] l)) = false.
Proof. apply (retired_is_terminal _ (example_lease StateRetired)). reflexivity. Defined.

Lemma apply_op_recovery op l :
  lease_state l = StateRecoveryRequired ->
  snd (apply_op op l) = l \/ exists now, op = OpRecover now.
Proof. intros H. destruct op; simpl; eauto; left; lease_cases; intuition congruence. Qed.

Lemma run_ops_major ops : forall l,
  counters_below (blen ops) (lease_epoch l) ->
  MajorVersion (lease_epoch l) <= MajorVersion (lease_epoch (run_ops ops l)).
Proof.
  intros l Hc. destruct (run_ops_epoch ops l Hc) as [->|H]; [done|].
  apply Supersedes_spec in H. lia.
Qed.

(** out of RECOVERY_REQUIRED authority comes back only through [Recover]:
    if some sequence of operations lets the node tick again, it contains a
    recovery and the epoch's major version has strictly advanced. *)
Theorem recovery_advances_major (ops : list lease_op) (l : Lease) :
  lease_state l = StateRecoveryRequired ->
  counters_below (blen ops) (lease_epoch l) ->
  CanTick (lease_state (run_ops ops l)) = true ->
  (exists now, OpRecover now ∈ ops) /\
  MajorVersion (lease_epoch l) < MajorVersion (lease_epoch (run_ops ops l)).
Proof.
  revert l. induction ops as [|op ops IH]; intros l Hs Hc Ht.
  { simpl in Ht. by rewrite Hs in Ht. }
  rewrite blen_cons in Hc. simpl in Ht.
  destruct (apply_op_recovery op l Hs) as [E|[now ->]].
  - simpl. rewrite E in *. destruct (IH l Hs) as [[n Hn] ?]; [|done|].
    { unfold counters_below in *. lia. }
    split; [exists n; by right | done].
  - split; [exists now; by left|]. pose proof (apply_op_epoch (OpRecover now) l _ Hc (blen_nonneg _)) as [_ Hc'].
    pose proof (run_ops_major ops _ Hc') as Hm. simpl in *.
    assert (MajorVersion (lease_epoch l) < MajorVersion (lease_epoch (snd (Recover now l)))); [|lia].
    unfold Recover. rewrite decide_False by (intros []; done). simpl.
    unfold counters_below in Hc. pose proof (blen_nonneg ops). rewrite u64_id; unfold is_u64; lia.
Qed.

Lemma recovery_advances_major_witness :
  let l := example_lease StateRecoveryRequired in
  let ops := [OpRenew 1 2; OpRecover 3; OpRenew 4 5] in
  (exists now, OpRecover now ∈ ops) /\ 0 < MajorVersion (lease_epoch (run_ops ops l)).
Proof.
  apply (recovery_advances_major [OpRenew 1 2; OpRecover 3; OpRenew 4 5] (example_lease StateRecoveryRequired)).
  - reflexivity.
  - unfold counters_below; simpl; unfold blen; simpl; lia.
  - vm_compute. reflexivity.
Defined.

(** After a successful renewal the lease is valid for a full duration from the
    second clock reading, one generation later in the same major version. *)
Lemma Renew_spec now1 now2 l l' :
  Renew now1 now2 l = (Ok tt, l') ->
  lease_state l = StateActiveOwner /\ IsExpiredWithGrace now1 l = false /\
  lease_state l' = StateActiveOwner /\ config l' = config l /\
  Expiry l' = now2 + Duration (config l) /\
  lease_epoch l' = mkEpoch (MajorVersion (lease_epoch l)) (u64 (LeaseGeneration (lease_epoch l) + 1)).
Proof.
  unfold Renew. repeat case_decide; [done|]. destruct (IsExpiredWithGrace _ _) eqn:?; [done|].
  by intros [= <-].
Qed.

Example default_config_valid : LeaseConfig_Validate DefaultLeaseConfig = Ok tt.
Proof. vm_compute. reflexivity. Qed.
(** With the default configuration renewal starts half way through the lease. *)
Example default_renewal_point :
  let l := NewLease DefaultLeaseConfig 1 in
  NeedsRenewal (30 * second) l = false /\ NeedsRenewal (30 * second + 1) l = true.
Proof. vm_compute. split; reflexivity. Qed.
