(* ===== verification/Crypto.v ===== *)
(** * The cryptographic primitives the runtime calls

    [crypto/sha256] and [crypto/ed25519] are parameters of the model: a class
    of operations with the laws the sources rely on (output sizes, and that a
    signature made with a generated key verifies under its public half).  No
    law says that hashes are collision free or signatures unforgeable; the
    theorems that need it say so, or return the collision.  [toy_crypto] is an
    executable instance for the witnesses. *)
From S2P Require Import Prelude.

Definition PublicKeySize : Z := 32.
Definition PrivateKeySize : Z := 64.
Definition SignatureSize : Z := 64.

Class Crypto := {
  sha256 : bytes -> bytes;
  (** [ed25519.NewKeyFromSeed], which [GenerateKey] applies to random bytes. *)
  ed_new_key : bytes -> bytes;
  (** [priv.Public()]. *)
  ed_public : bytes -> bytes;
  ed_sign : bytes -> bytes -> bytes;
  ed_verify : bytes -> bytes -> bytes -> bool;
}.

Class CryptoLaws (C : Crypto) : Prop := {
  sha256_size m : blen (sha256 m) = 32;
  ed_new_key_size seed : blen seed = 32 -> blen (ed_new_key seed) = PrivateKeySize;
  ed_public_size k : blen k = PrivateKeySize -> blen (ed_public k) = PublicKeySize;
  ed_sign_size k m : blen k = PrivateKeySize -> blen (ed_sign k m) = SignatureSize;
  ed_verify_sign seed m : blen seed = 32 ->
    ed_verify (ed_public (ed_new_key seed)) m (ed_sign (ed_new_key seed) m) = true;
}.

(** Keys produced by key generation. *)
Definition generated_key `{Crypto} (k : bytes) : Prop :=
  exists seed, blen seed = 32 /\ k = ed_new_key seed.

Lemma generated_key_size `{CryptoLaws} k : generated_key k -> blen k = PrivateKeySize.
Proof. intros (seed & ? & ->). by apply ed_new_key_size. Qed.
Lemma generated_key_verify `{CryptoLaws} k m :
  generated_key k -> ed_verify (ed_public k) m (ed_sign k m) = true.
Proof. intros (seed & ? & ->). by apply ed_verify_sign. Qed.
#[export] Hint Resolve generated_key_size generated_key_verify : igor.
#[export] Hint Rewrite @sha256_size : igor_len.

(** ** An executable instance (a polynomial checksum, no security) *)
Definition toy_digest (n : nat) (m : bytes) : bytes :=
  le_bytes n (fold_left (fun h b => (h * 257 + Z_of_byte b + 1) mod 2 ^ 256) m 7).

#[export] Instance toy_crypto : Crypto := {|
  sha256 := toy_digest 32;
  ed_new_key seed := seed ++ seed;
  ed_public k := drop 32 k;
  ed_sign k m := toy_digest 64 (drop 32 k ++ m);
  ed_verify p m s := bool_decide (s = toy_digest 64 (p ++ m));
|}.

Lemma blen_toy_digest n m : blen (toy_digest n m) = Z.of_nat n.
Proof. unfold blen, toy_digest. by rewrite length_le_bytes. Qed.

#[export] Instance toy_crypto_laws : CryptoLaws toy_crypto.
Proof.
  split; simpl; unfold PrivateKeySize, PublicKeySize, SignatureSize; intros.
  - apply blen_toy_digest.
  - rewrite blen_app. lia.
  - unfold blen in *. rewrite length_drop. lia.
  - apply blen_toy_digest.
  - by apply bool_decide_eq_true_2.
Qed.
