(* ===== verification/EventLog.v ===== *)
(** * internal/eventlog: per-tick observation recording

    The payload of an entry is a slice of the tick's arena while it fits, and
    a heap copy afterwards.  The model keeps the arena, the offset and the
    references, so that [log_refines] says that no later record overwrites
    an earlier payload.  The mutex is not modelled: every operation runs under
    it. *)
From S2P Require Import Prelude.

(** ** Hostcall identifiers *)
Definition HostcallID := Z.
Definition ClockNow : HostcallID := 1.
Definition RandBytes : HostcallID := 2.
Definition LogEmit : HostcallID := 3.
Definition WalletBalance : HostcallID := 4.
Definition WalletReceiptCount : HostcallID := 5.
Definition WalletReceipt : HostcallID := 6.
Definition NodePrice : HostcallID := 7.
Definition HTTPRequest : HostcallID := 8.
Definition WalletPay : HostcallID := 9.

(** An entry as its readers see it. *)
Record Entry := mkEntry { entry_id : HostcallID; Payload : bytes }.
#[export] Instance Entry_eq_dec : EqDecision Entry.
Proof. solve_decision. Defined.

(** ** Tick logs and their arena *)
Inductive payload_ref := InArena (off len : Z) | OnHeap (b : bytes).
Record entry_ref := mkRef { ref_id : HostcallID; ref : payload_ref }.

Record TickLog := mkTickLog {
  TickNumber : Z; Entries : list entry_ref; arena : bytes; offset : Z }.

Definition defaultArenaSize : nat := 4096.
Definition DefaultMaxTicks : Z := 1024.

Definition deref (a : bytes) (r : payload_ref) : bytes :=
  match r with InArena off len => slice off (off + len) a | OnHeap b => b end.
Definition read_entry (a : bytes) (e : entry_ref) : Entry := mkEntry (ref_id e) (deref a (ref e)).
(** The entries of a tick log, with their payloads read from the arena. *)
Definition entries (t : TickLog) : list Entry := read_entry (arena t) <$> Entries t.

(** [copy(arena[off:off+len(p)], p)]. *)
Definition arena_write (off : Z) (p a : bytes) : bytes :=
  take (Z.to_nat off) a ++ p ++ drop (Z.to_nat (off + blen p)) a.

Definition record_tick (id : HostcallID) (payload : bytes) (t : TickLog) : TickLog :=
  let needed := blen payload in
  if offset t + needed <=? blen (arena t) then
    mkTickLog (TickNumber t) (Entries t ++ [mkRef id (InArena (offset t) needed)])
      (arena_write (offset t) payload (arena t)) (offset t + needed)
  else
    mkTickLog (TickNumber t) (Entries t ++ [mkRef id (OnHeap payload)]) (arena t) (offset t).

(** ** The event log *)
Record EventLog := mkEventLog {
  current : option TickLog; history : list TickLog; maxTicks : Z }.

Definition NewEventLog (max : Z) : EventLog := mkEventLog None [] max.

Definition BeginTick (n : Z) (l : EventLog) : EventLog :=
  mkEventLog (Some (mkTickLog n [] (zeros defaultArenaSize) 0)) (history l) (maxTicks l).

Definition Record_ (id : HostcallID) (payload : bytes) (l : EventLog) : EventLog :=
  match current l with
  | None => l
  | Some t => mkEventLog (Some (record_tick id payload t)) (history l) (maxTicks l)
  end.

Definition SealTick (l : EventLog) : option TickLog * EventLog :=
  match current l with
  | None => (None, l)
  | Some sealed =>
      let h := history l ++ [sealed] in
      let h := if (0 <? maxTicks l) && (maxTicks l <? blen h)
               then drop (Z.to_nat (blen h - maxTicks l)) h else h in
      (Some sealed, mkEventLog None h (maxTicks l))
  end.

Definition CurrentEntries (l : EventLog) : list Entry :=
  match current l with None => [] | Some t => entries t end.
Definition History (l : EventLog) : list TickLog := history l.

(** ** Arena discipline *)
Definition ref_ok (t : TickLog) (e : entry_ref) : Prop :=
  match ref e with InArena off len => 0 <= off /\ 0 <= len /\ off + len <= offset t | OnHeap _ => True end.
Record tick_ok (t : TickLog) : Prop := {
  tick_offset : 0 <= offset t <= blen (arena t);
  tick_refs : Forall (ref_ok t) (Entries t);
}.

Lemma slice_arena_write_before lo hi off p a :
  0 <= lo <= hi -> hi <= off -> off + blen p <= blen a ->
  slice lo hi (arena_write off p a) = slice lo hi a.
Proof.
  unfold slice, arena_write, blen. intros.
  rewrite drop_app_le by (rewrite length_take; lia).
  rewrite take_app_le by (rewrite length_drop, length_take; lia).
  rewrite skipn_firstn_comm, take_take. f_equal. lia.
Qed.

Lemma slice_arena_write_at off p a :
  0 <= off -> off + blen p <= blen a -> slice off (off + blen p) (arena_write off p a) = p.
Proof.
  intros ? Hl. unfold arena_write. apply slice_app_mid; unfold blen in *;
    rewrite length_take; lia.
Qed.

Lemma blen_arena_write off p a :
  0 <= off -> off + blen p <= blen a -> blen (arena_write off p a) = blen a.
Proof.
  intros. unfold arena_write, blen in *. rewrite !length_app, length_take, length_drop. lia.
Qed.

Lemma record_tick_ok id p t : tick_ok t -> tick_ok (record_tick id p t).
Proof.
  intros [Ho Hr]. unfold record_tick. pose proof (blen_nonneg p).
  destruct (Z.leb_spec (offset t + blen p) (blen (arena t))); split; simpl.
  - rewrite blen_arena_write; lia.
  - apply Forall_app. split.
    + eapply Forall_impl; [exact Hr|]. intros [? []]; unfold ref_ok; simpl; lia.
    + constructor; [|done]. unfold ref_ok; simpl. lia.
  - lia.
  - apply Forall_app. split; [|by repeat constructor].
    eapply Forall_impl; [exact Hr|]. intros [? []]; done.
Qed.

Lemma entries_record_tick id p t :
  tick_ok t -> entries (record_tick id p t) = entries t ++ [mkEntry id p].
Proof.
  intros [Ho Hr]. unfold record_tick, entries. pose proof (blen_nonneg p).
  destruct (Z.leb_spec (offset t + blen p) (blen (arena t))); simpl;
    rewrite fmap_app; simpl; f_equal.
  - apply list_fmap_ext. intros i [id' []] Hi; unfold read_entry; simpl; f_equal.
    apply (Forall_lookup_1 _ _ _ _ Hr) in Hi. unfold ref_ok in Hi; simpl in Hi.
    apply slice_arena_write_before; lia.
  - unfold read_entry; simpl. rewrite slice_arena_write_at by lia. done.
Qed.

(** ** What the log promises *)
Definition log_ok (l : EventLog) : Prop :=
  (forall t, current l = Some t -> tick_ok t) /\ Forall tick_ok (history l).

Lemma new_tick_ok n : tick_ok (mkTickLog n [] (zeros defaultArenaSize) 0).
Proof. split; simpl; [|constructor]. rewrite blen_zeros. lia. Qed.

(** The observable content of a log: the entries of the tick in progress and
    those of the sealed ticks. *)
Record log_view := mkView {
  v_current : option (Z * list Entry); v_history : list (Z * list Entry); v_max : Z }.
Definition view_tick (t : TickLog) : Z * list Entry := (TickNumber t, entries t).
Definition view (l : EventLog) : log_view :=
  mkView (view_tick <$> current l) (view_tick <$> history l) (maxTicks l).

(** The specification: entries are appended, sealed ticks are appended to a
    history of which the last [max] are kept. *)
Inductive log_op := OBegin (n : Z) | ORecord (id : HostcallID) (p : bytes) | OSeal.
Definition keep_last {A} (n : Z) (h : list A) : list A :=
  if 0 <? n then drop (length h - Z.to_nat n) h else h.
Definition spec_op (o : log_op) (v : log_view) : log_view :=
  match o with
  | OBegin n => mkView (Some (n, [])) (v_history v) (v_max v)
  | ORecord id p =>
      mkView ((fun te => (te.1, te.2 ++ [mkEntry id p])) <$> v_current v) (v_history v) (v_max v)
  | OSeal =>
      match v_current v with
      | None => v
      | Some te => mkView None (keep_last (v_max v) (v_history v ++ [te])) (v_max v)
      end
  end.
Definition do_op (o : log_op) (l : EventLog) : EventLog :=
  match o with OBegin n => BeginTick n l | ORecord id p => Record_ id p l | OSeal => snd (SealTick l) end.
Definition do_ops (os : list log_op) (l : EventLog) : EventLog := fold_left (fun l o => do_op o l) os l.
Definition spec_ops (os : list log_op) (v : log_view) : log_view := fold_left (fun v o => spec_op o v) os v.

Lemma seal_history {A} (n : Z) (h : list A) :
  (if (0 <? n) && (n <? blen h) then drop (Z.to_nat (blen h - n)) h else h) = keep_last n h.
Proof.
  unfold keep_last, blen. destruct (Z.ltb_spec 0 n); simpl; [|done].
  destruct (Z.ltb_spec n (Z.of_nat (length h))).
  - f_equal. lia.
  - by replace (length h - Z.to_nat n)%nat with 0%nat by lia.
Qed.

Lemma fmap_keep_last {A B} (f : A -> B) n h : f <$> keep_last n h = keep_last n (f <$> h).
Proof.
  unfold keep_last. destruct (0 <? n); [|done].
  by rewrite length_fmap, fmap_drop.
Qed.

Lemma log_step o l : log_ok l -> log_ok (do_op o l) /\ view (do_op o l) = spec_op o (view l).
Proof.
  intros Hl. pose proof Hl as [Hc Hh].
  destruct o as [n|id p|], l as [[t|] h max]; simpl in *; try (split; done).
  - split; [|done]. split; simpl; [|done]. intros ? [= <-]. apply new_tick_ok.
  - split; [|done]. split; simpl; [|done]. intros ? [= <-]. apply new_tick_ok.
  - specialize (Hc t eq_refl). split.
    + split; simpl; [|done]. intros ? [= <-]. by apply record_tick_ok.
    + unfold view, view_tick; simpl. rewrite entries_record_tick by done.
      unfold record_tick. by destruct (_ <=? _).
  - unfold SealTick, view; simpl. rewrite seal_history. split.
    + split; simpl; [done|]. unfold keep_last. specialize (Hc t eq_refl).
      assert (Forall tick_ok (h ++ [t])) by (apply Forall_app; auto).
      destruct (0 <? max); [by apply Forall_drop|done].
    + by rewrite fmap_keep_last, fmap_app.
Qed.

Lemma log_refines os : forall l, log_ok l -> view (do_ops os l) = spec_ops os (view l).
Proof.
  induction os as [|o os IH]; intros l Hl; [done|]. simpl.
  destruct (log_step o l Hl) as [? <-]. by apply IH.
Qed.

Lemma new_log_ok max : log_ok (NewEventLog max).
Proof. split; simpl; [done|constructor]. Qed.

(** C39: the event log implements its specification for every sequence of
    begin, record and seal operations: each recorded payload reads back
    unchanged however many records follow it (arena slices never overlap and
    the heap fallback loses nothing), recording outside a tick does nothing,
    and the history is the last [maxTicks] sealed ticks, oldest first. *)
Theorem event_log_refines (max : Z) (os : list log_op) :
  view (do_ops os (NewEventLog max)) = spec_ops os (mkView None [] max).
Proof.
  apply (log_refines os (NewEventLog max)), new_log_ok.
Qed.

Lemma spec_history_bounded o v :
  0 < v_max v -> blen (v_history v) <= v_max v ->
  v_max (spec_op o v) = v_max v /\ blen (v_history (spec_op o v)) <= v_max v.
Proof.
  intros Hm Hb. destruct o; simpl; try done. destruct (v_current v); simpl; [|done].
  split; [done|]. unfold keep_last, blen in *. destruct (Z.ltb_spec 0 (v_max v)); [|lia].
  rewrite length_drop. lia.
Qed.

(** The retained history never exceeds the bound. *)
Lemma history_bounded max os : 0 < max -> blen (history (do_ops os (NewEventLog max))) <= max.
Proof.
  intros Hm.
  assert (forall v, 0 < v_max v -> blen (v_history v) <= v_max v ->
            blen (v_history (spec_ops os v)) <= v_max v) as Hb.
  { induction os as [|o os IH]; intros v ??; [done|]. simpl.
    destruct (spec_history_bounded o v) as [E ?]; [done|done|].
    specialize (IH (spec_op o v)). rewrite E in IH. by apply IH. }
  pose proof (log_refines os _ (new_log_ok max)) as H.
  specialize (Hb (mkView None [] max) Hm). change (mkView None [] max) with (view (NewEventLog max)) in Hb.
  rewrite <- H in Hb. simpl in Hb.
  unfold blen in *. rewrite length_fmap in Hb. apply Hb. simpl. lia.
Qed.
