(* ===== verification/Codec.v ===== *)
(** * sdk/igor/encoding.go: the Encoder and Decoder of agent state

    [Encoder] is its buffer; every method appends.  [Decoder] is the data, the
    position and the error flag; every method returns its value and the
    decoder it leaves.  [int] is 64 bits wide, so [pos + n] does not wrap.
    [reads m enc a]: where the unread data starts with [enc], decoding with
    [m] returns [a] and consumes exactly [enc]. *)
From S2P Require Import Prelude.

(** ** Encoder *)
Definition Encoder := bytes.
Definition NewEncoder : Encoder := [].
Definition Enc_Uint64 (v : Z) (e : Encoder) : Encoder := e ++ put_u64 v.
Definition Enc_Int64 (v : Z) (e : Encoder) : Encoder := Enc_Uint64 (u64 v) e.
Definition Enc_Uint32 (v : Z) (e : Encoder) : Encoder := e ++ put_u32 v.
Definition Enc_Int32 (v : Z) (e : Encoder) : Encoder := Enc_Uint32 (u32 v) e.
Definition Enc_Bytes (v : bytes) (e : Encoder) : Encoder := Enc_Uint32 (u32 (blen v)) e ++ v.
Definition Enc_String (v : string) (e : Encoder) : Encoder := Enc_Bytes (bytes_of v) e.
Definition Enc_Bool (v : bool) (e : Encoder) : Encoder :=
  if v then e ++ [byte_of_Z 1] else e ++ [byte_of_Z 0].
Definition Enc_Raw (b : bytes) (e : Encoder) : Encoder := e ++ b.
Definition Finish (e : Encoder) : bytes := e.

(** ** Decoder *)
Record Decoder := mkDecoder { data : bytes; pos : Z; err : bool }.
Definition NewDecoder (d : bytes) : Decoder := mkDecoder d 0 false.
Definition fail (d : Decoder) : Decoder := mkDecoder (data d) (pos d) true.
Definition advance (n : Z) (d : Decoder) : Decoder := mkDecoder (data d) (pos d + n) (err d).
Definition short (n : Z) (d : Decoder) : bool := err d || (blen (data d) <? pos d + n).

Definition Dec (A : Type) := Decoder -> A * Decoder.
#[export] Instance dec_ret : MRet Dec := fun _ a d => (a, d).
#[export] Instance dec_bind : MBind Dec := fun _ _ f m d => let '(a, d) := m d in f a d.

Definition Uint64 : Dec Z := fun d =>
  if short 8 d then (0, fail d)
  else (get_u64 (slice (pos d) (pos d + 8) (data d)), advance 8 d).
Definition Int64 : Dec Z := v ← Uint64; mret (i64 v).
Definition Uint32 : Dec Z := fun d =>
  if short 4 d then (0, fail d)
  else (get_u32 (slice (pos d) (pos d + 4) (data d)), advance 4 d).
Definition Int32 : Dec Z := v ← Uint32; mret (i32 v).
Definition Bytes : Dec bytes := fun d =>
  let '(len, d) := Uint32 d in
  if err d then ([], d)
  else if blen (data d) <? pos d + len then ([], fail d)
  else (slice (pos d) (pos d + len) (data d), advance len d).
Definition String_ : Dec string := fun d =>
  let '(b, d) := Bytes d in if err d then (""%string, d) else (string_of b, d).
Definition Bool_ : Dec bool := fun d =>
  if err d || (blen (data d) <=? pos d) then (false, fail d)
  else (bool_decide (slice (pos d) (pos d + 1) (data d) <> [byte_of_Z 0]), advance 1 d).
(** [None] when the read fails ([nil]). *)
Definition FixedBytes (n : Z) : Dec (option bytes) := fun d =>
  if short n d then (None, fail d)
  else (Some (slice (pos d) (pos d + n) (data d)), advance n d).
(** [ReadInto dst]: the new contents of [dst]. *)
Definition ReadInto (dst : bytes) : Dec bytes := fun d =>
  if short (blen dst) d then (dst, fail d)
  else (slice (pos d) (pos d + blen dst) (data d), advance (blen dst) d).
Definition Err_ (d : Decoder) : bool := err d.

(** ** Reading back what was written *)
Definition rest (d : Decoder) : bytes := drop (Z.to_nat (pos d)) (data d).
Definition dec_ok (d : Decoder) : Prop := err d = false /\ 0 <= pos d <= blen (data d).

Definition reads {A} (m : Dec A) (enc : bytes) (a : A) : Prop :=
  forall d post, dec_ok d -> rest d = enc ++ post ->
    exists d', m d = (a, d') /\ dec_ok d' /\ rest d' = post.

Lemma reads_ret {A} (a : A) : reads (mret a) [] a.
Proof. intros d post ??. by exists d. Qed.

Lemma reads_bind {A B} (m : Dec A) (f : A -> Dec B) e1 e2 a b :
  reads m e1 a -> reads (f a) e2 b -> reads (m ≫= f) (e1 ++ e2) b.
Proof.
  intros Hm Hf d post Hd Hr. rewrite <- app_assoc in Hr.
  destruct (Hm d _ Hd Hr) as (d1 & E1 & Hd1 & Hr1).
  destruct (Hf d1 _ Hd1 Hr1) as (d2 & E2 & Hd2 & Hr2).
  exists d2. split; [|done]. unfold mbind, dec_bind. by rewrite E1.
Qed.

Lemma blen_rest d : dec_ok d -> blen (rest d) = blen (data d) - pos d.
Proof. intros [_ ?]. unfold rest, blen in *. rewrite length_drop. lia. Qed.

Lemma dec_ok_new b : dec_ok (NewDecoder b).
Proof. split; [done|]. cbn [pos NewDecoder data]. pose proof (blen_nonneg b). lia. Qed.

Lemma rest_advance d n enc post :
  dec_ok d -> rest d = enc ++ post -> n = blen enc ->
  dec_ok (advance n d) /\ rest (advance n d) = post /\ short n d = false /\
  slice (pos d) (pos d + n) (data d) = enc.
Proof.
  intros Hd Hr ->. pose proof (blen_rest d Hd) as Hl. rewrite Hr, blen_app in Hl.
  destruct Hd as [He Hp]. pose proof (blen_nonneg enc). pose proof (blen_nonneg post).
  split_and!.
  - split; simpl; [done|lia].
  - unfold rest; simpl. rewrite Z2Nat.inj_add by lia. rewrite <- drop_drop.
    change (drop (Z.to_nat (pos d)) (data d)) with (rest d). rewrite Hr.
    by apply drop_app_mid.
  - unfold short. rewrite He. simpl. apply Z.ltb_ge. lia.
  - unfold slice. change (drop (Z.to_nat (pos d)) (data d)) with (rest d). rewrite Hr.
    apply take_app_length'. unfold blen. lia.
Qed.

Lemma reads_Uint64 v : reads Uint64 (put_u64 v) (u64 v).
Proof.
  intros d post Hd Hr.
  destruct (rest_advance d 8 _ _ Hd Hr (eq_sym (blen_put_u64 v))) as (?&?&Hs&Hsl).
  exists (advance 8 d). unfold Uint64. rewrite Hs, Hsl, get_put_u64'. done.
Qed.
Lemma reads_Uint32 v : reads Uint32 (put_u32 v) (u32 v).
Proof.
  intros d post Hd Hr.
  destruct (rest_advance d 4 _ _ Hd Hr (eq_sym (blen_put_u32 v))) as (?&?&Hs&Hsl).
  exists (advance 4 d). unfold Uint32. rewrite Hs, Hsl.
  by rewrite <- (app_nil_r (put_u32 v)), get_put_u32.
Qed.
Lemma reads_Int64 v : is_i64 v -> reads Int64 (put_u64 (u64 v)) v.
Proof.
  intros Hv. rewrite <- (app_nil_r (put_u64 _)). eapply reads_bind; [apply reads_Uint64|].
  rewrite (u64_id (u64 v)) by apply u64_range. rewrite i64_of_u64 by done. apply reads_ret.
Qed.
Lemma reads_Bytes v : is_u32 (blen v) -> reads Bytes (put_u32 (u32 (blen v)) ++ v) v.
Proof.
  intros Hv d post Hd Hr. rewrite <- app_assoc in Hr.
  destruct (reads_Uint32 (u32 (blen v)) d _ Hd Hr) as (d1 & E1 & Hd1 & Hr1).
  rewrite (u32_id (u32 _)), u32_id in E1 by auto with igor.
  destruct (rest_advance d1 (blen v) _ _ Hd1 Hr1 eq_refl) as (?&?&Hs&Hsl).
  exists (advance (blen v) d1). unfold Bytes. rewrite E1.
  destruct Hd1 as [He Hp]. rewrite He. unfold short in Hs. rewrite He in Hs. simpl in Hs.
  by rewrite Hs, Hsl.
Qed.
Lemma reads_String v : is_u32 (blen (bytes_of v)) ->
  reads String_ (put_u32 (u32 (blen (bytes_of v))) ++ bytes_of v) v.
Proof.
  intros Hv d post Hd Hr. destruct (reads_Bytes _ Hv d post Hd Hr) as (d1 & E1 & Hd1 & Hr1).
  exists d1. unfold String_. rewrite E1.
  pose proof Hd1 as [He _]. by rewrite He, string_of_bytes_of.
Qed.
Lemma reads_Bool (v : bool) : reads Bool_ [byte_of_Z (if v then 1 else 0)] v.
Proof.
  intros d post Hd Hr. destruct (rest_advance d 1 [byte_of_Z (if v then 1 else 0)] post Hd Hr eq_refl) as (?&?&Hs&Hsl).
  exists (advance 1 d). unfold Bool_. pose proof (blen_rest d Hd) as Hl.
  rewrite Hr, blen_app, blen_cons, blen_nil in Hl. pose proof (blen_nonneg post).
  destruct Hd as [He Hp]. rewrite He. simpl.
  destruct (Z.leb_spec (blen (data d)) (pos d)); [lia|]. rewrite Hsl. by destruct v.
Qed.
Lemma reads_FixedBytes v n : n = blen v -> reads (FixedBytes n) v (Some v).
Proof.
  intros -> d post Hd Hr. destruct (rest_advance d _ _ _ Hd Hr eq_refl) as (?&?&Hs&Hsl).
  exists (advance (blen v) d). unfold FixedBytes. by rewrite Hs, Hsl.
Qed.
Lemma reads_ReadInto dst v : blen dst = blen v -> reads (ReadInto dst) v v.
Proof.
  intros E d post Hd Hr. destruct (rest_advance d _ _ _ Hd Hr eq_refl) as (?&?&Hs&Hsl).
  exists (advance (blen v) d). unfold ReadInto. by rewrite E, Hs, Hsl.
Qed.

(** From a [reads] fact to a run from the start of the data. *)
Lemma reads_run {A} (m : Dec A) enc a post :
  reads m enc a -> exists d', m (NewDecoder (enc ++ post)) = (a, d') /\ err d' = false /\ rest d' = post.
Proof.
  intros H. destruct (H (NewDecoder (enc ++ post)) post) as (d' & E & [? ?] & ?);
    [apply dec_ok_new|done|eauto].
Qed.

#[export] Hint Resolve reads_ret reads_Uint64 reads_Uint32 reads_Int64 reads_Bytes reads_String
  reads_Bool reads_FixedBytes reads_ReadInto : igor.

(** Decode field by field: [reads] of a chain of binds against a
    right-associated concatenation of encodings. *)
Ltac reads_step :=
  lazymatch goal with
  | |- reads (mret _) [] _ => apply reads_ret
  | |- reads (_ ≫= _) _ _ => eapply reads_bind; [solve [eauto with igor] | cbn beta]
  end.

(** ** Errors stick *)
Definition sticky {A} (m : Dec A) : Prop := forall d, err d = true -> err (snd (m d)) = true.
Lemma sticky_ret {A} (a : A) : sticky (mret a).
Proof. by intros d. Qed.
Lemma sticky_bind {A B} (m : Dec A) (f : A -> Dec B) :
  sticky m -> (forall a, sticky (f a)) -> sticky (m ≫= f).
Proof.
  intros Hm Hf d Hd. specialize (Hm d Hd). unfold mbind, dec_bind.
  destruct (m d) as [a d']. by apply Hf.
Qed.
Lemma sticky_Uint64 : sticky Uint64.
Proof. intros d Hd. unfold Uint64, short. by rewrite Hd. Qed.
Lemma sticky_Uint32 : sticky Uint32.
Proof. intros d Hd. unfold Uint32, short. by rewrite Hd. Qed.
Lemma sticky_Int64 : sticky Int64.
Proof. apply sticky_bind; [apply sticky_Uint64|intros; apply sticky_ret]. Qed.
Lemma sticky_Bytes : sticky Bytes.
Proof.
  intros d Hd. unfold Bytes. pose proof (sticky_Uint32 d Hd) as H.
  destruct (Uint32 d) as [n d']. simpl in H. by rewrite H.
Qed.
Lemma sticky_Bool : sticky Bool_.
Proof. intros d Hd. unfold Bool_. by rewrite Hd. Qed.
Lemma sticky_FixedBytes n : sticky (FixedBytes n).
Proof. intros d Hd. unfold FixedBytes, short. by rewrite Hd. Qed.
Lemma sticky_ReadInto b : sticky (ReadInto b).
Proof. intros d Hd. unfold ReadInto, short. by rewrite Hd. Qed.
#[export] Hint Resolve sticky_ret sticky_Uint64 sticky_Uint32 sticky_Int64 sticky_Bytes sticky_Bool
  sticky_FixedBytes sticky_ReadInto : igor.
