(* ===== verification/Effects.v ===== *)
(** * sdk/igor/effects.go: the effect log

    [EffectLog] is the slice of intents.  [find] returns a pointer into it, so
    that [Begin], [Confirm] and [Compensate] write the state of the first
    intent with that ID; [Get] hands the same pointer out, and its callers in
    the repository only read it. *)
From S2P Require Import Prelude Codec.

Definition IntentState := Z.
Definition Recorded : IntentState := 1.
Definition InFlight : IntentState := 2.
Definition Confirmed : IntentState := 3.
Definition Unresolved : IntentState := 4.
Definition Compensated : IntentState := 5.

Record Intent := mkIntent { ID : bytes; IState : IntentState; Data : bytes }.
#[export] Instance Intent_eq_dec : EqDecision Intent.
Proof. solve_decision. Defined.

Inductive effect_error := errIntentExists | errIntentNotFound | errInvalidTransition.
Definition EffectLog := list Intent.

Definition has_id (id : bytes) (i : Intent) : bool := bool_decide (ID i = id).
(** [find]: the first intent with the ID. *)
Fixpoint find (id : bytes) (e : EffectLog) : option Intent :=
  match e with
  | [] => None
  | i :: e => if has_id id i then Some i else find id e
  end.
(** The write through the pointer [find] returns. *)
Fixpoint set_state (id : bytes) (s : IntentState) (e : EffectLog) : EffectLog :=
  match e with
  | [] => []
  | i :: e => if has_id id i then mkIntent (ID i) s (Data i) :: e else i :: set_state id s e
  end.

Definition Record_ (id data : bytes) (e : EffectLog) : result effect_error unit * EffectLog :=
  match find id e with
  | Some _ => (Err errIntentExists, e)
  | None => (Ok tt, e ++ [mkIntent id Recorded data])
  end.

Definition Begin (id : bytes) (e : EffectLog) : result effect_error unit * EffectLog :=
  match find id e with
  | None => (Err errIntentNotFound, e)
  | Some i => if negb (IState i =? Recorded) then (Err errInvalidTransition, e)
              else (Ok tt, set_state id InFlight e)
  end.

Definition Confirm (id : bytes) (e : EffectLog) : result effect_error unit * EffectLog :=
  match find id e with
  | None => (Err errIntentNotFound, e)
  | Some i => if negb (IState i =? InFlight) && negb (IState i =? Unresolved)
              then (Err errInvalidTransition, e)
              else (Ok tt, set_state id Confirmed e)
  end.

Definition Compensate (id : bytes) (e : EffectLog) : result effect_error unit * EffectLog :=
  match find id e with
  | None => (Err errIntentNotFound, e)
  | Some i => if negb (IState i =? InFlight) && negb (IState i =? Unresolved)
              then (Err errInvalidTransition, e)
              else (Ok tt, set_state id Compensated e)
  end.

Definition terminal (i : Intent) : bool := (IState i =? Confirmed) || (IState i =? Compensated).
Definition Pending (e : EffectLog) : list Intent :=
  List.filter (fun i => negb (IState i =? Confirmed) && negb (IState i =? Compensated)) e.
Definition Unresolved_ (e : EffectLog) : list Intent :=
  List.filter (fun i => IState i =? Unresolved) e.
Definition Get (id : bytes) (e : EffectLog) : option Intent := find id e.
Definition Len (e : EffectLog) : Z := blen e.
Definition Prune (e : EffectLog) : Z * EffectLog :=
  (blen (List.filter terminal e), List.filter (fun i => negb (terminal i)) e).

(** ** Serialisation *)
Definition enc_intent (i : Intent) (enc : Encoder) : Encoder :=
  Enc_Bytes (Data i) (Enc_Bytes (ID i) (enc ++ [byte_of_Z (IState i)])).
Definition Marshal (e : EffectLog) : bytes :=
  Finish (fold_left (fun enc i => enc_intent i enc) e (Enc_Uint32 (u32 (blen e)) NewEncoder)).

(** THE RESUME RULE. *)
Definition resume_state (s : IntentState) : IntentState := if s =? InFlight then Unresolved else s.
Definition resume (i : Intent) : Intent := mkIntent (ID i) (resume_state (IState i)) (Data i).

(** [d.data[d.pos]], in range. *)
Definition cur_byte (d : Decoder) : Z :=
  match data d !! Z.to_nat (pos d) with Some b => Z_of_byte b | None => 0 end.

(** The loop of [Unmarshal]; every round that goes on consumes at least one
    byte, so the length of the data is enough fuel. *)
Fixpoint unmarshal_loop (fuel : nat) (count : Z) (d : Decoder) (acc : EffectLog) : EffectLog :=
  match fuel with
  | O => acc
  | S fuel =>
      if count <=? 0 then acc
      else if err d then acc
      else if blen (data d) <=? pos d then acc
      else
        let state := cur_byte d in
        let d := advance 1 d in
        let '(id, d) := Bytes d in
        let '(payload, d) := Bytes d in
        unmarshal_loop fuel (count - 1) d (acc ++ [mkIntent id (resume_state state) payload])
  end.

Definition Unmarshal (b : bytes) : EffectLog :=
  if blen b =? 0 then []
  else
    let '(count, d) := Uint32 (NewDecoder b) in
    if err d then [] else unmarshal_loop (S (length b)) count d [].

(** ** Lemmas *)
Lemma has_id_spec id i : has_id id i = true <-> ID i = id.
Proof. unfold has_id. apply bool_decide_eq_true. Qed.

Lemma find_Some id e i : find id e = Some i -> i ∈ e /\ ID i = id.
Proof.
  induction e as [|j e IH]; simpl; [done|]. destruct (has_id id j) eqn:E.
  - intros [= ->]. apply has_id_spec in E. split; [by left|done].
  - intros H. destruct (IH H). split; [by right|done].
Qed.
Lemma find_None id e : find id e = None <-> id ∉ ID <$> e.
Proof.
  induction e as [|j e IH]; simpl.
  - split; [intros _ H; by apply elem_of_nil in H | done].
  - rewrite not_elem_of_cons. destruct (has_id id j) eqn:E.
    + apply has_id_spec in E. split; [done|]. intros [? ?]. congruence.
    + rewrite IH. split; [|by intros []]. intros ?. split; [|done]. intros ->.
      apply not_true_iff_false in E. by rewrite has_id_spec in E.
Qed.
Lemma ids_set_state id s e : ID <$> set_state id s e = ID <$> e.
Proof.
  induction e as [|j e IH]; simpl; [done|]. destruct (has_id id j); simpl; by f_equal.
Qed.

Lemma find_set_state id id' s e :
  find id (set_state id' s e) =
  if decide (id = id') then (fun i => mkIntent (ID i) s (Data i)) <$> find id e else find id e.
Proof.
  induction e as [|j e IH]; simpl; [by destruct (decide _)|].
  destruct (has_id id' j) eqn:E; simpl.
  - apply has_id_spec in E. unfold has_id. simpl. rewrite E.
    destruct (decide (id = id')) as [->|Hne].
    + rewrite !(bool_decide_eq_true_2 (id' = id')) by done. simpl. by rewrite E.
    + by rewrite !(bool_decide_eq_false_2 (id' = id)) by done.
  - rewrite IH. apply not_true_iff_false in E. rewrite has_id_spec in E.
    case_decide; [|done]. subst. unfold has_id. by rewrite bool_decide_eq_false_2.
Qed.

Lemma find_app id e e' : find id (e ++ e') = match find id e with Some i => Some i | None => find id e' end.
Proof. induction e as [|j e IH]; simpl; [done|]. by destruct (has_id id j). Qed.

Lemma resume_state_not_inflight s : resume_state s <> InFlight.
Proof. unfold resume_state, InFlight, Unresolved. destruct (Z.eqb_spec s 2); lia. Qed.

(** The fuel never decides the result: any two amounts above the number of
    bytes left give the same log. *)
Lemma Uint32_mono d n d' : Uint32 d = (n, d') -> data d' = data d /\ pos d <= pos d' /\ 0 <= n.
Proof.
  unfold Uint32. destruct (short 4 d); intros [= <- <-]; simpl; [split_and!; [done|lia..]|].
  split_and!; [done|lia|]. apply get_u32_range.
Qed.
Lemma Bytes_mono d b d' : Bytes d = (b, d') -> data d' = data d /\ pos d <= pos d'.
Proof.
  unfold Bytes. destruct (Uint32 d) as [n d1] eqn:E.
  pose proof (Uint32_mono d n d1 E) as (Hd & Hp & Hn).
  destruct (err d1); [intros [= <- <-]; done|].
  destruct (_ <? _); intros [= <- <-]; simpl; [done|]. split; [done|lia].
Qed.
Lemma unmarshal_loop_fuel f1 : forall f2 count d acc,
  blen (data d) - pos d < Z.of_nat f1 -> blen (data d) - pos d < Z.of_nat f2 -> (0 < f1)%nat -> (0 < f2)%nat ->
  unmarshal_loop f1 count d acc = unmarshal_loop f2 count d acc.
Proof.
  induction f1 as [|f1 IH]; intros f2 count d acc H1 H2 ? ?; [lia|].
  destruct f2 as [|f2]; [lia|]. cbn [unmarshal_loop].
  destruct (count <=? 0); [done|]. destruct (err d); [done|].
  destruct (Z.leb_spec (blen (data d)) (pos d)); [done|].
  destruct (Bytes (advance 1 d)) as [id d1] eqn:E1. destruct (Bytes d1) as [pl d2] eqn:E2.
  apply Bytes_mono in E1 as [D1 P1]. apply Bytes_mono in E2 as [D2 P2]. simpl in D1, P1.
  rewrite D1 in D2. apply IH; rewrite ?D2; lia.
Qed.

Lemma unmarshal_loop_Forall (P : Intent -> Prop) fuel :
  (forall id s p, P (mkIntent id (resume_state s) p)) ->
  forall count d acc, Forall P acc -> Forall P (unmarshal_loop fuel count d acc).
Proof.
  intros HP. induction fuel as [|fuel IH]; intros count d acc Ha; simpl; [done|].
  destruct (count <=? 0), (err d), (blen (data d) <=? pos d); try done.
  destruct (Bytes _) as [id d1]. destruct (Bytes d1) as [p d2]. apply IH.
  apply Forall_app. split; [done|]. by repeat constructor.
Qed.

(** the resume rule is unconditional: whatever bytes a checkpoint holds,
    truncated or corrupted, an effect log restored from them has no intent in
    the InFlight state. *)
Theorem unmarshal_no_inflight (b : bytes) :
  Forall (fun i => IState i <> InFlight) (Unmarshal b).
Proof.
  unfold Unmarshal. destruct (blen b =? 0); [constructor|].
  destruct (Uint32 _) as [n d]. destruct (err d); [constructor|].
  apply unmarshal_loop_Forall; [|constructor]. intros. apply resume_state_not_inflight.
Qed.

(** ** Round trip *)
Record intent_ok (i : Intent) : Prop := {
  io_state : 0 <= IState i < 256;
  io_id : is_u32 (blen (ID i));
  io_data : is_u32 (blen (Data i));
}.
Definition log_ok (e : EffectLog) : Prop := Forall intent_ok e /\ is_u32 (blen e).

Definition intent_bytes (i : Intent) : bytes :=
  [byte_of_Z (IState i)] ++ (put_u32 (u32 (blen (ID i))) ++ ID i) ++ (put_u32 (u32 (blen (Data i))) ++ Data i).

Lemma Marshal_eq e : Marshal e = put_u32 (u32 (blen e)) ++ concat (intent_bytes <$> e).
Proof.
  unfold Marshal, Finish, Enc_Uint32, NewEncoder. rewrite app_nil_l.
  generalize (put_u32 (u32 (blen e))). induction e as [|i e IH]; intros b.
  - change (b = b ++ []). by rewrite app_nil_r.
  - cbn [fold_left]. rewrite IH, fmap_cons. cbn [concat]. unfold enc_intent, intent_bytes, Enc_Bytes, Enc_Uint32. by rewrite !app_assoc.
Qed.

Lemma cur_byte_eq d b post : dec_ok d -> rest d = b :: post -> cur_byte d = Z_of_byte b.
Proof.
  intros [_ Hp] Hr. unfold cur_byte, rest in *.
  rewrite <- (Nat.add_0_r (Z.to_nat (pos d))), <- lookup_drop. by rewrite Hr.
Qed.

Lemma unmarshal_loop_intent fuel count d acc i post :
  intent_ok i -> 0 < count -> dec_ok d -> rest d = intent_bytes i ++ post ->
  exists d', unmarshal_loop (S fuel) count d acc = unmarshal_loop fuel (count - 1) d' (acc ++ [resume i])
    /\ dec_ok d' /\ rest d' = post.
Proof.
  intros [Hs Hi Hd] Hc Hok Hr. pose proof (blen_rest d Hok) as Hl.
  unfold intent_bytes in Hr. rewrite <- !app_assoc in Hr.
  pose proof Hr as Hb. simpl in Hb. apply cur_byte_eq in Hb; [|done].
  rewrite Z_of_byte_of_Z, Z.mod_small in Hb by lia.
  destruct (rest_advance d 1 [byte_of_Z (IState i)] _ Hok Hr eq_refl) as (Hok1&Hr1&_&_).
  rewrite (app_assoc (put_u32 _)) in Hr1.
  destruct (reads_Bytes _ Hi _ _ Hok1 Hr1) as (d1 & E1 & Hok2 & Hr2).
  rewrite app_assoc in Hr2.
  destruct (reads_Bytes _ Hd _ _ Hok2 Hr2) as (d2 & E2 & Hok3 & Hr3).
  exists d2. split; [|done]. simpl. rewrite Hb, E1, E2.
  destruct Hok as [He Hp]. rewrite He. rewrite (proj2 (Z.leb_gt count 0)) by lia.
  rewrite Hr, blen_app, blen_cons, blen_nil in Hl.
  match type of Hl with _ + blen ?t = _ => pose proof (blen_nonneg t) end.
  rewrite (proj2 (Z.leb_gt _ _)); [done|lia].
Qed.

Lemma unmarshal_loop_spec e : forall fuel d acc post,
  Forall intent_ok e -> dec_ok d -> rest d = concat (intent_bytes <$> e) ++ post ->
  (length e < fuel)%nat -> unmarshal_loop fuel (blen e) d acc = acc ++ (resume <$> e).
Proof.
  induction e as [|i e IH]; intros fuel d acc post Hf Hok Hr Hfuel; destruct fuel as [|fuel];
    try (simpl in Hfuel; lia).
  - change (acc = acc ++ []). by rewrite app_nil_r.
  - inversion Hf; subst. simpl in Hr. rewrite <- app_assoc in Hr.
    destruct (unmarshal_loop_intent fuel (blen (i :: e)) d acc i _ ltac:(done)
      ltac:(rewrite blen_cons; pose proof (blen_nonneg e); lia) Hok Hr) as (d' & -> & ? & Hr').
    rewrite blen_cons. replace (1 + blen e - 1) with (blen e) by lia.
    erewrite IH; [|done|done|exact Hr'|simpl in Hfuel; lia]. by rewrite <- app_assoc.
Qed.

Lemma length_intents e : (length e <= length (concat (intent_bytes <$> e)))%nat.
Proof.
  induction e as [|i e IH]; [simpl; lia|]. rewrite fmap_cons. cbn [concat].
  rewrite length_app. unfold intent_bytes at 1. rewrite length_app. simpl in *. lia.
Qed.

Lemma Unmarshal_Marshal e : log_ok e -> Unmarshal (Marshal e) = resume <$> e.
Proof.
  intros [Hf Hn]. rewrite Marshal_eq. unfold Unmarshal.
  set (body := concat _).
  destruct (Z.eqb_spec (blen (put_u32 (u32 (blen e)) ++ body)) 0) as [H|_].
  { rewrite blen_app, blen_put_u32 in H. pose proof (blen_nonneg body). lia. }
  assert (dec_ok (NewDecoder (put_u32 (u32 (blen e)) ++ body))) as Hok.
  { apply dec_ok_new. }
  destruct (reads_Uint32 (u32 (blen e)) _ body Hok) as (d & E & Hok1 & Hr); [done|].
  rewrite E, (u32_id (u32 _)), u32_id by auto with igor.
  pose proof Hok1 as [He _]. rewrite He.
  apply (unmarshal_loop_spec e _ d [] []); [done|done|by rewrite app_nil_r|].
  rewrite length_app, length_put_u32. pose proof (length_intents e). fold body in H. lia.
Qed.

(** an effect log survives a checkpoint: unmarshalling what was marshalled
    gives back the same intents in the same order with the same payloads, the
    InFlight ones now Unresolved. *)
Theorem effect_log_roundtrip (e : EffectLog) :
  log_ok e -> Unmarshal (Marshal e) = resume <$> e.
Proof. apply Unmarshal_Marshal. Qed.

Definition sample_log : EffectLog :=
  [mkIntent (bytes_of "k1") Recorded (bytes_of "pay 5");
   mkIntent (bytes_of "k2") InFlight []; mkIntent [] Confirmed (bytes_of "x")].

Lemma effect_log_roundtrip_witness :
  Unmarshal (Marshal sample_log) = resume <$> sample_log.
Proof.
  apply (effect_log_roundtrip sample_log). split; [|vm_compute; split; congruence].
  repeat constructor; vm_compute; congruence.
Defined.

(** ** The lifecycle of an intent *)
Inductive effect_op :=
| ORecord (id data : bytes)
| OBegin (id : bytes)
| OConfirm (id : bytes)
| OCompensate (id : bytes)
| OPrune
| OResume.

(** Checkpoint and resume in the middle of an agent's life: marshal, then
    restore from the bytes. *)
Definition effect_step (o : effect_op) (e : EffectLog) : result effect_error unit * EffectLog :=
  match o with
  | ORecord id d => Record_ id d e
  | OBegin id => Begin id e
  | OConfirm id => Confirm id e
  | OCompensate id => Compensate id e
  | OPrune => (Ok tt, snd (Prune e))
  | OResume => (Ok tt, Unmarshal (Marshal e))
  end.

(** Sizes that fit the 32-bit length prefixes. *)
Definition op_fits (o : effect_op) : Prop :=
  match o with ORecord id d => is_u32 (blen id) /\ is_u32 (blen d) | _ => True end.

(** How often an operation on [id] succeeded. *)
Record tally := mkTally { recorded : Z; begun : Z; settled : Z }.
Definition count_op (id : bytes) (o : effect_op) (ok : bool) (t : tally) : tally :=
  match o with
  | ORecord id' _ => if decide (id = id') then mkTally (recorded t + Z.b2z ok) (begun t) (settled t) else t
  | OBegin id' => if decide (id = id') then mkTally (recorded t) (begun t + Z.b2z ok) (settled t) else t
  | OConfirm id' | OCompensate id' =>
      if decide (id = id') then mkTally (recorded t) (begun t) (settled t + Z.b2z ok) else t
  | _ => t
  end.
Fixpoint run_effects (id : bytes) (os : list effect_op) (e : EffectLog) (t : tally) : EffectLog * tally :=
  match os with
  | [] => (e, t)
  | o :: os =>
      let '(r, e') := effect_step o e in
      run_effects id os e' (count_op id o (is_ok r) t)
  end.

(** What the state of [id] still allows: one begin while Recorded, one
    settlement while InFlight or Unresolved. *)
Definition state_of (id : bytes) (e : EffectLog) : option IntentState := IState <$> find id e.
Definition may_begin (s : option IntentState) : Z := Z.b2z (bool_decide (s = Some Recorded)).
Definition may_settle (s : option IntentState) : Z :=
  Z.b2z (bool_decide (s = Some InFlight \/ s = Some Unresolved)).
Definition budgeted (id : bytes) (e : EffectLog) (t : tally) : Prop :=
  begun t + may_begin (state_of id e) <= recorded t /\
  settled t + may_settle (state_of id e) <= begun t.

Lemma state_of_set_state id id' s e i :
  find id' e = Some i ->
  state_of id (set_state id' s e) = if decide (id = id') then Some s else state_of id e.
Proof.
  intros Hf. unfold state_of. rewrite find_set_state. case_decide; [|done].
  subst. by rewrite Hf.
Qed.

Lemma state_of_filter id P e :
  NoDup (ID <$> e) ->
  state_of id (List.filter P e) = match find id e with
                             | Some i => if P i then Some (IState i) else None
                             | None => None end.
Proof.
  unfold state_of. induction e as [|i e IH]; [done|]. rewrite fmap_cons, NoDup_cons. intros [Hn Hd].
  simpl. destruct (has_id id i) eqn:E.
  - destruct (P i); simpl; [by rewrite E|]. rewrite IH by done.
    apply has_id_spec in E. subst. apply find_None in Hn. by rewrite Hn.
  - destruct (P i); simpl; [rewrite E|]; by apply IH.
Qed.

Lemma ids_filter_sublist P (e : EffectLog) : ID <$> List.filter P e `sublist_of` ID <$> e.
Proof.
  induction e as [|i e IH]; [done|]. cbn [List.filter]. rewrite fmap_cons.
  destruct (P i); rewrite ?fmap_cons; by constructor.
Qed.

Lemma find_resume id e : find id (resume <$> e) = resume <$> find id e.
Proof.
  induction e as [|i e IH]; [done|]. rewrite fmap_cons. simpl.
  change (has_id id (resume i)) with (has_id id i). by destruct (has_id id i).
Qed.
Lemma state_of_resume id e : state_of id (resume <$> e) = resume_state <$> state_of id e.
Proof. unfold state_of. rewrite find_resume. by destruct (find id e). Qed.

(** Unique identifiers, and sizes the wire format can hold for [n] more
    intents. *)
Definition log_inv (n : Z) (e : EffectLog) : Prop :=
  NoDup (ID <$> e) /\ Forall intent_ok e /\ blen e + n < 2 ^ 32.

Lemma log_inv_ok n e : 0 <= n -> log_inv n e -> log_ok e.
Proof. intros ? (_ & ? & ?). split; [done|]. split; [apply blen_nonneg|lia]. Qed.

Lemma Forall_set_state id s e :
  0 <= s < 256 -> Forall intent_ok e -> Forall intent_ok (set_state id s e).
Proof.
  intros Hs. induction 1 as [|i e Hi He IH]; simpl; [constructor|].
  destruct (has_id id i); constructor; try done. by destruct Hi; split.
Qed.
Lemma length_set_state id s e : length (set_state id s e) = length e.
Proof. induction e as [|i e IH]; simpl; [done|]. destruct (has_id id i); simpl; auto. Qed.
Lemma log_inv_set_state n id s e :
  0 <= n -> 0 <= s < 256 -> log_inv (1 + n) e -> log_inv n (set_state id s e).
Proof.
  intros ?? (Hn & Hf & Hl). split_and!; [by rewrite ids_set_state|by apply Forall_set_state|].
  unfold blen in *. rewrite length_set_state. lia.
Qed.
Lemma log_inv_weaken n e : log_inv (1 + n) e -> log_inv n e.
Proof. intros (?&?&?). split_and!; [done..|lia]. Qed.

Lemma Forall_list_filter P (Q : Intent -> Prop) e : Forall Q e -> Forall Q (List.filter P e).
Proof. induction 1 as [|i e ?? IH]; simpl; [done|]. destruct (P i); [by constructor|done]. Qed.
Lemma length_list_filter P (e : EffectLog) : (length (List.filter P e) <= length e)%nat.
Proof. induction e as [|i e IH]; simpl; [done|]. destruct (P i); simpl; lia. Qed.

Lemma effect_step_inv o e n :
  0 <= n -> op_fits o -> log_inv (1 + n) e -> log_inv n (snd (effect_step o e)).
Proof.
  intros Hn Hfit Hinv. pose proof Hinv as (Hd & Hf & Hl).
  destruct o as [id d|id|id|id| |]; simpl.
  - unfold Record_. destruct (find id e) eqn:E; [by apply log_inv_weaken|]. simpl.
    apply find_None in E. split_and!.
    + rewrite fmap_app. apply NoDup_app. split_and!; [done| |apply NoDup_singleton].
      intros x Hx Hx'. apply list_elem_of_singleton in Hx'. by subst.
    + apply Forall_app. split; [done|]. constructor; [|done]. destruct Hfit. by split; simpl; [unfold Recorded; lia|..].
    + rewrite blen_app, blen_cons, blen_nil. lia.
  - unfold Begin. destruct (find id e); [|by apply log_inv_weaken].
    destruct (negb _); [by apply log_inv_weaken|]. apply log_inv_set_state; auto. unfold InFlight; lia.
  - unfold Confirm. destruct (find id e); [|by apply log_inv_weaken].
    destruct (_ && _); [by apply log_inv_weaken|]. apply log_inv_set_state; auto. unfold Confirmed; lia.
  - unfold Compensate. destruct (find id e); [|by apply log_inv_weaken].
    destruct (_ && _); [by apply log_inv_weaken|]. apply log_inv_set_state; auto. unfold Compensated; lia.
  - split_and!.
    + eapply sublist_NoDup; [done|apply ids_filter_sublist].
    + by apply Forall_list_filter.
    + unfold blen in *. pose proof (length_list_filter (fun i => negb (terminal i)) e). lia.
  - rewrite Unmarshal_Marshal by (eapply log_inv_ok; [|done]; lia). split_and!.
    + rewrite <- list_fmap_compose. done.
    + apply Forall_fmap. eapply Forall_impl; [done|]. intros i [? ? ?]. split; simpl; try done.
      unfold resume_state, Unresolved. destruct (_ =? _); lia.
    + unfold blen in *. rewrite length_fmap. lia.
Qed.

Lemma budgeted_transition id id' e t i s s' rb rs :
  find id' e = Some i -> IState i = s ->
  (id = id' -> rb + may_begin (Some s') <= may_begin (Some s) /\
               rs + may_settle (Some s') <= may_settle (Some s) + rb) ->
  budgeted id e t ->
  budgeted id (set_state id' s' e)
    (if decide (id = id') then mkTally (recorded t) (begun t + rb) (settled t + rs) else t).
Proof.
  intros Hf <- Hs [Hb Hc]. unfold budgeted. rewrite (state_of_set_state id id' s' e i Hf).
  case_decide as E; [|done]. destruct (Hs E). subst id'.
  unfold state_of in Hb, Hc. rewrite Hf in Hb, Hc. simpl in *. lia.
Qed.

Lemma count_op_err id o t : count_op id o false t = t.
Proof. destruct o, t; simpl; try case_decide; rewrite ?Z.add_0_r; done. Qed.

Lemma may_begin_bounds s : 0 <= may_begin s <= 1.
Proof. unfold may_begin. destruct (bool_decide _); simpl; lia. Qed.
Lemma may_settle_bounds s : 0 <= may_settle s <= 1.
Proof. unfold may_settle. destruct (bool_decide _); simpl; lia. Qed.

Lemma state_of_app id e i :
  state_of id (e ++ [i]) =
    match state_of id e with Some s => Some s | None => if has_id id i then Some (IState i) else None end.
Proof.
  unfold state_of. rewrite find_app. destruct (find id e); [done|]. simpl. by destruct (has_id id i).
Qed.

Lemma budgeted_step id o e t n :
  0 <= n -> log_inv (1 + n) e -> budgeted id e t ->
  budgeted id (snd (effect_step o e)) (count_op id o (is_ok (fst (effect_step o e))) t).
Proof.
  intros Hn Hinv Hb. destruct o as [id' d|id'|id'|id'| |]; cbn [effect_step].
  - unfold Record_. destruct (find id' e) eqn:E; cbn [fst snd is_ok]; [by rewrite count_op_err|].
    destruct Hb as [Hb Hc]. unfold budgeted, count_op. rewrite state_of_app. unfold has_id; simpl.
    destruct (decide (id = id')) as [->|Hne].
    + unfold state_of in *. rewrite E in *. rewrite bool_decide_eq_true_2 by done.
      cbn [fmap option_fmap option_map IState recorded begun settled Z.b2z] in *.
      change (may_begin None) with 0 in Hb. change (may_settle None) with 0 in Hc.
      change (may_begin (Some Recorded)) with 1. change (may_settle (Some Recorded)) with 0. lia.
    + rewrite bool_decide_eq_false_2 by congruence. by destruct (state_of id e).
  - unfold Begin. destruct (find id' e) as [i|] eqn:E; [|by rewrite count_op_err].
    destruct (negb _) eqn:E2; cbn [fst snd is_ok]; [by rewrite count_op_err|]. zb.
    pose proof (budgeted_transition id id' e t i _ InFlight 1 0 E E2) as H.
    rewrite (Z.add_0_r (settled t)) in H. simpl. apply H; [|done]. intros _. vm_compute. split; congruence.
  - unfold Confirm. destruct (find id' e) as [i|] eqn:E; [|by rewrite count_op_err].
    destruct (_ && _) eqn:E2; cbn [fst snd is_ok]; [by rewrite count_op_err|].
    pose proof (budgeted_transition id id' e t i _ Confirmed 0 1 E eq_refl) as H.
    rewrite (Z.add_0_r (begun t)) in H. simpl. apply H; [|done]. intros _.
    apply andb_false_iff in E2 as [E2|E2]; zb; rewrite E2; vm_compute; split; congruence.
  - unfold Compensate. destruct (find id' e) as [i|] eqn:E; [|by rewrite count_op_err].
    destruct (_ && _) eqn:E2; cbn [fst snd is_ok]; [by rewrite count_op_err|].
    pose proof (budgeted_transition id id' e t i _ Compensated 0 1 E eq_refl) as H.
    rewrite (Z.add_0_r (begun t)) in H. simpl. apply H; [|done]. intros _.
    apply andb_false_iff in E2 as [E2|E2]; zb; rewrite E2; vm_compute; split; congruence.
  - destruct Hinv as (Hd & _ & _). destruct Hb as [Hb Hc]. cbn [snd fst is_ok count_op Prune].
    unfold budgeted. rewrite state_of_filter by done. unfold state_of in *.
    destruct (find id e) as [i|]; [|done]. simpl in *.
    destruct (negb (terminal i)); [done|].
    pose proof (may_begin_bounds (Some (IState i))). pose proof (may_settle_bounds (Some (IState i))).
    change (may_begin None) with 0. change (may_settle None) with 0. lia.
  - cbn [snd fst is_ok count_op]. rewrite Unmarshal_Marshal by (eapply log_inv_ok; [|done]; lia).
    destruct Hb as [Hb Hc]. unfold budgeted. rewrite state_of_resume.
    destruct (state_of id e) as [s|]; [|done]. simpl. unfold resume_state.
    destruct (Z.eqb_spec s InFlight) as [->|]; done.
Qed.

Lemma run_effects_budget id os : forall e t,
  Forall op_fits os -> log_inv (blen os) e -> budgeted id e t ->
  let '(e', t') := run_effects id os e t in budgeted id e' t' /\ NoDup (ID <$> e').
Proof.
  induction os as [|o os IH]; intros e t Hf Hi Hb; [by destruct Hi|].
  inversion Hf; subst. rewrite blen_cons in Hi. simpl.
  pose proof (budgeted_step id o e t _ (blen_nonneg os) Hi Hb) as Hb'.
  pose proof (effect_step_inv o e _ (blen_nonneg os) ltac:(done) Hi) as Hi'.
  destruct (effect_step o e) as [r e']. by apply IH.
Qed.

(** C10: Effects happen at most once per declared intent. Starting from an
    empty log, along any sequence of fewer than 2^32 records, begins,
    confirmations, compensations, prunes and checkpoint-resumes with IDs and
    data whose lengths fit 32 bits, the number of times an intent ID was
    successfully begun is at most the number of times it was recorded, it
    was settled (confirmed or compensated) at most as often as it was begun,
    and no two intents in the log share an ID. *)
Theorem effects_at_most_once (id : bytes) (os : list effect_op) :
  Forall op_fits os -> blen os < 2 ^ 32 ->
  let '(e, t) := run_effects id os [] (mkTally 0 0 0) in
  begun t <= recorded t /\ settled t <= begun t /\ NoDup (ID <$> e).
Proof.
  intros Hf Hl. pose proof (run_effects_budget id os [] (mkTally 0 0 0) Hf) as H.
  destruct (run_effects id os [] _) as [e t]. destruct H as [[Hb Hc] ?].
  - split_and!; [constructor|constructor|]. rewrite blen_nil. lia.
  - split; vm_compute; congruence.
  - pose proof (may_begin_bounds (state_of id e)). pose proof (may_settle_bounds (state_of id e)).
    split_and!; [lia|lia|done].
Qed.

Definition crash_story : list effect_op :=
  let k := bytes_of "key" in
  [ORecord k (bytes_of "pay"); OBegin k; OBegin k; OResume; OBegin k; OConfirm k; OConfirm k; OPrune].

Lemma effects_at_most_once_witness :
  let '(e, t) := run_effects (bytes_of "key") crash_story [] (mkTally 0 0 0) in
  begun t <= recorded t /\ settled t <= begun t /\ NoDup (ID <$> e).
Proof.
  apply (effects_at_most_once (bytes_of "key") crash_story).
  - repeat constructor; vm_compute; congruence.
  - vm_compute. reflexivity.
Defined.
Example crash_story_tally :
  snd (run_effects (bytes_of "key") crash_story [] (mkTally 0 0 0)) = mkTally 1 1 1.
Proof. vm_compute. reflexivity. Qed.
