(* ===== verification/Lineage.v ===== *)
(** * Signed checkpoint lineage (pkg/lineage/lineage.go)

    Content hashes, the signature over a checkpoint's signing domain and the
    128-byte header extension that carries them. *)
From S2P Require Import Prelude Crypto.

Definition PrevHashSize : Z := 32.
Definition ExtensionSize : Z := PrevHashSize + PublicKeySize + SignatureSize.

Section Lineage.
Context `{Crypto}.

Definition ContentHash (checkpoint : bytes) : bytes := sha256 checkpoint.

Inductive key_error := ErrPrivateKeySize (n : Z).

Definition SignCheckpoint (signingDomain privKey : bytes) : result key_error bytes :=
  if negb (blen privKey =? PrivateKeySize) then Err (ErrPrivateKeySize (blen privKey))
  else Ok (copy_array 64 (ed_sign privKey signingDomain)).

Definition VerifyCheckpoint (signingDomain pubKey sig : bytes) : bool :=
  if negb (blen pubKey =? PublicKeySize) then false
  else ed_verify pubKey signingDomain sig.
End Lineage.

Definition MarshalExtension (prevHash pubKey sig : bytes) : bytes := prevHash ++ pubKey ++ sig.

Inductive extension_error := ErrExtensionTooShort (n : Z).
Record Extension := mkExtension { ext_prevHash : bytes; ext_pubKey : bytes; ext_sig : bytes }.

Definition UnmarshalExtension (data : bytes) : result extension_error Extension :=
  if blen data <? ExtensionSize then Err (ErrExtensionTooShort (blen data))
  else Ok {|
    ext_prevHash := copy_array 32 (slice 0 PrevHashSize data);
    ext_pubKey := copy_array 32 (slice PrevHashSize (PrevHashSize + PublicKeySize) data);
    ext_sig := copy_array 64 (slice (PrevHashSize + PublicKeySize) ExtensionSize data) |}.

Definition BuildSigningDomain (headerBeforeSig state : bytes) : bytes := headerBeforeSig ++ state.

(** ** Lemmas *)
Section Facts.
Context `{CryptoLaws}.

Lemma VerifyCheckpoint_eq d pk sig :
  blen pk = PublicKeySize -> VerifyCheckpoint d pk sig = ed_verify pk d sig.
Proof. intros E. unfold VerifyCheckpoint. by rewrite E. Qed.

Lemma SignCheckpoint_eq d k :
  generated_key k -> SignCheckpoint d k = Ok (ed_sign k d).
Proof.
  intros Hk. unfold SignCheckpoint. rewrite (generated_key_size k Hk). simpl.
  f_equal. apply copy_array_id. rewrite ed_sign_size; [done|by apply generated_key_size].
Qed.

Lemma sign_then_verify d k sig :
  generated_key k -> SignCheckpoint d k = Ok sig ->
  blen sig = SignatureSize /\ VerifyCheckpoint d (ed_public k) sig = true.
Proof.
  intros Hk E. rewrite SignCheckpoint_eq in E by done. injection E as <-.
  split; [by apply ed_sign_size, generated_key_size|].
  rewrite VerifyCheckpoint_eq by (by apply ed_public_size, generated_key_size). by apply generated_key_verify.
Qed.

Lemma SignCheckpoint_total d k : blen k = PrivateKeySize -> is_ok (SignCheckpoint d k) = true.
Proof. intros E. unfold SignCheckpoint. by rewrite E. Qed.
End Facts.

Lemma blen_MarshalExtension ph pk sig :
  blen ph = PrevHashSize -> blen pk = PublicKeySize -> blen sig = SignatureSize ->
  blen (MarshalExtension ph pk sig) = ExtensionSize.
Proof. unfold MarshalExtension, ExtensionSize. autorewrite with igor_len. lia. Qed.

Lemma UnmarshalExtension_Marshal ph pk sig post :
  blen ph = PrevHashSize -> blen pk = PublicKeySize -> blen sig = SignatureSize ->
  UnmarshalExtension (MarshalExtension ph pk sig ++ post) = Ok (mkExtension ph pk sig).
Proof.
  intros H1 H2 H3. unfold UnmarshalExtension.
  rewrite blen_app, (blen_MarshalExtension _ _ _ H1 H2 H3). pose proof (blen_nonneg post).
  destruct (Z.ltb_spec (ExtensionSize + blen post) ExtensionSize); [lia|].
  unfold MarshalExtension. rewrite <- !app_assoc. do 2 f_equal.
  - change (slice 0 PrevHashSize ?l) with (slice 0 PrevHashSize ([] ++ l)).
    rewrite (slice_app_mid [] ph) by (rewrite ?blen_nil; first [done | by rewrite H1]). by apply copy_array_id.
  - rewrite (slice_app_mid ph pk) by lia. by apply copy_array_id.
  - rewrite app_assoc, (slice_app_mid (ph ++ pk) sig) by (rewrite blen_app; unfold ExtensionSize; lia).
    by apply copy_array_id.
Qed.
