(* ===== verification/Receipt.v ===== *)
(** * Payment receipts (pkg/receipt/receipt.go)

    Canonical sign data, signing and verification, and the binary encodings of
    one receipt and of a list of receipts. *)
From S2P Require Import Prelude Crypto.

Record Receipt := mkReceipt {
  AgentID : string; NodeID : string;
  EpochStart : Z; EpochEnd : Z;
  CostMicrocents : Z; BudgetAfter : Z; Timestamp : Z;
  Signature : bytes }.
#[export] Instance receipt_eq_dec : EqDecision Receipt.
Proof. solve_decision. Defined.

Definition with_signature (s : bytes) (r : Receipt) : Receipt :=
  mkReceipt (AgentID r) (NodeID r) (EpochStart r) (EpochEnd r) (CostMicrocents r) (BudgetAfter r)
    (Timestamp r) s.

(** A length-prefixed string. *)
Definition put_str (s : bytes) : bytes := put_u32 (u32 (blen s)) ++ s.

Definition MarshalSignData (r : Receipt) : bytes :=
  put_str (bytes_of (AgentID r)) ++ put_str (bytes_of (NodeID r)) ++
  put_u64 (EpochStart r) ++ put_u64 (EpochEnd r) ++
  put_u64 (u64 (CostMicrocents r)) ++ put_u64 (u64 (BudgetAfter r)) ++ put_u64 (u64 (Timestamp r)).

Inductive sign_error := ErrKeySize.

Section Signing.
Context `{Crypto}.

Definition Sign (key : bytes) (r : Receipt) : result sign_error unit * Receipt :=
  if negb (blen key =? PrivateKeySize) then (Err ErrKeySize, r)
  else (Ok tt, with_signature (ed_sign key (MarshalSignData r)) r).

Definition Verify (key : bytes) (r : Receipt) : bool :=
  if negb (blen key =? PublicKeySize) || negb (blen (Signature r) =? SignatureSize) then false
  else ed_verify key (MarshalSignData r) (Signature r).
End Signing.

Definition MarshalBinary (r : Receipt) : bytes :=
  MarshalSignData r ++ put_u32 (u32 (blen (Signature r))) ++ Signature r.

Inductive parse_error :=
| ErrTooShort | ErrTruncatedUint32 | ErrTruncatedUint64 | ErrTruncatedString (need have : Z)
| ErrTruncatedSignature (need have : Z)
| ErrField (field : string) (e : parse_error)
| ErrEntryLength (i : Z) | ErrEntryData (i : Z) | ErrEntry (i : Z) (e : parse_error)
| ErrFuel.

(** The closures [readUint32], [readUint64] and [readString] of
    [UnmarshalBinary] share [data] and advance [pos]. *)
Section Reading.
Variable data : bytes.
Definition reader (A : Type) := Z -> result parse_error (A * Z).
#[local] Instance reader_ret : MRet reader := fun _ a pos => Ok (a, pos).
#[local] Instance reader_bind : MBind reader := fun _ _ f m pos =>
  match m pos with Ok (a, pos) => f a pos | Err e => Err e end.

Definition readUint32 : reader Z := fun pos =>
  if blen data <? pos + 4 then Err ErrTruncatedUint32
  else Ok (get_u32 (slice pos (pos + 4) data), pos + 4).
Definition readUint64 : reader Z := fun pos =>
  if blen data <? pos + 8 then Err ErrTruncatedUint64
  else Ok (get_u64 (slice pos (pos + 8) data), pos + 8).
Definition readBlob (e : Z -> Z -> parse_error) (n : Z) : reader bytes := fun pos =>
  if blen data <? pos + n then Err (e n (blen data - pos))
  else Ok (slice pos (pos + n) data, pos + n).
Definition readString : reader string :=
  slen ← readUint32; s ← readBlob ErrTruncatedString slen; mret (string_of s).
Definition field {A} (name : string) (m : reader A) : reader A := fun pos =>
  map_err (ErrField name) (m pos).

Definition read_receipt : reader Receipt :=
  agentID ← field "agentID" readString;
  nodeID ← field "nodeID" readString;
  epochStart ← field "epochStart" readUint64;
  epochEnd ← field "epochEnd" readUint64;
  cost ← field "costMicrocents" readUint64;
  budgetAfter ← field "budgetAfter" readUint64;
  timestamp ← field "timestamp" readUint64;
  sigLen ← field "sigLen" readUint32;
  sig ← readBlob ErrTruncatedSignature sigLen;
  mret (mkReceipt agentID nodeID epochStart epochEnd (i64 cost) (i64 budgetAfter) (i64 timestamp) sig).
End Reading.
#[export] Existing Instances reader_ret reader_bind.

Definition UnmarshalBinary (data : bytes) : result parse_error Receipt :=
  if blen data <? 4 then Err ErrTooShort
  else fst <$> read_receipt data 0.

Definition put_entry (r : Receipt) : bytes := put_str (MarshalBinary r).
Definition MarshalReceipts (receipts : list Receipt) : bytes :=
  put_u32 (u32 (blen receipts)) ++ concat (put_entry <$> receipts).

(** The loop of [UnmarshalReceipts] at round [i]; every round that goes on
    consumes at least four bytes. *)
Fixpoint unmarshal_loop (fuel : nat) (data : bytes) (count i pos : Z) (acc : list Receipt)
    : result parse_error (list Receipt) :=
  match fuel with
  | O => Err ErrFuel
  | S fuel =>
      if count <=? i then Ok acc
      else if blen data <? pos + 4 then Err (ErrEntryLength i)
      else
        let rlen := get_u32 (slice pos (pos + 4) data) in
        let pos := pos + 4 in
        if blen data <? pos + rlen then Err (ErrEntryData i)
        else
          match UnmarshalBinary (slice pos (pos + rlen) data) with
          | Err e => Err (ErrEntry i e)
          | Ok r => unmarshal_loop fuel data count (i + 1) (pos + rlen) (acc ++ [r])
          end
  end.

Definition UnmarshalReceipts (data : bytes) : result parse_error (list Receipt) :=
  if blen data <? 4 then Err ErrTooShort
  else unmarshal_loop (S (length data)) data (get_u32 (take 4 data)) 0 4 [].

(** ** Reading back *)
Definition parses {A} (m : bytes -> reader A) (enc : bytes) (a : A) : Prop :=
  forall pre post, m (pre ++ enc ++ post) (blen pre) = Ok (a, blen pre + blen enc).

Lemma parses_ret {A} (a : A) : parses (fun _ => mret a) [] a.
Proof. intros pre post. rewrite blen_nil, Z.add_0_r. done. Qed.

Lemma parses_bind {A B} (m : bytes -> reader A) (f : A -> bytes -> reader B) e1 e2 a b :
  parses m e1 a -> parses (f a) e2 b -> parses (fun d => m d ≫= fun x => f x d) (e1 ++ e2) b.
Proof.
  intros Hm Hf pre post. unfold mbind, reader_bind. rewrite <- app_assoc, Hm.
  specialize (Hf (pre ++ e1) post). rewrite <- app_assoc, blen_app in Hf. rewrite Hf.
  rewrite blen_app. do 2 f_equal. lia.
Qed.

Lemma parses_field {A} name (m : bytes -> reader A) e a :
  parses m e a -> parses (fun d => field name (m d)) e a.
Proof. intros Hm pre post. unfold field. by rewrite Hm. Qed.

Lemma parses_readBlob er b : parses (fun d => readBlob d er (blen b)) b b.
Proof.
  intros pre post. unfold readBlob. rewrite slice_app_mid by done.
  destruct (Z.ltb_spec (blen (pre ++ b ++ post)) (blen pre + blen b)) as [H|]; [|done].
  rewrite !blen_app in H. pose proof (blen_nonneg post). lia.
Qed.
Lemma parses_readUint32 z : parses readUint32 (put_u32 z) (u32 z).
Proof.
  intros pre post. unfold readUint32. rewrite slice_app_mid by (rewrite ?blen_put_u32; done).
  destruct (Z.ltb_spec (blen (pre ++ put_u32 z ++ post)) (blen pre + 4)) as [H|].
  - rewrite !blen_app, blen_put_u32 in H. pose proof (blen_nonneg post). lia.
  - by rewrite <- (app_nil_r (put_u32 z)), get_put_u32, app_nil_r, blen_put_u32.
Qed.
Lemma parses_readUint64 z : parses readUint64 (put_u64 z) (u64 z).
Proof.
  intros pre post. unfold readUint64. rewrite slice_app_mid by (rewrite ?blen_put_u64; done).
  destruct (Z.ltb_spec (blen (pre ++ put_u64 z ++ post)) (blen pre + 8)) as [H|].
  - rewrite !blen_app, blen_put_u64 in H. pose proof (blen_nonneg post). lia.
  - by rewrite <- (app_nil_r (put_u64 z)), get_put_u64, app_nil_r, blen_put_u64.
Qed.
Lemma parses_readLen (b : bytes) : is_u32 (blen b) -> parses readUint32 (put_u32 (u32 (blen b))) (blen b).
Proof.
  intros Hb. rewrite (u32_id (blen b)) by done.
  rewrite <- (u32_id (blen b)) at 2 by done. apply parses_readUint32.
Qed.
Lemma parses_sized {A} (m : Z -> bytes -> reader A) (b e : bytes) (a : A) :
  is_u32 (blen b) -> parses (m (blen b)) e a ->
  parses (fun d => readUint32 d ≫= fun n => m n d) (put_u32 (u32 (blen b)) ++ e) a.
Proof.
  intros Hb Hm. apply (parses_bind _ m _ _ (blen b)); [|done].
  by apply parses_readLen.
Qed.
Lemma parses_readString s :
  is_u32 (blen (bytes_of s)) -> parses readString (put_str (bytes_of s)) s.
Proof.
  intros Hs. unfold readString, put_str.
  apply (parses_sized (fun n d => s ← readBlob d ErrTruncatedString n; mret (string_of s)) (bytes_of s)); [done|].
  rewrite <- (app_nil_r (bytes_of s)).
  apply (parses_bind _ (fun s _ => mret (string_of s)) _ _ (bytes_of s)).
  - rewrite app_nil_r. apply parses_readBlob.
  - rewrite string_of_bytes_of. apply parses_ret.
Qed.

Record receipt_ok (r : Receipt) : Prop := {
  ok_agent : is_u32 (blen (bytes_of (AgentID r)));
  ok_node : is_u32 (blen (bytes_of (NodeID r)));
  ok_start : is_u64 (EpochStart r);
  ok_end : is_u64 (EpochEnd r);
  ok_cost : is_i64 (CostMicrocents r);
  ok_after : is_i64 (BudgetAfter r);
  ok_time : is_i64 (Timestamp r);
  ok_sig : is_u32 (blen (Signature r)) }.

Lemma parses_u64_field name v : is_u64 v -> parses (fun d => field name (readUint64 d)) (put_u64 v) v.
Proof.
  intros Hv. pose proof (parses_field name _ _ _ (parses_readUint64 v)) as H. by rewrite (u64_id v) in H.
Qed.

Ltac parses_u64 v :=
  match goal with |- parses (fun d => field ?n (readUint64 d) ≫= fun x => @?g x d) _ _ =>
    apply (parses_bind (fun d => field n (readUint64 d)) g _ _ v);
    [apply parses_u64_field; auto with igor|cbv beta] end.

Lemma parses_receipt r : receipt_ok r -> parses read_receipt (MarshalBinary r) r.
Proof.
  intros [? ? ? ? ? ? ? ?]. destruct r as [aid nid es ee c b t sig]; simpl in *.
  unfold MarshalBinary, MarshalSignData, read_receipt; cbn [AgentID NodeID EpochStart EpochEnd CostMicrocents BudgetAfter Timestamp Signature].
  rewrite <- !app_assoc.
  match goal with |- parses (fun d => field ?n (readString d) ≫= fun x => @?g x d) _ _ =>
    apply (parses_bind (fun d => field n (readString d)) g _ _ aid);
    [by apply parses_field, parses_readString|cbv beta] end.
  match goal with |- parses (fun d => field ?n (readString d) ≫= fun x => @?g x d) _ _ =>
    apply (parses_bind (fun d => field n (readString d)) g _ _ nid);
    [by apply parses_field, parses_readString|cbv beta] end.
  parses_u64 es. parses_u64 ee. parses_u64 (u64 c). parses_u64 (u64 b). parses_u64 (u64 t).
  match goal with |- parses (fun d => field ?n (readUint32 d) ≫= fun x => @?g x d) _ _ =>
    apply (parses_bind (fun d => field n (readUint32 d)) g _ _ (blen sig)) end.
  - by apply parses_field, parses_readLen.
  - cbv beta. rewrite !i64_of_u64 by done. 
    match goal with |- parses (fun d => readBlob d ?er ?n ≫= fun x => @?g x d) _ ?r =>
      pose proof (parses_bind (fun d => readBlob d er n) g sig [] sig r (parses_readBlob _ _) (parses_ret r)) as Hp
    end.
    by rewrite app_nil_r in Hp.
Qed.

Lemma blen_MarshalSignData_pos r : 48 <= blen (MarshalSignData r).
Proof.
  unfold MarshalSignData, put_str. autorewrite with igor_len.
  pose proof (blen_nonneg (bytes_of (AgentID r))). pose proof (blen_nonneg (bytes_of (NodeID r))). lia.
Qed.

Lemma UnmarshalBinary_Marshal r post :
  receipt_ok r -> UnmarshalBinary (MarshalBinary r ++ post) = Ok r.
Proof.
  intros Hr. unfold UnmarshalBinary.
  assert (4 <= blen (MarshalBinary r ++ post)) as Hl.
  { unfold MarshalBinary. autorewrite with igor_len. pose proof (blen_MarshalSignData_pos r).
    pose proof (blen_nonneg (Signature r)). pose proof (blen_nonneg post). lia. }
  destruct (Z.ltb_spec (blen (MarshalBinary r ++ post)) 4); [lia|].
  pose proof (parses_receipt r Hr [] post) as H'. rewrite app_nil_l, blen_nil in H'. by rewrite H'.
Qed.

Lemma Verify_Sign `{CryptoLaws} k r :
  generated_key k -> Verify (ed_public k) (snd (Sign k r)) = true.
Proof.
  intros Hk. unfold Sign, Verify. rewrite (generated_key_size k Hk). simpl.
  rewrite ed_public_size, ed_sign_size by (by apply generated_key_size). simpl.
  by apply generated_key_verify.
Qed.

Lemma receipt_ok_with_signature r s :
  receipt_ok r -> is_u32 (blen s) -> receipt_ok (with_signature s r).
Proof. intros [] ?. by split. Qed.

Lemma sign_data_inj r1 r2 :
  receipt_ok r1 -> receipt_ok r2 -> MarshalSignData r1 = MarshalSignData r2 ->
  with_signature [] r1 = with_signature [] r2.
Proof.
  intros H1 H2 E.
  assert (forall r, receipt_ok r -> UnmarshalBinary (MarshalBinary (with_signature [] r) ++ []) = Ok (with_signature [] r)) as R.
  { intros r Hr. apply UnmarshalBinary_Marshal, receipt_ok_with_signature; [done|]. by rewrite blen_nil. }
  pose proof (R r1 H1) as E1. pose proof (R r2 H2) as E2.
  unfold MarshalBinary in E1, E2. change (MarshalSignData (with_signature [] ?r)) with (MarshalSignData r) in E1, E2.
  simpl Signature in E1, E2. rewrite E, E2 in E1. congruence.
Qed.

Definition list_ok (rs : list Receipt) : Prop :=
  is_u32 (blen rs) /\ Forall (fun r => receipt_ok r /\ is_u32 (blen (MarshalBinary r))) rs.

Lemma receipts_loop_spec rs : forall fuel pre post acc i,
  Forall (fun r => receipt_ok r /\ is_u32 (blen (MarshalBinary r))) rs -> (length rs < fuel)%nat ->
  unmarshal_loop fuel (pre ++ concat (put_entry <$> rs) ++ post) (i + blen rs) i (blen pre) acc = Ok (acc ++ rs).
Proof.
  induction rs as [|r rs IH]; intros fuel pre post acc i Hf Hfuel; destruct fuel as [|fuel]; try (simpl in Hfuel; lia).
  - cbn [unmarshal_loop]. rewrite blen_nil, Z.add_0_r, Z.leb_refl, app_nil_r. done.
  - inversion Hf as [|? ? [Hr Hl] Hrs]; subst. rewrite fmap_cons. cbn [concat unmarshal_loop].
    rewrite blen_cons. destruct (Z.leb_spec (i + (1 + blen rs)) i); [pose proof (blen_nonneg rs); lia|].
    set (b := MarshalBinary r) in *. set (tail := concat (put_entry <$> rs) ++ post).
    assert (put_entry r = put_u32 (blen b) ++ b) as -> by (unfold put_entry, put_str; by rewrite u32_id).
    rewrite <- !(app_assoc _ _ post), <- (app_assoc _ b). fold tail.
    pose proof (blen_nonneg b). pose proof (blen_nonneg tail).
    destruct (Z.ltb_spec (blen (pre ++ put_u32 (blen b) ++ b ++ tail)) (blen pre + 4)) as [Hx|_];
      [autorewrite with igor_len in Hx; lia|].
    rewrite (slice_app_mid pre) by (by rewrite ?blen_put_u32).
    assert (get_u32 (put_u32 (blen b)) = blen b) as ->
      by (by rewrite get_put_u32', u32_id).
    destruct (Z.ltb_spec (blen (pre ++ put_u32 (blen b) ++ b ++ tail)) (blen pre + 4 + blen b)) as [Hx|_];
      [autorewrite with igor_len in Hx; lia|].
    rewrite (app_assoc pre (put_u32 (blen b)) (b ++ tail)), (slice_app_mid (pre ++ put_u32 (blen b)) b tail)
      by (autorewrite with igor_len; lia).
    rewrite <- (app_nil_r b) at 1. unfold b at 1. rewrite UnmarshalBinary_Marshal by done.
    rewrite app_assoc. replace (blen pre + 4 + blen b) with (blen ((pre ++ put_u32 (blen b)) ++ b))
      by (autorewrite with igor_len; lia).
    replace (i + (1 + blen rs)) with (i + 1 + blen rs) by lia.
    unfold tail. rewrite IH by (done || simpl in Hfuel; lia). by rewrite <- app_assoc.
Qed.

Lemma UnmarshalReceipts_Marshal rs post :
  list_ok rs -> UnmarshalReceipts (MarshalReceipts rs ++ post) = Ok rs.
Proof.
  intros [Hl Hf]. unfold UnmarshalReceipts, MarshalReceipts. rewrite <- app_assoc.
  set (body := concat (put_entry <$> rs)).
  destruct (Z.ltb_spec (blen (put_u32 (u32 (blen rs)) ++ body ++ post)) 4) as [Hx|_].
  { autorewrite with igor_len in Hx. pose proof (blen_nonneg body). pose proof (blen_nonneg post). lia. }
  rewrite (take_app_length' (put_u32 _)) by (by rewrite length_put_u32).
  rewrite get_put_u32', (u32_id (u32 _)), u32_id by auto with igor.
  pose proof (receipts_loop_spec rs (S (length (put_u32 (blen rs) ++ body ++ post))) (put_u32 (blen rs)) post [] 0 Hf) as H.
  rewrite blen_put_u32, Z.add_0_l in H. apply H.
  rewrite !length_app, length_put_u32. enough (length rs <= length body)%nat by lia.
  unfold body. clear. induction rs as [|r rs IH]; [done|]. rewrite fmap_cons. cbn [concat length].
  unfold put_entry at 1, put_str. rewrite !length_app, length_put_u32. lia.
Qed.

(** The loop returns within its fuel, with one receipt per round. *)
Lemma unmarshal_loop_total f : forall data count i pos acc,
  pos <= blen data -> blen data - pos < Z.of_nat f -> i <= count ->
  match unmarshal_loop f data count i pos acc with
  | Ok rs => blen rs = blen acc + (count - i)
  | Err e => e <> ErrFuel
  end.
Proof.
  induction f as [|f IH]; intros data count i pos acc Hp Hf Hi; [lia|]. cbn [unmarshal_loop].
  destruct (Z.leb_spec count i); [lia|].
  destruct (Z.ltb_spec (blen data) (pos + 4)); [done|].
  set (rlen := get_u32 _). assert (0 <= rlen) by apply get_u32_range.
  destruct (Z.ltb_spec (blen data) (pos + 4 + rlen)); [done|].
  destruct (UnmarshalBinary _) as [r|]; [|done].
  specialize (IH data count (i + 1) (pos + 4 + rlen) (acc ++ [r])).
  destruct (unmarshal_loop f _ _ _ _ _) as [rs|e]; [|apply IH; lia].
  rewrite IH by lia. autorewrite with igor_len. lia.
Qed.

Lemma UnmarshalReceipts_total data :
  match UnmarshalReceipts data with
  | Ok rs => blen rs = get_u32 (take 4 data)
  | Err e => e <> ErrFuel
  end.
Proof.
  unfold UnmarshalReceipts. destruct (Z.ltb_spec (blen data) 4); [done|].
  pose proof (unmarshal_loop_total (S (length data)) data (get_u32 (take 4 data)) 0 4 []) as H'.
  pose proof (get_u32_range (take 4 data)) as [? _].
  destruct (unmarshal_loop _ _ _ _ _ _); [rewrite H', blen_nil|apply H']; unfold blen in *; lia.
Qed.

(** ** Claims *)

(** a signed receipt survives storage and transfer.  Signing a list of
    receipts with a node's generated key, encoding the list and decoding it
    (whatever bytes follow) gives back exactly the signed receipts, and each
    one still verifies under the node's public key. *)
Theorem signed_receipts_roundtrip `{CryptoLaws} (key : bytes) (rs : list Receipt) (post : bytes) :
  generated_key key -> list_ok ((fun r => snd (Sign key r)) <$> rs) ->
  let signed := (fun r => snd (Sign key r)) <$> rs in
  UnmarshalReceipts (MarshalReceipts signed ++ post) = Ok signed /\
  Forall (fun r => Verify (ed_public key) r = true) signed.
Proof.
  intros Hk Hok signed. split; [by apply UnmarshalReceipts_Marshal|].
  apply Forall_fmap, Forall_true. intros r. by apply Verify_Sign.
Qed.

Definition sample_receipt : Receipt :=
  mkReceipt "agent-1" "12D3KooWnode" 1 50 1200 998800 1700000000000000000 [].
Definition sample_key : bytes := ed_new_key (zeros 32).
Lemma sample_key_generated : generated_key sample_key.
Proof. by exists (zeros 32). Qed.

Lemma signed_receipts_roundtrip_witness :
  let signed := (fun r => snd (Sign sample_key r)) <$> [sample_receipt; sample_receipt] in
  UnmarshalReceipts (MarshalReceipts signed ++ []) = Ok signed /\
  Forall (fun r => Verify (ed_public sample_key) r = true) signed.
Proof.
  apply (signed_receipts_roundtrip sample_key [sample_receipt; sample_receipt] []).
  - apply sample_key_generated.
  - split; [vm_compute; split; congruence|].
    repeat constructor; vm_compute; congruence.
Defined.

(** the signed encoding is canonical.  Two receipts with the same sign
    data agree on every field but the signature, so a signature covers the
    agent, the node, the epoch, the cost, the remaining budget and the time. *)
Theorem sign_data_injective (r1 r2 : Receipt) :
  receipt_ok r1 -> receipt_ok r2 -> MarshalSignData r1 = MarshalSignData r2 ->
  with_signature [] r1 = with_signature [] r2.
Proof. apply sign_data_inj. Qed.

Lemma sign_data_injective_witness :
  with_signature [] sample_receipt =
  with_signature [] (with_signature (bytes_of "sig") sample_receipt).
Proof.
  apply sign_data_injective; [split; vm_compute; split; congruence..|].
  vm_compute. reflexivity.
Defined.

(** Decoding a list of receipts always terminates with a result: on any
    bytes the loop ends within its fuel, and a successful decoding holds
    exactly as many receipts as the four-byte count announced. *)
Theorem unmarshal_receipts_total (data : bytes) :
  match UnmarshalReceipts data with
  | Ok rs => blen rs = get_u32 (take 4 data)
  | Err e => e <> ErrFuel
  end.
Proof. apply UnmarshalReceipts_total. Qed.
