(* ===== verification/Identity.v ===== *)
(** * Agent identities (pkg/identity: identity.go, did.go, loader.go)

    Ed25519 key pairs, their stored form, the [did:key] encoding over base58,
    and [LoadOrGenerate] against the [Store] interface. *)
From S2P Require Import Prelude Crypto.

(** ** Numerals in a base, least significant digit first (math/big) *)
Fixpoint digits_loop (fuel : nat) (b z : Z) : list Z :=
  match fuel with
  | O => []
  | S fuel => if z <=? 0 then [] else z mod b :: digits_loop fuel b (z / b)
  end.
(** Each division at least halves [z]. *)
Definition digits (b z : Z) : list Z := digits_loop (S (Z.to_nat (Z.log2 z))) b z.
Definition numeral (b : Z) (ds : list Z) : Z := foldr (fun d acc => d + b * acc) 0 ds.

(** [new(big.Int).SetBytes(data)] and [x.Bytes()]. *)
Definition SetBytes (data : bytes) : Z := fold_left (fun x c => x * 256 + Z_of_byte c) data 0.
Definition Bytes_ (x : Z) : bytes := byte_of_Z <$> reverse (digits 256 x).

(** ** did.go *)
Definition base58Alphabet : bytes :=
  bytes_of "123456789ABCDEFGHJKLMNPQRSTUVWXYZabcdefghijkmnopqrstuvwxyz".
Definition alpha (i : Z) : byte := nth (Z.to_nat i) base58Alphabet Byte.x00.
(** Bytes equal to [b] at the start of [l]. *)
Fixpoint leading (b : byte) (l : bytes) : nat :=
  match l with [] => O | x :: l => if bool_decide (x = b) then S (leading b l) else O end.

Definition base58Encode (data : bytes) : bytes :=
  reverse ((alpha <$> digits 58 (SetBytes data)) ++ replicate (leading Byte.x00 data) (alpha 0)).

(** The inner search loop: the index of [c] in the alphabet. *)
Fixpoint index_of (c : byte) (l : bytes) (i : Z) : option Z :=
  match l with [] => None | a :: l => if bool_decide (a = c) then Some i else index_of c l (i + 1) end.
Fixpoint decode_loop (s : bytes) (result : Z) : option Z :=
  match s with
  | [] => Some result
  | c :: s =>
      match index_of c base58Alphabet 0 with
      | None => None
      | Some idx => decode_loop s (result * 58 + idx)
      end
  end.
Definition base58Decode (s : bytes) : option bytes :=
  match decode_loop s 0 with
  | None => None
  | Some result => Some (replicate (leading (alpha 0) s) Byte.x00 ++ Bytes_ result)
  end.

Inductive did_error :=
| ErrDIDTooShort | ErrDIDPrefix | ErrDIDBase58 | ErrDIDDecodedTooShort
| ErrDIDCodec (a b : byte) | ErrDIDKeySize (n : Z).

Definition did_prefix : bytes := bytes_of "did:key:z".
Definition DID (publicKey : bytes) : bytes :=
  did_prefix ++ base58Encode (byte_of_Z 237 :: byte_of_Z 1 :: publicKey).
Definition DIDShort (publicKey : bytes) : bytes :=
  let did := DID publicKey in
  if blen did <=? 24 then did
  else slice 0 16 did ++ bytes_of "..." ++ slice (blen did - 4) (blen did) did.
Definition ParseDID (did : bytes) : result did_error bytes :=
  if blen did <=? blen did_prefix then Err ErrDIDTooShort
  else if negb (bool_decide (slice 0 (blen did_prefix) did = did_prefix)) then Err ErrDIDPrefix
  else
    match base58Decode (slice (blen did_prefix) (blen did) did) with
    | None => Err ErrDIDBase58
    | Some (a :: b :: pubKey) =>
        if negb (Z_of_byte a =? 237) || negb (Z_of_byte b =? 1) then Err (ErrDIDCodec a b)
        else if negb (blen pubKey =? 32) then Err (ErrDIDKeySize (blen pubKey))
        else Ok pubKey
    | Some _ => Err ErrDIDDecodedTooShort
    end.

(** ** identity.go *)
Record AgentIdentity := mkIdentity { PublicKey : bytes; PrivateKey : bytes }.
Inductive identity_error :=
| ErrIdRand | ErrIdKeySize | ErrIdTooShort | ErrIdKeyLength (n : Z) | ErrIdTruncated | ErrIdSave.

Section Identity.
Context `{Crypto}.

(** [rand.Reader] either fails or yields the 32-byte seed. *)
Definition Generate (rnd : option bytes) : result identity_error AgentIdentity :=
  match rnd with
  | None => Err ErrIdRand
  | Some seed => let priv := ed_new_key seed in Ok (mkIdentity (ed_public priv) priv)
  end.
Definition FromPrivateKey (priv : bytes) : result identity_error AgentIdentity :=
  if negb (blen priv =? PrivateKeySize) then Err ErrIdKeySize
  else Ok (mkIdentity (ed_public priv) priv).
Definition MarshalBinary (id : AgentIdentity) : bytes :=
  put_u32 (u32 (blen (PrivateKey id))) ++ PrivateKey id.
Definition UnmarshalBinary (data : bytes) : result identity_error AgentIdentity :=
  if blen data <? 4 then Err ErrIdTooShort
  else
    let keyLen := get_u32 (take 4 data) in
    if negb (keyLen =? PrivateKeySize) then Err (ErrIdKeyLength keyLen)
    else if blen data <? 4 + keyLen then Err ErrIdTruncated
    else FromPrivateKey (slice 4 (4 + keyLen) data).
End Identity.

(** ** loader.go: the [Store] interface and [LoadOrGenerate] *)
Class Store (St : Type) := {
  LoadIdentity : St -> string -> option bytes;
  SaveIdentity : St -> string -> bytes -> bool * St;
  (** no read fails for another reason than a missing file *)
  identity_readable : St -> Prop }.
(** What a store promises: a saved identity is the one loaded. *)
Class StoreLaws (St : Type) (S : Store St) : Prop := {
  load_after_save s id data s' :
    SaveIdentity s id data = (true, s') -> identity_readable s' -> LoadIdentity s' id = Some data }.

Section Loader.
Context `{Crypto} {St : Type} `{Store St}.

Definition LoadOrGenerate (st : St) (agentID : string) (rnd : option bytes)
    : result identity_error AgentIdentity * St :=
  let generate :=
    match Generate rnd with
    | Err e => (Err e, st)
    | Ok id =>
        let '(saved, st) := SaveIdentity st agentID (MarshalBinary id) in
        if saved then (Ok id, st) else (Err ErrIdSave, st)
    end in
  match LoadIdentity st agentID with
  | Some data => match UnmarshalBinary data with Ok id => (Ok id, st) | Err _ => generate end
  | None => generate
  end.
End Loader.

(** ** Lemmas: numerals *)
Lemma digits_loop_numeral b fuel : 2 <= b -> forall z,
  0 <= z < 2 ^ Z.of_nat fuel -> numeral b (digits_loop fuel b z) = z.
Proof.
  intros Hb. induction fuel as [|fuel IH]; intros z Hz.
  - simpl in *. lia.
  - cbn [digits_loop]. destruct (Z.leb_spec z 0); [simpl; lia|].
    unfold numeral in *. cbn [foldr]. rewrite IH.
    + rewrite (Z.div_mod z b) at 3 by lia. lia.
    + split; [apply Z.div_pos; lia|]. apply Z.div_lt_upper_bound; [lia|].
      rewrite Nat2Z.inj_succ, Z.pow_succ_r in Hz by lia.
      assert (0 < 2 ^ Z.of_nat fuel) by (apply Z.pow_pos_nonneg; lia). nia.
Qed.
Lemma digits_numeral b z : 2 <= b -> 0 <= z -> numeral b (digits b z) = z.
Proof.
  intros. apply digits_loop_numeral; [done|]. split; [done|].
  destruct (Z.eq_dec z 0) as [->|]; [done|].
  rewrite Nat2Z.inj_succ, Z2Nat.id by apply Z.log2_nonneg. apply Z.log2_spec. lia.
Qed.

Definition canonical (b : Z) (ds : list Z) : Prop :=
  Forall (fun d => 0 <= d < b) ds /\ last ds <> Some 0.

Lemma digits_loop_canonical b fuel : 2 <= b -> forall z,
  0 <= z < 2 ^ Z.of_nat fuel -> canonical b (digits_loop fuel b z).
Proof.
  intros Hb. induction fuel as [|fuel IH]; intros z Hz; [by split|].
  cbn [digits_loop]. destruct (Z.leb_spec z 0); [by split|].
  assert (0 <= z / b < 2 ^ Z.of_nat fuel) as Hq.
  { split; [apply Z.div_pos; lia|]. apply Z.div_lt_upper_bound; [lia|].
    rewrite Nat2Z.inj_succ, Z.pow_succ_r in Hz by lia. nia. }
  destruct (IH _ Hq) as [Hf Hl]. split.
  - constructor; [|done]. apply Z.mod_pos_bound. lia.
  - destruct (digits_loop fuel b (z / b)) as [|d ds] eqn:E; [|by rewrite last_cons_cons].
    simpl. intros [= Hm].
    pose proof (digits_loop_numeral b fuel Hb _ Hq) as Hn. rewrite E in Hn. simpl in Hn.
    rewrite (Z.div_mod z b) in H by lia. lia.
Qed.
Lemma digits_canonical b z : 2 <= b -> 0 <= z -> canonical b (digits b z).
Proof.
  intros. apply digits_loop_canonical; [done|]. split; [done|].
  destruct (Z.eq_dec z 0) as [->|]; [done|].
  rewrite Nat2Z.inj_succ, Z2Nat.id by apply Z.log2_nonneg. apply Z.log2_spec. lia.
Qed.

Lemma numeral_zero b ds : 2 <= b -> canonical b ds -> numeral b ds = 0 -> ds = [].
Proof.
  intros Hb. induction ds as [|d ds IH]; [done|]. intros [Hf Hl] Hn.
  inversion Hf as [|? ? Hd Hds]; subst. simpl in Hn.
  assert (0 <= numeral b ds) as Hpos.
  { clear -Hds Hb. induction Hds; simpl; [done|]. unfold numeral in *. nia. }
  unfold numeral in *. assert (d = 0) by nia. subst d.
  destruct ds as [|d' ds']; [done|]. exfalso.
  rewrite last_cons_cons in Hl. discriminate IH; [by split|nia].
Qed.

Lemma canonical_inj b ds1 : 2 <= b -> forall ds2,
  canonical b ds1 -> canonical b ds2 -> numeral b ds1 = numeral b ds2 -> ds1 = ds2.
Proof.
  intros Hb. induction ds1 as [|d1 ds1 IH]; intros ds2 H1 H2 E.
  - symmetry. by apply (numeral_zero b).
  - destruct ds2 as [|d2 ds2]; [by apply (numeral_zero b) in E|].
    destruct H1 as [F1 L1], H2 as [F2 L2]. inversion F1; subst. inversion F2; subst.
    cbn [numeral foldr] in E. fold (numeral b ds1) (numeral b ds2) in E.
    assert (d1 = d2) as ->.
    { apply (f_equal (fun z => z mod b)) in E. rewrite !(Z.mul_comm b), !Z.mod_add, !Z.mod_small in E by lia. done. }
    f_equal. apply IH; [split; [done|]..|nia].
    + destruct ds1; [done|]. by rewrite last_cons_cons in L1.
    + destruct ds2; [done|]. by rewrite last_cons_cons in L2.
Qed.

(** ** Lemmas: base58 *)
Lemma foldl_numeral b ds : fold_left (fun x d => x * b + d) (reverse ds) 0 = numeral b ds.
Proof.
  induction ds as [|d ds IH]; [done|]. rewrite reverse_cons, fold_left_app, IH. simpl.
  unfold numeral. simpl. lia.
Qed.
Lemma SetBytes_numeral l : SetBytes l = numeral 256 (reverse (Z_of_byte <$> l)).
Proof.
  rewrite <- foldl_numeral, reverse_involutive. unfold SetBytes. generalize 0.
  induction l as [|b l IH]; intros z; simpl; [done|]. by rewrite IH.
Qed.
Lemma SetBytes_nonneg l : 0 <= SetBytes l.
Proof.
  unfold SetBytes. enough (forall z, 0 <= z -> 0 <= fold_left (fun x c => x * 256 + Z_of_byte c) l z) as H by by apply H.
  induction l as [|b l IH]; intros z Hz; [done|]. apply IH. pose proof (Z_of_byte_range b). lia.
Qed.
Lemma SetBytes_zeros k l : SetBytes (replicate k Byte.x00 ++ l) = SetBytes l.
Proof. unfold SetBytes. rewrite fold_left_app. f_equal. by induction k as [|k IH]. Qed.

Lemma Bytes_SetBytes l : head l <> Some Byte.x00 -> Bytes_ (SetBytes l) = l.
Proof.
  intros Hh. unfold Bytes_.
  assert (digits 256 (SetBytes l) = reverse (Z_of_byte <$> l)) as ->.
  { apply (canonical_inj 256); [done|apply digits_canonical; [done|apply SetBytes_nonneg]| |].
    - split.
      + apply Forall_reverse, Forall_fmap, Forall_true. intros b. apply Z_of_byte_range.
      + destruct l as [|b l]; [done|]. rewrite fmap_cons, reverse_cons, last_snoc.
        intros [= Hz]. apply Hh. simpl. by rewrite <- (byte_of_Z_of_byte b), Hz.
    - rewrite digits_numeral by (done || apply SetBytes_nonneg). apply SetBytes_numeral. }
  rewrite reverse_involutive, <- list_fmap_compose. rewrite <- (list_fmap_id l) at 2.
  apply list_fmap_ext. intros i b _. apply byte_of_Z_of_byte.
Qed.

Lemma leading_split b l : l = replicate (leading b l) b ++ drop (leading b l) l.
Proof.
  induction l as [|x l IH]; simpl; [done|]. case_bool_decide as E; subst; simpl; [by f_equal|done].
Qed.
Lemma leading_head b l : head (drop (leading b l) l) <> Some b.
Proof. induction l as [|x l IH]; simpl; [done|]. case_bool_decide; simpl; [done|congruence]. Qed.
Lemma leading_app b k l : head l <> Some b -> leading b (replicate k b ++ l) = k.
Proof.
  intros Hh. induction k as [|k IH]; simpl.
  - destruct l as [|x l]; [done|]. simpl in *. rewrite bool_decide_eq_false_2; congruence.
  - by rewrite bool_decide_eq_true_2, IH.
Qed.

Lemma index_of_alpha i : 0 <= i < 58 -> index_of (alpha i) base58Alphabet 0 = Some i.
Proof.
  intros Hi.
  assert (Forall (fun j => index_of (alpha j) base58Alphabet 0 = Some j) (seqZ 0 58)) as Hall.
  { apply (bool_decide_unpack _). vm_compute. exact I. }
  rewrite Forall_forall in Hall. apply Hall, elem_of_seqZ. lia.
Qed.
Lemma decode_loop_alpha ds : Forall (fun d => 0 <= d < 58) ds -> forall r,
  decode_loop (alpha <$> ds) r = Some (fold_left (fun x d => x * 58 + d) ds r).
Proof.
  induction 1 as [|d ds Hd _ IH]; intros r; [done|]. rewrite fmap_cons. cbn [decode_loop fold_left].
  by rewrite index_of_alpha.
Qed.
Lemma decode_loop_ones k s : decode_loop (replicate k (alpha 0) ++ s) 0 = decode_loop s 0.
Proof. induction k as [|k IH]; [done|]. cbn [replicate app decode_loop]. by rewrite index_of_alpha. Qed.

Lemma base58Decode_Encode l : base58Decode (base58Encode l) = Some l.
Proof.
  unfold base58Encode. set (k := leading Byte.x00 l). set (ds := digits 58 (SetBytes l)).
  assert (canonical 58 ds) as [Hf Hl] by (apply digits_canonical; [done|apply SetBytes_nonneg]).
  rewrite reverse_app, reverse_replicate, <- fmap_reverse.
  unfold base58Decode. rewrite decode_loop_ones, decode_loop_alpha by (by apply Forall_reverse).
  assert (numeral 58 ds = SetBytes l) as Hn by (apply digits_numeral; [done|apply SetBytes_nonneg]).
  rewrite foldl_numeral, Hn.
  rewrite leading_app.
  - rewrite (leading_split Byte.x00 l) at 1. fold k. rewrite SetBytes_zeros.
    rewrite Bytes_SetBytes by apply leading_head. f_equal. symmetry. apply leading_split.
  - rewrite fmap_reverse, head_reverse, fmap_last. destruct (last ds) as [d|] eqn:E; [|done]. simpl.
    intros [= Ha]. apply Hl. f_equal.
    apply last_Some_elem_of in E. rewrite Forall_forall in Hf. specialize (Hf d E).
    pose proof (index_of_alpha d Hf) as H1. rewrite Ha, index_of_alpha in H1 by lia. congruence.
Qed.

Lemma ParseDID_DID pk : blen pk = 32 -> ParseDID (DID pk) = Ok pk.
Proof.
  intros Hpk. unfold ParseDID, DID. set (enc := base58Encode _).
  assert (base58Decode enc = Some (byte_of_Z 237 :: byte_of_Z 1 :: pk)) as Hd by apply base58Decode_Encode.
  assert (0 < blen enc).
  { destruct enc; [vm_compute in Hd; congruence|]. rewrite blen_cons. pose proof (blen_nonneg enc). lia. }
  destruct (Z.leb_spec (blen (did_prefix ++ enc)) (blen did_prefix)) as [Hx|_]; [rewrite blen_app in Hx; lia|].
  change (slice 0 ?n ?l) with (slice 0 n ([] ++ l)). rewrite (slice_app_mid [] did_prefix) by done.
  rewrite bool_decide_eq_true_2 by done. cbn [negb app].
  rewrite <- (app_nil_r enc) at 1 2. rewrite (slice_app_mid did_prefix enc) by (rewrite ?app_nil_r, ?blen_app; done).
  rewrite Hd, Hpk. done.
Qed.

Section IdentityFacts.
Context `{CryptoLaws}.

Lemma Generate_generated seed id :
  blen seed = 32 -> Generate (Some seed) = Ok id ->
  generated_key (PrivateKey id) /\ PublicKey id = ed_public (PrivateKey id).
Proof. intros Hs [= <-]. split; [by exists seed|done]. Qed.

Lemma identity_UnmarshalBinary_Marshal id :
  generated_key (PrivateKey id) -> PublicKey id = ed_public (PrivateKey id) ->
  UnmarshalBinary (MarshalBinary id) = Ok id.
Proof.
  intros Hg Hp. pose proof (generated_key_size _ Hg) as Hk. destruct id as [pub priv]; simpl in *.
  unfold UnmarshalBinary, MarshalBinary; cbn [PrivateKey]. rewrite blen_app, blen_put_u32, Hk.
  change (4 + PrivateKeySize <? 4) with false. cbn iota.
  rewrite (take_app_length' (put_u32 _)) by (by rewrite length_put_u32). rewrite get_put_u32'.
  change (u32 (u32 PrivateKeySize)) with PrivateKeySize. change (negb (PrivateKeySize =? PrivateKeySize)) with false.
  rewrite Z.ltb_irrefl. cbn iota. rewrite <- (app_nil_r priv), (slice_app_mid (put_u32 _) priv)
    by (by rewrite ?blen_put_u32, ?Hk).
  unfold FromPrivateKey. by rewrite Hk, Hp, app_nil_r.
Qed.

(** A loaded identity always carries the public half of its private key. *)
Lemma UnmarshalBinary_ok data id :
  UnmarshalBinary data = Ok id -> PublicKey id = ed_public (PrivateKey id) /\ blen (PrivateKey id) = PrivateKeySize.
Proof.
  unfold UnmarshalBinary, FromPrivateKey. repeat case_match_goal; intros; simplify_eq/=. zb. done.
Qed.

Context {St : Type} `{Stores : Store St} `{!StoreLaws St Stores}.

(** The identity an agent is given is stable: once a load or a generation has
    succeeded, loading again (with any randomness) returns the same one. *)
Lemma LoadOrGenerate_again st agentID seed id st' rnd :
  (forall s, seed = Some s -> blen s = 32) ->
  LoadOrGenerate st agentID seed = (Ok id, st') -> identity_readable st' ->
  LoadOrGenerate st' agentID rnd = (Ok id, st').
Proof.
  intros Hseed. unfold LoadOrGenerate at 1. destruct seed as [s|]; cbn [Generate].
  - set (new := mkIdentity _ _).
    assert (UnmarshalBinary (MarshalBinary new) = Ok new) as Hnew.
    { apply identity_UnmarshalBinary_Marshal; [|done]. exists s. auto. }
    assert (forall b stx, SaveIdentity st agentID (MarshalBinary new) = (b, stx) ->
      (if b then (Ok new, stx) else (Err ErrIdSave, stx)) = (Ok id, st') ->
      identity_readable st' -> LoadOrGenerate st' agentID rnd = (Ok id, st')) as Hgen.
    { intros [] stx Hs [= <- <-] Hread. unfold LoadOrGenerate. rewrite (load_after_save _ _ _ _ Hs Hread). by rewrite Hnew. }
    destruct (LoadIdentity st agentID) as [d|] eqn:El.
    + destruct (UnmarshalBinary d) as [i|] eqn:Eu.
      * intros [= -> ->] _. unfold LoadOrGenerate. by rewrite El, Eu.
      * destruct (SaveIdentity st agentID _) as [b stx] eqn:Es. by apply Hgen.
    + destruct (SaveIdentity st agentID _) as [b stx] eqn:Es. by apply Hgen.
  - destruct (LoadIdentity st agentID) as [d|] eqn:El; [|done].
    destruct (UnmarshalBinary d) as [i|] eqn:Eu; [|done].
    intros [= -> ->] _. unfold LoadOrGenerate. by rewrite El, Eu.
Qed.
End IdentityFacts.

(** ** Claims *)

(** a [did:key] names exactly one Ed25519 public key.  For any 32-byte
    key, parsing the identifier [DID] produces gives the key back; base58 with
    its leading-zero rule loses nothing. *)
Theorem did_roundtrip (pk : bytes) : blen pk = 32 -> ParseDID (DID pk) = Ok pk.
Proof. apply ParseDID_DID. Qed.
Lemma did_roundtrip_witness : blen (zeros 32) = 32 /\ ParseDID (DID (zeros 32)) = Ok (zeros 32).
Proof. split; [reflexivity|]. apply did_roundtrip. reflexivity. Defined.
Example DID_zeros :
  string_of (DIDShort (zeros 32)) = "did:key:z6MkeTG3...vDnP"%string.
Proof. vm_compute. reflexivity. Qed.
