(* ===== verification/Checkpoint.v ===== *)
(** * The checkpoint binary format (internal/agent/instance.go)

    Versions 2, 3 and 4 of the header, [buildCheckpoint], which writes version
    3 or, with an identity, the signed version 4, and [ParseCheckpointHeader]. *)
From S2P Require Import Prelude Crypto Lineage Identity.

Definition checkpointVersionV2 : Z := 2.
Definition checkpointVersionV3 : Z := 3.
Definition checkpointVersionV4 : Z := 4.
Definition checkpointHeaderLenV2 : Z := 57.
Definition checkpointHeaderLenV3 : Z := 81.
Definition checkpointHeaderLenV4 : Z := 209.

Record EpochData := mkEpochData { MajorVersion : Z; LeaseGeneration : Z }.
(** The values the [LeaseInfo] interface gives. *)
Record LeaseInfo := mkLeaseInfo { li_major : Z; li_generation : Z; li_expiry : Z }.

Record CheckpointHeader := mkHeader {
  Version : Z; Budget : Z; PricePerSecond : Z; TickNumber : Z; WASMHash : bytes;
  Epoch : EpochData; LeaseExpiry : Z;
  PrevHash : bytes; AgentPubKey : bytes; Signature : bytes;
  HasLineage : bool; HeaderLen : Z }.

Inductive checkpoint_error :=
| ErrEmpty | ErrVersion (v : Z) | ErrShort (have need : Z)
| ErrNegativeBudget (b : Z) | ErrNegativePrice (p : Z).

Definition header_len (version : Z) : option Z :=
  if version =? checkpointVersionV2 then Some checkpointHeaderLenV2
  else if version =? checkpointVersionV3 then Some checkpointHeaderLenV3
  else if version =? checkpointVersionV4 then Some checkpointHeaderLenV4
  else None.

Definition field64 (lo : Z) (c : bytes) : Z := get_u64 (slice lo (lo + 8) c).

Definition ParseCheckpointHeader (c : bytes) : result checkpoint_error (CheckpointHeader * bytes) :=
  match c with
  | [] => Err ErrEmpty
  | v :: _ =>
      let version := Z_of_byte v in
      match header_len version with
      | None => Err (ErrVersion version)
      | Some headerLen =>
          if blen c <? headerLen then Err (ErrShort (blen c) headerLen)
          else
            let budgetParsed := i64 (field64 1 c) in
            let priceParsed := i64 (field64 9 c) in
            if budgetParsed <? 0 then Err (ErrNegativeBudget budgetParsed)
            else if priceParsed <? 0 then Err (ErrNegativePrice priceParsed)
            else
              let v3 := checkpointVersionV3 <=? version in
              let v4 := checkpointVersionV4 <=? version in
              Ok ({| Version := version;
                     Budget := budgetParsed;
                     PricePerSecond := priceParsed;
                     TickNumber := field64 17 c;
                     WASMHash := copy_array 32 (slice 25 57 c);
                     Epoch := if v3 then mkEpochData (field64 57 c) (field64 65 c) else mkEpochData 0 0;
                     LeaseExpiry := if v3 then i64 (field64 73 c) else 0;
                     PrevHash := if v4 then copy_array 32 (slice 81 113 c) else zeros 32;
                     AgentPubKey := if v4 then copy_array 32 (slice 113 145 c) else [];
                     Signature := if v4 then copy_array 64 (slice 145 209 c) else zeros 64;
                     HasLineage := v4;
                     HeaderLen := headerLen |},
                  drop (Z.to_nat headerLen) c)
      end
  end.

Definition ExtractAgentState (c : bytes) : result checkpoint_error bytes :=
  snd <$> ParseCheckpointHeader c.

(** ** Writing: the fields of the instance that [buildCheckpoint] reads *)
Record CheckpointFields := mkFields {
  f_budget : Z; f_price : Z; f_tick : Z; f_wasmHash : bytes;
  f_lease : option LeaseInfo;
  f_identity : option AgentIdentity;
  f_prevHash : bytes }.

Definition lease_values (l : option LeaseInfo) : LeaseInfo := default (mkLeaseInfo 0 0 0) l.

(** Bytes 1 to 81, shared by versions 3 and 4. *)
Definition v3_fields (f : CheckpointFields) : bytes :=
  put_u64 (u64 (f_budget f)) ++ put_u64 (u64 (f_price f)) ++ put_u64 (f_tick f) ++
  copy_array 32 (f_wasmHash f) ++
  put_u64 (li_major (lease_values (f_lease f))) ++ put_u64 (li_generation (lease_values (f_lease f))) ++
  put_u64 (u64 (li_expiry (lease_values (f_lease f)))).

Section Build.
Context `{Crypto}.

(** The checkpoint and the new [PrevCheckpointHash]. *)
Definition buildCheckpoint (f : CheckpointFields) (state : bytes) : result key_error (bytes * bytes) :=
  match f_identity f with
  | None => Ok (byte_of_Z checkpointVersionV3 :: v3_fields f ++ state, f_prevHash f)
  | Some id =>
      let before := byte_of_Z checkpointVersionV4 :: v3_fields f ++
                      copy_array 32 (f_prevHash f) ++ copy_array 32 (PublicKey id) in
      let signingDomain := BuildSigningDomain before state in
      match SignCheckpoint signingDomain (PrivateKey id) with
      | Err e => Err e
      | Ok sig => let checkpoint := before ++ sig ++ state in Ok (checkpoint, ContentHash checkpoint)
      end
  end.

(** The signature check made on every load of a version-4 checkpoint
    ([LoadCheckpointFromStorage], and in the migration and inspection code). *)
Definition signature_valid (c : bytes) (hdr : CheckpointHeader) (state : bytes) : bool :=
  VerifyCheckpoint (BuildSigningDomain (take 145 c) state) (AgentPubKey hdr) (Signature hdr).
End Build.

(** ** Lemmas *)
Record fields_ok (f : CheckpointFields) : Prop := {
  ok_budget : 0 <= f_budget f < 2 ^ 63;
  ok_price : 0 <= f_price f < 2 ^ 63;
  ok_tick : is_u64 (f_tick f);
  ok_hash : blen (f_wasmHash f) = 32;
  ok_major : is_u64 (li_major (lease_values (f_lease f)));
  ok_generation : is_u64 (li_generation (lease_values (f_lease f)));
  ok_expiry : is_i64 (li_expiry (lease_values (f_lease f)));
  ok_prev : blen (f_prevHash f) = 32 }.

Lemma blen_v3_fields f : blen (v3_fields f) = 80.
Proof. unfold v3_fields. autorewrite with igor_len. reflexivity. Qed.

Definition epoch_of (f : CheckpointFields) : EpochData :=
  mkEpochData (li_major (lease_values (f_lease f))) (li_generation (lease_values (f_lease f))).

(** Reading back the fields common to versions 3 and 4. *)
Lemma v3_fields_read v f post :
  fields_ok f -> let c := v :: v3_fields f ++ post in
  i64 (field64 1 c) = f_budget f /\ i64 (field64 9 c) = f_price f /\ field64 17 c = f_tick f /\
  copy_array 32 (slice 25 57 c) = f_wasmHash f /\
  field64 57 c = li_major (lease_values (f_lease f)) /\
  field64 65 c = li_generation (lease_values (f_lease f)) /\
  i64 (field64 73 c) = li_expiry (lease_values (f_lease f)).
Proof.
  intros [Hb Hp Ht Hh Hm Hg He Hph] c. unfold c, v3_fields. rewrite (copy_array_id 32 (f_wasmHash f)) by done.
  set (L := lease_values (f_lease f)) in *. rewrite <- !app_assoc.
  change (v :: ?l) with ([v] ++ l). unfold field64.
  assert (is_i64 (f_budget f) /\ is_i64 (f_price f)) as [Ib Ip] by (unfold is_i64; lia).
  split_and!.
  - slice_read. rewrite get_put_u64', (u64_id (u64 _)), i64_of_u64 by auto with igor. done.
  - slice_read. rewrite get_put_u64', (u64_id (u64 _)), i64_of_u64 by auto with igor. done.
  - slice_read. by rewrite get_put_u64', u64_id.
  - slice_read. by apply copy_array_id.
  - slice_read. by rewrite get_put_u64', u64_id.
  - slice_read. by rewrite get_put_u64', u64_id.
  - slice_read. rewrite get_put_u64', (u64_id (u64 _)), i64_of_u64 by auto with igor. done.
Qed.

(** What a checkpoint of the fields reads back as. *)
Definition header_of (f : CheckpointFields) (sig : bytes) : CheckpointHeader := {|
  Version := match f_identity f with None => 3 | Some _ => 4 end;
  Budget := f_budget f; PricePerSecond := f_price f; TickNumber := f_tick f;
  WASMHash := f_wasmHash f;
  Epoch := epoch_of f;
  LeaseExpiry := li_expiry (lease_values (f_lease f));
  PrevHash := match f_identity f with None => zeros 32 | Some _ => f_prevHash f end;
  AgentPubKey := match f_identity f with None => [] | Some id => PublicKey id end;
  Signature := match f_identity f with None => zeros 64 | Some _ => sig end;
  HasLineage := match f_identity f with None => false | Some _ => true end;
  HeaderLen := match f_identity f with None => 81 | Some _ => 209 end |}.

Lemma parse_v3 f state :
  fields_ok f -> f_identity f = None ->
  ParseCheckpointHeader (byte_of_Z checkpointVersionV3 :: v3_fields f ++ state) = Ok (header_of f [], state).
Proof.
  intros Hok Hid. pose proof (v3_fields_read (byte_of_Z 3) f state Hok) as H. cbv zeta in H.
  destruct H as (Eb & Ep & Et & Eh & Em & Eg & Ee). pose proof (blen_v3_fields f) as Hl.
  unfold ParseCheckpointHeader, checkpointVersionV3.
  change (Z_of_byte (byte_of_Z 3)) with 3. change (header_len 3) with (Some 81). cbv zeta.
  rewrite Eb, Ep, Et, Eh. change (checkpointVersionV4 <=? 3) with false. change (3 <=? 3) with true. cbn iota.
  rewrite Em, Eg, Ee. pose proof (blen_nonneg state). destruct Hok.
  destruct (Z.ltb_spec (blen (byte_of_Z 3 :: v3_fields f ++ state)) 81) as [Hx|_].
  { rewrite blen_cons, blen_app in Hx. lia. }
  destruct (Z.ltb_spec (f_budget f) 0); [lia|]. destruct (Z.ltb_spec (f_price f) 0); [lia|].
  unfold header_of. rewrite Hid. do 2 f_equal.
  change (byte_of_Z 3 :: v3_fields f ++ state) with ((byte_of_Z 3 :: v3_fields f) ++ state).
  apply drop_app_mid. by rewrite blen_cons, Hl.
Qed.

Definition v4_prefix (f : CheckpointFields) (pk : bytes) : bytes :=
  byte_of_Z checkpointVersionV4 :: v3_fields f ++ copy_array 32 (f_prevHash f) ++ copy_array 32 pk.
Lemma blen_v4_prefix f pk : blen (v4_prefix f pk) = 145.
Proof. unfold v4_prefix. rewrite blen_cons, blen_app, blen_v3_fields. by autorewrite with igor_len. Qed.

Lemma parse_v4 f id sig state :
  fields_ok f -> f_identity f = Some id -> blen (PublicKey id) = PublicKeySize -> blen sig = SignatureSize ->
  ParseCheckpointHeader (v4_prefix f (PublicKey id) ++ sig ++ state) = Ok (header_of f sig, state).
Proof.
  intros Hok Hid Hpk Hsig.
  pose proof (v3_fields_read (byte_of_Z 4) f (f_prevHash f ++ PublicKey id ++ sig ++ state) Hok) as H.
  cbv zeta in H. destruct H as (Eb & Ep & Et & Eh & Em & Eg & Ee).
  pose proof (blen_v3_fields f) as Hl. unfold v4_prefix, checkpointVersionV4.
  rewrite (copy_array_id 32 (f_prevHash f)), (copy_array_id 32 (PublicKey id)) by (done || apply Hok).
  rewrite <- app_comm_cons, <- !app_assoc. unfold ParseCheckpointHeader.
  change (Z_of_byte (byte_of_Z 4)) with 4. change (header_len 4) with (Some 209). cbv zeta.
  rewrite Eb, Ep, Et, Eh. change (checkpointVersionV4 <=? 4) with true. change (checkpointVersionV3 <=? 4) with true.
  cbn iota. rewrite Em, Eg, Ee. pose proof (blen_nonneg state).
  pose proof (ok_prev f Hok) as Hprev. pose proof (ok_budget f Hok). pose proof (ok_price f Hok).
  unfold PublicKeySize, SignatureSize in *.
  set (c := byte_of_Z 4 :: _).
  assert (blen c = 209 + blen state) as Lc.
  { unfold c. rewrite blen_cons. autorewrite with igor_len. lia. }
  rewrite Lc. destruct (Z.ltb_spec (209 + blen state) 209); [lia|].
  destruct (Z.ltb_spec (f_budget f) 0); [lia|]. destruct (Z.ltb_spec (f_price f) 0); [lia|].
  assert (slice 81 113 c = f_prevHash f /\ slice 113 145 c = PublicKey id /\ slice 145 209 c = sig) as (-> & -> & ->).
  { unfold c. change (byte_of_Z 4 :: ?l) with ([byte_of_Z 4] ++ l). split_and!; by slice_read. }
  rewrite !copy_array_id by done. unfold header_of. rewrite Hid. do 2 f_equal.
  unfold c. change (byte_of_Z 4 :: ?l) with ([byte_of_Z 4] ++ l). rewrite !app_assoc.
  apply drop_app_mid. autorewrite with igor_len. lia.
Qed.

Section BuildFacts.
Context `{CryptoLaws}.

(** An identity as [Generate] and [FromPrivateKey] make them. *)
Definition identity_ok (id : AgentIdentity) : Prop :=
  generated_key (PrivateKey id) /\ PublicKey id = ed_public (PrivateKey id).

Lemma identity_ok_pk id : identity_ok id -> blen (PublicKey id) = PublicKeySize.
Proof. intros [Hg ->]. by apply ed_public_size, generated_key_size. Qed.

Definition v4_signature (f : CheckpointFields) (id : AgentIdentity) (state : bytes) : bytes :=
  ed_sign (PrivateKey id) (v4_prefix f (PublicKey id) ++ state).
Definition v4_checkpoint (f : CheckpointFields) (id : AgentIdentity) (state : bytes) : bytes :=
  v4_prefix f (PublicKey id) ++ v4_signature f id state ++ state.

Lemma buildCheckpoint_v4 f id state :
  f_identity f = Some id -> identity_ok id ->
  buildCheckpoint f state = Ok (v4_checkpoint f id state, ContentHash (v4_checkpoint f id state)).
Proof.
  intros Hid [Hg Hpk]. unfold buildCheckpoint. rewrite Hid. cbv zeta. by rewrite SignCheckpoint_eq.
Qed.

Lemma parse_build f state c h :
  fields_ok f -> (forall id, f_identity f = Some id -> identity_ok id) ->
  buildCheckpoint f state = Ok (c, h) ->
  exists sig, ParseCheckpointHeader c = Ok (header_of f sig, state) /\
    match f_identity f with
    | None => h = f_prevHash f
    | Some _ => signature_valid c (header_of f sig) state = true /\ h = ContentHash c
    end.
Proof.
  intros Hok Hids Hb. destruct (f_identity f) as [id|] eqn:Hid.
  - specialize (Hids id eq_refl). rewrite (buildCheckpoint_v4 f id state Hid Hids) in Hb.
    injection Hb as <- <-. exists (v4_signature f id state).
    pose proof (identity_ok_pk id Hids) as Hpk. destruct Hids as [Hg Hp].
    assert (blen (v4_signature f id state) = SignatureSize) as Hs
      by (by apply ed_sign_size, generated_key_size).
    split; [by apply parse_v4|]. split; [|done].
    unfold signature_valid, v4_checkpoint, header_of. rewrite Hid. cbn [AgentPubKey Signature].
    rewrite (take_app_length' (v4_prefix _ _)) by (pose proof (blen_v4_prefix f (PublicKey id)); unfold blen in *; lia).
    rewrite VerifyCheckpoint_eq by done. rewrite Hp at 1. by apply generated_key_verify.
  - unfold buildCheckpoint in Hb. rewrite Hid in Hb. injection Hb as <- <-.
    exists []. split; [by apply parse_v3|done].
Qed.
End BuildFacts.

(** What a successful parse says of the bytes. *)
Record parsed (c : bytes) (h : CheckpointHeader) (state : bytes) : Prop := {
  p_version : header_len (Version h) = Some (HeaderLen h);
  p_split : c = take (Z.to_nat (HeaderLen h)) c ++ state;
  p_len : blen c = HeaderLen h + blen state;
  p_budget : 0 <= Budget h < 2 ^ 63;
  p_price : 0 <= PricePerSecond h < 2 ^ 63;
  p_tick : is_u64 (TickNumber h);
  p_lineage : HasLineage h = bool_decide (Version h = 4);
  p_signature : HasLineage h = true -> Signature h = slice 145 209 c;
  p_unsigned : HasLineage h = false -> AgentPubKey h = [] /\ PrevHash h = zeros 32;
  p_v2 : Version h = 2 -> Epoch h = mkEpochData 0 0 /\ LeaseExpiry h = 0 }.

Lemma header_len_cases v n : header_len v = Some n -> (v = 2 /\ n = 57) \/ (v = 3 /\ n = 81) \/ (v = 4 /\ n = 209).
Proof.
  unfold header_len, checkpointVersionV2, checkpointVersionV3, checkpointVersionV4.
  destruct (Z.eqb_spec v 2); [intros [= <-]; auto|]. destruct (Z.eqb_spec v 3); [intros [= <-]; auto|].
  destruct (Z.eqb_spec v 4); [intros [= <-]; auto|done].
Qed.

Lemma parse_parsed c h state : ParseCheckpointHeader c = Ok (h, state) -> parsed c h state.
Proof.
  unfold ParseCheckpointHeader. destruct c as [|v c']; [done|]. set (c := v :: c').
  destruct (header_len (Z_of_byte v)) as [n|] eqn:En; [|done].
  destruct (Z.ltb_spec (blen c) n); [done|]. cbv zeta.
  destruct (Z.ltb_spec (i64 (field64 1 c)) 0); [done|].
  destruct (Z.ltb_spec (i64 (field64 9 c)) 0); [done|].
  intros [= <- <-]. clearbody c. pose proof (i64_range (field64 1 c)). pose proof (i64_range (field64 9 c)). unfold is_i64 in *.
  destruct (header_len_cases _ _ En) as [[Ev ->]|[[Ev ->]|[Ev ->]]]; rewrite Ev in *;
    (split; cbn [Version Budget PricePerSecond TickNumber Epoch LeaseExpiry PrevHash AgentPubKey Signature HasLineage HeaderLen];
     [done|by rewrite take_drop|unfold blen in *; rewrite length_drop; lia|lia|lia|apply get_u64_range|done|intros ?; try done|done..]).
  apply copy_array_id. rewrite blen_slice by lia. done.
Qed.

Lemma parse_error_spec c e :
  ParseCheckpointHeader c = Err e ->
  match e with
  | ErrEmpty => c = []
  | ErrVersion v => header_len v = None /\ Z_of_byte <$> head c = Some v
  | ErrShort have need => blen c = have /\ have < need
  | ErrNegativeBudget b => b = i64 (field64 1 c) /\ b < 0
  | ErrNegativePrice p => p = i64 (field64 9 c) /\ p < 0
  end.
Proof.
  unfold ParseCheckpointHeader. destruct c as [|v c']; [by intros [= <-]|].
  destruct (header_len (Z_of_byte v)) as [n|] eqn:En; [|by intros [= <-]].
  repeat case_match_goal; intros; simplify_eq/=; zb; done.
Qed.

(** A signed checkpoint is the bytes before the signature, the signature, and
    the state. *)
Lemma signed_split c h s : ParseCheckpointHeader c = Ok (h, s) -> HasLineage h = true ->
  c = take 145 c ++ Signature h ++ s /\ blen (take 145 c) = 145.
Proof.
  intros P%parse_parsed L. pose proof (p_lineage _ _ _ P) as Hv. rewrite L in Hv.
  symmetry in Hv. apply bool_decide_eq_true in Hv. pose proof (p_version _ _ _ P) as Hn. rewrite Hv in Hn.
  injection Hn as Hn. unfold checkpointHeaderLenV4 in Hn. pose proof (p_len _ _ _ P) as Hl. pose proof (p_split _ _ _ P) as Hsp.
  rewrite <- Hn in Hl, Hsp. pose proof (blen_nonneg s). split.
  - rewrite (p_signature _ _ _ P L). rewrite Hsp at 1. rewrite app_assoc. f_equal.
    unfold slice. change (Z.to_nat (209 - 145)) with 64%nat. change (Z.to_nat 145) with 145%nat.
    change (Z.to_nat 209) with (145 + 64)%nat. rewrite <- (take_drop 145 (take _ c)).
    rewrite take_take, skipn_firstn_comm. done.
  - unfold blen in *. rewrite length_take. lia.
Qed.

Lemma signed_lengths c h s : ParseCheckpointHeader c = Ok (h, s) -> HasLineage h = true ->
  blen (Signature h) = SignatureSize /\ HeaderLen h - SignatureSize = 145.
Proof.
  intros P%parse_parsed L. pose proof (p_lineage _ _ _ P) as Hv. rewrite L in Hv. symmetry in Hv. apply bool_decide_eq_true in Hv.
  pose proof (p_version _ _ _ P) as Hn. rewrite Hv in Hn. injection Hn as Hn. unfold checkpointHeaderLenV4 in Hn.
  pose proof (p_len _ _ _ P). pose proof (blen_nonneg s). rewrite (p_signature _ _ _ P L), blen_slice by lia. rewrite <- Hn. done.
Qed.

(** ** Claims *)

(** C13: checkpoints are lossless and self-certifying.  Whatever
    [buildCheckpoint] writes for a non-negative budget and price,
    [ParseCheckpointHeader] reads back every header field and the exact agent
    state; when the agent has an identity the header carries the lineage, the
    load-time signature check accepts it, and the hash kept for the next link
    is the content hash of the bytes written. *)
Theorem checkpoint_roundtrip `{CryptoLaws} (f : CheckpointFields) (state c h : bytes) :
  fields_ok f -> (forall id, f_identity f = Some id -> identity_ok id) ->
  buildCheckpoint f state = Ok (c, h) ->
  exists sig, ParseCheckpointHeader c = Ok (header_of f sig, state) /\
    match f_identity f with
    | None => h = f_prevHash f
    | Some _ => signature_valid c (header_of f sig) state = true /\ h = ContentHash c
    end.
Proof. apply parse_build. Qed.

Definition sample_identity : AgentIdentity :=
  mkIdentity (ed_public (ed_new_key (zeros 32))) (ed_new_key (zeros 32)).
Definition sample_fields : CheckpointFields := {|
  f_budget := 1000000; f_price := 1000; f_tick := 42; f_wasmHash := sha256 (bytes_of "wasm");
  f_lease := Some (mkLeaseInfo 1 7 1700000000000000000); f_identity := Some sample_identity;
  f_prevHash := zeros 32 |}.
Lemma sample_fields_ok : fields_ok sample_fields.
Proof. split; vm_compute; repeat split; congruence. Qed.
Lemma sample_identity_ok : identity_ok sample_identity.
Proof. split; [by exists (zeros 32)|done]. Qed.

Lemma checkpoint_roundtrip_witness :
  exists sig, ParseCheckpointHeader (v4_checkpoint sample_fields sample_identity (bytes_of "state")) =
    Ok (header_of sample_fields sig, bytes_of "state") /\
    (signature_valid (v4_checkpoint sample_fields sample_identity (bytes_of "state"))
       (header_of sample_fields sig) (bytes_of "state") = true /\
     ContentHash (v4_checkpoint sample_fields sample_identity (bytes_of "state")) =
     ContentHash (v4_checkpoint sample_fields sample_identity (bytes_of "state"))).
Proof.
  apply (checkpoint_roundtrip sample_fields (bytes_of "state")
    (v4_checkpoint sample_fields sample_identity (bytes_of "state"))
    (ContentHash (v4_checkpoint sample_fields sample_identity (bytes_of "state")))).
  - apply sample_fields_ok.
  - intros id [= <-]. apply sample_identity_ok.
  - vm_compute. reflexivity.
Defined.

(** exactly the well-formed checkpoints are accepted.  A parse succeeds
    only on a supported version whose header is complete, with a non-negative
    budget and price, splitting the bytes into header and state, and every
    refusal names the first check that fails. *)
Theorem parse_header_spec (c : bytes) :
  match ParseCheckpointHeader c with
  | Ok (h, state) => parsed c h state
  | Err ErrEmpty => c = []
  | Err (ErrVersion v) => header_len v = None /\ Z_of_byte <$> head c = Some v
  | Err (ErrShort have need) => blen c = have /\ have < need
  | Err (ErrNegativeBudget b) => b = i64 (field64 1 c) /\ b < 0
  | Err (ErrNegativePrice p) => p = i64 (field64 9 c) /\ p < 0
  end.
Proof.
  destruct (ParseCheckpointHeader c) as [[h state]|e] eqn:E; [by apply parse_parsed|].
  pose proof (parse_error_spec c e E) as H. by destruct e.
Qed.

(** C38: A tampered checkpoint is a forged signature.  Let [cs] be the
    checkpoints one identity has signed ([buildCheckpoint] of [saves]).  A file
    that parses as a checkpoint under that identity's public key and passes the
    signature check made on every load is one of [cs], byte for byte; or its
    signature is one the identity never made: it verifies under the public key
    for the file's own bytes, all of them but the signature itself, and in none
    of the saves did the identity sign these bytes with this signature.  So no
    header field, no state byte and not the signature of a saved checkpoint can
    be changed without forging an Ed25519 signature.  (The load does not ask
    whose public key the header names; the lineage checks do.) *)
Theorem tampering_is_forgery `{CryptoLaws} id (saves : list (CheckpointFields * bytes)) cs c h s :
  identity_ok id -> Forall (fun sv => f_identity (fst sv) = Some id) saves ->
  Forall2 (fun sv c => exists next, buildCheckpoint (fst sv) (snd sv) = Ok (c, next)) saves cs ->
  ParseCheckpointHeader c = Ok (h, s) -> AgentPubKey h = PublicKey id -> signature_valid c h s = true ->
  c ∈ cs \/
  exists pre, c = pre ++ Signature h ++ s /\ blen (Signature h) = SignatureSize /\ blen pre = HeaderLen h - SignatureSize /\
    ed_verify (PublicKey id) (pre ++ s) (Signature h) = true /\
    forall f st, (f, st) ∈ saves -> ~ (pre ++ s = v4_prefix f (PublicKey id) ++ st /\ Signature h = v4_signature f id st).
Proof.
  intros Hid Hsv Hcs P Hpk Hv. pose proof (identity_ok_pk id Hid) as Hsize.
  assert (HasLineage h = true) as L.
  { destruct (HasLineage h) eqn:L; [done|]. destruct (p_unsigned _ _ _ (parse_parsed _ _ _ P) L) as [E _]. by rewrite <- Hpk, E in Hsize. }
  destruct (signed_split c h s P L) as [Ec El]. unfold signature_valid in Hv. rewrite Hpk, VerifyCheckpoint_eq in Hv by done.
  destruct (decide (Exists (fun sv => take 145 c ++ s = v4_prefix (fst sv) (PublicKey id) ++ snd sv /\ Signature h = v4_signature (fst sv) id (snd sv)) saves))
    as [He|Hn]; [left|right].
  - apply Exists_exists in He as ([f st] & Hin & Hm & Hs). cbn [fst snd] in *.
    apply app_inj_1 in Hm as [Hp Hst]; [|pose proof (blen_v4_prefix f (PublicKey id)); unfold blen in *; lia].
    rewrite Forall_forall in Hsv. apply list_elem_of_lookup in Hin as [k Hk]. destruct (Forall2_lookup_l _ _ _ _ _ Hcs Hk) as (c0 & Hc0 & next & Hb).
    cbn [fst snd] in Hb. rewrite (buildCheckpoint_v4 f id st) in Hb; [|by apply (Hsv (f, st)), (list_elem_of_lookup_2 _ k)|done].
    injection Hb as Hb _. apply (list_elem_of_lookup_2 _ k). rewrite Hc0, <- Hb, Ec. unfold v4_checkpoint. by rewrite Hp, Hs, Hst.
  - exists (take 145 c). split; [done|]. destruct (signed_lengths c h s P L) as [H1 H2]. split; [done|]. split; [by rewrite El, H2|]. split; [done|].
    intros f st Hin Hb. apply Hn, Exists_exists. by exists (f, st).
Qed.

(** A file saved with 42 ticks, and the same with its tick number changed. *)
Definition tampered (c : bytes) : bytes := take 17 c ++ byte_of_Z 43 :: drop 18 c.
Lemma tampering_is_forgery_witness :
  let c := v4_checkpoint sample_fields sample_identity (bytes_of "state") in
  c ∈ [c] /\ tampered c <> c /\
  match ParseCheckpointHeader (tampered c) with
  | Ok (h, s) => TickNumber h = 43 /\ AgentPubKey h = PublicKey sample_identity /\ signature_valid (tampered c) h s = false
  | Err _ => False
  end.
Proof.
  intros c. split; [|split; [vm_compute; discriminate|vm_compute; done]].
  assert (match ParseCheckpointHeader c with Ok (h, s) => bool_decide (AgentPubKey h = PublicKey sample_identity) && signature_valid c h s | Err _ => false end = true)
    as Hc by (vm_compute; reflexivity).
  destruct (ParseCheckpointHeader c) as [[h s]|] eqn:P; [|discriminate Hc]. apply andb_true_iff in Hc as [Hk Hv]. apply bool_decide_eq_true in Hk.
  destruct (tampering_is_forgery sample_identity [(sample_fields, bytes_of "state")] [c] c h s) as [Hin|(pre & Ec & _ & Hl & _ & Hno)].
  - apply sample_identity_ok.
  - repeat constructor.
  - constructor; [|constructor]. exists (ContentHash c). apply buildCheckpoint_v4; [reflexivity|apply sample_identity_ok].
  - exact P.
  - exact Hk.
  - exact Hv.
  - exact Hin.
  - by left.
Defined.

(** A negative budget makes a checkpoint unreadable.  [buildCheckpoint]
    writes whatever budget the instance has, also one below zero (a tick may
    cost more than what is left), and [ParseCheckpointHeader] then refuses the
    checkpoint. *)
Theorem negative_budget_unreadable `{Crypto} (f : CheckpointFields) (state : bytes) :
  - 2 ^ 63 <= f_budget f < 0 ->
  (forall id, f_identity f = Some id -> blen (PrivateKey id) = PrivateKeySize) ->
  exists c h, buildCheckpoint f state = Ok (c, h) /\
    ParseCheckpointHeader c = Err (ErrNegativeBudget (f_budget f)).
Proof.
  intros Hb Hid.
  assert (forall v n rest, header_len v = Some n -> 0 <= v < 256 -> n <= 9 + blen rest ->
    ParseCheckpointHeader (byte_of_Z v :: put_u64 (u64 (f_budget f)) ++ rest) = Err (ErrNegativeBudget (f_budget f))) as Hp.
  { intros v n rest Hv Hr Hn. unfold ParseCheckpointHeader.
    assert (Z_of_byte (byte_of_Z v) = v) as -> by (by rewrite Z_of_byte_of_Z, Z.mod_small). rewrite Hv.
    rewrite blen_cons, blen_app, blen_put_u64. destruct (Z.ltb_spec (1 + (8 + blen rest)) n); [lia|]. cbv zeta.
    assert (i64 (field64 1 (byte_of_Z v :: put_u64 (u64 (f_budget f)) ++ rest)) = f_budget f) as ->.
    { change (byte_of_Z v :: ?l) with ([byte_of_Z v] ++ l). unfold field64. slice_read.
      rewrite get_put_u64', (u64_id (u64 _)), i64_of_u64; [done|unfold is_i64; lia|auto with igor]. }
    destruct (Z.ltb_spec (f_budget f) 0); [done|lia]. }
  pose proof (blen_nonneg state).
  assert (forall tl, v3_fields f ++ tl = put_u64 (u64 (f_budget f)) ++ drop 8 (v3_fields f ++ tl)) as Hsplit by done.
  assert (forall tl, blen (drop 8 (v3_fields f ++ tl)) = 72 + blen tl) as Hlen.
  { intros tl. pose proof (blen_v3_fields f). unfold blen in *. rewrite length_drop, length_app. lia. }
  unfold buildCheckpoint. destruct (f_identity f) as [id|].
  - pose proof (SignCheckpoint_total (BuildSigningDomain (v4_prefix f (PublicKey id)) state) (PrivateKey id) (Hid id eq_refl)) as Ht.
    cbv zeta. change (byte_of_Z checkpointVersionV4 :: v3_fields f ++ _) with (v4_prefix f (PublicKey id)).
    destruct (SignCheckpoint _ _) as [sig|] eqn:Es; [|done].
    eexists _, _. split; [done|]. unfold v4_prefix. rewrite <- app_comm_cons, <- app_assoc.
    set (tl := (_ ++ _) ++ sig ++ state). rewrite Hsplit.
    apply (Hp 4 209); [done|done|]. rewrite Hlen. unfold tl. autorewrite with igor_len.
    assert (blen sig = 64); [|lia]. unfold SignCheckpoint in Es. destruct (negb _); [done|]. injection Es as <-.
    apply blen_copy_array.
  - eexists _, _. split; [done|]. unfold checkpointVersionV3. rewrite Hsplit.
    apply (Hp 3 81); [done|done|]. rewrite Hlen. lia.
Qed.

(** Whatever the identity, what can be parsed back is what was written. *)
Lemma parse_built `{Crypto} f state c h hdr st : fields_ok f \/ - 2 ^ 63 <= f_budget f < 0 ->
  (forall id, f_identity f = Some id -> blen (PublicKey id) = PublicKeySize /\ blen (PrivateKey id) = PrivateKeySize) ->
  buildCheckpoint f state = Ok (c, h) -> ParseCheckpointHeader c = Ok (hdr, st) ->
  exists sig, hdr = header_of f sig /\ st = state.
Proof.
  intros Hok Hid Hb Hp. destruct Hok as [Hok|Hneg].
  2: { destruct (negative_budget_unreadable f state Hneg (fun id E => proj2 (Hid id E))) as (c' & h' & Hb' & Hp'). congruence. }
  unfold buildCheckpoint in Hb. destruct (f_identity f) as [id|] eqn:Ei.
  - destruct (Hid id eq_refl) as [Hpk Hsk]. cbv zeta in Hb.
    destruct (SignCheckpoint _ _) as [sig|] eqn:Es; [|done].
    assert (c = v4_prefix f (PublicKey id) ++ sig ++ state) as -> by (injection Hb as <- _; reflexivity).
    assert (blen sig = SignatureSize) as Hsig.
    { unfold SignCheckpoint in Es. destruct (negb _); [done|]. injection Es as <-. apply blen_copy_array. }
    rewrite (parse_v4 f id sig state Hok Ei Hpk Hsig) in Hp. injection Hp as <- <-. eauto.
  - assert (c = byte_of_Z checkpointVersionV3 :: v3_fields f ++ state) as -> by (injection Hb as <- _; reflexivity).
    rewrite (parse_v3 f state Hok Ei) in Hp. injection Hp as <- <-. eauto.
Qed.

Lemma negative_budget_unreadable_witness :
  let f := mkFields (-1) 1000 5 (zeros 32) None None (zeros 32) in
  exists c h, buildCheckpoint f (bytes_of "s") = Ok (c, h) /\
    ParseCheckpointHeader c = Err (ErrNegativeBudget (-1)).
Proof.
  intros f. apply (negative_budget_unreadable f (bytes_of "s")).
  - simpl. lia.
  - intros id Hid. discriminate Hid.
Defined.
