(* ===== verification/Storage.v ===== *)
(** * Checkpoint storage on a file system (internal/storage)

    [filepath.Clean] and [Join], the path checks of the provider, atomic saves
    by temporary file, fsync and rename, and the checkpoint archive.  Every
    file-system call can fail or the machine can crash at it: a [script] says
    what happens in one save. *)
From S2P Require Import Prelude Budget Crypto Identity.
From stdpp Require Import gmap strings.
Open Scope Z_scope.

(** ** path/filepath on Unix *)
Definition slash : Ascii.ascii := Ascii.ascii_of_nat 47.
Fixpoint split_slash (s : string) : list string :=
  match s with
  | EmptyString => [EmptyString]
  | String c s =>
      if bool_decide (c = slash) then EmptyString :: split_slash s
      else match split_slash s with w :: ws => String c w :: ws | [] => [String c EmptyString] end
  end.
Definition rooted (s : string) : bool :=
  match s with String c _ => bool_decide (c = slash) | EmptyString => false end.
(** One component against the reversed output of [Clean]. *)
Definition clean_step (root : bool) (out : list string) (comp : string) : list string :=
  if bool_decide (comp = ""%string) || bool_decide (comp = "."%string) then out
  else if bool_decide (comp = ".."%string) then
    match out with
    | top :: out' => if bool_decide (top = ".."%string) then comp :: out else out'
    | [] => if root then [] else [comp]
    end
  else comp :: out.
Definition clean_comps (root : bool) (comps : list string) : list string :=
  reverse (fold_left (clean_step root) comps []).
Definition Clean (path : string) : string :=
  let root := rooted path in
  let out := clean_comps root (split_slash path) in
  if root then String slash (String.concat "/" out)
  else match out with [] => "."%string | _ => String.concat "/" out end.
(** [filepath.Join] of a directory and a non-empty element. *)
Definition Join (dir elem : string) : string :=
  if bool_decide (dir = ""%string) then Clean elem else Clean (dir +:+ "/" +:+ elem).

(** ** The provider's state: the disk and what the environment will do *)
Inductive io := IOk | IErr | ICrashBefore | ICrashAfter.
Record script := mkScript {
  s_create : io; s_write : io; s_written : nat; s_sync : io; s_close : io; s_rename : io;
  s_remove : bool;              (** whether the deferred [os.Remove] succeeds *)
  s_mkdir : bool; s_archive : io; s_archived : nat }.
Definition all_ok : script := mkScript IOk IOk 0 IOk IOk IOk true true IOk 0.

Record FSProvider := mkFS {
  baseDir : string;
  disk : gmap string bytes;
  bad_reads : gset string;      (** paths whose read fails with an I/O error *)
  scripts : list script }.
Definition set_disk (d : gmap string bytes) (p : FSProvider) : FSProvider :=
  mkFS (baseDir p) d (bad_reads p) (scripts p).
Definition next_script (p : FSProvider) : script * FSProvider :=
  match scripts p with
  | [] => (all_ok, p)
  | s :: ss => (s, mkFS (baseDir p) (disk p) (bad_reads p) ss)
  end.

Inductive storage_error :=
| ErrTraversal | ErrCreate | ErrWrite | ErrSync | ErrClose | ErrRename | ErrRemove
| ErrNotFound | ErrRead.
(** A call returns, or the process dies in it. *)
Inductive outcome (A : Type) := Returned (r : result storage_error A) | Crashed.
Arguments Returned {A} r.
Arguments Crashed {A}.

(** [cleanStaleTempFiles], run by [NewFSProvider]. *)
Definition has_suffix (suf s : string) : bool :=
  (String.length suf <=? String.length s)%nat &&
  bool_decide (String.substring (String.length s - String.length suf) (String.length suf) s = suf).
Definition in_dir (dir path : string) : bool :=
  match reverse (split_slash path) with
  | _ :: ds => bool_decide (String.concat "/" (reverse ds) = dir)
  | [] => false
  end.
Definition stale_temp (base path : string) : bool := in_dir (Clean base) path && has_suffix ".tmp" path.
Definition cleanStaleTempFiles (p : FSProvider) : FSProvider :=
  set_disk (filter (fun kv => stale_temp (baseDir p) (fst kv) = false) (disk p)) p.
Definition NewFSProvider (base : string) (d : gmap string bytes) (bad : gset string) (ss : list script)
    : FSProvider := cleanStaleTempFiles (mkFS base d bad ss).

(** ** Paths *)
Definition agent_path (suffix : string) (p : FSProvider) (agentID : string) : result storage_error string :=
  let path := Join (baseDir p) (agentID +:+ suffix) in
  let cleaned := Clean path in
  if negb (String.prefix (Clean (baseDir p) +:+ "/") cleaned) then Err ErrTraversal else Ok cleaned.
Definition checkpointPath := agent_path ".checkpoint".
Definition receiptPath := agent_path ".receipts".
Definition identityPath := agent_path ".identity".
Definition HistoryDir (p : FSProvider) (agentID : string) : string :=
  Join (Join (baseDir p) "history") agentID.

(** ** Atomic save: temp file, write, fsync, close, rename *)
Definition tmp (path : string) : string := path +:+ ".tmp".

(** The deferred clean-up that runs when an error is returned. *)
Definition failed {A} (sc : script) (path : string) (e : storage_error) (d : gmap string bytes)
    : outcome A * gmap string bytes :=
  (Returned (Err e), if s_remove sc then delete (tmp path) d else d).

(** One call: go on with its effect, fail, or crash with or without it. *)
Definition io_call {A} (i : io) (before after : gmap string bytes)
    (on_err : outcome A * gmap string bytes)
    (k : gmap string bytes -> outcome A * gmap string bytes) : outcome A * gmap string bytes :=
  match i with
  | IOk => k after
  | IErr => on_err
  | ICrashBefore => (Crashed, before)
  | ICrashAfter => (Crashed, after)
  end.

Definition atomic_save (sc : script) (path : string) (data : bytes) (d : gmap string bytes)
    : outcome unit * gmap string bytes :=
  let temp := tmp path in
  io_call (s_create sc) d (<[temp := []]> d) (Returned (Err ErrCreate), d) (fun d =>
  let partial := <[temp := take (s_written sc) data]> d in
  io_call (s_write sc) partial (<[temp := data]> d) (failed sc path ErrWrite partial) (fun d =>
  io_call (s_sync sc) partial d (failed sc path ErrSync d) (fun d =>
  io_call (s_close sc) d d (failed sc path ErrClose d) (fun d =>
  io_call (s_rename sc) d (<[path := data]> (delete temp d)) (failed sc path ErrRename d) (fun d =>
  (Returned (Ok tt), d)))))).

(** ** The archive *)
Definition histPath (p : FSProvider) (agentID : string) (tick : Z) : string :=
  Join (HistoryDir p agentID) (pad0 10 tick +:+ ".ckpt").

Definition archiveCheckpoint (sc : script) (p : FSProvider) (agentID : string) (state : bytes)
    : outcome unit * FSProvider :=
  if blen state <? 25 then (Returned (Ok tt), p)
  else
    let tickNumber := get_u64 (slice 17 25 state) in
    if negb (s_mkdir sc) then (Returned (Ok tt), p)
    else
      let hist := histPath p agentID tickNumber in
      match disk p !! hist with
      | Some _ => (Returned (Ok tt), p)
      | None =>
          let partial := <[hist := take (s_archived sc) state]> (disk p) in
          let '(r, d) := io_call (s_archive sc) partial (<[hist := state]> (disk p))
                           (Returned (Ok tt), partial) (fun d => (Returned (Ok tt), d)) in
          (r, set_disk d p)
      end.

(** ** The provider's operations *)
Definition save_at (path : result storage_error string) (data : bytes) (sc : script) (p : FSProvider)
    : outcome unit * FSProvider :=
  match path with
  | Err e => (Returned (Err e), p)
  | Ok path => let '(r, d) := atomic_save sc path data (disk p) in (r, set_disk d p)
  end.

Definition SaveCheckpoint (p : FSProvider) (agentID : string) (state : bytes) : outcome unit * FSProvider :=
  let '(sc, p) := next_script p in
  let '(r, p) := save_at (checkpointPath p agentID) state sc p in
  match r with
  | Returned (Ok _) => archiveCheckpoint sc p agentID state
  | _ => (r, p)
  end.
Definition SaveReceipts (p : FSProvider) (agentID : string) (data : bytes) : outcome unit * FSProvider :=
  let '(sc, p) := next_script p in save_at (receiptPath p agentID) data sc p.
Definition SaveIdentity (p : FSProvider) (agentID : string) (data : bytes) : outcome unit * FSProvider :=
  let '(sc, p) := next_script p in save_at (identityPath p agentID) data sc p.

Definition load_at (p : FSProvider) (path : result storage_error string) : result storage_error bytes :=
  path ← path;
  if bool_decide (path ∈ bad_reads p) then Err ErrRead
  else match disk p !! path with Some data => Ok data | None => Err ErrNotFound end.
Definition LoadCheckpoint (p : FSProvider) (agentID : string) := load_at p (checkpointPath p agentID).
Definition LoadReceipts (p : FSProvider) (agentID : string) := load_at p (receiptPath p agentID).
Definition LoadIdentity (p : FSProvider) (agentID : string) := load_at p (identityPath p agentID).

(** [os.Remove]; a missing file is not an error. *)
Definition delete_at (p : FSProvider) (path : result storage_error string) (removes : bool)
    : result storage_error unit * FSProvider :=
  match path with
  | Err e => (Err e, p)
  | Ok path =>
      match disk p !! path with
      | None => (Ok tt, p)
      | Some _ => if removes then (Ok tt, set_disk (delete path (disk p)) p) else (Err ErrRemove, p)
      end
  end.
Definition DeleteCheckpoint p agentID := delete_at p (checkpointPath p agentID).
Definition DeleteReceipts p agentID := delete_at p (receiptPath p agentID).
Definition DeleteIdentity p agentID := delete_at p (identityPath p agentID).

(** ** Lemmas: strings and components *)
Definition chars (s : string) : list Ascii.ascii := String.list_ascii_of_string s.
Lemma append_cons c a b : String c a +:+ b = String c (a +:+ b).
Proof. done. Qed.
Lemma append_nil b : "" +:+ b = b.
Proof. done. Qed.
Lemma chars_app a b : chars (a +:+ b) = chars a ++ chars b.
Proof. induction a as [|c a IH]; [done|]. rewrite append_cons. unfold chars in *. simpl. by rewrite IH. Qed.
Lemma string_app_assoc a b c : (a +:+ b) +:+ c = a +:+ (b +:+ c).
Proof. induction a as [|x a IH]; [done|]. by rewrite !append_cons, IH. Qed.

(** Two suffixes that disagree, read from the end. *)
Definition clash (a b : string) : bool :=
  existsb (fun xy => negb (bool_decide (fst xy = snd xy))) (zip (reverse (chars a)) (reverse (chars b))).
Lemma clash_neq a b x y : clash a b = true -> x +:+ a <> y +:+ b.
Proof.
  intros Hc E. apply (f_equal (fun s => reverse (chars s))) in E. rewrite !chars_app, !reverse_app in E.
  unfold clash in Hc. revert Hc E. generalize (reverse (chars a)) (reverse (chars b)) (reverse (chars x)) (reverse (chars y)).
  clear. intros l. induction l as [|c l IH]; intros k u v Hc E; [done|].
  destruct k as [|c' k]; [done|]. simpl in *. injection E as -> E.
  rewrite bool_decide_eq_true_2 in Hc by done. simpl in Hc. by apply (IH k u v).
Qed.

Definition no_slash (s : string) : Prop := slash ∉ chars s.
#[export] Instance no_slash_dec s : Decision (no_slash s).
Proof. unfold no_slash. apply _. Defined.

Lemma split_slash_nonempty s : split_slash s <> [].
Proof. induction s as [|c s IH]; simpl; [done|]. case_bool_decide; [done|]. by destruct (split_slash s). Qed.
Lemma split_slash_no_slash s : Forall no_slash (split_slash s).
Proof.
  induction s as [|c s IH]; simpl; [by repeat constructor; unfold no_slash; apply not_elem_of_nil|].
  case_bool_decide as E; [constructor; [by apply not_elem_of_nil|done]|].
  destruct (split_slash s) as [|w ws]; inversion IH; subst.
  - constructor; [|done]. unfold no_slash; simpl. rewrite list_elem_of_singleton. congruence.
  - constructor; [|done]. unfold no_slash in *; simpl. rewrite elem_of_cons. intros [?|?]; [congruence|done].
Qed.
Lemma split_slash_app_sep a b : split_slash (a +:+ "/" +:+ b) = split_slash a ++ split_slash b.
Proof.
  induction a as [|c a IH]; [done|]. rewrite append_cons. cbn [split_slash]. rewrite IH.
  case_bool_decide; [done|]. pose proof (split_slash_nonempty a). by destruct (split_slash a).
Qed.
Lemma split_slash_word w : no_slash w -> split_slash w = [w].
Proof.
  induction w as [|c w IH]; intros Hn; [done|]. unfold no_slash in *; simpl in *.
  apply not_elem_of_cons in Hn as [Hc Hn]. rewrite bool_decide_eq_false_2 by congruence. by rewrite IH.
Qed.
(** A suffix without a slash extends the last component. *)
Lemma split_slash_snoc s suf : no_slash suf ->
  exists l w, split_slash (s +:+ suf) = l ++ [w +:+ suf].
Proof.
  intros Hn. induction s as [|c s IH].
  - exists [], "". by apply split_slash_word.
  - destruct IH as (l & w & E). rewrite append_cons. cbn [split_slash]. rewrite E.
    case_bool_decide; [by exists ("" :: l), w|]. destruct l as [|v l]; [by exists [], (String c w)|by exists (String c v :: l), w].
Qed.
Lemma split_concat l : l <> [] -> Forall no_slash l -> split_slash (String.concat "/" l) = l.
Proof.
  induction l as [|w l IH]; [done|]. intros _ Hf. inversion Hf; subst.
  destruct l as [|v l]; [by apply split_slash_word|].
  change (String.concat "/" (w :: v :: l)) with (w +:+ "/" +:+ String.concat "/" (v :: l)).
  rewrite split_slash_app_sep, (split_slash_word w) by done. by rewrite IH.
Qed.
Lemma concat_snoc l w : exists x, String.concat "/" (l ++ [w]) = x +:+ w.
Proof.
  induction l as [|v l [x E]]; [by exists ""|]. 
  assert (exists u us, l ++ [w] = u :: us) as (u & us & Eu) by (destruct l; eauto).
  exists (v +:+ "/" +:+ x). cbn [app]. rewrite Eu in *.
  change (String.concat "/" (v :: u :: us)) with (v +:+ "/" +:+ String.concat "/" (u :: us)).
  rewrite E. by rewrite !string_app_assoc.
Qed.
Lemma prefix_split a s : String.prefix a s = true -> exists r, s = a +:+ r.
Proof.
  revert s; induction a as [|c a IH]; intros s; [by exists s|].
  destruct s as [|d s]; simpl; [done|]. destruct (Ascii.ascii_dec c d) as [->|]; [|done].
  intros H. destruct (IH s H) as [r ->]. by exists r.
Qed.
Lemma string_length_app a b : String.length (a +:+ b) = (String.length a + String.length b)%nat.
Proof. induction a as [|c a IH]; [done|]. rewrite append_cons. simpl. by rewrite IH. Qed.

(** ** Lemmas: cleaned paths *)
(** Components as [Clean] leaves them: proper names after leading dots. *)
Definition proper (w : string) : Prop := no_slash w /\ w <> "" /\ w <> "." /\ w <> "..".
Definition cleaned (root : bool) (l : list string) : Prop :=
  exists k names, l = replicate k ".." ++ names /\ Forall proper names /\ (root = true -> k = O).

Lemma reverse_replicate_cons {A} k (x : A) l : reverse (replicate (S k) x ++ l) = reverse l ++ replicate k x ++ [x].
Proof. rewrite reverse_app, reverse_replicate. f_equal. by rewrite <- replicate_cons_app. Qed.

Lemma clean_step_cleaned root out comp :
  no_slash comp -> cleaned root (reverse out) -> cleaned root (reverse (clean_step root out comp)).
Proof.
  intros Hn (k & names & E & Hf & Hr). apply (f_equal reverse) in E. rewrite reverse_involutive in E. subst out.
  unfold clean_step. case_bool_decide as E1; cbn [orb]; [exists k, names; by rewrite reverse_involutive|].
  case_bool_decide as E2; cbn [orb]; [exists k, names; by rewrite reverse_involutive|].
  case_bool_decide as E3.
  - subst comp. destruct names as [|w names _] using rev_ind.
    + rewrite app_nil_r, reverse_replicate. destruct k as [|k]; simpl.
      * destruct root; [by exists O, []|]. exists 1%nat, []. by split_and!.
      * exists (S (S k)), []. rewrite app_nil_r. split_and!; [|done|intros Ht; by specialize (Hr Ht)].
        change (".." :: ".." :: replicate k "..")%string with (replicate (S (S k)) ".."%string).
        apply reverse_replicate.
    + apply Forall_app in Hf as [Hf Hw]. inversion Hw as [|? ? Hp]; subst.
      rewrite app_assoc, reverse_snoc. rewrite bool_decide_eq_false_2 by apply Hp.
      rewrite reverse_involutive. by exists k, names.
  - rewrite reverse_cons, reverse_involutive. exists k, (names ++ [comp]). rewrite app_assoc. split_and!; [done| |done].
    apply Forall_app. split; [done|]. constructor; [|done]. by split_and!.
Qed.
Lemma clean_comps_cleaned root comps : Forall no_slash comps -> cleaned root (clean_comps root comps).
Proof.
  intros Hf. unfold clean_comps. assert (cleaned root (reverse [])) as H by by exists O, [].
  revert H. generalize (@nil string). induction Hf as [|c comps Hc _ IH]; intros out Ho; [done|].
  apply IH. by apply clean_step_cleaned.
Qed.
Lemma clean_comps_snoc root comps w : proper w -> clean_comps root (comps ++ [w]) = clean_comps root comps ++ [w].
Proof.
  intros (_ & H1 & H2 & H3). unfold clean_comps. rewrite fold_left_app. simpl. unfold clean_step at 1.
  rewrite !bool_decide_eq_false_2 by done. simpl. by rewrite reverse_cons.
Qed.

(** A long enough suffix without slashes survives [Clean]. *)
Lemma suffix_proper w suf : no_slash (w +:+ suf) -> (2 < String.length suf)%nat -> proper (w +:+ suf).
Proof.
  intros Hn Hl. split; [done|]. split_and!; intros E; apply (f_equal String.length) in E;
    rewrite string_length_app in E; simpl in E; lia.
Qed.
Lemma Clean_suffix s suf :
  no_slash suf -> (2 < String.length suf)%nat -> exists x, Clean (s +:+ suf) = x +:+ suf.
Proof.
  intros Hn Hl. destruct (split_slash_snoc s suf Hn) as (l & w & E).
  pose proof (split_slash_no_slash (s +:+ suf)) as Hf. rewrite E in Hf. apply Forall_app in Hf as [_ Hw].
  inversion Hw as [|? ? Hp]; subst. pose proof (suffix_proper w suf Hp Hl) as Hpr.
  unfold Clean. rewrite E, clean_comps_snoc by done.
  destruct (concat_snoc (clean_comps (rooted (s +:+ suf)) l) (w +:+ suf)) as [x Ex].
  destruct (rooted _).
  - exists (String slash x +:+ w). rewrite Ex. by rewrite !string_app_assoc.
  - rewrite Ex. exists (x +:+ w). rewrite string_app_assoc. by destruct (clean_comps _ l).
Qed.
Lemma Join_suffix d e suf :
  no_slash suf -> (2 < String.length suf)%nat -> exists x, Join d (e +:+ suf) = x +:+ suf.
Proof.
  intros ??. unfold Join. case_bool_decide; [by apply Clean_suffix|].
  rewrite <- !string_app_assoc. by apply Clean_suffix.
Qed.
Lemma agent_path_suffix suf p id path :
  no_slash suf -> (2 < String.length suf)%nat -> agent_path suf p id = Ok path -> exists x, path = x +:+ suf.
Proof.
  intros Hn Hl. unfold agent_path. destruct (negb _); [done|]. intros [= <-].
  destruct (Join_suffix (baseDir p) id suf Hn Hl) as [x ->]. by apply Clean_suffix.
Qed.
Lemma histPath_suffix p id n : exists x, histPath p id n = x +:+ ".ckpt".
Proof. apply Join_suffix; [by apply (bool_decide_unpack _)|simpl; lia]. Qed.

(** ** Lemmas: atomic saves *)
Lemma tmp_neq path : tmp path <> path.
Proof. intros E. apply (f_equal String.length) in E. unfold tmp in E. rewrite string_length_app in E. simpl in E. lia. Qed.

(** Inside the save everything but the target and its temporary keeps its
    value, and the target changes only by the rename. *)
Definition save_post (path : string) (data : bytes) (d : gmap string bytes)
    (res : outcome unit * gmap string bytes) : Prop :=
  let '(r, d') := res in
  (forall q, q <> path -> q <> tmp path -> d' !! q = d !! q) /\
  match r with
  | Returned (Ok _) => d' !! path = Some data /\ d' !! tmp path = None
  | Returned (Err _) => d' !! path = d !! path
  | Crashed => d' !! path = d !! path \/ d' !! path = Some data
  end.

Ltac disk_tac :=
  repeat match goal with
  | |- context [tmp ?p] => lazymatch goal with _ : tmp p <> p |- _ => fail | _ => pose proof (tmp_neq p) end
  end;
  repeat first [ rewrite lookup_insert_eq | rewrite lookup_insert_ne by congruence
               | rewrite lookup_delete_eq | rewrite lookup_delete_ne by congruence ].

Lemma atomic_save_post sc path data d : save_post path data d (atomic_save sc path data d).
Proof.
  unfold atomic_save, failed, save_post, io_call.
  destruct (s_create sc), (s_write sc), (s_sync sc), (s_close sc), (s_rename sc), (s_remove sc);
    (split; [intros q Hq Hq'; by disk_tac|]); try (by disk_tac); try (split; by disk_tac);
    first [left; by disk_tac | right; by disk_tac].
Qed.

Lemma save_at_post path data sc p :
  let '(r, p') := save_at (Ok path) data sc p in
  save_post path data (disk p) (r, disk p') /\ baseDir p' = baseDir p /\ bad_reads p' = bad_reads p.
Proof.
  unfold save_at. pose proof (atomic_save_post sc path data (disk p)) as H.
  destruct (atomic_save _ _ _ _) as [r d]. done.
Qed.

(** The archive touches one history file, and only when it does not exist. *)
Lemma archive_post sc p id state :
  let '(r, p') := archiveCheckpoint sc p id state in
  baseDir p' = baseDir p /\ bad_reads p' = bad_reads p /\
  (forall q v, disk p !! q = Some v -> disk p' !! q = Some v) /\
  (forall q, (forall n, q <> histPath p id n) -> disk p' !! q = disk p !! q) /\
  (r = Returned (Ok tt) \/ r = Crashed).
Proof.
  unfold archiveCheckpoint, io_call. set (n := get_u64 _).
  destruct (blen state <? 25); [by split_and!; auto|]. destruct (negb _); [by split_and!; auto|]. cbv zeta.
  destruct (disk p !! histPath p id n) as [x|] eqn:E; [by split_and!; auto|].
  destruct (s_archive sc); simpl; split_and!; auto;
    first [ by intros q v Hq; rewrite lookup_insert_ne by congruence
          | intros q Hq; specialize (Hq n); by rewrite lookup_insert_ne by congruence ].
Qed.

Lemma agent_path_ext suf p p' id : baseDir p' = baseDir p -> agent_path suf p' id = agent_path suf p id.
Proof. intros E. unfold agent_path. by rewrite E. Qed.
Lemma histPath_ext p p' id n : baseDir p' = baseDir p -> histPath p' id n = histPath p id n.
Proof. intros E. unfold histPath, HistoryDir. by rewrite E. Qed.

Definition suffixes : list string := [".checkpoint"; ".receipts"; ".identity"].
Lemma suffix_ok suf : suf ∈ suffixes -> no_slash suf /\ (2 < String.length suf)%nat /\ clash suf ".ckpt" = true /\ clash suf ".tmp" = true.
Proof.
  unfold suffixes. rewrite !elem_of_cons, elem_of_nil.
  intros [->|[->|[->|[]]]]; split_and!; try done; try (simpl; lia); by apply (bool_decide_unpack _).
Qed.

(** A file of one kind is never another kind's file, a temporary or an
    archived checkpoint. *)
Lemma agent_path_hist suf p id path n id' p' :
  suf ∈ suffixes -> agent_path suf p id = Ok path -> path <> histPath p' id' n.
Proof.
  intros Hs Hp. destruct (suffix_ok suf Hs) as (Hn & Hl & Hc & _).
  destruct (agent_path_suffix suf p id path Hn Hl Hp) as [x ->], (histPath_suffix p' id' n) as [y ->].
  by apply clash_neq.
Qed.
Lemma agent_path_tmp suf p id path path' :
  suf ∈ suffixes -> agent_path suf p id = Ok path -> path <> tmp path'.
Proof.
  intros Hs Hp. destruct (suffix_ok suf Hs) as (Hn & Hl & _ & Hc).
  destruct (agent_path_suffix suf p id path Hn Hl Hp) as [x ->]. by apply clash_neq.
Qed.
Lemma agent_path_kinds suf suf' p id path p' id' path' :
  suf ∈ suffixes -> suf' ∈ suffixes -> suf <> suf' ->
  agent_path suf p id = Ok path -> agent_path suf' p' id' = Ok path' -> path <> path'.
Proof.
  intros Hs Hs' Hne Hp Hp'. destruct (suffix_ok suf Hs) as (Hn & Hl & _ & _), (suffix_ok suf' Hs') as (Hn' & Hl' & _ & _).
  destruct (agent_path_suffix suf p id path Hn Hl Hp) as [x ->], (agent_path_suffix suf' p' id' path' Hn' Hl' Hp') as [y ->].
  apply clash_neq. unfold suffixes in *. rewrite !elem_of_cons, elem_of_nil in Hs, Hs'.
  by destruct Hs as [->|[->|[->|[]]]], Hs' as [->|[->|[->|[]]]].
Qed.

Lemma next_script_same p sc p' : next_script p = (sc, p') ->
  baseDir p' = baseDir p /\ disk p' = disk p /\ bad_reads p' = bad_reads p.
Proof. unfold next_script. destruct (scripts p); by intros [= <- <-]. Qed.

(** What saving a checkpoint does to every file. *)
Lemma SaveCheckpoint_post p id state path :
  checkpointPath p id = Ok path ->
  let '(r, p') := SaveCheckpoint p id state in
  baseDir p' = baseDir p /\ bad_reads p' = bad_reads p /\
  (forall q, q <> path -> q <> tmp path -> (forall n, q <> histPath p id n) -> disk p' !! q = disk p !! q) /\
  (forall n v, disk p !! histPath p id n = Some v -> disk p' !! histPath p id n = Some v) /\
  match r with
  | Returned (Ok _) => disk p' !! path = Some state
  | Returned (Err _) => disk p' !! path = disk p !! path
  | Crashed => disk p' !! path = disk p !! path \/ disk p' !! path = Some state
  end.
Proof.
  intros Hp. unfold SaveCheckpoint. destruct (next_script p) as [sc p1] eqn:En.
  apply next_script_same in En as (Eb & Ed & Er). unfold checkpointPath in *.
  rewrite (agent_path_ext _ p p1), Hp by done. unfold save_at.
  pose proof (atomic_save_post sc path state (disk p1)) as H. destruct (atomic_save _ _ _ _) as [r d].
  destruct H as [Hother Hr]. rewrite Ed in *.
  assert (Hhist : forall n, histPath p id n <> path /\ histPath p id n <> tmp path).
  { intros n. split; [symmetry; eapply (agent_path_hist ".checkpoint"); [by left|done]|].
    intros E. destruct (histPath_suffix p id n) as [x Ex]. rewrite Ex in E. revert E. by apply clash_neq. }
  destruct r as [[u|e]|].
  2,3: split_and!; try done; [intros q ? ? ?; by apply Hother|intros n v Hv; simpl; by rewrite Hother; try apply Hhist].
  pose proof (archive_post sc (set_disk d p1) id state) as Ha.
  destruct (archiveCheckpoint _ _ _ _) as [r p'].
  destruct Ha as (Hb' & Hr' & Hkeep & Hsame & Hres). simpl in Hb', Hr', Hkeep, Hsame.
  assert (forall n, histPath (set_disk d p1) id n = histPath p id n) as Hh by (intros; by apply histPath_ext).
  destruct Hr as [Hsaved _]. split_and!; try congruence.
  - intros q H1 H2 H3. rewrite Hsame by (intros n; rewrite Hh; apply H3). by apply Hother.
  - intros n v Hv. apply Hkeep. by rewrite Hother; [|apply Hhist..].
  - pose proof (Hkeep path state Hsaved). destruct Hres as [->| ->]; [done|by right].
Qed.

(** ** Lemmas: restart *)
Lemma substring_full s : String.substring 0 (String.length s) s = s.
Proof. induction s as [|c s IH]; [done|]. simpl. by rewrite IH. Qed.
Lemma substring_suffix n s : (n <= String.length s)%nat ->
  exists y, s = y +:+ String.substring n (String.length s - n) s.
Proof.
  revert s; induction n as [|n IH]; intros s Hn.
  - exists "". by rewrite Nat.sub_0_r, substring_full.
  - destruct s as [|c s]; [simpl in Hn; lia|]. destruct (IH s) as [y E]; [simpl in Hn; lia|].
    exists (String c y). rewrite append_cons. simpl. by rewrite <- E.
Qed.
Lemma has_suffix_true suf s : has_suffix suf s = true -> exists y, s = y +:+ suf.
Proof.
  unfold has_suffix. intros H. apply andb_true_iff in H as [Hl He].
  apply Nat.leb_le in Hl. apply bool_decide_eq_true in He.
  destruct (substring_suffix (String.length s - String.length suf) s) as [y E]; [lia|].
  exists y. replace (String.length s - (String.length s - String.length suf))%nat with (String.length suf) in E by lia.
  by rewrite He in E.
Qed.
Lemma clean_keeps p path :
  (forall y, path <> y +:+ ".tmp") -> disk (cleanStaleTempFiles p) !! path = disk p !! path.
Proof.
  intros Hp. unfold cleanStaleTempFiles, set_disk; simpl.
  assert (stale_temp (baseDir p) path = false) as Hf.
  { unfold stale_temp. destruct (has_suffix ".tmp" path) eqn:E; [|apply andb_false_r].
    apply has_suffix_true in E as [y E]. by apply Hp in E. }
  destruct (disk p !! path) as [v|] eqn:E.
  - by apply map_lookup_filter_Some.
  - apply map_lookup_filter_None. by left.
Qed.
Lemma agent_path_no_tmp suf p id path y :
  suf ∈ suffixes -> agent_path suf p id = Ok path -> path <> y +:+ ".tmp".
Proof. intros Hs Hp. exact (agent_path_tmp suf p id path y Hs Hp). Qed.

Lemma load_at_eq p p' suf id :
  baseDir p' = baseDir p -> bad_reads p' = bad_reads p ->
  (forall path, agent_path suf p id = Ok path -> disk p' !! path = disk p !! path) ->
  load_at p' (agent_path suf p' id) = load_at p (agent_path suf p id).
Proof.
  intros Hb Hr Hd. rewrite (agent_path_ext suf p p' id Hb). destruct (agent_path suf p id) as [path|] eqn:E; [|done].
  unfold load_at. simpl. rewrite Hr. case_bool_decide; [done|]. by rewrite Hd.
Qed.
Lemma load_clean p suf id :
  suf ∈ suffixes -> load_at (cleanStaleTempFiles p) (agent_path suf (cleanStaleTempFiles p) id) = load_at p (agent_path suf p id).
Proof.
  intros Hs. apply load_at_eq; [done..|]. intros path Hp. apply clean_keeps. intros y. by eapply agent_path_no_tmp.
Qed.

(** ** Lemmas: confinement *)
Lemma cleaned_split path :
  exists out, cleaned (rooted path) out /\
    split_slash (Clean path) = (if rooted path then [""] else []) ++ (match out with [] => if rooted path then [""] else ["."] | _ => out end).
Proof.
  exists (clean_comps (rooted path) (split_slash path)).
  pose proof (clean_comps_cleaned (rooted path) _ (split_slash_no_slash path)) as Hc. split; [done|].
  unfold Clean. set (out := clean_comps _ _) in *.
  assert (Forall no_slash out) as Hns.
  { destruct Hc as (k & names & -> & Hf & _). apply Forall_app. split.
    - apply Forall_replicate. by apply (bool_decide_unpack _).
    - eapply Forall_impl; [done|]. by intros w [? _]. }
  destruct (rooted path).
  - cbn [split_slash]. rewrite bool_decide_eq_true_2 by done. cbn [app]. f_equal.
    destruct out as [|w out]; [done|]. by apply split_concat.
  - destruct out as [|w out]; [done|]. by apply split_concat.
Qed.

(** ".." occurs only in a leading run, never after another component. *)
Lemma cleaned_dots k names i :
  Forall proper names -> (replicate k ".." ++ names) !! i = Some ".." -> forall j, (j <= i)%nat ->
  (replicate k ".." ++ names) !! j = Some "..".
Proof.
  intros Hf Hi j Hj. destruct (decide (i < k)%nat) as [Hlt|Hge].
  - rewrite lookup_app_l by (rewrite length_replicate; lia). apply lookup_replicate_2. lia.
  - rewrite lookup_app_r in Hi by (rewrite length_replicate; lia). exfalso.
    apply list_elem_of_lookup_2 in Hi. rewrite Forall_forall in Hf. by destruct (Hf _ Hi) as (_&_&_&?).
Qed.

Lemma agent_path_confined suf p id path :
  agent_path suf p id = Ok path ->
  exists rest, split_slash path = split_slash (Clean (baseDir p)) ++ rest /\ rest <> [] /\
    (last (split_slash (Clean (baseDir p))) <> Some ".." -> ".." ∉ rest).
Proof.
  unfold agent_path. set (base := Clean (baseDir p)). set (j := Join _ _).
  destruct (String.prefix _ _) eqn:Hp; [|done]. intros [= <-].
  apply prefix_split in Hp as [r Hr]. rewrite string_app_assoc in Hr.
  exists (split_slash r). rewrite Hr, split_slash_app_sep. split_and!; [done|apply split_slash_nonempty|].
  intros Hlast Hin. destruct (cleaned_split j) as (out & (k & names & -> & Hf & Hroot) & Hsp).
  rewrite Hr, split_slash_app_sep in Hsp.
  destruct (split_slash base) as [|b bs _] eqn:Eb using rev_ind; [by apply split_slash_nonempty in Eb|].
  rewrite last_snoc in Hlast. apply list_elem_of_lookup in Hin as [i Hi].
  destruct (rooted j) eqn:Erj.
  - rewrite Hroot in Hsp by done. cbn [replicate app] in Hsp.
    assert (".." ∈ (bs ++ [b]) ++ split_slash r) as Hx.
    { apply elem_of_app. right. by eapply list_elem_of_lookup_2. }
    rewrite Hsp in Hx. rewrite Forall_forall in Hf. apply elem_of_cons in Hx as [Hx|Hx]; [done|].
    destruct names as [|n ns]; [by apply list_elem_of_singleton in Hx|]. by destruct (Hf _ Hx) as (_&_&_&?).
  - rewrite app_nil_l in Hsp.
    assert (forall o : list string, o = (bs ++ [b]) ++ split_slash r -> o !! (length bs + 1 + i)%nat = Some ".." /\ o !! length bs = Some b) as Hidx.
    { intros o ->. split.
      - rewrite lookup_app_r by (rewrite length_app; simpl; lia). rewrite <- Hi. f_equal. rewrite length_app. simpl. lia.
      - rewrite lookup_app_l by (rewrite length_app; simpl; lia). by rewrite lookup_app_r, Nat.sub_diag by lia. }
    destruct (replicate k ".." ++ names) as [|o os] eqn:Eo.
    + destruct (Hidx ["."] (eq_sym Hsp)) as [H1 _]. destruct (length bs + 1 + i)%nat eqn:?; [lia|done].
    + rewrite <- Eo in Hsp. destruct (Hidx _ (eq_sym Hsp)) as [H1 H2].
      pose proof (cleaned_dots k names _ Hf H1 (length bs) ltac:(lia)). congruence.
Qed.

(** ** Sequences of operations *)
Inductive storage_op :=
| OSaveCheckpoint (id : string) (state : bytes) | OSaveReceipts (id : string) (data : bytes)
| OSaveIdentity (id : string) (data : bytes) | ODeleteCheckpoint (id : string) (ok : bool)
| ODeleteReceipts (id : string) (ok : bool) | ODeleteIdentity (id : string) (ok : bool) | ORestart.
Definition do_storage (o : storage_op) (p : FSProvider) : FSProvider :=
  match o with
  | OSaveCheckpoint id s => snd (SaveCheckpoint p id s)
  | OSaveReceipts id d => snd (SaveReceipts p id d)
  | OSaveIdentity id d => snd (SaveIdentity p id d)
  | ODeleteCheckpoint id ok => snd (DeleteCheckpoint p id ok)
  | ODeleteReceipts id ok => snd (DeleteReceipts p id ok)
  | ODeleteIdentity id ok => snd (DeleteIdentity p id ok)
  | ORestart => cleanStaleTempFiles p
  end.
Definition do_storages (os : list storage_op) (p : FSProvider) : FSProvider :=
  fold_left (fun p o => do_storage o p) os p.

(** [q] is an archived checkpoint of [p] holding [v]. *)
Definition archived (p : FSProvider) (q : string) (v : bytes) : Prop :=
  disk p !! q = Some v /\ exists x, q = x +:+ ".ckpt".

Lemma save_at_archived suf p p0 id data sc q v :
  suf ∈ suffixes -> archived p q v -> archived (snd (save_at (agent_path suf p0 id) data sc p)) q v.
Proof.
  intros Hs [Hq [x ->]]. destruct (agent_path suf p0 id) as [path|e] eqn:Hp; [|by split; [|exists x]].
  pose proof (save_at_post path data sc p) as H. destruct (save_at _ _ _ _) as [r p']. destruct H as ([Ho _] & _).
  destruct (suffix_ok suf Hs) as (Hn & Hl & Hc & _).
  destruct (agent_path_suffix suf p0 id path Hn Hl Hp) as [y ->].
  split; [|by exists x]. simpl. rewrite Ho; [done| |].
  - intros E. symmetry in E. revert E. by apply clash_neq.
  - unfold tmp. by apply clash_neq.
Qed.
Lemma archive_archived sc p id state q v :
  archived p q v -> archived (snd (archiveCheckpoint sc p id state)) q v.
Proof.
  intros [Hq Hx]. pose proof (archive_post sc p id state) as H.
  destruct (archiveCheckpoint _ _ _ _) as [r p']. destruct H as (_ & _ & Hk & _). split; [by apply Hk|done].
Qed.
Lemma delete_at_archived suf p id ok q v :
  suf ∈ suffixes -> archived p q v -> archived (snd (delete_at p (agent_path suf p id) ok)) q v.
Proof.
  intros Hs [Hq [x ->]]. destruct (agent_path suf p id) as [path|e] eqn:Hp; [|by split; [|exists x]].
  destruct (suffix_ok suf Hs) as (Hn & Hl & Hc & _).
  destruct (agent_path_suffix suf p id path Hn Hl Hp) as [y ->].
  unfold delete_at. destruct (disk p !! (y +:+ suf)); [|by split; [|exists x]].
  destruct ok; (split; [|by exists x]); [|exact Hq].
  unfold set_disk; cbn [snd disk]. rewrite lookup_delete_ne; [done|]. by apply clash_neq.
Qed.
Lemma archived_script p q v sc p' : next_script p = (sc, p') -> archived p q v -> archived p' q v.
Proof. intros E. apply next_script_same in E as (_ & Ed & _). unfold archived. by rewrite Ed. Qed.

Lemma do_storage_archived o p q v : archived p q v -> archived (do_storage o p) q v.
Proof.
  intros Ha. destruct o as [id s|id d|id d|id ok|id ok|id ok|]; simpl.
  - unfold SaveCheckpoint. destruct (next_script p) as [sc p1] eqn:En. apply (archived_script _ _ _ _ _ En) in Ha.
    pose proof (save_at_archived ".checkpoint" p1 p1 id s sc q v ltac:(by left) Ha) as H.
    unfold checkpointPath. destruct (save_at _ _ _ _) as [[[u|e]|] p2]; try done. by apply archive_archived.
  - unfold SaveReceipts. destruct (next_script p) as [sc p1] eqn:En. apply (archived_script _ _ _ _ _ En) in Ha.
    by apply save_at_archived; [right; left|].
  - unfold SaveIdentity. destruct (next_script p) as [sc p1] eqn:En. apply (archived_script _ _ _ _ _ En) in Ha.
    by apply save_at_archived; [right; right; left|].
  - by apply delete_at_archived; [left|].
  - by apply delete_at_archived; [right; left|].
  - by apply delete_at_archived; [right; right; left|].
  - destruct Ha as [Hq [x ->]]. split; [|by exists x]. rewrite clean_keeps; [done|]. intros y. by apply clash_neq.
Qed.

(** ** The identity store of pkg/identity *)
#[export] Instance fs_store : Store FSProvider := {|
  Identity.LoadIdentity p id := match LoadIdentity p id with Ok d => Some d | Err _ => None end;
  Identity.SaveIdentity p id data :=
    match SaveIdentity p id data with (Returned (Ok _), p') => (true, p') | (_, p') => (false, p') end;
  identity_readable p := bad_reads p = ∅ |}.
#[export] Instance fs_store_laws : StoreLaws FSProvider fs_store.
Proof.
  split.
  - intros p id data p'. simpl. destruct (SaveIdentity p id data) as [r q] eqn:E. intros Hr.
    assert (q = p') as -> by (destruct r as [[]|]; congruence).
    assert (r = Returned (Ok tt)) as -> by (by destruct r as [[[]|]|]).
    unfold SaveIdentity in E. destruct (next_script p) as [sc p1] eqn:En.
    apply next_script_same in En as (Eb & Ed & Er). unfold identityPath in *.
    intros Hread. unfold LoadIdentity, identityPath.
    destruct (agent_path ".identity" p1 id) as [path|e] eqn:Hp; [|done].
    pose proof (save_at_post path data sc p1) as H. rewrite E in H. destruct H as ([_ [Hs _]] & Hb' & Hr').
    rewrite (agent_path_ext _ p1 p' id Hb'), Hp. unfold load_at; simpl. rewrite Hread.
    rewrite bool_decide_eq_false_2 by set_solver. by rewrite Hs.
Qed.

(** ** Claims *)

(** C19: saving a checkpoint is atomic.  Whatever fails and wherever the
    process dies during the save, loading afterwards (also after a restart
    that removes stale temporary files) gives the new checkpoint if the save
    reported success, the old one if it reported an error, and one of the two,
    never a torn mix, after a crash; receipts and identities of every agent
    are untouched. *)
Theorem save_checkpoint_atomic (p : FSProvider) (id : string) (state : bytes) (path : string) :
  checkpointPath p id = Ok path -> path ∉ bad_reads p ->
  let '(r, p') := SaveCheckpoint p id state in
  let restarted := cleanStaleTempFiles p' in
  LoadCheckpoint restarted id = LoadCheckpoint p' id /\
  (forall id', LoadReceipts restarted id' = LoadReceipts p id' /\ LoadIdentity restarted id' = LoadIdentity p id') /\
  match r with
  | Returned (Ok _) => LoadCheckpoint p' id = Ok state
  | Returned (Err _) => LoadCheckpoint p' id = LoadCheckpoint p id
  | Crashed => LoadCheckpoint p' id = LoadCheckpoint p id \/ LoadCheckpoint p' id = Ok state
  end.
Proof.
  intros Hp Hread. pose proof (SaveCheckpoint_post p id state path Hp) as H.
  destruct (SaveCheckpoint p id state) as [r p']. destruct H as (Hb & Hr & Hother & _ & Hres).
  assert (forall suf, suf ∈ [".receipts"; ".identity"] -> forall id',
    load_at (cleanStaleTempFiles p') (agent_path suf (cleanStaleTempFiles p') id') = load_at p (agent_path suf p id')) as Hrest.
  { intros suf Hs id'. assert (suf ∈ suffixes) as Hs' by (by right).
    rewrite load_clean by done. apply load_at_eq; [done..|]. intros q Hq. apply Hother.
    - apply (agent_path_kinds suf ".checkpoint" p id' q p id path); try done; [by left|].
      intros ->. by rewrite !elem_of_cons, elem_of_nil in Hs; destruct Hs as [?|[?|[]]].
    - by eapply agent_path_tmp.
    - intros n. by eapply agent_path_hist. }
  assert (LoadCheckpoint p' id = match disk p' !! path with Some d => Ok d | None => Err ErrNotFound end) as El.
  { unfold LoadCheckpoint, checkpointPath. rewrite (agent_path_ext _ p p' id Hb).
    unfold checkpointPath in Hp. rewrite Hp. unfold load_at; simpl. by rewrite Hr, bool_decide_eq_false_2. }
  assert (LoadCheckpoint p id = match disk p !! path with Some d => Ok d | None => Err ErrNotFound end) as El0.
  { unfold LoadCheckpoint. rewrite Hp. unfold load_at; simpl. by rewrite bool_decide_eq_false_2. }
  split_and!; [apply load_clean; by left| |].
  - intros id'. split; [apply (Hrest ".receipts")|apply (Hrest ".identity")]; set_solver.
  - rewrite El, El0. destruct r as [[u|e]|]; rewrite ?Hres; [done..|]. by destruct Hres as [->| ->]; [left|right].
Qed.

Definition demo_fs : FSProvider :=
  NewFSProvider "./checkpoints" ∅ ∅ [mkScript IOk ICrashAfter 3 IOk IOk IOk true true IOk 0].
Lemma save_checkpoint_atomic_witness :
  let '(r, p') := SaveCheckpoint demo_fs "agent" (bytes_of "state") in
  let restarted := cleanStaleTempFiles p' in
  LoadCheckpoint restarted "agent" = LoadCheckpoint p' "agent" /\
  (forall id', LoadReceipts restarted id' = LoadReceipts demo_fs id' /\
     LoadIdentity restarted id' = LoadIdentity demo_fs id') /\
  match r with
  | Returned (Ok _) => LoadCheckpoint p' "agent" = Ok (bytes_of "state")
  | Returned (Err _) => LoadCheckpoint p' "agent" = LoadCheckpoint demo_fs "agent"
  | Crashed => LoadCheckpoint p' "agent" = LoadCheckpoint demo_fs "agent" \/ LoadCheckpoint p' "agent" = Ok (bytes_of "state")
  end.
Proof.
  apply (save_checkpoint_atomic demo_fs "agent" (bytes_of "state") "checkpoints/agent.checkpoint").
  - vm_compute. reflexivity.
  - simpl. set_solver.
Defined.

(** C37: agent files stay inside the storage directory.  A path the provider
    accepts is the cleaned base directory followed by at least one component,
    and no component after the base is "..", provided the base directory does
    not itself end in "..". *)
Theorem agent_files_confined (p : FSProvider) (id suf path : string) :
  agent_path suf p id = Ok path ->
  exists rest, split_slash path = split_slash (Clean (baseDir p)) ++ rest /\ rest <> [] /\
    (last (split_slash (Clean (baseDir p))) <> Some ".." -> ".." ∉ rest).
Proof. apply agent_path_confined. Qed.
Lemma agent_files_confined_witness :
  exists rest, split_slash "checkpoints/agent.checkpoint" = split_slash (Clean (baseDir demo_fs)) ++ rest /\ rest <> [] /\
    (last (split_slash (Clean (baseDir demo_fs))) <> Some ".." -> ".." ∉ rest).
Proof. apply (agent_files_confined demo_fs "agent" ".checkpoint"). vm_compute. reflexivity. Defined.

Example traversal_refused : checkpointPath demo_fs "../agent" = Err ErrTraversal.
Proof. vm_compute. reflexivity. Qed.
(** With the current or the root directory as base the prefix test refuses
    every agent; with ".." as base it lets an agent escape. *)
Example dot_base_refuses : checkpointPath (NewFSProvider "." ∅ ∅ []) "agent" = Err ErrTraversal.
Proof. vm_compute. reflexivity. Qed.
Example root_base_refuses : checkpointPath (NewFSProvider "/" ∅ ∅ []) "agent" = Err ErrTraversal.
Proof. vm_compute. reflexivity. Qed.
Example dotdot_base_escapes : checkpointPath (NewFSProvider ".." ∅ ∅ []) "../agent" = Ok "../../agent.checkpoint".
Proof. vm_compute. reflexivity. Qed.
(** Identifiers are not normalised: two of them can share a file. *)
Example aliased_ids : checkpointPath demo_fs "x/../agent" = checkpointPath demo_fs "agent".
Proof. vm_compute. reflexivity. Qed.

(** the checkpoint archive is append-only.  Along any sequence of saves,
    deletions and restarts of any agents, with any failures, a history file
    keeps the contents it first had; in particular a second save at the same
    tick is not archived. *)
Theorem archive_append_only (os : list storage_op) (p : FSProvider) (q : string) (v : bytes) :
  archived p q v -> archived (do_storages os p) q v.
Proof.
  revert p. induction os as [|o os IH]; intros p Ha; [done|].
  unfold do_storages. simpl. apply IH. by apply do_storage_archived.
Qed.
Definition hist_fs : FSProvider :=
  snd (SaveCheckpoint (NewFSProvider "ckpt" ∅ ∅ []) "a" (zeros 25)).
Lemma archive_append_only_witness :
  archived (do_storages [OSaveCheckpoint "a" (zeros 30); ODeleteCheckpoint "a" true; ORestart] hist_fs)
    "ckpt/history/a/0000000000.ckpt" (zeros 25).
Proof.
  apply (archive_append_only _ hist_fs). split; [vm_compute; reflexivity|].
  exists "ckpt/history/a/0000000000". reflexivity.
Defined.

(** an agent keeps its identity on a node.  After a successful
    [LoadOrGenerate] against the file store, every later call returns the same
    key pair, whatever the random source gives. *)
Theorem identity_stable `{CryptoLaws} (p p' : FSProvider) (agent : string) (seed rnd : option bytes) (id : AgentIdentity) :
  bad_reads p' = ∅ -> (forall s, seed = Some s -> blen s = 32) ->
  LoadOrGenerate p agent seed = (Ok id, p') -> LoadOrGenerate p' agent rnd = (Ok id, p').
Proof. intros Hr Hs Hl. by apply (LoadOrGenerate_again p agent seed id p' rnd Hs Hl). Qed.
Lemma identity_stable_witness :
  let p := NewFSProvider "ckpt" ∅ ∅ [] in
  exists id p', LoadOrGenerate p "a" (Some (zeros 32)) = (Ok id, p') /\ LoadOrGenerate p' "a" None = (Ok id, p').
Proof.
  intros p. eexists _, _. split; [reflexivity|].
  apply (identity_stable p _ "a" (Some (zeros 32)) None); [reflexivity| |reflexivity].
  intros s [= <-]. reflexivity.
Defined.

(** ** The [Provider] interface (provider.go)

    What the runtime asks of a checkpoint store, and the laws its theorems
    use: a reported save is loadable, and checkpoints and receipts of an agent
    are separate files. *)
Class Provider (St : Type) := {
  prov_SaveCheckpoint : St -> string -> bytes -> outcome unit * St;
  prov_LoadCheckpoint : St -> string -> result storage_error bytes;
  prov_DeleteCheckpoint : St -> string -> result storage_error unit * St;
  prov_SaveReceipts : St -> string -> bytes -> outcome unit * St;
  prov_LoadReceipts : St -> string -> result storage_error bytes;
  prov_DeleteReceipts : St -> string -> result storage_error unit * St;
  prov_SaveIdentity : St -> string -> bytes -> outcome unit * St;
  prov_DeleteIdentity : St -> string -> result storage_error unit * St;
  prov_readable : St -> Prop }.
Class ProviderLaws (St : Type) `{Provider St} : Prop := {
  prov_checkpoint_saved st id c st' :
    prov_readable st' -> prov_SaveCheckpoint st id c = (Returned (Ok tt), st') -> prov_LoadCheckpoint st' id = Ok c;
  prov_receipts_saved st id d st' :
    prov_readable st' -> prov_SaveReceipts st id d = (Returned (Ok tt), st') -> prov_LoadReceipts st' id = Ok d;
  prov_receipts_keep_checkpoint st id d r st' :
    prov_SaveReceipts st id d = (r, st') -> prov_LoadCheckpoint st' id = prov_LoadCheckpoint st id;
  prov_identity_keep_checkpoint st id d r st' :
    prov_SaveIdentity st id d = (r, st') -> prov_LoadCheckpoint st' id = prov_LoadCheckpoint st id;
  prov_save_readable st id c r st' : prov_SaveCheckpoint st id c = (r, st') -> prov_readable st' <-> prov_readable st;
  prov_receipts_readable st id d r st' : prov_SaveReceipts st id d = (r, st') -> prov_readable st' <-> prov_readable st }.

#[export] Instance fs_provider : Provider FSProvider := {|
  prov_SaveCheckpoint := SaveCheckpoint;
  prov_LoadCheckpoint := LoadCheckpoint;
  prov_DeleteCheckpoint p id := DeleteCheckpoint p id true;
  prov_SaveReceipts := SaveReceipts;
  prov_LoadReceipts := LoadReceipts;
  prov_DeleteReceipts p id := DeleteReceipts p id true;
  prov_SaveIdentity := SaveIdentity;
  prov_DeleteIdentity p id := DeleteIdentity p id true;
  prov_readable p := bad_reads p = ∅ |}.

Lemma save_at_frame suf suf' p id id' data sc r p' :
  suf ∈ suffixes -> suf' ∈ suffixes -> suf <> suf' ->
  save_at (agent_path suf p id) data sc p = (r, p') ->
  load_at p' (agent_path suf' p' id') = load_at p (agent_path suf' p id') /\ bad_reads p' = bad_reads p.
Proof.
  intros Hs Hs' Hne E. destruct (agent_path suf p id) as [path|e] eqn:Hp; [|by injection E as <- <-].
  pose proof (save_at_post path data sc p) as H. rewrite E in H. destruct H as ([Ho _] & Hb & Hr).
  split; [|done]. apply load_at_eq; [done..|]. intros q Hq. apply Ho; [|by eapply agent_path_tmp].
  intros ->. exact (agent_path_kinds suf' suf p id' path p id path Hs' Hs (not_eq_sym Hne) Hq Hp eq_refl).
Qed.
Lemma SaveCheckpoint_readable p id c r p' : SaveCheckpoint p id c = (r, p') -> bad_reads p' = bad_reads p.
Proof.
  unfold SaveCheckpoint. destruct (next_script p) as [sc p1] eqn:En. apply next_script_same in En as (_ & _ & <-).
  unfold save_at. destruct (checkpointPath p1 id) as [path|]; [|by intros [= <- <-]].
  destruct (atomic_save _ _ _ _) as [[[u|e]|] d]; [|by intros [= <- <-]..].
  intros E. pose proof (archive_post sc (set_disk d p1) id c) as H. rewrite E in H. apply H.
Qed.

(** Saving another file of the agent leaves its checkpoint alone. *)
Lemma save_keeps_checkpoint suf p id d r p' :
  suf ∈ suffixes -> suf <> ".checkpoint"%string ->
  (let '(sc, p1) := next_script p in save_at (agent_path suf p1 id) d sc p1) = (r, p') ->
  LoadCheckpoint p' id = LoadCheckpoint p id.
Proof.
  intros Hsuf Hne E. destruct (next_script p) as [sc p1] eqn:En. apply next_script_same in En as (Eb & Ed & Er).
  destruct (save_at_frame suf ".checkpoint" p1 id id d sc r p') as [Hl _]; [done|by left|done|done|].
  unfold LoadCheckpoint, checkpointPath. rewrite Hl. apply load_at_eq; [done..|]. intros. by rewrite Ed.
Qed.

(** Saving a checkpoint or receipts leaves the agent's other files alone. *)
Lemma SaveCheckpoint_frame suf p id c r p' :
  suf ∈ suffixes -> suf <> ".checkpoint"%string -> SaveCheckpoint p id c = (r, p') ->
  load_at p' (agent_path suf p' id) = load_at p (agent_path suf p id) /\ baseDir p' = baseDir p /\ bad_reads p' = bad_reads p.
Proof.
  intros Hs Hne E. destruct (checkpointPath p id) as [path|e] eqn:Hp.
  - pose proof (SaveCheckpoint_post p id c path Hp) as H. rewrite E in H. destruct H as (Hb & Hr & Ho & _ & _).
    split; [|done]. apply load_at_eq; [done..|]. intros q Hq. apply Ho.
    + eapply (agent_path_kinds suf ".checkpoint"); [done|by left|done|done|exact Hp].
    + by eapply agent_path_tmp.
    + intros n. by eapply agent_path_hist.
  - unfold SaveCheckpoint in E. destruct (next_script p) as [sc p1] eqn:En. apply next_script_same in En as (Eb & Ed & Er).
    unfold checkpointPath in *. rewrite (agent_path_ext _ p p1 id Eb), Hp in E. injection E as _ <-.
    split; [|done]. apply load_at_eq; [done..|]. intros. by rewrite Ed.
Qed.
Lemma SaveReceipts_frame suf p id d r p' :
  suf ∈ suffixes -> suf <> ".receipts"%string -> SaveReceipts p id d = (r, p') ->
  load_at p' (agent_path suf p' id) = load_at p (agent_path suf p id) /\ baseDir p' = baseDir p /\ bad_reads p' = bad_reads p.
Proof.
  intros Hs Hne. unfold SaveReceipts. destruct (next_script p) as [sc p1] eqn:En. apply next_script_same in En as (Eb & Ed & Er).
  intros E. destruct (save_at_frame ".receipts" suf p1 id id d sc r p') as [Hl Hb]; [by right; left|done|done|done|].
  assert (baseDir p' = baseDir p1) as Hb1.
  { unfold receiptPath in E. destruct (agent_path ".receipts" p1 id) as [path|]; [|by injection E as _ <-].
    pose proof (save_at_post path d sc p1) as H. rewrite E in H. by destruct H as (_ & ? & _). }
  rewrite Hl, Hb, Hb1, Eb, Er. split; [|done]. apply load_at_eq; [done..|]. intros. by rewrite Ed.
Qed.

(** ** Files, whatever reads of them do *)
(** The agent's file of one kind as it is on the disk. *)
Definition file_at (suf : string) (p : FSProvider) (id : string) : option bytes :=
  match agent_path suf p id with Ok path => disk p !! path | Err _ => None end.
Lemma load_file suf p id c : load_at p (agent_path suf p id) = Ok c -> file_at suf p id = Some c.
Proof.
  unfold load_at, file_at. destruct (agent_path suf p id) as [path|]; [|done]. cbn.
  case_bool_decide; [done|]. by destruct (disk p !! path); intros [= ->].
Qed.
Lemma file_ext suf p p' id : baseDir p' = baseDir p -> (forall path, agent_path suf p id = Ok path -> disk p' !! path = disk p !! path) ->
  file_at suf p' id = file_at suf p id.
Proof. intros Hb Hd. unfold file_at. rewrite (agent_path_ext suf p p' id Hb). destruct (agent_path suf p id); [by apply Hd|done]. Qed.
Lemma file_clean suf base d bad ss id : suf ∈ suffixes ->
  file_at suf (NewFSProvider base d bad ss) id = file_at suf (mkFS base d bad ss) id.
Proof.
  intros Hs. apply file_ext; [done|]. intros path Hp. apply clean_keeps. intros y. by eapply agent_path_no_tmp.
Qed.
(** Saving an agent's checkpoint: that file is the old or the new one, and the
    new one after a success; its other files stay. *)
Lemma file_saved p id c r p' : SaveCheckpoint p id c = (r, p') ->
  (file_at ".checkpoint" p' id = file_at ".checkpoint" p id \/ file_at ".checkpoint" p' id = Some c) /\
  (forall suf, suf ∈ suffixes -> suf <> ".checkpoint"%string -> file_at suf p' id = file_at suf p id) /\ baseDir p' = baseDir p.
Proof.
  intros E. destruct (checkpointPath p id) as [path|e] eqn:Hp.
  - pose proof (SaveCheckpoint_post p id c path Hp) as H. rewrite E in H. destruct H as (Hb & _ & Ho & _ & Hs). split; [|split; [|exact Hb]].
    + unfold file_at, checkpointPath in *. rewrite (agent_path_ext _ p p' id Hb), Hp.
      destruct r as [[]|]; [by right|by left|exact Hs].
    + intros suf Hsuf Hne. apply file_ext; [done|]. intros q Hq. apply Ho.
      * eapply (agent_path_kinds suf ".checkpoint"); [done|by left|done|done|exact Hp].
      * by eapply agent_path_tmp.
      * intros n. by eapply agent_path_hist.
  - unfold SaveCheckpoint in E. destruct (next_script p) as [sc p1] eqn:En. apply next_script_same in En as (Eb & Ed & Er).
    unfold checkpointPath in *. rewrite (agent_path_ext _ p p1 id Eb), Hp in E. injection E as _ <-.
    split; [left|split; [intros suf _ _|done]]; apply file_ext; try done; intros; by rewrite Ed.
Qed.
Lemma file_other suf suf' p id d r p' : suf ∈ suffixes -> suf' ∈ suffixes -> suf <> suf' ->
  (let '(sc, p1) := next_script p in save_at (agent_path suf p1 id) d sc p1) = (r, p') ->
  file_at suf' p' id = file_at suf' p id /\ baseDir p' = baseDir p.
Proof.
  intros Hs Hs' Hne E. destruct (next_script p) as [sc p1] eqn:En. apply next_script_same in En as (Eb & Ed & Er).
  assert (file_at suf' p1 id = file_at suf' p id) as <- by (apply file_ext; [done|]; intros; by rewrite Ed).
  destruct (agent_path suf p1 id) as [path|e] eqn:Hp; [|by injection E as _ <-].
  pose proof (save_at_post path d sc p1) as H. rewrite E in H. destruct H as ([Ho _] & Hb & _).
  split; [|by rewrite Hb]. apply file_ext; [done|]. intros q Hq. apply Ho; [|by eapply agent_path_tmp].
  intros ->. exact (agent_path_kinds suf' suf p1 id path p1 id path Hs' Hs (not_eq_sym Hne) Hq Hp eq_refl).
Qed.

Lemma file_deleted suf suf' p id ok r p' : suf ∈ suffixes -> suf' ∈ suffixes -> delete_at p (agent_path suf p id) ok = (r, p') ->
  (file_at suf' p' id = file_at suf' p id \/ suf' = suf /\ file_at suf' p' id = None) /\ baseDir p' = baseDir p /\ bad_reads p' = bad_reads p.
Proof.
  intros Hs Hs'. unfold delete_at. destruct (agent_path suf p id) as [path|] eqn:Hp; [|intros [= _ <-]; auto].
  destruct (disk p !! path); [|intros [= _ <-]; auto]. destruct ok; intros [= _ <-]; [|auto]. split; [|done].
  destruct (decide (suf' = suf)) as [->|Hne]; [right; split; [done|]; unfold file_at; cbn; unfold agent_path in *; cbn; rewrite Hp; by apply lookup_delete_eq|].
  left. apply file_ext; [done|]. intros q Hq. cbn. apply lookup_delete_ne. intros <-.
  exact (agent_path_kinds suf' suf p id path p id path Hs' Hs Hne Hq Hp eq_refl).
Qed.
Lemma SaveIdentity_reads p id d r p' : SaveIdentity p id d = (r, p') -> bad_reads p' = bad_reads p.
Proof.
  unfold SaveIdentity. destruct (next_script p) as [sc p1] eqn:En. apply next_script_same in En as (_ & _ & <-). intros E.
  unfold identityPath in E. destruct (agent_path ".identity" p1 id) as [path|e]; [|by injection E as _ <-].
  pose proof (save_at_post path d sc p1) as H. rewrite E in H. by destruct H as (_ & _ & ->).
Qed.

#[export] Instance fs_provider_laws : ProviderLaws FSProvider.
Proof.
  split; simpl.
  - intros p id c p' Hread E. pose proof (SaveCheckpoint_readable _ _ _ _ _ E) as Hr.
    destruct (checkpointPath p id) as [path|e] eqn:Hp.
    + pose proof (SaveCheckpoint_post p id c path Hp) as H. rewrite E in H. destruct H as (Hb & _ & _ & _ & Hs).
      unfold LoadCheckpoint, checkpointPath in *. rewrite (agent_path_ext _ p p' id Hb), Hp.
      unfold load_at; simpl. rewrite Hread, bool_decide_eq_false_2 by set_solver. by rewrite Hs.
    + exfalso. unfold SaveCheckpoint in E. destruct (next_script p) as [sc p1] eqn:En.
      apply next_script_same in En as (Eb & _ & _). unfold checkpointPath in *.
      rewrite (agent_path_ext _ p p1 id Eb), Hp in E. done.
  - intros p id d p' Hread. unfold SaveReceipts. destruct (next_script p) as [sc p1] eqn:En.
    unfold receiptPath. intros E. destruct (agent_path ".receipts" p1 id) as [path|e] eqn:Hp; [|done].
    pose proof (save_at_post path d sc p1) as H. rewrite E in H. destruct H as ([_ [Hs _]] & Hb & Hr).
    unfold LoadReceipts, receiptPath. rewrite (agent_path_ext _ p1 p' id Hb), Hp.
    unfold load_at; simpl. rewrite Hread, bool_decide_eq_false_2 by set_solver. by rewrite Hs.
  - intros p id d r p'. apply (save_keeps_checkpoint ".receipts"); [by right; left|done].
  - intros p id d r p'. apply (save_keeps_checkpoint ".identity"); [by do 2 right; left|done].
  - intros p id c r p' E. by rewrite (SaveCheckpoint_readable _ _ _ _ _ E).
  - intros p id d r p'. unfold SaveReceipts. destruct (next_script p) as [sc p1] eqn:En.
    apply next_script_same in En as (_ & _ & <-). intros E.
    unfold receiptPath in E. destruct (agent_path ".receipts" p1 id) as [path|e] eqn:Hp; [|by injection E as _ <-].
    pose proof (save_at_post path d sc p1) as H. rewrite E in H. destruct H as (_ & _ & ->). done.
Qed.
