(* ===== verification/Manifest.v ===== *)
(** * Capability manifests (pkg/manifest: manifest.go, parse.go)

    The manifest types, their parsing around the JSON decoder (a parameter),
    the node capability check and the resource limits. *)
From S2P Require Import Prelude GoFloat.
From stdpp Require Import gmap strings sorting.
Open Scope Z_scope.

(** The values [encoding/json] decodes into [any]; [JInt] is a Go [int] put
    there by code rather than by the decoder. *)
#[warnings="-register-all"]
Inductive any :=
| JNull | JBool (b : bool) | JFloat (f : float64) | JInt (z : Z) | JString (s : string)
| JArray (l : list any) | JObject (l : list (string * any)).

Definition DefaultMaxMemoryBytes : Z := 64 * 1024 * 1024.
Definition WASMPageSize : Z := 65536.

Record CapabilityConfig := mkCapCfg { Version : Z; Options : option (list (string * any)) }.
(** [option]: the map of a manifest may be [nil]. *)
Record CapabilityManifest := mkCapManifest { Capabilities : option (gmap string CapabilityConfig) }.
Record MigrationPolicy := mkPolicy { Enabled : bool; MaxPricePerSecond : Z; PreferredRegions : list string }.
Record ResourceLimits := mkLimits { MaxMemoryBytes : Z; MaxCPUMillis : Z; MaxStorageBytes : Z }.
Record Manifest := mkManifest {
  ManifestCapabilities : CapabilityManifest;
  ManifestMigrationPolicy : option MigrationPolicy;
  ManifestResourceLimits : ResourceLimits }.

(** ** manifest.go; a [nil] manifest is [None] *)
Definition caps_of (m : option CapabilityManifest) : option (gmap string CapabilityConfig) :=
  m ≫= Capabilities.
Definition Has (m : option CapabilityManifest) (name : string) : bool :=
  match caps_of m with None => false | Some c => bool_decide (is_Some (c !! name)) end.

(** [sort.Strings]. *)
Definition string_le (a b : string) : Prop := String.leb a b = true.
#[export] Instance string_le_dec a b : Decision (string_le a b).
Proof. unfold string_le. apply _. Defined.
Definition sort_strings (l : list string) : list string := merge_sort string_le l.

Definition Names (m : option CapabilityManifest) : list string :=
  match caps_of m with None => [] | Some c => sort_strings (fst <$> map_to_list c) end.

Definition MemoryLimitPages (r : ResourceLimits) : Z :=
  if MaxMemoryBytes r =? 0 then u32 (DefaultMaxMemoryBytes / WASMPageSize)
  else
    let pages := MaxMemoryBytes r / WASMPageSize in
    let pages := if pages =? 0 then 1 else pages in
    let pages := if 65536 <? pages then 65536 else pages in
    u32 pages.

(** ** parse.go *)
Definition NodeCapabilities : list string := ["clock"; "rand"; "log"; "wallet"; "pricing"; "http"; "x402"].

(** The decoded structure of a manifest ([manifestJSON]). *)
Record manifestJSON := mkManifestJSON {
  j_capabilities : option (gmap string CapabilityConfig);
  j_limits : option ResourceLimits;
  j_policy : option MigrationPolicy }.

(** [json.Unmarshal] into [manifestJSON] and into [CapabilityManifest]. *)
Class JSON := {
  unmarshal_manifest : bytes -> option manifestJSON;
  unmarshal_capabilities : bytes -> option CapabilityManifest }.

Inductive manifest_error :=
| ErrJSON | ErrCapVersion | ErrMissing (names : list string).

(** Whether every declared version is at least 1; the sources report the first
    bad one in map order. *)
Definition versions_ok (c : gmap string CapabilityConfig) : bool :=
  forallb (fun kv => negb (Version (snd kv) <? 1)) (map_to_list c).

Section Parse.
Context `{JSON}.

Definition ParseCapabilityManifest (data : bytes) : result manifest_error CapabilityManifest :=
  if blen data =? 0 then Ok (mkCapManifest None)
  else
    match unmarshal_capabilities data with
    | None => Err ErrJSON
    | Some m =>
        let c := default ∅ (Capabilities m) in
        if versions_ok c then Ok (mkCapManifest (Some c)) else Err ErrCapVersion
    end.

Definition ParseManifest (data : bytes) : result manifest_error Manifest :=
  if blen data =? 0 then Ok (mkManifest (mkCapManifest (Some ∅)) None (mkLimits 0 0 0))
  else
    match unmarshal_manifest data with
    | None => Err ErrJSON
    | Some raw =>
        let c := default ∅ (j_capabilities raw) in
        if negb (versions_ok c) then Err ErrCapVersion
        else Ok (mkManifest (mkCapManifest (Some c)) (j_policy raw) (default (mkLimits 0 0 0) (j_limits raw)))
    end.
End Parse.

(** [os.ReadFile] of the side-car path; [None] when it fails. *)
Definition trim_wasm (wasmPath : string) : option string :=
  let n := (String.length wasmPath - 5)%nat in
  if (5 <=? String.length wasmPath)%nat && bool_decide (String.substring n 5 wasmPath = ".wasm")
  then Some (String.substring 0 n wasmPath) else None.
Definition sidecar_path (wasmPath manifestPath : string) : string :=
  if bool_decide (manifestPath = ""%string) then
    match trim_wasm wasmPath with Some p => p +:+ ".manifest.json" | None => manifestPath end
  else manifestPath.
Definition LoadSidecarData (readFile : string -> option bytes) (wasmPath manifestPath : string) : bytes :=
  match readFile (sidecar_path wasmPath manifestPath) with
  | None => bytes_of "{}"
  | Some data => data
  end.

Definition ValidateAgainstNode (m : option CapabilityManifest) (nodeCapabilities : list string)
    : result manifest_error unit :=
  match caps_of m with
  | None => Ok tt
  | Some c =>
      let missing := filter (fun name => name ∉ nodeCapabilities) (fst <$> map_to_list c) in
      match missing with
      | [] => Ok tt
      | _ => Err (ErrMissing (sort_strings missing))
      end
  end.

(** ** Lemmas *)
Lemma Has_spec m name : Has m name = true <-> exists c cfg, caps_of m = Some c /\ c !! name = Some cfg.
Proof.
  unfold Has. destruct (caps_of m) as [c|].
  - rewrite bool_decide_eq_true. split; [intros [cfg ?]; eauto|intros (c' & cfg & [= <-] & ?); eauto].
  - split; [done|intros (? & ? & ? & ?); done].
Qed.
Lemma in_names c (name : string) (m : gmap string CapabilityConfig) :
  m !! name = Some c -> name ∈ fst <$> map_to_list m.
Proof. intros Hc. apply list_elem_of_fmap. exists (name, c). split; [done|by apply elem_of_map_to_list]. Qed.
Lemma names_in (name : string) (m : gmap string CapabilityConfig) :
  name ∈ fst <$> map_to_list m -> is_Some (m !! name).
Proof. intros Hn. apply list_elem_of_fmap in Hn as ([k c] & -> & Hin). exists c. by apply elem_of_map_to_list. Qed.

Lemma ValidateAgainstNode_Ok m caps :
  ValidateAgainstNode m caps = Ok tt <-> forall name, Has m name = true -> name ∈ caps.
Proof.
  unfold ValidateAgainstNode. destruct (caps_of m) as [c|] eqn:E.
  - destruct (filter _ _) as [|x xs] eqn:F.
    + split; [|done]. intros _ name Hn. apply Has_spec in Hn as (c' & cfg & E' & Hc). simplify_eq.
      destruct (decide (name ∈ caps)) as [|Hnot]; [done|]. exfalso.
      assert (name ∈ filter (fun name => name ∉ caps) (fst <$> map_to_list c)) as Hx
        by (apply list_elem_of_filter; split; [done|by eapply in_names]).
      rewrite F in Hx. by apply not_elem_of_nil in Hx.
    + split; [done|]. intros Hall. exfalso.
      assert (x ∈ filter (fun name => name ∉ caps) (fst <$> map_to_list c)) as Hx by (rewrite F; by left).
      apply list_elem_of_filter in Hx as [Hnot Hin]. apply Hnot, Hall, Has_spec.
      apply names_in in Hin as [cfg ?]. eauto.
  - split; [|done]. intros _ name Hn. apply Has_spec in Hn as (? & ? & ? & ?). congruence.
Qed.
Lemma ValidateAgainstNode_Err m caps e :
  ValidateAgainstNode m caps = Err e ->
  exists names, e = ErrMissing names /\ forall name, name ∈ names <-> Has m name = true /\ name ∉ caps.
Proof.
  unfold ValidateAgainstNode. destruct (caps_of m) as [c|] eqn:E; [|done].
  set (miss := filter _ _). intros He.
  assert (e = ErrMissing (sort_strings miss)) as -> by (destruct miss; congruence).
  exists (sort_strings miss). split; [done|]. intros name. unfold sort_strings.
  rewrite (merge_sort_Permutation string_le miss). unfold miss. rewrite list_elem_of_filter, Has_spec, E.
  split.
  - intros [? Hin]. apply names_in in Hin as [cfg ?]. eauto.
  - intros [(c' & cfg & [= <-] & Hc) ?]. split; [done|]. by eapply in_names.
Qed.

Lemma versions_ok_spec c : versions_ok c = true <-> forall name cfg, c !! name = Some cfg -> 1 <= Version cfg.
Proof.
  unfold versions_ok. rewrite forallb_forall. split.
  - intros Hall name cfg Hc. specialize (Hall (name, cfg)). simpl in Hall.
    assert (In (name, cfg) (map_to_list c)) as Hin by (apply list_elem_of_In; by apply elem_of_map_to_list).
    specialize (Hall Hin). zb. lia.
  - intros Hall [name cfg] Hin. apply list_elem_of_In, elem_of_map_to_list in Hin. simpl.
    specialize (Hall name cfg Hin). apply negb_true_iff, Z.ltb_ge. lia.
Qed.

(** ** Claims *)

(** Deny by default.  A manifest passes the node check exactly when every
    capability it declares is one the node offers; otherwise the error lists
    exactly the declared capabilities the node lacks. *)
Theorem validate_against_node_spec (m : option CapabilityManifest) (caps : list string) :
  match ValidateAgainstNode m caps with
  | Ok _ => forall name, Has m name = true -> name ∈ caps
  | Err e => exists names, e = ErrMissing names /\ forall name, name ∈ names <-> Has m name = true /\ name ∉ caps
  end.
Proof.
  destruct (ValidateAgainstNode m caps) as [[]|e] eqn:E.
  - by apply ValidateAgainstNode_Ok.
  - by apply ValidateAgainstNode_Err.
Qed.

(** The page limit is sound.  For any 64-bit memory limit the number of
    WASM pages is between 1 and 65536, never grants more than the declared
    bytes (except the one page that is the minimum), and a limit of zero gives
    the 64 MB default. *)
Theorem memory_limit_pages_bounds (r : ResourceLimits) :
  is_u64 (MaxMemoryBytes r) ->
  let pages := MemoryLimitPages r in
  1 <= pages <= 65536 /\
  (MaxMemoryBytes r = 0 -> pages * WASMPageSize = DefaultMaxMemoryBytes) /\
  (MaxMemoryBytes r <> 0 -> pages = 1 \/ pages * WASMPageSize <= MaxMemoryBytes r).
Proof.
  unfold is_u64, MemoryLimitPages, WASMPageSize, DefaultMaxMemoryBytes. intros Hr.
  destruct (Z.eqb_spec (MaxMemoryBytes r) 0) as [->|Hnz]; [by vm_compute; split_and!|].
  pose proof (Z.div_pos (MaxMemoryBytes r) 65536 ltac:(lia) ltac:(lia)).
  pose proof (Z.mul_div_le (MaxMemoryBytes r) 65536 ltac:(lia)).
  set (q := MaxMemoryBytes r / 65536) in *.
  destruct (Z.eqb_spec q 0); [|destruct (Z.ltb_spec 65536 q)];
    (rewrite u32_id by (unfold is_u32; repeat case_match_goal; zb; lia)); repeat case_match_goal; zb; lia.
Qed.
Lemma memory_limit_pages_bounds_witness :
  let r := mkLimits 100000 0 0 in
  let pages := MemoryLimitPages r in
  1 <= pages <= 65536 /\
  (MaxMemoryBytes r = 0 -> pages * WASMPageSize = DefaultMaxMemoryBytes) /\
  (MaxMemoryBytes r <> 0 -> pages = 1 \/ pages * WASMPageSize <= MaxMemoryBytes r).
Proof. apply (memory_limit_pages_bounds (mkLimits 100000 0 0)). split; vm_compute; congruence. Defined.
