(* ===== verification/Wasm.v ===== *)
(** * WASM guests and the helpers of internal/wasmutil

    The engine (wazero) is a parameter: modules compile, instantiate and
    export functions; a call of an export is a finite tree that returns, traps
    (a timeout is a trap) or makes a hostcall and continues with its result.
    [CaptureState] and [ResumeAgent] are the source's sequences of such
    calls, for any hostcall handler. *)
From S2P Require Import Prelude.

(** The functions of the "igor" host module with their arguments. *)
Inductive hostcall :=
| HClockNow
| HRandBytes (ptr len : Z)
| HLogEmit (ptr len : Z)
| HWalletBalance
| HWalletReceiptCount
| HWalletReceipt (index ptr len : Z)
| HNodePrice
| HHTTPRequest (methodPtr methodLen urlPtr urlLen headersPtr headersLen bodyPtr bodyLen respPtr respCap : Z)
| HWalletPay (amount recipientPtr recipientLen memoPtr memoLen receiptPtr receiptCap : Z).

Definition import_name (c : hostcall) : string :=
  match c with
  | HClockNow => "clock_now"
  | HRandBytes _ _ => "rand_bytes"
  | HLogEmit _ _ => "log_emit"
  | HWalletBalance => "wallet_balance"
  | HWalletReceiptCount => "wallet_receipt_count"
  | HWalletReceipt _ _ _ => "wallet_receipt"
  | HNodePrice => "node_price"
  | HHTTPRequest _ _ _ _ _ _ _ _ _ _ => "http_request"
  | HWalletPay _ _ _ _ _ _ _ => "wallet_pay"
  end.

Inductive run (I : Type) :=
| Ret (results : list Z) (i : I)
| Trap (i : I)
| Host (c : hostcall) (i : I) (k : Z -> I -> run I).
Arguments Ret {I}.
Arguments Trap {I}.
Arguments Host {I}.

Class Wasm := {
  Compiled : Type;
  Inst : Type;
  CompileModule : bytes -> option Compiled;
  (** functions the module imports from "igor" *)
  imports : Compiled -> list string;
  (** instantiation once the imports resolve *)
  InstantiateModule : Compiled -> option Inst;
  ExportedFunction : Inst -> string -> bool;
  invoke : Inst -> string -> list Z -> run Inst;
  mem_read : Inst -> Z -> Z -> option bytes;
  mem_write : Inst -> Z -> bytes -> option Inst }.

(** A compiled module links against a host module that offers [names]. *)
Definition links `{Wasm} (names : list string) (c : Compiled) : bool :=
  forallb (fun n => bool_decide (n ∈ names)) (imports c).

Lemma links_spec `{Wasm} names (c : Compiled) :
  if links names c then forall n, n ∈ imports c -> n ∈ names else exists n, n ∈ imports c /\ n ∉ names.
Proof.
  unfold links. induction (imports c) as [|x l IH]; [intros n Hn; by apply not_elem_of_nil in Hn|]. cbn [forallb].
  case_bool_decide as Hx; cbn [andb]; [|exists x; split; [left|done]].
  destruct (forallb _ l); [intros n [->|Hn]%elem_of_cons; [done|by apply IH]|].
  destruct IH as (n & Hn & Hno). exists n. split; [by right|done].
Qed.

Inductive wasm_error :=
| ErrNotExported (name : string)
| ErrCall (name : string)
| ErrNoResult (name : string)     (** indexing an empty result slice: a Go panic *)
| ErrMemRead | ErrMemWrite | ErrMallocNull.

Section Exec.
Context `{W : Wasm} {HS : Type} (handle : hostcall -> Inst -> HS -> Z * Inst * HS).

(** Run a call tree against the handlers. *)
Fixpoint exec (r : run Inst) (h : HS) : option (list Z) * Inst * HS :=
  match r with
  | Ret vs i => (Some vs, i, h)
  | Trap i => (None, i, h)
  | Host c i k => let '(v, i, h) := handle c i h in exec (k v i) h
  end.

(** Computations on a module instance and the host's state. *)
Definition M (A : Type) := Inst -> HS -> result wasm_error A * Inst * HS.
#[export] Instance M_ret : MRet M := fun _ a i h => (Ok a, i, h).
#[export] Instance M_bind : MBind M := fun _ _ f m i h =>
  match m i h with (Ok a, i, h) => f a i h | (Err e, i, h) => (Err e, i, h) end.
Definition raise {A} (e : wasm_error) : M A := fun i h => (Err e, i, h).
Definition require (name : string) : M unit := fun i h =>
  if ExportedFunction i name then (Ok tt, i, h) else (Err (ErrNotExported name), i, h).
Definition Call (name : string) (args : list Z) : M (list Z) := fun i h =>
  let '(r, i, h) := exec (invoke i name args) h in
  (match r with Some vs => Ok vs | None => Err (ErrCall name) end, i, h).
(** [uint32(results[0])]. *)
Definition result0 (name : string) (vs : list Z) : M Z :=
  match vs with v :: _ => mret (u32 v) | [] => raise (ErrNoResult name) end.
Definition MemRead (ptr size : Z) : M bytes := fun i h =>
  match mem_read i ptr size with Some d => (Ok d, i, h) | None => (Err ErrMemRead, i, h) end.
Definition MemWrite (ptr : Z) (d : bytes) : M unit := fun i h =>
  match mem_write i ptr d with Some i => (Ok tt, i, h) | None => (Err ErrMemWrite, i, h) end.

Definition CaptureState : M bytes :=
  _ ← require "agent_checkpoint";
  sizeResults ← Call "agent_checkpoint" [];
  size ← result0 "agent_checkpoint" sizeResults;
  if size =? 0 then mret []
  else
    _ ← require "agent_checkpoint_ptr";
    ptrResults ← Call "agent_checkpoint_ptr" [];
    ptr ← result0 "agent_checkpoint_ptr" ptrResults;
    MemRead ptr size.

Definition ResumeAgent (state : bytes) : M unit :=
  _ ← require "agent_resume";
  if blen state =? 0 then _ ← Call "agent_resume" [0; 0]; mret tt
  else
    _ ← require "malloc";
    results ← Call "malloc" [blen state];
    ptr ← result0 "malloc" results;
    _ ← MemWrite ptr state;
    _ ← Call "agent_resume" [ptr; blen state];
    mret tt.

(** [_initialize] when the module exports it. *)
Definition initialize : M unit := fun i h =>
  if ExportedFunction i "_initialize" then (_ ← Call "_initialize" []; mret tt) i h else (Ok tt, i, h).
End Exec.

(** ** Guests that behave alike

    [Rc] relates two instances of a module while a call runs, [R] once it has
    returned; the trees of related calls make the same hostcalls and return the
    same results as long as related instances are handed back. *)
Section Sim.
Context `{W : Wasm} (Rc R : Inst -> Inst -> Prop).

Inductive run_sim : run Inst -> run Inst -> Prop :=
| sim_ret vs i1 i2 : R i1 i2 -> run_sim (Ret vs i1) (Ret vs i2)
| sim_trap i1 i2 : run_sim (Trap i1) (Trap i2)
| sim_host c i1 i2 k1 k2 :
    Rc i1 i2 -> (forall v j1 j2, Rc j1 j2 -> run_sim (k1 v j1) (k2 v j2)) ->
    run_sim (Host c i1 k1) (Host c i2 k2).

Record mem_sim : Prop := {
  sim_read i1 i2 p n : Rc i1 i2 -> mem_read i1 p n = mem_read i2 p n;
  sim_write i1 i2 p d : Rc i1 i2 ->
    match mem_write i1 p d, mem_write i2 p d with
    | Some j1, Some j2 => Rc j1 j2
    | None, None => True
    | _, _ => False
    end }.
End Sim.

(** wazero's [Memory.Read] returns exactly the bytes asked for. *)
Class WasmLaws (W : Wasm) : Prop := {
  mem_read_size i p n d : 0 <= n -> mem_read i p n = Some d -> blen d = n }.

(** ** Linear memory as a list of bytes *)
Definition read_at (p n : Z) (l : bytes) : option bytes :=
  if (0 <=? p) && (0 <=? n) && (p + n <=? blen l) then Some (slice p (p + n) l) else None.
Definition write_at (p : Z) (d l : bytes) : option bytes :=
  if (0 <=? p) && (p + blen d <=? blen l)
  then Some (take (Z.to_nat p) l ++ d ++ drop (Z.to_nat (p + blen d)) l)
  else None.

Lemma read_at_size p n l d : 0 <= n -> read_at p n l = Some d -> blen d = n.
Proof.
  intros Hn. unfold read_at. destruct (_ && _) eqn:E; [|done]. apply andb_true_iff in E as [E ?]. zb. intros [= <-].
  rewrite blen_slice by lia. lia.
Qed.
Lemma write_at_size p d l l' : write_at p d l = Some l' -> length l' = length l.
Proof.
  unfold write_at. destruct (_ && _) eqn:E; [|done]. apply andb_true_iff in E as [? ?]. zb. intros [= <-].
  unfold blen in *. rewrite !length_app, length_take, length_drop. lia.
Qed.
Lemma read_at_mid pre x post p n : p = blen pre -> n = blen x -> read_at p n (pre ++ x ++ post) = Some x.
Proof.
  intros -> ->. unfold read_at. pose proof (blen_nonneg pre). pose proof (blen_nonneg x). pose proof (blen_nonneg post).
  rewrite !blen_app, (proj2 (Z.leb_le 0 (blen pre))), (proj2 (Z.leb_le 0 (blen x))), (proj2 (Z.leb_le _ _)) by lia.
  cbn. f_equal. by apply slice_app_mid.
Qed.
Lemma write_at_mid pre x post d p : p = blen pre -> blen d = blen x -> write_at p d (pre ++ x ++ post) = Some (pre ++ d ++ post).
Proof.
  intros -> Hd. unfold write_at. pose proof (blen_nonneg pre). pose proof (blen_nonneg x). pose proof (blen_nonneg post).
  rewrite !blen_app, (proj2 (Z.leb_le 0 (blen pre))), (proj2 (Z.leb_le _ _)) by lia. cbn. f_equal.
  unfold blen in *. rewrite Nat2Z.id, take_app_length. f_equal. f_equal.
  replace (Z.to_nat (Z.of_nat (length pre) + Z.of_nat (length d))) with (length pre + length x)%nat by lia.
  rewrite <- drop_drop, drop_app_length. by rewrite drop_app_length.
Qed.
