(* ===== verification/Hostcall.v ===== *)
(** * The "igor" host module (internal/hostcall)

    The hostcall handlers of a live agent and the registry that selects them
    by manifest.  What the handlers need from the agent instance is the
    interface classes of the sources ([WalletState], [PricingState],
    [WalletPayState]); the clock, the random source and HTTP are the
    environment. *)
From S2P Require Import Prelude GoFloat Crypto EventLog Manifest Wasm.
From stdpp Require Import gmap strings.
Open Scope Z_scope.

(** ** Interfaces *)
Class WalletState (S : Type) := {
  GetBudget : S -> Z;
  GetReceiptCount : S -> Z;
  GetReceiptBytes : S -> Z -> option bytes }.
Class PricingState (S : Type) := { GetNodePrice : S -> Z }.
Class WalletPayState (S : Type) := {
  pay_GetBudget : S -> Z;
  DeductBudget : Z -> S -> option S;
  GetAgentPubKey : S -> bytes;
  SignPayment : S -> bytes -> bytes }.
Class EventRecorder (S : Type) := { get_log : S -> EventLog; set_log : EventLog -> S -> S }.

Record http_request := mkRequest {
  r_method : string; r_url : string; r_headers : gmap string string; r_body : option bytes; r_timeout : Z }.
(** [http.NewRequest], [client.Do] and reading the body. *)
Inductive http_result :=
| HBadRequest | HTimeout | HError | HResponse (status : Z) (body : option bytes).
Class HostEnv (S : Type) := {
  now_unix_nano : S -> Z * S;
  crypto_rand : Z -> S -> option bytes * S;
  http_do : http_request -> S -> http_result * S;
  (** [url.Parse] and [Hostname] *)
  url_hostname : S -> string -> option string }.

(** ** Options of a capability *)
Fixpoint lookup_option (key : string) (l : list (string * any)) : option any :=
  match l with
  | [] => None
  | (k, v) :: l => if bool_decide (k = key) then Some v else lookup_option key l
  end.
Definition extractIntOption (opts : option (list (string * any))) (key : string) (defaultVal : Z) : Z :=
  match opts ≫= lookup_option key with
  | Some (JFloat f) => i64_of_f64 f
  | Some (JInt z) => z
  | _ => defaultVal
  end.
Definition string_items (a : any) : list string :=
  match a with
  | JArray l => omap (fun v => match v with JString s => Some s | _ => None end) l
  | _ => []
  end.
Definition extractAllowedRecipients (cfg : CapabilityConfig) : list string :=
  match Options cfg ≫= lookup_option "allowed_recipients" with Some a => string_items a | None => [] end.

(** [strings.ToLower] and [strings.TrimSpace] on ASCII. *)
Definition lower_ascii (c : Ascii.ascii) : Ascii.ascii :=
  let n := Ascii.nat_of_ascii c in
  if (65 <=? n)%nat && (n <=? 90)%nat then Ascii.ascii_of_nat (n + 32) else c.
Fixpoint ToLower (s : string) : string :=
  match s with EmptyString => EmptyString | String c s => String (lower_ascii c) (ToLower s) end.
Definition is_space (c : Ascii.ascii) : bool :=
  let n := Ascii.nat_of_ascii c in (n =? 32)%nat || ((9 <=? n)%nat && (n <=? 13)%nat).
Fixpoint trim_left (l : list Ascii.ascii) : list Ascii.ascii :=
  match l with c :: l' => if is_space c then trim_left l' else l | [] => [] end.
Definition TrimSpace (s : string) : string :=
  String.string_of_list_ascii (reverse (trim_left (reverse (trim_left (String.list_ascii_of_string s))))).

Definition extractAllowedHosts (cfg : CapabilityConfig) : list string :=
  ToLower <$> match Options cfg ≫= lookup_option "allowed_hosts" with Some a => string_items a | None => [] end.

(** [strings.Split(raw, sep)] for a one-character separator, and [SplitN 2]. *)
Fixpoint split_on (sep : Ascii.ascii) (s : string) : list string :=
  match s with
  | EmptyString => [EmptyString]
  | String c s =>
      if bool_decide (c = sep) then EmptyString :: split_on sep s
      else match split_on sep s with w :: ws => String c w :: ws | [] => [String c EmptyString] end
  end.
Fixpoint split_first (sep : Ascii.ascii) (s : string) : option (string * string) :=
  match s with
  | EmptyString => None
  | String c s =>
      if bool_decide (c = sep) then Some (EmptyString, s)
      else match split_first sep s with Some (a, b) => Some (String c a, b) | None => None end
  end.
Definition newline : Ascii.ascii := Ascii.ascii_of_nat 10.
Definition colon : Ascii.ascii := Ascii.ascii_of_nat 58.
Definition parseHeaders (raw : string) : gmap string string :=
  fold_left (fun headers line =>
    let line := TrimSpace line in
    match split_first colon line with
    | Some (k, v) => <[TrimSpace k := TrimSpace v]> headers
    | None => headers
    end) (split_on newline raw) ∅.

(** ** Limits and error codes *)
Definition maxRandBytes : Z := 64 * 1024 * 1024.
Definition maxLogBytes : Z := 1024 * 1024.
Definition maxRecipientBytes : Z := 256.
Definition maxMemoBytes : Z := 512.
Definition payErrInsufficientBudget : Z := -1.
Definition payErrInputTooLong : Z := -2.
Definition payErrRecipientBlocked : Z := -3.
Definition payErrAmountExceeded : Z := -4.
Definition payErrBufferTooSmall : Z := -5.
Definition payErrProcessing : Z := -6.
Definition defaultHTTPTimeoutMs : Z := 10000.
Definition defaultMaxResponseBytes : Z := Z.shiftl 1 20.
Definition maxURLBytes : Z := 8192.
Definition maxMethodBytes : Z := 16.
Definition maxHeadersBytes : Z := 32768.
Definition maxRequestBodyBytes : Z := Z.shiftl 1 20.
Definition httpErrNetwork : Z := -1.
Definition httpErrInputTooLong : Z := -2.
Definition httpErrHostBlocked : Z := -3.
Definition httpErrTimeout : Z := -4.
Definition httpErrRespTooLarge : Z := -5.

(** What the registered closures captured from the manifest. *)
Record PayConfig := mkPayConfig { allowedRecipients : list string; maxPayment : Z }.
Record HTTPConfig := mkHTTPConfig { allowedHosts : list string; timeoutMs : Z; maxRespBytes : Z }.
Record HostConfig := mkHostConfig { functions : list string; pay_cfg : PayConfig; http_cfg : HTTPConfig }.

Definition pay_config (cfg : CapabilityConfig) : PayConfig :=
  mkPayConfig (extractAllowedRecipients cfg) (extractIntOption (Options cfg) "max_payment_microcents" 0).
Definition http_config (cfg : CapabilityConfig) : HTTPConfig :=
  mkHTTPConfig (extractAllowedHosts cfg) (extractIntOption (Options cfg) "timeout_ms" defaultHTTPTimeoutMs)
    (extractIntOption (Options cfg) "max_response_bytes" defaultMaxResponseBytes).

(** [RegisterHostModule]: the functions offered to a module with this
    manifest; [None] when no "igor" module is instantiated at all.  The flags
    say which state providers the registry was given. *)
Definition cap_config (m : option CapabilityManifest) (name : string) : CapabilityConfig :=
  default (mkCapCfg 0 None) (caps_of m ≫= fun c => c !! name).
Definition registered_functions (m : option CapabilityManifest) (ws ps wps : bool) : list string :=
  (if Has m "clock" then ["clock_now"] else []) ++
  (if Has m "rand" then ["rand_bytes"] else []) ++
  (if Has m "log" then ["log_emit"] else []) ++
  (if Has m "wallet" && ws then ["wallet_balance"; "wallet_receipt_count"; "wallet_receipt"] else []) ++
  (if Has m "pricing" && ps then ["node_price"] else []) ++
  (if Has m "http" then ["http_request"] else []) ++
  (if Has m "x402" && wps then ["wallet_pay"] else []).
Definition RegisterHostModule (m : option CapabilityManifest) (ws ps wps : bool) : HostConfig :=
  mkHostConfig (registered_functions m ws ps wps) (pay_config (cap_config m "x402")) (http_config (cap_config m "http")).

(** The functions a capability gives access to. *)
Definition functions_of (cap : string) : list string :=
  if bool_decide (cap = "clock") then ["clock_now"]
  else if bool_decide (cap = "rand") then ["rand_bytes"]
  else if bool_decide (cap = "log") then ["log_emit"]
  else if bool_decide (cap = "wallet") then ["wallet_balance"; "wallet_receipt_count"; "wallet_receipt"]
  else if bool_decide (cap = "pricing") then ["node_price"]
  else if bool_decide (cap = "http") then ["http_request"]
  else if bool_decide (cap = "x402") then ["wallet_pay"]
  else [].
Lemma registered_spec m f : f ∈ registered_functions m true true true <-> exists cap, f ∈ functions_of cap /\ Has m cap = true.
Proof.
  unfold registered_functions. rewrite !andb_true_r, !elem_of_app. split.
  - intros Hf. repeat match type of Hf with _ \/ _ => destruct Hf as [Hf|Hf] end;
      match type of Hf with context [Has m ?c] => exists c; destruct (Has m c); [by split|by apply not_elem_of_nil in Hf] end.
  - intros (cap & Hf & Hc). unfold functions_of in Hf.
    repeat (case_bool_decide; [subst; rewrite Hc; tauto|]). by apply not_elem_of_nil in Hf.
Qed.

(** ** The handlers *)
Section Handlers.
Context `{W : Wasm} {S : Type} `{WalletState S} `{PricingState S} `{WalletPayState S} `{EventRecorder S} `{HostEnv S}.
Definition handler : Type := Inst -> S -> Z * Inst * S.

Definition record (id : HostcallID) (payload : bytes) (s : S) : S :=
  set_log (Record_ id payload (get_log s)) s.

Definition clock_now : handler := fun i s =>
  let '(now, s) := now_unix_nano s in
  let payload := put_u64 (u64 now) in
  (now, i, record ClockNow payload s).

Definition rand_bytes (ptr length : Z) : handler := fun i s =>
  if length =? 0 then (0, i, s)
  else if maxRandBytes <? length then (-2, i, s)
  else
    match crypto_rand length s with
    | (None, s) => (-1, i, s)
    | (Some buf, s) =>
        let s := record RandBytes buf s in
        match mem_write i ptr buf with
        | None => (-4, i, s)
        | Some i => (0, i, s)
        end
    end.

(** [log_emit] has no result; the model returns 0. *)
Definition log_emit (ptr length : Z) : handler := fun i s =>
  if length =? 0 then (0, i, s)
  else if maxLogBytes <? length then (0, i, s)
  else
    match mem_read i ptr length with
    | None => (0, i, s)
    | Some data => (0, i, record LogEmit data s)
    end.

Definition wallet_balance : handler := fun i s =>
  let balance := GetBudget s in
  (balance, i, record WalletBalance (put_u64 (u64 balance)) s).
Definition wallet_receipt_count : handler := fun i s =>
  let count := i32 (GetReceiptCount s) in
  (count, i, record WalletReceiptCount (put_u32 (u32 count)) s).
Definition wallet_receipt (index ptr length : Z) : handler := fun i s =>
  match GetReceiptBytes s index with
  | None => (-1, i, s)
  | Some data =>
      if length <? u32 (blen data) then (-4, i, s)
      else
        let s := record WalletReceipt data s in
        match mem_write i ptr data with
        | None => (-4, i, s)
        | Some i => (i32 (blen data), i, s)
        end
  end.
Definition node_price : handler := fun i s =>
  let price := GetNodePrice s in
  (price, i, record NodePrice (put_u64 (u64 price)) s).

(** *** payment.go *)
Definition write_u32_hint (i : Inst) (ptr cap size : Z) : Inst :=
  if 4 <=? cap then default i (mem_write i ptr (put_u32 (u32 size))) else i.

(** The canonical data a payment receipt signs. *)
Definition payment_data (amount ts : Z) (recipient memo pubKey : bytes) : bytes :=
  put_u64 (u64 amount) ++ put_u64 (u64 ts) ++ put_u32 (u32 (blen recipient)) ++ recipient ++
  put_u32 (u32 (blen memo)) ++ memo ++ pubKey.

Definition wallet_pay (cfg : PayConfig) (amount recipientPtr recipientLen memoPtr memoLen receiptPtr receiptCap : Z)
    : handler := fun i s =>
  if (maxRecipientBytes <? recipientLen) || (maxMemoBytes <? memoLen) then (payErrInputTooLong, i, s)
  else
    match mem_read i recipientPtr recipientLen with
    | None => (payErrProcessing, i, s)
    | Some recipient =>
        match (if 0 <? memoLen then mem_read i memoPtr memoLen else Some []) with
        | None => (payErrProcessing, i, s)
        | Some memo =>
            if amount <=? 0 then (payErrProcessing, i, s)
            else if (0 <? maxPayment cfg) && (maxPayment cfg <? amount) then (payErrAmountExceeded, i, s)
            else if negb (bool_decide (allowedRecipients cfg = [])) &&
                    negb (bool_decide (string_of recipient ∈ allowedRecipients cfg))
            then (payErrRecipientBlocked, i, s)
            else
              let pubKey := GetAgentPubKey s in
              let receiptDataLen := 8 + 8 + 4 + blen recipient + 4 + blen memo + blen pubKey in
              let fullReceiptLen := receiptDataLen + SignatureSize in
              let needed := u32 (4 + fullReceiptLen) in
              if receiptCap <? needed then
                (payErrBufferTooSmall, write_u32_hint i receiptPtr receiptCap fullReceiptLen, s)
              else if pay_GetBudget s <? amount then (payErrInsufficientBudget, i, s)
              else
                match DeductBudget amount s with
                | None => (payErrProcessing, i, s)
                | Some s =>
                    let '(ts, s) := now_unix_nano s in
                    let receiptData := payment_data amount ts recipient memo pubKey in
                    let sig := SignPayment s receiptData in
                    let fullReceipt := receiptData ++ sig in
                    let out := put_u32 (u32 (blen fullReceipt)) ++ copy_array (Z.to_nat (needed - 4)) fullReceipt in
                    match mem_write i receiptPtr out with
                    | None => (payErrProcessing, i, s)
                    | Some i =>
                        (i32 needed, i, record WalletPay (put_u64 (u64 amount) ++ fullReceipt) s)
                    end
                end
        end
    end.

(** *** http.go *)
Definition readHTTPParams (i : Inst) (methodPtr methodLen urlPtr urlLen headersPtr headersLen bodyPtr bodyLen : Z)
    (timeout : Z) : result Z http_request :=
  if (maxMethodBytes <? methodLen) || (maxURLBytes <? urlLen) ||
     (maxHeadersBytes <? headersLen) || (maxRequestBodyBytes <? bodyLen) then Err httpErrInputTooLong
  else
    match mem_read i methodPtr methodLen, mem_read i urlPtr urlLen with
    | Some m, Some u =>
        match (if 0 <? headersLen then mem_read i headersPtr headersLen else Some []) with
        | None => Err httpErrNetwork
        | Some h =>
            match (if 0 <? bodyLen then Some <$> mem_read i bodyPtr bodyLen else Some None) with
            | None => Err httpErrNetwork
            | Some b =>
                Ok (mkRequest (string_of m) (string_of u) (if 0 <? headersLen then parseHeaders (string_of h) else ∅) b timeout)
            end
        end
    | _, _ => Err httpErrNetwork
    end.

Definition checkAllowedHost (s : S) (rawURL : string) (allowed : list string) : bool :=
  match allowed with
  | [] => true
  | _ =>
      match url_hostname s rawURL with
      | None => false
      | Some h => bool_decide (ToLower h ∈ allowed)
      end
  end.

Definition http_request_ (cfg : HTTPConfig)
    (methodPtr methodLen urlPtr urlLen headersPtr headersLen bodyPtr bodyLen respPtr respCap : Z) : handler :=
  fun i s =>
  match readHTTPParams i methodPtr methodLen urlPtr urlLen headersPtr headersLen bodyPtr bodyLen
          (i64 (timeoutMs cfg * 1000000)) with
  | Err errCode => (errCode, i, s)
  | Ok req =>
      if negb (checkAllowedHost s (r_url req) (allowedHosts cfg)) then (httpErrHostBlocked, i, s)
      else
        match http_do req s with
        | (HBadRequest, s) => (httpErrNetwork, i, s)
        | (HTimeout, s) => (httpErrTimeout, i, s)
        | (HError, s) => (httpErrNetwork, i, s)
        | (HResponse _ None, s) => (httpErrNetwork, i, s)
        | (HResponse status (Some body), s) =>
            let respBody := take (Z.to_nat (maxRespBytes cfg + 1)) body in
            if maxRespBytes cfg <? blen respBody then
              (httpErrRespTooLarge, write_u32_hint i respPtr respCap (blen respBody), s)
            else
              let needed := u32 (4 + blen respBody) in
              if respCap <? needed then
                (httpErrRespTooLarge, write_u32_hint i respPtr respCap (blen respBody), s)
              else
                match mem_write i respPtr (put_u32 (u32 (blen respBody)) ++ respBody) with
                | None => (httpErrNetwork, i, s)
                | Some i => (i32 status, i, record HTTPRequest (put_u32 (u32 status) ++ respBody) s)
                end
        end
  end.

(** The host module of a live agent. *)
Definition live_handle (cfg : HostConfig) (c : hostcall) : handler :=
  match c with
  | HClockNow => clock_now
  | HRandBytes p n => rand_bytes p n
  | HLogEmit p n => log_emit p n
  | HWalletBalance => wallet_balance
  | HWalletReceiptCount => wallet_receipt_count
  | HWalletReceipt x p n => wallet_receipt x p n
  | HNodePrice => node_price
  | HHTTPRequest a b c d e f g h j k => http_request_ (http_cfg cfg) a b c d e f g h j k
  | HWalletPay a rp rl mp ml tp tc => wallet_pay (pay_cfg cfg) a rp rl mp ml tp tc
  end.
End Handlers.

(** ** What the handlers rely on

    Recording replaces only the event log, a deduction removes exactly the
    amount when it is covered, and reading the clock, random bytes or HTTP
    leaves the agent's accounts and log alone. *)
Class HostLaws (S : Type) `{WalletState S, PricingState S, WalletPayState S, EventRecorder S, HostEnv S}
    (host_ok : S -> Prop) : Prop := {
  get_set_log l s : get_log (set_log l s) = l;
  budget_set_log l s : GetBudget (set_log l s) = GetBudget s;
  same_budget s : pay_GetBudget s = GetBudget s;
  budget_range s : host_ok s -> is_i64 (GetBudget s);
  price_range s : host_ok s -> is_i64 (GetNodePrice s);
  pub_key_size s : host_ok s -> blen (GetAgentPubKey s) = PublicKeySize;
  payment_sig_size s d : host_ok s -> blen (SignPayment s d) = SignatureSize;
  deduct_some a s : 0 < a <= GetBudget s -> host_ok s -> exists s', DeductBudget a s = Some s' /\
    GetBudget s' = GetBudget s - a /\ get_log s' = get_log s /\ host_ok s';
  now_range s : is_i64 (fst (now_unix_nano s));
  now_keeps s : host_ok s -> get_log (snd (now_unix_nano s)) = get_log s /\
    GetBudget (snd (now_unix_nano s)) = GetBudget s /\ host_ok (snd (now_unix_nano s));
  rand_keeps n s : host_ok s -> get_log (snd (crypto_rand n s)) = get_log s /\ host_ok (snd (crypto_rand n s));
  rand_size n s b : 0 <= n -> fst (crypto_rand n s) = Some b -> blen b = n;
  http_keeps r s : host_ok s -> host_ok (snd (http_do r s));
  ok_set_log l s : host_ok s -> host_ok (set_log l s) }.

Section Facts.
Context {W : Wasm} `{!WasmLaws W} {S : Type} {host_ok : S -> Prop} `{HL : HostLaws S host_ok}.

(** What a completed payment did. *)
Record paid (cfg : PayConfig) (amount : Z) (s s' : S) : Prop := {
  paid_positive : 0 < amount;
  paid_cap : 0 < maxPayment cfg -> amount <= maxPayment cfg;
  paid_covered : amount <= GetBudget s;
  paid_exact : GetBudget s' = GetBudget s - amount }.

Lemma wallet_pay_outcome cfg amount rp rl mp ml tp tc i s v i' s' :
  host_ok s -> 0 <= rl -> 0 <= ml ->
  wallet_pay cfg amount rp rl mp ml tp tc i s = (v, i', s') ->
  (v < 0 /\ s' = s) \/
  (paid cfg amount s s' /\ host_ok s' /\ exists recipient receipt,
     mem_read i rp rl = Some recipient /\
     (allowedRecipients cfg = [] \/ string_of recipient ∈ allowedRecipients cfg) /\
     4 + blen receipt <= tc /\
     (v = payErrProcessing /\ mem_write i tp (put_u32 (blen receipt) ++ receipt) = None /\ i' = i /\ get_log s' = get_log s \/
      0 < v < 2 ^ 31 /\ v = 4 + blen receipt /\
      mem_write i tp (put_u32 (blen receipt) ++ receipt) = Some i' /\
      get_log s' = Record_ WalletPay (put_u64 (u64 amount) ++ receipt) (get_log s))).
Proof.
  intros Hok Hrl Hml. unfold wallet_pay, payErrInputTooLong, payErrProcessing, payErrAmountExceeded,
    payErrRecipientBlocked, payErrBufferTooSmall, payErrInsufficientBudget.
  destruct (_ || _) eqn:E1; [intros [= <- <- <-]; left; split; [lia|done]|].
  apply orb_false_iff in E1 as [Er Em]. zb. unfold maxRecipientBytes, maxMemoBytes in *.
  destruct (mem_read i rp rl) as [recipient|] eqn:Erec; [|intros [= <- <- <-]; left; split; [lia|done]].
  destruct (if 0 <? ml then _ else _) as [memo|] eqn:Ememo; [|intros [= <- <- <-]; left; split; [lia|done]].
  destruct (Z.leb_spec amount 0); [intros [= <- <- <-]; left; split; [lia|done]|].
  destruct (_ && _) eqn:Ecap; [intros [= <- <- <-]; left; split; [lia|done]|].
  destruct (negb _ && negb _) eqn:Eallow; [intros [= <- <- <-]; left; split; [lia|done]|].
  pose proof (mem_read_size _ _ _ _ Hrl Erec) as Lr.
  assert (0 <= blen memo <= 512) as Lm.
  { destruct (Z.ltb_spec 0 ml); [|injection Ememo as <-; unfold blen; simpl; lia].
    pose proof (mem_read_size _ _ _ _ Hml Ememo). lia. }
  pose proof (pub_key_size s Hok) as Lpk. rewrite Lpk. unfold PublicKeySize, SignatureSize.
  set (full := 8 + 8 + 4 + blen recipient + 4 + blen memo + 32 + 64).
  assert (is_u32 (4 + full)) as Hu by (unfold full, is_u32; lia). rewrite (u32_id (4 + full)) by done.
  destruct (Z.ltb_spec tc (4 + full)); [intros [= <- <- <-]; left; split; [lia|done]|].
  rewrite same_budget. destruct (Z.ltb_spec (GetBudget s) amount); [intros [= <- <- <-]; left; split; [lia|done]|].
  assert (0 < amount <= GetBudget s) as Hcov by lia.
  destruct (deduct_some amount s Hcov Hok) as (s1 & -> & Hb1 & Hl1 & Hok1).
  destruct (now_unix_nano s1) as [ts s2] eqn:En. pose proof (now_keeps s1 Hok1) as (Hl2 & Hb2 & Hok2).
  rewrite En in Hl2, Hb2, Hok2. simpl in Hl2, Hb2, Hok2.
  set (data := payment_data _ _ _ _ _). set (sig := SignPayment s2 data).
  assert (blen sig = 64) as Lsig by by apply payment_sig_size.
  assert (blen (data ++ sig) = full) as Lfull.
  { unfold data, payment_data, full. autorewrite with igor_len. rewrite Lsig, Lpk. unfold PublicKeySize. lia. }
  assert (paid cfg amount s s2) as Hpaid.
  { split; [lia| |lia|congruence]. intros. apply andb_false_iff in Ecap as [Ecap|Ecap]; zb; lia. }
  rewrite copy_array_id by (unfold full in *; lia). rewrite Lfull, (u32_id full) by (unfold full, is_u32 in *; lia).
  assert (allowedRecipients cfg = [] \/ string_of recipient ∈ allowedRecipients cfg) as Hallow.
  { apply andb_false_iff in Eallow as [E|E]; zb; [left|right]; by apply bool_decide_eq_true in E. }
  destruct (mem_write _ _ _) as [i2|] eqn:Ew; intros [= <- <- <-]; right.
  - assert (i32 (4 + full) = 4 + full) as -> by (unfold i32, full; rewrite Z.mod_small; lia).
    split; [|split; [by apply ok_set_log|]].
    { destruct Hpaid. split; try done. unfold record. by rewrite budget_set_log. }
    exists recipient, (data ++ sig). rewrite Lfull. split_and!; try done. right. split_and!; try done; [unfold full; lia..|].
    unfold record. rewrite get_set_log, Hl2, Hl1. done.
  - split_and!; [done|done|]. exists recipient, (data ++ sig). rewrite Lfull. split_and!; try done. left. split_and!; congruence.
Qed.
End Facts.
