(* ===== verification/ToyGuest.v ===== *)
(** * An executable guest for the witnesses

    A module is a list of operation codes; a tick performs the hostcall of
    each code in order and folds the results into an 8-byte counter at address
    0, which is the agent's whole state.  Scratch memory is cleared at the end
    of every tick and resume. *)
From S2P Require Import Prelude Manifest Wasm.
From stdpp Require Import gmap strings.
Open Scope Z_scope.

Record toy_inst := mkToy { prog : list Z; mem : bytes }.
Definition toy_size : nat := 512.

Definition toy_read (i : toy_inst) (p n : Z) : option bytes := read_at p n (mem i).
Definition toy_write (i : toy_inst) (p : Z) (d : bytes) : option toy_inst := mkToy (prog i) <$> write_at p d (mem i).

(** 1 clock, 2 eight random bytes at 32, 3 log the state, 4 balance,
    5 receipt count, 6 first receipt, 7 price, 8 HTTP, 9 pay 5 microcents,
    10 zero-length random read; anything else pays a million. *)
Definition toy_call (op : Z) : hostcall :=
  if op =? 1 then HClockNow
  else if op =? 2 then HRandBytes 32 8
  else if op =? 3 then HLogEmit 0 8
  else if op =? 4 then HWalletBalance
  else if op =? 5 then HWalletReceiptCount
  else if op =? 6 then HWalletReceipt 0 128 300
  else if op =? 7 then HNodePrice
  else if op =? 8 then HHTTPRequest 0 0 0 0 0 0 0 0 128 300
  else if op =? 9 then HWalletPay 5 0 0 0 0 128 300
  else if op =? 10 then HRandBytes 32 0
  else HWalletPay 1000000 0 0 0 0 128 300.

Definition counter (i : toy_inst) : Z := get_u64 (mem i).
Definition set_counter (v : Z) (i : toy_inst) : toy_inst := mkToy (prog i) (put_u64 v ++ drop 8 (mem i)).
Definition bump (v : Z) (i : toy_inst) : toy_inst :=
  set_counter (u64 (counter i + v + 1 + get_u64 (drop 32 (mem i)))) i.
Definition clear (i : toy_inst) : toy_inst := mkToy (prog i) (take 8 (mem i) ++ zeros (toy_size - 8)).

Fixpoint toy_ops (ops : list Z) (i : toy_inst) : run toy_inst :=
  match ops with
  | [] => Ret [0] (clear i)
  | op :: ops => Host (toy_call op) i (fun v j => toy_ops ops (bump v j))
  end.
Definition toy_resume (i : toy_inst) (p n : Z) : toy_inst :=
  clear (mkToy (prog i) (copy_array 8 (slice p (p + n) (mem i)) ++ drop 8 (mem i))).

Definition toy_exports : list string :=
  ["agent_init"; "agent_tick"; "agent_checkpoint"; "agent_checkpoint_ptr"; "agent_resume"; "malloc"].
Definition toy_invoke (i : toy_inst) (f : string) (args : list Z) : run toy_inst :=
  if bool_decide (f = "agent_tick") then toy_ops (prog i) i
  else if bool_decide (f = "agent_checkpoint") then Ret [8] i
  else if bool_decide (f = "agent_checkpoint_ptr") then Ret [0] i
  else if bool_decide (f = "malloc") then Ret [64] i
  else if bool_decide (f = "agent_resume") then
    match args with [p; n] => Ret [] (toy_resume i p n) | _ => Trap i end
  else Ret [] i.

#[export] Instance toy_wasm : Wasm := {|
  Compiled := list Z;
  Inst := toy_inst;
  CompileModule b := Some (Z_of_byte <$> b);
  imports ops := import_name ∘ toy_call <$> ops;
  InstantiateModule ops := Some (mkToy ops (zeros toy_size));
  ExportedFunction _ n := bool_decide (n ∈ toy_exports);
  invoke := toy_invoke;
  mem_read := toy_read;
  mem_write := toy_write |}.

#[export] Instance toy_wasm_laws : WasmLaws toy_wasm.
Proof.
  split. intros i p n d. apply read_at_size.
Qed.

Lemma toy_mem_sim : mem_sim (@eq toy_inst).
Proof. split; [by intros ? ? ? ? ->|]. intros ? i p d ->. by destruct (mem_write i p d). Qed.
Lemma toy_run_sim (t : run toy_inst) : run_sim eq eq t t.
Proof. induction t as [vs i|i|c i k IH]; constructor; [done..|]. intros v j ? ->. apply IH. Qed.

(** A decoder that finds every capability at version 1 in any document. *)
Definition toy_caps : gmap string CapabilityConfig :=
  list_to_map ((fun n => (n, mkCapCfg 1 None)) <$> NodeCapabilities).
#[export] Instance toy_json : JSON := {|
  unmarshal_manifest _ := Some (mkManifestJSON (Some toy_caps) None None);
  unmarshal_capabilities _ := Some (mkCapManifest (Some toy_caps)) |}.
