(* ===== verification/Instance.v ===== *)
(** * Agent instances (internal/agent/instance.go)

    Loading, ticking, metering, receipts, checkpointing and restoring of an
    agent.  The record holds the fields of [Instance]; the WASM module's
    instance is passed beside it.  Time, random bytes, HTTP and the measured
    tick durations come from [env], read once per use in order. *)
From S2P Require Import Prelude GoFloat Crypto EventLog Manifest Wasm Hostcall Storage ToyGuest.
From S2P Require Authority Budget Lineage Identity Receipt Checkpoint.
Import Receipt(Receipt, mkReceipt, MarshalBinary, MarshalReceipts, UnmarshalReceipts, EpochEnd).
From stdpp Require Import gmap strings.
Open Scope Z_scope.

Definition DefaultReplayWindowSize : Z := 16.

(** [TickSnapshot]: the sealed log is read once sealed, so its entries are kept. *)
Record TickSnapshot := mkSnapshot {
  snap_tick : Z; PreState : bytes; PostStateHash : bytes; SnapLog : option TickLog }.
Definition observationScore (s : TickSnapshot) : Z :=
  match SnapLog s with None => 0 | Some t => blen (Entries t) end.

(** [settlement.BudgetAdapter] with the state of its implementation. *)
Record Adapter := mkAdapter {
  ValidateBudget : string -> Z -> bool;
  RecordSettlement : Receipt -> list Receipt -> option (list Receipt);
  settlements : list Receipt }.
(** settlement/mock.go: every budget is valid, settlements are kept in order. *)
Definition mock_ValidateBudget (_ : string) (_ : Z) : bool := true.
Definition mock_RecordSettlement (r : Receipt) (l : list Receipt) : option (list Receipt) := Some (l ++ [r]).
Definition MockAdapter : Adapter := mkAdapter mock_ValidateBudget mock_RecordSettlement [].
(** A copy of what was recorded. *)
Definition Settlements (a : Adapter) : list Receipt := settlements a.

(** The environment: the n-th reading of the clock, random source, HTTP client
    and tick stopwatch. *)
Record Env := mkEnv {
  e_now : nat -> Z; e_rand : nat -> Z -> option bytes; e_http : nat -> http_request -> http_result;
  e_elapsed : nat -> Z; e_hostname : string -> option string }.

Section Instance_.
Context {W : Wasm} `{Crypto} `{JSON} {St : Type} `{Provider St}.

Record Instance := mkInstance {
  AgentID : string;
  WASMBytes : bytes;
  WASMHash : bytes;
  hostCfg : HostConfig;
  Storage : St;
  State : bytes;
  Budget : Z;
  PricePerSecond : Z;
  CapManifest : CapabilityManifest;
  FullManifest : Manifest;
  EvLog : EventLog;
  TickNumber : Z;
  ReplayWindow : list TickSnapshot;
  replayWindowMax : Z;
  Receipts : list Receipt;
  lastReceiptTick : Z;
  epochCost : Z;
  signingKey : option bytes;
  nodeID : string;
  BudgetAdapter : option Adapter;
  Lease : option Authority.Lease;
  AgentIdentity : option Identity.AgentIdentity;
  PrevCheckpointHash : bytes;
  env : Env;
  env_step : nat }.

Definition set_Storage (x : St) (i : Instance) : Instance :=
    mkInstance (AgentID i) (WASMBytes i) (WASMHash i) (hostCfg i) x (State i) (Budget i) (PricePerSecond
    i) (CapManifest i) (FullManifest i) (EvLog i) (TickNumber i) (ReplayWindow i) (replayWindowMax i)
    (Receipts i) (lastReceiptTick i) (epochCost i) (signingKey i) (nodeID i) (BudgetAdapter i) (Lease i)
    (AgentIdentity i) (PrevCheckpointHash i) (env i) (env_step i).
Definition set_State (x : bytes) (i : Instance) : Instance :=
    mkInstance (AgentID i) (WASMBytes i) (WASMHash i) (hostCfg i) (Storage i) x (Budget i)
    (PricePerSecond i) (CapManifest i) (FullManifest i) (EvLog i) (TickNumber i) (ReplayWindow i)
    (replayWindowMax i) (Receipts i) (lastReceiptTick i) (epochCost i) (signingKey i) (nodeID i)
    (BudgetAdapter i) (Lease i) (AgentIdentity i) (PrevCheckpointHash i) (env i) (env_step i).
Definition set_Budget (x : Z) (i : Instance) : Instance :=
    mkInstance (AgentID i) (WASMBytes i) (WASMHash i) (hostCfg i) (Storage i) (State i) x
    (PricePerSecond i) (CapManifest i) (FullManifest i) (EvLog i) (TickNumber i) (ReplayWindow i)
    (replayWindowMax i) (Receipts i) (lastReceiptTick i) (epochCost i) (signingKey i) (nodeID i)
    (BudgetAdapter i) (Lease i) (AgentIdentity i) (PrevCheckpointHash i) (env i) (env_step i).
Definition set_PricePerSecond (x : Z) (i : Instance) : Instance :=
    mkInstance (AgentID i) (WASMBytes i) (WASMHash i) (hostCfg i) (Storage i) (State i) (Budget i) x
    (CapManifest i) (FullManifest i) (EvLog i) (TickNumber i) (ReplayWindow i) (replayWindowMax i)
    (Receipts i) (lastReceiptTick i) (epochCost i) (signingKey i) (nodeID i) (BudgetAdapter i) (Lease i)
    (AgentIdentity i) (PrevCheckpointHash i) (env i) (env_step i).
Definition set_EvLog (x : EventLog) (i : Instance) : Instance :=
    mkInstance (AgentID i) (WASMBytes i) (WASMHash i) (hostCfg i) (Storage i) (State i) (Budget i)
    (PricePerSecond i) (CapManifest i) (FullManifest i) x (TickNumber i) (ReplayWindow i)
    (replayWindowMax i) (Receipts i) (lastReceiptTick i) (epochCost i) (signingKey i) (nodeID i)
    (BudgetAdapter i) (Lease i) (AgentIdentity i) (PrevCheckpointHash i) (env i) (env_step i).
Definition set_TickNumber (x : Z) (i : Instance) : Instance :=
    mkInstance (AgentID i) (WASMBytes i) (WASMHash i) (hostCfg i) (Storage i) (State i) (Budget i)
    (PricePerSecond i) (CapManifest i) (FullManifest i) (EvLog i) x (ReplayWindow i) (replayWindowMax i)
    (Receipts i) (lastReceiptTick i) (epochCost i) (signingKey i) (nodeID i) (BudgetAdapter i) (Lease i)
    (AgentIdentity i) (PrevCheckpointHash i) (env i) (env_step i).
Definition set_ReplayWindow (x : list TickSnapshot) (i : Instance) : Instance :=
    mkInstance (AgentID i) (WASMBytes i) (WASMHash i) (hostCfg i) (Storage i) (State i) (Budget i)
    (PricePerSecond i) (CapManifest i) (FullManifest i) (EvLog i) (TickNumber i) x (replayWindowMax i)
    (Receipts i) (lastReceiptTick i) (epochCost i) (signingKey i) (nodeID i) (BudgetAdapter i) (Lease i)
    (AgentIdentity i) (PrevCheckpointHash i) (env i) (env_step i).
Definition set_replayWindowMax (x : Z) (i : Instance) : Instance :=
    mkInstance (AgentID i) (WASMBytes i) (WASMHash i) (hostCfg i) (Storage i) (State i) (Budget i)
    (PricePerSecond i) (CapManifest i) (FullManifest i) (EvLog i) (TickNumber i) (ReplayWindow i) x
    (Receipts i) (lastReceiptTick i) (epochCost i) (signingKey i) (nodeID i) (BudgetAdapter i) (Lease i)
    (AgentIdentity i) (PrevCheckpointHash i) (env i) (env_step i).
Definition set_Receipts (x : list Receipt) (i : Instance) : Instance :=
    mkInstance (AgentID i) (WASMBytes i) (WASMHash i) (hostCfg i) (Storage i) (State i) (Budget i)
    (PricePerSecond i) (CapManifest i) (FullManifest i) (EvLog i) (TickNumber i) (ReplayWindow i)
    (replayWindowMax i) x (lastReceiptTick i) (epochCost i) (signingKey i) (nodeID i) (BudgetAdapter i)
    (Lease i) (AgentIdentity i) (PrevCheckpointHash i) (env i) (env_step i).
Definition set_lastReceiptTick (x : Z) (i : Instance) : Instance :=
    mkInstance (AgentID i) (WASMBytes i) (WASMHash i) (hostCfg i) (Storage i) (State i) (Budget i)
    (PricePerSecond i) (CapManifest i) (FullManifest i) (EvLog i) (TickNumber i) (ReplayWindow i)
    (replayWindowMax i) (Receipts i) x (epochCost i) (signingKey i) (nodeID i) (BudgetAdapter i) (Lease
    i) (AgentIdentity i) (PrevCheckpointHash i) (env i) (env_step i).
Definition set_epochCost (x : Z) (i : Instance) : Instance :=
    mkInstance (AgentID i) (WASMBytes i) (WASMHash i) (hostCfg i) (Storage i) (State i) (Budget i)
    (PricePerSecond i) (CapManifest i) (FullManifest i) (EvLog i) (TickNumber i) (ReplayWindow i)
    (replayWindowMax i) (Receipts i) (lastReceiptTick i) x (signingKey i) (nodeID i) (BudgetAdapter i)
    (Lease i) (AgentIdentity i) (PrevCheckpointHash i) (env i) (env_step i).
Definition set_BudgetAdapter (x : option Adapter) (i : Instance) : Instance :=
    mkInstance (AgentID i) (WASMBytes i) (WASMHash i) (hostCfg i) (Storage i) (State i) (Budget i)
    (PricePerSecond i) (CapManifest i) (FullManifest i) (EvLog i) (TickNumber i) (ReplayWindow i)
    (replayWindowMax i) (Receipts i) (lastReceiptTick i) (epochCost i) (signingKey i) (nodeID i) x
    (Lease i) (AgentIdentity i) (PrevCheckpointHash i) (env i) (env_step i).
Definition set_Lease (x : option Authority.Lease) (i : Instance) : Instance :=
    mkInstance (AgentID i) (WASMBytes i) (WASMHash i) (hostCfg i) (Storage i) (State i) (Budget i)
    (PricePerSecond i) (CapManifest i) (FullManifest i) (EvLog i) (TickNumber i) (ReplayWindow i)
    (replayWindowMax i) (Receipts i) (lastReceiptTick i) (epochCost i) (signingKey i) (nodeID i)
    (BudgetAdapter i) x (AgentIdentity i) (PrevCheckpointHash i) (env i) (env_step i).
Definition set_PrevCheckpointHash (x : bytes) (i : Instance) : Instance :=
    mkInstance (AgentID i) (WASMBytes i) (WASMHash i) (hostCfg i) (Storage i) (State i) (Budget i)
    (PricePerSecond i) (CapManifest i) (FullManifest i) (EvLog i) (TickNumber i) (ReplayWindow i)
    (replayWindowMax i) (Receipts i) (lastReceiptTick i) (epochCost i) (signingKey i) (nodeID i)
    (BudgetAdapter i) (Lease i) (AgentIdentity i) x (env i) (env_step i).
Definition set_env_step (x : nat) (i : Instance) : Instance :=
    mkInstance (AgentID i) (WASMBytes i) (WASMHash i) (hostCfg i) (Storage i) (State i) (Budget i)
    (PricePerSecond i) (CapManifest i) (FullManifest i) (EvLog i) (TickNumber i) (ReplayWindow i)
    (replayWindowMax i) (Receipts i) (lastReceiptTick i) (epochCost i) (signingKey i) (nodeID i)
    (BudgetAdapter i) (Lease i) (AgentIdentity i) (PrevCheckpointHash i) (env i) x.

Definition tick_env (i : Instance) : Instance := set_env_step (S (env_step i)) i.

(** ** The state interfaces handed to the host module *)
Definition GetReceiptBytes_ (i : Instance) (index : Z) : option bytes :=
  if (index <? 0) || (blen (Receipts i) <=? index) then None
  else MarshalBinary <$> Receipts i !! Z.to_nat index.
#[export] Instance instance_wallet : WalletState Instance := {|
  GetBudget := Budget; GetReceiptCount i := blen (Receipts i); GetReceiptBytes := GetReceiptBytes_ |}.
#[export] Instance instance_pricing : PricingState Instance := {| GetNodePrice := PricePerSecond |}.

Definition DeductBudget_ (amount : Z) (i : Instance) : option Instance :=
  if Budget i <? amount then None else Some (set_Budget (i64 (Budget i - amount)) i).
#[export] Instance instance_pay : WalletPayState Instance := {|
  pay_GetBudget := Budget;
  DeductBudget := DeductBudget_;
  GetAgentPubKey i := match AgentIdentity i with None => zeros 32 | Some id => Identity.PublicKey id end;
  SignPayment i d := match AgentIdentity i with None => zeros 64 | Some id => ed_sign (Identity.PrivateKey id) d end |}.
#[export] Instance instance_recorder : EventRecorder Instance := {| get_log := EvLog; set_log := set_EvLog |}.
#[export] Instance instance_env : HostEnv Instance := {|
  now_unix_nano i := (i64 (e_now (env i) (env_step i)), tick_env i);
  crypto_rand n i := (copy_array (Z.to_nat n) <$> e_rand (env i) (env_step i) n, tick_env i);
  http_do r i := (e_http (env i) (env_step i) r, tick_env i);
  url_hostname i := e_hostname (env i) |}.


(** ** Results: an error, or the death of the process in a storage call *)
Inductive instance_error :=
| ErrWasm (e : wasm_error) | ErrManifest (e : manifest_error) | ErrMemoryLimit (need : Z)
| ErrReadWASM | ErrNoHostModule | ErrCompile | ErrInstantiate | ErrInitialize | ErrMissingExport (name : string)
| ErrBudgetExhausted (b : Z) | ErrBudgetValidation | ErrTickFailed | ErrPostState (e : wasm_error)
| ErrSign | ErrStorage (e : storage_error) | ErrHeader (e : Checkpoint.checkpoint_error)
| ErrWASMHashMismatch | ErrSignatureInvalid | ErrCrashed.

Definition handle (i : Instance) : hostcall -> Inst -> Instance -> Z * Inst * Instance := live_handle (hostCfg i).

(** A method of the instance: it runs on the module and the fields. *)
Definition Op (A : Type) := Inst -> Instance -> result instance_error A * Inst * Instance.
#[export] Instance Op_ret : MRet Op := fun _ a m i => (Ok a, m, i).
#[export] Instance Op_bind : MBind Op := fun _ _ f o m i =>
  match o m i with (Ok a, m, i) => f a m i | (Err e, m, i) => (Err e, m, i) end.
Definition op_fail {A} (e : instance_error) : Op A := fun m i => (Err e, m, i).
Definition get {A} (f : Instance -> A) : Op A := fun m i => (Ok (f i), m, i).
Definition modify (f : Instance -> Instance) : Op unit := fun m i => (Ok tt, m, f i).
(** A computation on the module under the live hostcalls. *)
Definition on_module {A} (wrap : wasm_error -> instance_error) (c : M (HS := Instance) A) : Op A := fun m i =>
  let '(r, m, i) := c m i in (map_err wrap r, m, i).

Definition live_call (name : string) (args : list Z) : M (HS := Instance) (list Z) := fun m i =>
  Call (handle i) name args m i.
Definition captureState (wrap : wasm_error -> instance_error) : Op bytes := fun m i =>
  on_module wrap (CaptureState (handle i)) m i.

(** ** Loading *)
Definition required : list string :=
  ["agent_init"; "agent_tick"; "agent_checkpoint"; "agent_checkpoint_ptr"; "agent_resume"].
Definition verifyExports (m : Inst) : option string :=
  head (filter (fun n => ExportedFunction m n = false) required).

(** While the module initialises the state references are still nil: a
    wallet, pricing or payment hostcall dereferences nil, which the engine
    reports as a failed call. *)
Definition load_handle (cfg : HostConfig) (c : hostcall) (m : Inst) (ip : Instance * bool)
    : Z * Inst * (Instance * bool) :=
  let '(i, panicked) := ip in
  match c with
  | HWalletBalance | HWalletReceiptCount | HWalletReceipt _ _ _ | HNodePrice
  | HWalletPay _ _ _ _ _ _ _ => (0, m, (i, true))
  | _ => let '(v, m, i) := live_handle cfg c m i in (v, m, (i, panicked))
  end.

(** The [Instance] that [LoadAgentFromBytes] fills in. *)
Definition newInstance (wasmBytes : bytes) (agentID : string) (storage : St) (budgetVal pricePerSecond : Z) (fullManifest : Manifest)
    (cfg : HostConfig) (signingKey : option bytes) (nodeID : string) (agentIdentity : option Identity.AgentIdentity) (env : Env) : Instance :=
  mkInstance agentID wasmBytes (sha256 wasmBytes) cfg storage [] budgetVal pricePerSecond
    (ManifestCapabilities fullManifest) fullManifest (NewEventLog DefaultMaxTicks) 0 [] 0 [] 0 0 signingKey nodeID
    None None agentIdentity (zeros 32) env O.
Definition loadAgent (wasmBytes : bytes) (agentID : string) (storage : St) (budgetVal pricePerSecond : Z)
    (manifestData : bytes) (signingKey : option bytes) (nodeID : string)
    (agentIdentity : option Identity.AgentIdentity) (env : Env) : result instance_error (Inst * Instance) :=
  fullManifest ← map_err ErrManifest (ParseManifest manifestData);
  let capManifest := ManifestCapabilities fullManifest in
  _ ← map_err ErrManifest (ValidateAgainstNode (Some capManifest) NodeCapabilities);
  let need := MaxMemoryBytes (ManifestResourceLimits fullManifest) in
  _ ← guard_err (negb ((0 <? need) && (DefaultMaxMemoryBytes <? need))) (ErrMemoryLimit need);
  let cfg := RegisterHostModule (Some capManifest) true true true in
  compiled ← match CompileModule wasmBytes with Some c => Ok c | None => Err ErrCompile end;
  _ ← guard_err (links (functions cfg) compiled) ErrNoHostModule;
  m ← match InstantiateModule compiled with Some m => Ok m | None => Err ErrInstantiate end;
  let i := newInstance wasmBytes agentID storage budgetVal pricePerSecond fullManifest cfg signingKey nodeID agentIdentity env in
  match initialize (load_handle cfg) m (i, false) with
  | (_, _, (_, true)) => Err ErrInitialize
  | (Err _, _, _) => Err ErrInitialize
  | (Ok _, m, (i, false)) =>
      match verifyExports m with
      | Some name => Err (ErrMissingExport name)
      | None => Ok (m, i)
      end
  end.

(** From a file and from bytes. *)
Definition LoadAgent (readFile : string -> option bytes) (wasmPath agentID : string) (storage : St) (budgetVal pricePerSecond : Z)
    (manifestData : bytes) (signingKey : option bytes) (nodeID : string)
    (agentIdentity : option Identity.AgentIdentity) (env : Env) : result instance_error (Inst * Instance) :=
  match readFile wasmPath with
  | None => Err ErrReadWASM
  | Some wasmBytes => loadAgent wasmBytes agentID storage budgetVal pricePerSecond manifestData signingKey nodeID agentIdentity env
  end.
Definition LoadAgentFromBytes : bytes -> string -> St -> Z -> Z -> bytes -> option bytes -> string -> option Identity.AgentIdentity -> Env ->
    result instance_error (Inst * Instance) := loadAgent.

Definition Init : Op unit := fun m i =>
  on_module ErrWasm (_ ← require "agent_init"; _ ← live_call "agent_init" []; mret tt) m i.

(** ** Ticking *)
(** The snapshot to evict: the lowest score among all but the last, the
    oldest of those. *)
Fixpoint evict_loop (l : list TickSnapshot) (j evictIdx : nat) (evictScore : Z) : nat :=
  match l with
  | [] | [_] => evictIdx
  | s :: l =>
      let score := observationScore s in
      if score <? evictScore then evict_loop l (S j) j score else evict_loop l (S j) evictIdx evictScore
  end.
Definition evict_index (w : list TickSnapshot) : nat :=
  match w with [] => O | s :: rest => evict_loop rest 1 0 (observationScore s) end.
Definition push_snapshot (maxSnaps : Z) (s : TickSnapshot) (w : list TickSnapshot) : list TickSnapshot :=
  let w := w ++ [s] in
  if maxSnaps <? blen w then take (evict_index w) w ++ drop (S (evict_index w)) w else w.
Definition max_snaps (i : Instance) : Z :=
  if replayWindowMax i <=? 0 then DefaultReplayWindowSize else replayWindowMax i.

(** The cost of a tick of [nanos] nanoseconds. *)
Definition tick_cost (nanos price budget : Z) : Z :=
  if (0 <? price) && (Z.quot max_i64 price <? nanos) then budget
  else Z.quot (i64 (nanos * price)) 1000000000.

Definition charge (i : Instance) : Instance :=
  let nanos := i64 (e_elapsed (env i) (env_step i)) in
  let cost := tick_cost nanos (PricePerSecond i) (Budget i) in
  tick_env (set_epochCost (i64 (epochCost i + cost)) (set_Budget (i64 (Budget i - cost)) i)).

Definition has_more_work (results : list Z) : bool :=
  match results with r :: _ => negb (r =? 0) | [] => false end.

Definition Tick : Op bool := fun m i =>
  if Budget i <=? 0 then (Err (ErrBudgetExhausted (Budget i)), m, i)
  else if match BudgetAdapter i with Some a => negb (ValidateBudget a (AgentID i) (Budget i)) | None => false end
  then (Err ErrBudgetValidation, m, i)
  else
    match captureState ErrWasm m i with
    | (Err e, m, i) => (Err e, m, i)
    | (Ok preState, m, i) =>
        let i := set_TickNumber (u64 (TickNumber i + 1)) i in
        let i := set_EvLog (BeginTick (TickNumber i) (EvLog i)) i in
        if negb (ExportedFunction m "agent_tick") then (Err (ErrWasm (ErrNotExported "agent_tick")), m, i)
        else
          let '(results, m, i) := exec (handle i) (invoke m "agent_tick" []) i in
          let '(sealed, l) := SealTick (EvLog i) in
          let i := set_EvLog l i in
          match results with
          | None => (Err ErrTickFailed, m, i)
          | Some results =>
              match captureState ErrPostState m i with
              | (Err e, m, i) => (Err e, m, i)
              | (Ok postState, m, i) =>
                  let snap := mkSnapshot (TickNumber i) preState (sha256 postState) sealed in
                  let i := set_ReplayWindow (push_snapshot (max_snaps i) snap (ReplayWindow i)) i in
                  (Ok (has_more_work results), m, charge i)
              end
          end
    end.

(** ** Checkpoint and resume *)
Definition keep_state (state : bytes) : M (HS := Instance) unit := fun m i => (Ok tt, m, set_State state i).

Definition Checkpoint : Op bytes := fun m i =>
  on_module ErrWasm (
    _ ← require "agent_checkpoint";
    sizeResults ← live_call "agent_checkpoint" [];
    size ← result0 "agent_checkpoint" sizeResults;
    if size =? 0 then mret []
    else
      _ ← require "agent_checkpoint_ptr";
      ptrResults ← live_call "agent_checkpoint_ptr" [];
      ptr ← result0 "agent_checkpoint_ptr" ptrResults;
      state ← MemRead ptr size;
      _ ← keep_state state;
      mret state) m i.

Definition Resume (state : bytes) : Op unit := fun m i =>
  on_module ErrWasm (
    _ ← require "agent_resume";
    if blen state =? 0 then _ ← live_call "agent_resume" [0; 0]; mret tt
    else
      _ ← require "malloc";
      results ← live_call "malloc" [blen state];
      ptr ← result0 "malloc" results;
      if ptr =? 0 then raise ErrMallocNull
      else
        _ ← MemWrite ptr state;
        _ ← live_call "agent_resume" [ptr; blen state];
        keep_state state) m i.

(** ** Receipts *)
Definition CreateReceipt (i : Instance) : result instance_error unit * Instance :=
  match signingKey i with
  | None => (Ok tt, i)
  | Some key =>
      let '(now, i) := now_unix_nano i in
      let r := mkReceipt (AgentID i) (nodeID i) (u64 (lastReceiptTick i + 1)) (TickNumber i)
                 (epochCost i) (Budget i) now [] in
      match Receipt.Sign key r with
      | (Err _, _) => (Err ErrSign, i)
      | (Ok _, r) => (Ok tt, set_epochCost 0 (set_lastReceiptTick (TickNumber i) (set_Receipts (Receipts i ++ [r]) i)))
      end
  end.

(** ** Checkpoints in storage *)
Definition lease_info (i : Instance) : option Checkpoint.LeaseInfo :=
  (fun l => Checkpoint.mkLeaseInfo (Authority.GetMajorVersion l) (Authority.GetLeaseGeneration l)
              (Authority.ExpiryUnixNano l)) <$> Lease i.
Definition checkpoint_fields (i : Instance) : Checkpoint.CheckpointFields := {|
  Checkpoint.f_budget := Budget i; Checkpoint.f_price := PricePerSecond i; Checkpoint.f_tick := TickNumber i;
  Checkpoint.f_wasmHash := WASMHash i; Checkpoint.f_lease := lease_info i;
  Checkpoint.f_identity := AgentIdentity i; Checkpoint.f_prevHash := PrevCheckpointHash i |}.
Definition buildCheckpoint (state : bytes) (i : Instance) : result instance_error bytes * Instance :=
  match Checkpoint.buildCheckpoint (checkpoint_fields i) state with
  | Err _ => (Err ErrSign, i)
  | Ok (c, prev) => (Ok c, set_PrevCheckpointHash prev i)
  end.

Definition of_outcome (o : outcome unit) : result instance_error unit :=
  match o with Crashed => Err ErrCrashed | Returned r => map_err ErrStorage r end.

(** Persisting receipts and settling: failures are logged only. *)
Definition persist_receipts (i : Instance) : result instance_error unit * Instance :=
  if blen (Receipts i) =? 0 then (Ok tt, i)
  else
    let '(o, st) := prov_SaveReceipts (Storage i) (AgentID i) (MarshalReceipts (Receipts i)) in
    let i := set_Storage st i in
    match o with
    | Crashed => (Err ErrCrashed, i)
    | Returned _ =>
        match BudgetAdapter i, last (Receipts i) with
        | Some a, Some r =>
            match RecordSettlement a r (settlements a) with
            | Some l => (Ok tt, set_BudgetAdapter (Some (mkAdapter (ValidateBudget a) (RecordSettlement a) l)) i)
            | None => (Ok tt, i)
            end
        | _, _ => (Ok tt, i)
        end
    end.

Definition SaveCheckpointToStorage : Op unit := fun m i =>
  match Checkpoint m i with
  | (Err e, m, i) => (Err e, m, i)
  | (Ok state, m, i) =>
      match buildCheckpoint state i with
      | (Err e, i) => (Err e, m, i)
      | (Ok checkpoint, i) =>
          let '(o, st) := prov_SaveCheckpoint (Storage i) (AgentID i) checkpoint in
          let i := set_Storage st i in
          match of_outcome o with
          | Err e => (Err e, m, i)
          | Ok _ =>
              let '(_, i) := CreateReceipt i in
              let '(r, i) := persist_receipts i in (r, m, i)
          end
      end
  end.

(** Receipts are optional: what cannot be read or parsed is ignored. *)
Definition restore_receipts (i : Instance) : Instance :=
  match prov_LoadReceipts (Storage i) (AgentID i) with
  | Err _ => i
  | Ok data =>
      match UnmarshalReceipts data with
      | Err _ => i
      | Ok receipts =>
          let i := set_Receipts receipts i in
          match last receipts with Some r => set_lastReceiptTick (EpochEnd r) i | None => i end
      end
  end.

Definition LoadCheckpointFromStorage : Op unit := fun m i =>
  match prov_LoadCheckpoint (Storage i) (AgentID i) with
  | Err ErrNotFound => (Ok tt, m, i)
  | Err e => (Err (ErrStorage e), m, i)
  | Ok checkpoint =>
      match Checkpoint.ParseCheckpointHeader checkpoint with
      | Err e => (Err (ErrHeader e), m, i)
      | Ok (hdr, state) =>
          if negb (bool_decide (Checkpoint.WASMHash hdr = WASMHash i)) then (Err ErrWASMHashMismatch, m, i)
          else if Checkpoint.HasLineage hdr && negb (Checkpoint.signature_valid checkpoint hdr state)
          then (Err ErrSignatureInvalid, m, i)
          else
            let i := if Checkpoint.HasLineage hdr then set_PrevCheckpointHash (Lineage.ContentHash checkpoint) i else i in
            let i := set_Budget (Checkpoint.Budget hdr) i in
            let i := set_PricePerSecond (Checkpoint.PricePerSecond hdr) i in
            let i := set_TickNumber (Checkpoint.TickNumber hdr) i in
            Resume state m (restore_receipts i)
      end
  end.

Definition SetReplayWindowSize (n : Z) (i : Instance) : Instance := set_replayWindowMax n i.
Definition LatestSnapshot (i : Instance) : option TickSnapshot := last (ReplayWindow i).
End Instance_.

(** ** Invariants and facts *)
Section Facts.
Context {W : Wasm} `{!WasmLaws W} `{CryptoLaws} `{JSON} {St : Type} `{Provider St}.
Implicit Types (i : Instance (St := St)).

Record instance_ok i : Prop := {
  io_budget : is_i64 (Budget i);
  io_price : is_i64 (PricePerSecond i);
  io_log : log_ok (EvLog i);
  io_identity id : AgentIdentity i = Some id ->
    blen (Identity.PublicKey id) = PublicKeySize /\ blen (Identity.PrivateKey id) = PrivateKeySize }.

(** What the handlers may rely on; unlike [instance_ok] it does not speak of
    the log. *)
Definition host_fit i : Prop :=
  is_i64 (Budget i) /\ is_i64 (PricePerSecond i) /\
  forall id, AgentIdentity i = Some id ->
    blen (Identity.PublicKey id) = PublicKeySize /\ blen (Identity.PrivateKey id) = PrivateKeySize.
Lemma instance_ok_fit i : instance_ok i -> host_fit i.
Proof. intros []. done. Qed.

#[export] Instance instance_host_laws : HostLaws (Instance (St := St)) host_fit.
Proof.
  split; cbn [get_log set_log instance_recorder GetBudget instance_wallet pay_GetBudget instance_pay
              GetNodePrice instance_pricing GetAgentPubKey SignPayment DeductBudget
              now_unix_nano crypto_rand http_do instance_env fst snd]; try done.
  - by intros i [].
  - by intros i (_ & ? & _).
  - intros i (_ & _ & Hid). destruct (AgentIdentity i) as [id|] eqn:E; [by apply Hid|by rewrite blen_zeros].
  - intros i d (_ & _ & Hid). destruct (AgentIdentity i) as [id|] eqn:E; [|by rewrite blen_zeros].
    apply ed_sign_size. by apply Hid.
  - intros a i [? ?] (Hb & Hp & Hid). unfold DeductBudget_. destruct (Z.ltb_spec (Budget i) a); [lia|].
    assert (is_i64 (Budget i - a)) as Hd by (unfold is_i64 in *; lia).
    eexists. split; [done|]. rewrite (i64_id _ Hd). done.
  - intros i. apply i64_range.
  - intros n i b Hn. destruct (e_rand _ _ _) as [r|]; [|done]. intros [= <-]. rewrite blen_copy_array. lia.
Qed.

(** *** Metering *)
Lemma tick_cost_eq nanos price budget :
  0 <= nanos < 2 ^ 63 -> 0 <= price < 2 ^ 63 ->
  tick_cost nanos price budget = if nanos * price <=? max_i64 then nanos * price / 1000000000 else budget.
Proof.
  intros Hn Hp. unfold tick_cost, max_i64. destruct (Z.ltb_spec 0 price); cbn [andb].
  - rewrite Z.quot_div_nonneg by lia.
    destruct (Z.ltb_spec ((2 ^ 63 - 1) / price) nanos) as [Hlt|Hge];
      destruct (Z.leb_spec (nanos * price) (2 ^ 63 - 1)) as [Hle|Hgt].
    + exfalso. assert (nanos <= (2 ^ 63 - 1) / price) by (apply Z.div_le_lower_bound; lia). lia.
    + done.
    + rewrite i64_id by (unfold is_i64; nia). apply Z.quot_div_nonneg; nia.
    + exfalso. pose proof (Z.mul_div_le (2 ^ 63 - 1) price ltac:(lia)). nia.
  - assert (price = 0) as -> by lia. rewrite Z.mul_0_r. done.
Qed.

(** *** The replay window *)
(** [s] at index [r] is the snapshot to drop among the first [n]: a lowest
    score, and the oldest such. *)
Definition oldest_lowest (w : list TickSnapshot) (n r : nat) (s : TickSnapshot) : Prop :=
  w !! r = Some s /\ (r < n)%nat /\
  forall k x, (k < n)%nat -> w !! k = Some x ->
    observationScore s <= observationScore x /\ ((k < r)%nat -> observationScore s < observationScore x).

Lemma evict_loop_spec w l : forall j idx s,
  l = drop j w -> (j < length w)%nat -> oldest_lowest w j idx s ->
  exists s', oldest_lowest w (length w - 1) (evict_loop l j idx (observationScore s)) s'.
Proof.
  induction l as [|x l IH]; intros j idx s Hl Hj Ho.
  - exfalso. apply (f_equal length) in Hl. rewrite length_drop in Hl. simpl in Hl. lia.
  - destruct l as [|y l].
    + exists s. apply (f_equal length) in Hl. rewrite length_drop in Hl. simpl in Hl.
      replace (length w - 1)%nat with j by lia. done.
    + assert (w !! j = Some x) as Hx.
      { rewrite <- (Nat.add_0_r j), <- lookup_drop, <- Hl. done. }
      assert (y :: l = drop (S j) w) as Hl'.
      { replace (S j) with (j + 1)%nat by lia. rewrite <- drop_drop, <- Hl. done. }
      assert (S j < length w)%nat as Hj'.
      { apply (f_equal length) in Hl'. rewrite length_drop in Hl'. simpl in Hl'. lia. }
      destruct Ho as (Hs & Hidx & Hall). cbn [evict_loop]. fold evict_loop.
      destruct (Z.ltb_spec (observationScore x) (observationScore s)).
      * apply (IH (S j) j x Hl' Hj'). split_and!; [done|lia|]. intros k z Hk Hz.
        destruct (decide (k = j)) as [->|]; [rewrite Hx in Hz; injection Hz as <-; split; lia|].
        destruct (Hall k z ltac:(lia) Hz). split; lia.
      * apply (IH (S j) idx s Hl' Hj'). split_and!; [done|lia|]. intros k z Hk Hz.
        destruct (decide (k = j)) as [->|]; [rewrite Hx in Hz; injection Hz as <-; split; lia|].
        apply Hall; [lia|done].
Qed.
Lemma evict_index_spec w :
  (2 <= length w)%nat -> exists s, oldest_lowest w (length w - 1) (evict_index w) s.
Proof.
  intros Hw. destruct w as [|x w]; [simpl in Hw; lia|].
  apply (evict_loop_spec (x :: w) w 1 0 x); [done|simpl in *; lia|].
  split_and!; [done|lia|]. intros k z Hk Hz. assert (k = 0%nat) as -> by lia. injection Hz as <-. split; lia.
Qed.

Lemma push_snapshot_cases max s w :
  1 <= max -> blen w <= max ->
  let w' := push_snapshot max s w in
  blen w' <= max /\ last w' = Some s /\
  (w' = w ++ [s] \/
   exists k e, oldest_lowest (w ++ [s]) (length w) k e /\ w' = take k w ++ drop (S k) w ++ [s]).
Proof.
  intros Hmax Hw. unfold push_snapshot. destruct (Z.ltb_spec max (blen (w ++ [s]))) as [Hlt|Hge].
  - rewrite blen_app, blen_cons, blen_nil in Hlt. unfold blen in *.
    destruct (evict_index_spec (w ++ [s])) as [e He]; [rewrite length_app; simpl; lia|].
    rewrite length_app in He. simpl in He. replace (length w + 1 - 1)%nat with (length w) in He by lia.
    set (k := evict_index (w ++ [s])) in *. pose proof He as (_ & Hk & _).
    assert (take k (w ++ [s]) ++ drop (S k) (w ++ [s]) = take k w ++ drop (S k) w ++ [s]) as ->.
    { rewrite take_app_le by lia. rewrite drop_app_le by lia. done. }
    split_and!.
    + rewrite !length_app, length_take, length_drop. simpl. lia.
    + rewrite app_assoc. apply last_snoc.
    + right. eauto.
  - split_and!; [done|apply last_snoc|by left].
Qed.

(** *** Receipts *)
(** Each receipt starts at the tick after the previous one ended, and the
    instance's marker is where the last one ended. *)
Fixpoint contiguous (start : Z) (rs : list Receipt) : option Z :=
  match rs with
  | [] => Some start
  | r :: rs => if Receipt.EpochStart r =? u64 (start + 1) then contiguous (EpochEnd r) rs else None
  end.
Lemma contiguous_snoc rs : forall start last_ r,
  contiguous start rs = Some last_ -> Receipt.EpochStart r = u64 (last_ + 1) ->
  contiguous start (rs ++ [r]) = Some (EpochEnd r).
Proof.
  induction rs as [|x rs IH]; intros start last_ r Hc Hs; cbn [contiguous app] in *.
  - injection Hc as ->. by rewrite Hs, Z.eqb_refl.
  - destruct (Receipt.EpochStart x =? u64 (start + 1)); [|done]. by eapply IH.
Qed.

Lemma CreateReceipt_spec i r i' :
  CreateReceipt i = (r, i') ->
  (i' = i /\ signingKey i = None) \/
  (r = Err ErrSign /\ Receipts i' = Receipts i /\ lastReceiptTick i' = lastReceiptTick i /\ epochCost i' = epochCost i) \/
  exists key rc, signingKey i = Some key /\ r = Ok tt /\ Receipts i' = Receipts i ++ [rc] /\
    Receipt.EpochStart rc = u64 (lastReceiptTick i + 1) /\ EpochEnd rc = TickNumber i /\
    Receipt.CostMicrocents rc = epochCost i /\ Receipt.BudgetAfter rc = Budget i /\
    Receipt.AgentID rc = AgentID i /\ Receipt.NodeID rc = nodeID i /\
    rc = snd (Receipt.Sign key (Receipt.with_signature [] rc)) /\
    lastReceiptTick i' = TickNumber i /\ epochCost i' = 0.
Proof.
  unfold CreateReceipt. destruct (signingKey i) as [key|] eqn:Ek; [|intros [= <- <-]; by left].
  cbn [now_unix_nano instance_env]. unfold Receipt.Sign. destruct (negb _) eqn:En.
  - intros [= <- <-]. right; left. done.
  - intros [= <- <-]. right; right. exists key. eexists. split_and!; try done.
    unfold Receipt.with_signature; simpl. unfold Receipt.Sign. by rewrite En.
Qed.

(** *** Save, then load on a fresh instance *)
Lemma restore_receipts_fields i :
  Budget (restore_receipts i) = Budget i /\ PricePerSecond (restore_receipts i) = PricePerSecond i /\
  TickNumber (restore_receipts i) = TickNumber i /\ PrevCheckpointHash (restore_receipts i) = PrevCheckpointHash i.
Proof. unfold restore_receipts. repeat case_match_goal; done. Qed.

Lemma persist_receipts_spec `{!ProviderLaws St} i r i' :
  persist_receipts i = (r, i') ->
  prov_LoadCheckpoint (Storage i') (AgentID i) = prov_LoadCheckpoint (Storage i) (AgentID i) /\
  (prov_readable (Storage i') <-> prov_readable (Storage i)) /\
  PrevCheckpointHash i' = PrevCheckpointHash i /\ AgentID i' = AgentID i.
Proof.
  unfold persist_receipts. destruct (blen (Receipts i) =? 0); [by intros [= <- <-]|].
  destruct (prov_SaveReceipts _ _ _) as [o st] eqn:Es.
  pose proof (prov_receipts_keep_checkpoint _ _ _ _ _ Es) as Hk.
  pose proof (prov_receipts_readable _ _ _ _ _ Es) as Hr.
  destruct o as [x|]; [|intros [= <- <-]; done].
  repeat case_match_goal; intros; simplify_eq/=; done.
Qed.

Lemma CreateReceipt_keeps i r i' :
  CreateReceipt i = (r, i') ->
  Storage i' = Storage i /\ AgentID i' = AgentID i /\ PrevCheckpointHash i' = PrevCheckpointHash i.
Proof.
  unfold CreateReceipt. destruct (signingKey i); [|by intros [= <- <-]].
  cbn [now_unix_nano instance_env]. unfold Receipt.Sign. destruct (negb _); intros [= <- <-]; done.
Qed.

(** What a successful save leaves behind. *)
Lemma save_stored `{!ProviderLaws St} m i m' i' :
  SaveCheckpointToStorage m i = (Ok tt, m', i') -> prov_readable (Storage i') ->
  exists state m1 i1 c h, Checkpoint m i = (Ok state, m1, i1) /\
    Checkpoint.buildCheckpoint (checkpoint_fields i1) state = Ok (c, h) /\
    prov_LoadCheckpoint (Storage i') (AgentID i1) = Ok c /\
    PrevCheckpointHash i' = h /\ AgentID i' = AgentID i1.
Proof.
  unfold SaveCheckpointToStorage. destruct (Checkpoint m i) as [[[state|e] m1] i1] eqn:Ec; [|done].
  unfold buildCheckpoint. destruct (Checkpoint.buildCheckpoint _ _) as [[c h]|e] eqn:Eb; [|done].
  destruct (prov_SaveCheckpoint _ _ _) as [o st] eqn:Es.
  destruct o as [[[]|e]|]; cbn [of_outcome map_err]; [|done..].
  destruct (CreateReceipt _) as [r2 i2] eqn:Er. destruct (persist_receipts i2) as [r3 i3] eqn:Ep.
  intros [= -> -> <-] Hread. exists state, m', i1, c, h.
  apply CreateReceipt_keeps in Er as (Hst & Hid & Hprev).
  pose proof (persist_receipts_spec _ _ _ Ep) as (Hl & Hr & Hp & Hid3).
  simpl in Hst, Hid, Hprev. rewrite Hid, Hst in Hl. rewrite Hst in Hr. apply Hr in Hread.
  split_and!; try done; [|congruence..].
  rewrite Hl. by apply (prov_checkpoint_saved _ _ _ _ Hread Es).
Qed.

(** Restoring on any instance of the same binary that reads that storage. *)
Lemma load_restores i2 c h hdr state m2 (f : Checkpoint.CheckpointFields) sig :
  prov_LoadCheckpoint (Storage i2) (AgentID i2) = Ok c ->
  Checkpoint.ParseCheckpointHeader c = Ok (hdr, state) ->
  hdr = Checkpoint.header_of f sig ->
  Checkpoint.f_wasmHash f = WASMHash i2 ->
  match Checkpoint.f_identity f with
  | None => h = Checkpoint.f_prevHash f
  | Some _ => Checkpoint.signature_valid c hdr state = true /\ h = Lineage.ContentHash c
  end ->
  exists i3, LoadCheckpointFromStorage m2 i2 = Resume state m2 i3 /\
    Budget i3 = Checkpoint.f_budget f /\ PricePerSecond i3 = Checkpoint.f_price f /\
    TickNumber i3 = Checkpoint.f_tick f /\
    (Checkpoint.f_identity f <> None -> PrevCheckpointHash i3 = h).
Proof.
  intros Hl Hp -> Hw Hid. unfold LoadCheckpointFromStorage. rewrite Hl, Hp.
  rewrite (bool_decide_eq_true_2 (Checkpoint.WASMHash _ = _)) by done. cbn [negb].
  assert ((Checkpoint.HasLineage (Checkpoint.header_of f sig) &&
           negb (Checkpoint.signature_valid c (Checkpoint.header_of f sig) state)) = false) as ->.
  { unfold Checkpoint.header_of at 1; cbn [Checkpoint.HasLineage].
    destruct (Checkpoint.f_identity f); [|done]. destruct Hid as [-> _]. done. }
  eexists. split; [done|].
  match goal with |- context [restore_receipts ?x] => destruct (restore_receipts_fields x) as (-> & -> & -> & ->) end.
  split_and!; try done. intros Hn. simpl. destruct (Checkpoint.f_identity f); [|done]. by destruct Hid as [_ ->].
Qed.

(** *** What hostcalls can change: the budget, the event log and the position
    in the environment *)
Definition touched i i' : Prop :=
  exists b l n, i' = set_env_step n (set_EvLog l (set_Budget b i)).
Lemma touched_refl i : touched i i.
Proof. exists (Budget i), (EvLog i), (env_step i). by destruct i. Qed.
Lemma touched_trans i1 i2 i3 : touched i1 i2 -> touched i2 i3 -> touched i1 i3.
Proof. intros (b & l & n & ->) (b' & l' & n' & ->). by exists b', l', n'. Qed.
Lemma touched_log l i : touched i (set_EvLog l i).
Proof. exists (Budget i), l, (env_step i). by destruct i. Qed.
Lemma touched_env i : touched i (tick_env i).
Proof. exists (Budget i), (EvLog i), (S (env_step i)). by destruct i. Qed.
Lemma touched_budget b i : touched i (set_Budget b i).
Proof. exists b, (EvLog i), (env_step i). by destruct i. Qed.
Lemma touched_record id p i : touched i (record id p i).
Proof. apply touched_log. Qed.
Hint Resolve touched_refl touched_log touched_env touched_budget touched_record : core.

Lemma live_handle_touched cfg c m i v m' i' : live_handle cfg c m i = (v, m', i') -> touched i i'.
Proof.
  destruct c; cbn [live_handle]; unfold clock_now, rand_bytes, log_emit, wallet_balance, wallet_receipt_count,
    wallet_receipt, node_price, http_request_, wallet_pay;
    cbn [now_unix_nano crypto_rand http_do instance_env DeductBudget instance_pay]; unfold DeductBudget_;
    intros E; repeat case_match_goal; simplify_eq/=;
    repeat match goal with H : context [match ?x with _ => _ end] |- _ => destruct x eqn:?; simplify_eq/= end;
    eauto using touched_trans.
Qed.
(** A relation between instances that every hostcall respects, and with
    [rs_state] the storing of a state: then so do the methods. *)
Record respected (Rel : Instance (St := St) -> Instance (St := St) -> Prop) : Prop := {
  rs_refl i : Rel i i;
  rs_trans i1 i2 i3 : Rel i1 i2 -> Rel i2 i3 -> Rel i1 i3;
  rs_call cfg c m i v m' i' : live_handle cfg c m i = (v, m', i') -> Rel i i' }.

Section Respected.
Context (Rel : Instance (St := St) -> Instance (St := St) -> Prop) (Hrel : respected Rel).

Lemma exec_respects cfg t : forall i r m' i', exec (live_handle cfg) t i = (r, m', i') -> Rel i i'.
Proof.
  induction t as [vs j|j|c j k IH]; intros i r m' i' E; cbn [exec] in E;
    [injection E as <- <- <-; apply (rs_refl _ Hrel)..|].
  destruct (live_handle cfg c j i) as [[v j'] i1] eqn:El. apply (rs_call _ Hrel) in El.
  eapply (rs_trans _ Hrel); [done|by eapply IH].
Qed.

(** A computation of the module monad that respects [Rel]. *)
Definition keeps {A} (c : M (HS := Instance (St := St)) A) : Prop :=
  forall m i r m' i', c m i = (r, m', i') -> Rel i i'.
Lemma keeps_bind {A B} (c : M A) (f : A -> M B) : keeps c -> (forall a, keeps (f a)) -> keeps (c ≫= f).
Proof.
  intros Hc Hf m i r m' i' E. unfold mbind, M_bind in E. destruct (c m i) as [[[a|e] m1] i1] eqn:E1.
  - eapply (rs_trans _ Hrel); [by eapply Hc|by eapply Hf].
  - injection E as <- <- <-. by eapply Hc.
Qed.
Lemma keeps_pure {A} (c : M A) : (forall m i, snd (c m i) = i) -> keeps c.
Proof.
  intros Hc m i r m' i' E. pose proof (Hc m i) as Hi. rewrite E in Hi. simpl in Hi. subst. apply (rs_refl _ Hrel).
Qed.
Lemma keeps_Call i0 name args : keeps (Call (handle i0) name args).
Proof.
  intros m i r m' i' E. unfold Call in E. destruct (exec _ _ _) as [[rs m1] i1] eqn:E1.
  injection E as <- <- <-. by eapply exec_respects.
Qed.
Lemma keeps_call name args : keeps (live_call name args).
Proof. intros m i r m' i' E. unfold live_call in E. by eapply keeps_Call. Qed.
Lemma on_module_keeps {A} (c : M A) wrap m i r m' i' :
  keeps c -> on_module wrap c m i = (r, m', i') -> Rel i i'.
Proof.
  intros Hc. unfold on_module. destruct (c m i) as [[r1 m1] i1] eqn:E. intros [= <- <- <-]. by eapply Hc.
Qed.

Ltac keeps_tac :=
  repeat first
    [ apply keeps_call
    | apply keeps_Call
    | match goal with H : forall s, keeps (keep_state s) |- _ => apply H end
    | apply keeps_bind; [|intros ?]
    | match goal with |- keeps (if ?b then _ else _) => destruct b end
    | apply keeps_pure; intros ? ?; unfold require, result0, MemRead, MemWrite, raise; by repeat case_match_goal ].

Lemma captureState_keeps wrap m i r m' i' : captureState wrap m i = (r, m', i') -> Rel i i'.
Proof. unfold captureState. apply on_module_keeps. unfold CaptureState. keeps_tac. Qed.
Lemma Init_keeps m i r m' i' : Init m i = (r, m', i') -> Rel i i'.
Proof. unfold Init. apply on_module_keeps. keeps_tac. Qed.

Context (rs_state : forall s i, Rel i (set_State s i)).
Lemma keeps_state s : keeps (keep_state s).
Proof. intros m i r m' i' [= <- <- <-]. apply rs_state. Qed.
Lemma Checkpoint_keeps m i r m' i' : Checkpoint m i = (r, m', i') -> Rel i i'.
Proof. pose proof keeps_state. unfold Checkpoint. apply on_module_keeps. keeps_tac. Qed.
Lemma Resume_keeps st m i r m' i' : Resume st m i = (r, m', i') -> Rel i i'.
Proof. pose proof keeps_state. unfold Resume. apply on_module_keeps. keeps_tac. Qed.
End Respected.

Lemma touched_respected : respected touched.
Proof. split; [apply touched_refl|apply touched_trans|apply live_handle_touched]. Qed.
Lemma exec_touched cfg t i r m' i' : exec (live_handle cfg) t i = (r, m', i') -> touched i i'.
Proof. apply exec_respects, touched_respected. Qed.
Lemma captureState_touched wrap m i r m' i' : captureState wrap m i = (r, m', i') -> touched i i'.
Proof. apply captureState_keeps, touched_respected. Qed.
Lemma Init_touched m i r m' i' : Init m i = (r, m', i') -> touched i i'.
Proof. apply Init_keeps, touched_respected. Qed.

(** Loading. *)
Lemma exec_load_touched cfg t : forall (i : Instance (St := St)) b r m i' b',
  exec (load_handle cfg) t (i, b) = (r, m, (i', b')) -> touched i i'.
Proof.
  induction t as [vs j|j|c j k IH]; intros i b r m i' b' E; cbn [exec] in E;
    [injection E as <- <- <- <-; apply touched_refl..|].
  destruct (load_handle cfg c j (i, b)) as [[v j'] [i1 b1]] eqn:El.
  eapply touched_trans; [|by eapply IH]. unfold load_handle in El.
  destruct c; try (injection El as <- <- <- <-; apply touched_refl);
    destruct (live_handle cfg _ _ _) as [[v0 j0] i0] eqn:Eh in El; injection El as <- <- <- <-; by eapply live_handle_touched.
Qed.
Lemma initialize_touched cfg m (i : Instance (St := St)) b r m' i' b' :
  initialize (load_handle cfg) m (i, b) = (r, m', (i', b')) -> touched i i'.
Proof.
  unfold initialize. destruct (ExportedFunction m "_initialize"); [|intros [= <- <- <- <-]; apply touched_refl].
  unfold mbind, M_bind, Call. destruct (exec _ _ _) as [[rs m1] [i1 b1]] eqn:E. apply exec_load_touched in E.
  destruct rs; by intros [= <- <- <- <-].
Qed.

Lemma initialize_same cfg m (i : Instance (St := St)) b r m' i' b' :
  initialize (load_handle cfg) m (i, b) = (r, m', (i', b')) -> CapManifest i' = CapManifest i /\ AgentID i' = AgentID i.
Proof. intros (? & ? & ? & ->)%initialize_touched. done. Qed.
Lemma verifyExports_none m : verifyExports m = None -> forall name, name ∈ required -> ExportedFunction m name = true.
Proof.
  unfold verifyExports. intros Hn%head_None name Hr. destruct (ExportedFunction m name) eqn:E; [done|].
  assert (name ∈ filter (fun n => ExportedFunction m n = false) required) as Hin by (apply list_elem_of_filter; by split). rewrite Hn in Hin. by apply not_elem_of_nil in Hin.
Qed.
Lemma loadAgent_fields wasm id (st : St) b pr md key nid ident env m (i : Instance (St := St)) :
  loadAgent wasm id st b pr md key nid ident env = Ok (m, i) ->
  Storage i = st /\ AgentID i = id /\ WASMHash i = sha256 wasm /\ AgentIdentity i = ident /\ nodeID i = nid /\ signingKey i = key.
Proof.
  unfold loadAgent, mbind, result_bind. intros E.
  repeat match type of E with
  | context [match ?x with _ => _ end] => lazymatch x with context [match _ with _ => _ end] => fail | _ => destruct x eqn:? end; simplify_eq/=
  end.
  match goal with Hi : initialize _ _ _ = _ |- _ => apply initialize_touched in Hi as (? & ? & ? & ->) end. done.
Qed.

(** A view of the instance that neither hostcalls nor the kept state change. *)
Record inert {T} (view : Instance (St := St) -> T) : Prop := {
  inert_touched i i' : touched i i' -> view i' = view i;
  inert_state s i : view (set_State s i) = view i }.
Lemma Checkpoint_inert {T} (view : _ -> T) m i r m' i' : inert view -> Checkpoint m i = (r, m', i') -> view i' = view i.
Proof.
  intros [Ht Hs]. apply (Checkpoint_keeps (fun i i' => view i' = view i)); [split|]; try done.
  - by intros ??? -> ->.
  - intros ??????? E%live_handle_touched. by apply Ht.
Qed.

(** The books: what the receipts of an agent say and who signs them. *)
Definition books i := (Receipts i, lastReceiptTick i, AgentID i, nodeID i, signingKey i).
Lemma touched_books i i' : touched i i' -> books i' = books i.
Proof. by intros (b & l & n & ->). Qed.

Lemma books_inert : inert books.
Proof. split; [apply touched_books|done]. Qed.

(** What a tick does to a relation that it may only break itself. *)
Lemma Tick_respects (Rel : Instance (St := St) -> Instance (St := St) -> Prop) m i r m' i' :
  respected Rel -> (forall n i, Rel i (set_TickNumber n i)) -> (forall l i, Rel i (set_EvLog l i)) ->
  (forall w i, Rel i (set_ReplayWindow w i)) -> (forall i, Rel i (charge i)) ->
  Tick m i = (r, m', i') -> Rel i i'.
Proof.
  intros Hrel Hn Hl Hw Hc. assert (forall a b c, Rel a b -> Rel b c -> Rel a c) as Htr by apply Hrel.
  unfold Tick. destruct (Budget i <=? 0); [intros [= <- <- <-]; apply Hrel|].
  destruct (match BudgetAdapter i with Some a => negb (ValidateBudget a (AgentID i) (Budget i)) | None => false end);
    [intros [= <- <- <-]; apply Hrel|].
  destruct (captureState ErrWasm m i) as [[r1 m1] i1] eqn:E1. apply (captureState_keeps Rel Hrel) in E1.
  destruct r1 as [pre|e]; [|by intros [= <- <- <-]].
  set (i2 := set_EvLog _ _). assert (Rel i i2) as H2 by (eapply Htr; [exact E1|]; eapply Htr; [apply Hn|apply Hl]).
  destruct (negb _); [by intros [= <- <- <-]|].
  destruct (exec _ _ _) as [[rs m2] i3] eqn:E3. apply (exec_respects Rel Hrel) in E3.
  destruct (SealTick _) as [sealed l]. assert (Rel i (set_EvLog l i3)) as H4 by eauto.
  destruct rs as [rs|]; [|by intros [= <- <- <-]].
  destruct (captureState ErrPostState m2 _) as [[r5 m5] i5] eqn:E5. apply (captureState_keeps Rel Hrel) in E5.
  destruct r5 as [post|e]; intros [= <- <- <-]; eauto.
Qed.
Lemma Tick_books m i r m' i' : Tick m i = (r, m', i') -> books i' = books i.
Proof.
  apply (Tick_respects (fun i i' => books i' = books i)); try done. split; [done|by intros ??? -> ->|].
  intros ??????? E%live_handle_touched. by apply touched_books.
Qed.

(** The receipts of an agent form one chain, signed by the node. *)
Record receipts_inv i : Prop := {
  ri_chain : contiguous 0 (Receipts i) = Some (lastReceiptTick i);
  ri_signed : Forall (fun r => Receipt.AgentID r = AgentID i /\ Receipt.NodeID r = nodeID i /\
    forall key, signingKey i = Some key -> generated_key key -> Receipt.Verify (ed_public key) r = true) (Receipts i) }.
Lemma books_receipts_inv i i' : books i' = books i -> receipts_inv i -> receipts_inv i'.
Proof.
  unfold books. intros [= E1 E2 E3 E4 E5] [Hc Hs]. split; [by rewrite E1, E2|]. by rewrite E1, E3, E4, E5.
Qed.
Lemma CreateReceipt_owner i r i' :
  CreateReceipt i = (r, i') -> AgentID i' = AgentID i /\ nodeID i' = nodeID i /\ signingKey i' = signingKey i.
Proof.
  unfold CreateReceipt. destruct (signingKey i) as [key|] eqn:Ek; [|by intros [= <- <-]].
  cbn [now_unix_nano instance_env]. destruct (Receipt.Sign _ _) as [[u|e] r0]; by intros [= <- <-].
Qed.
Lemma CreateReceipt_inv i r i' : CreateReceipt i = (r, i') -> receipts_inv i -> receipts_inv i'.
Proof.
  intros E Hinv. pose proof E as E'.
  apply CreateReceipt_spec in E as [[-> _]|[(_ & E1 & E2 & _)|(key & rc & Hk & _ & E1 & Hst & Hend & _ & _ & Ha & Hn & Hrc & El & _)]].
  - done.
  - unfold CreateReceipt in E'. destruct (signingKey i) as [key|] eqn:Ek; [|by injection E' as _ <-].
    cbn [now_unix_nano instance_env] in E'. destruct (Receipt.Sign _ _) as [[u|e] r0]; injection E' as _ <-.
    + apply (f_equal length) in E1. cbn [set_epochCost set_lastReceiptTick set_Receipts Receipts tick_env set_env_step] in E1.
      rewrite length_app in E1. simpl in E1. lia.
    + by apply (books_receipts_inv i).
  - destruct Hinv as [Hc Hs]. pose proof (CreateReceipt_owner _ _ _ E') as (Ea & En & Ek). split.
    + rewrite E1, El, <- Hend. by eapply contiguous_snoc.
    + rewrite E1. apply Forall_app. split.
      * by rewrite Ea, En, Ek.
      * rewrite Ea, En, Ek.
        constructor; [|done]. split_and!; try done. intros key' E6 Hg. rewrite Hk in E6. injection E6 as <-.
        rewrite Hrc. by apply Receipt.Verify_Sign.
Qed.

(** The operations a runner performs on a live agent. *)
Inductive agent_op := OInit | OTick | OSave | OWindow (n : Z) | OBudget (b : Z).
Definition run_agent_op (o : agent_op) (mi : Inst * Instance (St := St)) : Inst * Instance (St := St) :=
  let '(m, i) := mi in
  match o with
  | OInit => let '(_, m, i) := Init m i in (m, i)
  | OTick => let '(_, m, i) := Tick m i in (m, i)
  | OSave => let '(_, m, i) := SaveCheckpointToStorage m i in (m, i)
  | OWindow n => (m, SetReplayWindowSize n i)
  | OBudget b => (m, set_Budget b i)
  end.
Definition run_agent_ops (os : list agent_op) (mi : Inst * Instance (St := St)) : Inst * Instance (St := St) :=
  fold_left (fun mi o => run_agent_op o mi) os mi.

Lemma persist_books i r i' : persist_receipts i = (r, i') -> books i' = books i.
Proof.
  unfold persist_receipts. repeat case_match_goal; intros; simplify_eq/=; done.
Qed.
Lemma Save_inv m i r m' i' : SaveCheckpointToStorage m i = (r, m', i') -> receipts_inv i -> receipts_inv i'.
Proof.
  unfold SaveCheckpointToStorage. destruct (Checkpoint m i) as [[rc m1] i1] eqn:Ec.
  apply (Checkpoint_inert books) in Ec; [|apply books_inert]. intros E Hinv. apply (books_receipts_inv _ _ Ec) in Hinv. clear Ec.
  destruct rc as [state|e]; [|by injection E as <- <- <-].
  unfold buildCheckpoint in E. destruct (Checkpoint.buildCheckpoint _ _) as [[c h]|e]; [|by injection E as <- <- <-].
  destruct (prov_SaveCheckpoint _ _ _) as [o st].
  set (i2 := set_Storage st _) in *. assert (receipts_inv i2) as H2 by by apply (books_receipts_inv i1).
  destruct (of_outcome o); [|by injection E as <- <- <-].
  destruct (CreateReceipt i2) as [r3 i3] eqn:E3. apply CreateReceipt_inv in E3; [|done].
  destruct (persist_receipts i3) as [r4 i4] eqn:E4. injection E as <- <- <-.
  apply persist_books in E4. by eapply books_receipts_inv.
Qed.
(** What a save settles with the mock adapter: with a signing key the receipt it
    has just issued; without one the latest receipt the agent came with, if
    any, once more. *)
Definition mock_adapter (l : list Receipt) : Adapter := mkAdapter mock_ValidateBudget mock_RecordSettlement l.
Definition settling i := (Receipts i, signingKey i, BudgetAdapter i).
Lemma settling_inert : inert settling.
Proof. split; [by intros i i' (b & l & n & ->)|done]. Qed.
Lemma persist_settles i l r i' : persist_receipts i = (r, i') -> is_ok r = true -> BudgetAdapter i = Some (mock_adapter l) ->
  Receipts i' = Receipts i /\ BudgetAdapter i' = Some (mock_adapter (l ++ option_list (last (Receipts i)))).
Proof.
  intros E Hr Ha. revert E Hr. unfold persist_receipts. destruct (Receipts i) as [|x rs] eqn:Er.
  { intros [= <- <-] _. by rewrite Ha, app_nil_r. }
  destruct (Z.eqb_spec (blen (x :: rs)) 0) as [Hz|_]; [unfold blen in Hz; discriminate Hz|].
  destruct (prov_SaveReceipts _ _ _) as [o st]. destruct o as [u|]; [|by intros [= <- <-]]. cbn [BudgetAdapter set_Storage Receipts].
  rewrite Ha, Er. destruct (last (x :: rs)) as [y|] eqn:El; [|by rewrite last_None in El]. by intros [= <- <-].
Qed.
Lemma save_settles m i m' i' l : SaveCheckpointToStorage m i = (Ok tt, m', i') -> BudgetAdapter i = Some (mock_adapter l) ->
  match signingKey i with
  | Some key => blen key = PrivateKeySize -> exists rc, Receipts i' = Receipts i ++ [rc] /\ BudgetAdapter i' = Some (mock_adapter (l ++ [rc]))
  | None => Receipts i' = Receipts i /\ BudgetAdapter i' = Some (mock_adapter (l ++ option_list (last (Receipts i))))
  end.
Proof.
  unfold SaveCheckpointToStorage. destruct (Checkpoint m i) as [[rc m1] i1] eqn:Ec.
  apply (Checkpoint_inert settling) in Ec; [|apply settling_inert]. unfold settling in Ec. injection Ec as <- <- <-.
  destruct rc as [state|e]; [|done]. unfold buildCheckpoint. destruct (Checkpoint.buildCheckpoint _ _) as [[c h]|e]; [|done].
  destruct (prov_SaveCheckpoint _ _ _) as [o st]. set (i2 := set_Storage st _). destruct (of_outcome o); [|done].
  change (signingKey i1) with (signingKey i2). change (BudgetAdapter i1) with (BudgetAdapter i2). change (Receipts i1) with (Receipts i2).
  clearbody i2. unfold CreateReceipt. destruct (signingKey i2) as [key|].
  - cbn [now_unix_nano instance_env]. unfold Receipt.Sign. intros E Ha Hk. rewrite Hk, Z.eqb_refl in E. cbn [negb] in E.
    destruct (persist_receipts _) as [r i4] eqn:Ep. injection E as -> <- <-. eexists.
    apply (persist_settles _ l) in Ep as [-> ->]; [|done..]. cbn [Receipts set_epochCost set_lastReceiptTick set_Receipts]. by rewrite last_snoc.
  - intros E Ha. destruct (persist_receipts i2) as [r i4] eqn:Ep. injection E as -> <- <-. by apply (persist_settles _ l) in Ep.
Qed.
Lemma run_agent_op_inv o m i : receipts_inv i -> receipts_inv (snd (run_agent_op o (m, i))).
Proof.
  intros Hinv. destruct o; cbn [run_agent_op].
  - destruct (Init m i) as [[r m'] i'] eqn:E. apply Init_touched, touched_books in E. by eapply books_receipts_inv.
  - destruct (Tick m i) as [[r m'] i'] eqn:E. apply Tick_books in E. by eapply books_receipts_inv.
  - destruct (SaveCheckpointToStorage m i) as [[r m'] i'] eqn:E. by eapply Save_inv.
  - by apply (books_receipts_inv i).
  - by apply (books_receipts_inv i).
Qed.
End Facts.

(** ** Claims *)
Section Claims.
Context {W : Wasm} `{!WasmLaws W} `{CryptoLaws} `{JSON} {St : Type} `{Provider St}.
Implicit Types (i : Instance (St := St)).

(** C23: A checkpoint survives the process. After a successful save to a
    storage that can be read, any instance of the same binary and agent that
    loads from that storage (a restart or another process) verifies the
    checkpoint, takes over the budget, price, tick number and, for a signed
    lineage, the chain hash of the saving instance, and resumes the guest
    from exactly the state the guest handed over; provided the header fields
    were in range, in particular the budget not negative (a tick may
    overspend it, and such a checkpoint is refused, see
    [overspent_checkpoint_unloadable]), and the identity's key pair, if
    there is one, is a generated one. *)
Theorem save_then_load `{!ProviderLaws St} (m m' : Inst) i i' :
  SaveCheckpointToStorage m i = (Ok tt, m', i') -> prov_readable (Storage i') ->
  exists state m1 i1, Checkpoint m i = (Ok state, m1, i1) /\
    (Checkpoint.fields_ok (checkpoint_fields i1) ->
     (forall id, AgentIdentity i1 = Some id -> Checkpoint.identity_ok id) ->
     forall (m2 : Inst) (i2 : Instance (St := St)),
     Storage i2 = Storage i' -> AgentID i2 = AgentID i' -> WASMHash i2 = WASMHash i1 ->
     exists i3, LoadCheckpointFromStorage m2 i2 = Resume state m2 i3 /\
       Budget i3 = Budget i1 /\ PricePerSecond i3 = PricePerSecond i1 /\ TickNumber i3 = TickNumber i1 /\
       (AgentIdentity i1 <> None -> PrevCheckpointHash i3 = PrevCheckpointHash i')).
Proof.
  intros Hs Hread. destruct (save_stored m i m' i' Hs Hread) as (state & m1 & i1 & c & h & Hc & Hb & Hl & Hh & Hid).
  exists state, m1, i1. split; [done|]. intros Hok Hids m2 i2 Est Eid Ew.
  destruct (Checkpoint.parse_build _ _ _ _ Hok Hids Hb) as (sig & Hp & Hsig).
  destruct (load_restores i2 c h (Checkpoint.header_of (checkpoint_fields i1) sig) state m2 (checkpoint_fields i1) sig) as (i3 & E3 & Hb3 & Hp3 & Ht3 & Hh3).
  - by rewrite Est, Eid, Hid.
  - exact Hp.
  - done.
  - by rewrite Ew.
  - exact Hsig.
  - exists i3. split_and!; try done. intros Hn. rewrite Hh. by apply Hh3.
Qed.

(** C36: The receipts of a live agent chain. Along any sequence of
    initialisations, ticks (with any hostcalls and any failures) and saves
    of an instance that starts without receipts, its receipts form one
    contiguous chain of tick ranges from tick 1 to the last receipted tick,
    all issued by this node for this agent, and every one verifies under the
    node's public key when its signing key is a generated one. *)
Theorem receipts_chain (os : list agent_op) (m : Inst) i :
  Receipts i = [] -> lastReceiptTick i = 0 ->
  let i' := snd (run_agent_ops os (m, i)) in
  contiguous 0 (Receipts i') = Some (lastReceiptTick i') /\
  Forall (fun r => Receipt.AgentID r = AgentID i' /\ Receipt.NodeID r = nodeID i' /\
    forall key, signingKey i' = Some key -> generated_key key -> Receipt.Verify (ed_public key) r = true) (Receipts i').
Proof.
  intros Hr Hl. assert (receipts_inv i) as Hinv.
  { split; [by rewrite Hr, Hl|by rewrite Hr]. }
  clear Hr Hl. revert m i Hinv. induction os as [|o os IH]; intros m i Hinv; [by destruct Hinv|].
  unfold run_agent_ops; cbn [fold_left]. pose proof (run_agent_op_inv o m i Hinv) as Hi.
  destruct (run_agent_op o (m, i)) as [m' i']. by apply (IH m' i').
Qed.

(** C20: Deny by default, to the end.  Loading an agent fails with the parse
    error of its manifest, or with exactly the declared capabilities the node
    lacks, or with its memory requirement if that exceeds the node's, or for a
    module that does not compile, imports a host function of no declared
    capability, cannot be instantiated, exports an [_initialize] that fails or
    makes a hostcall for which the new agent has no state yet, or lacks the
    lifecycle export named.  An agent that is loaded declares only
    capabilities the node has and no more memory than the node allows, imports
    only host functions of capabilities it declares, runs in the instantiated
    and initialised module, and that module has every lifecycle export. *)
Theorem agents_confined wasm id (st : St) budget price man key node ident env :
  let r := loadAgent wasm id st budget price man key node ident env in
  match ParseManifest man with
  | Err e => r = Err (ErrManifest e)
  | Ok fm =>
      let declared name := Has (Some (ManifestCapabilities fm)) name = true in
      let cfg := RegisterHostModule (Some (ManifestCapabilities fm)) true true true in
      let i0 := newInstance wasm id st budget price fm cfg key node ident env in
      let linked compiled := CompileModule wasm = Some compiled /\ forall f, f ∈ imports compiled -> exists cap, f ∈ functions_of cap /\ declared cap in
      match r with
      | Err (ErrManifest e) => exists names, e = ErrMissing names /\ forall name, name ∈ names <-> declared name /\ name ∉ NodeCapabilities
      | Err (ErrMemoryLimit need) => need = MaxMemoryBytes (ManifestResourceLimits fm) /\ DefaultMaxMemoryBytes < need
      | Err ErrCompile => CompileModule wasm = None
      | Err ErrNoHostModule => exists compiled f, CompileModule wasm = Some compiled /\ f ∈ imports compiled /\
          forall cap, f ∈ functions_of cap -> ~ declared cap
      | Err ErrInstantiate => exists compiled, linked compiled /\ InstantiateModule compiled = None
      | Err ErrInitialize => exists compiled m0 called m1 i1 nilState, linked compiled /\ InstantiateModule compiled = Some m0 /\
          ExportedFunction m0 "_initialize" = true /\
          initialize (load_handle cfg) m0 (i0, false) = (called, m1, (i1, nilState)) /\ (nilState = true \/ called <> Ok tt)
      | Err (ErrMissingExport name) => exists compiled m0 m1 i1, linked compiled /\ InstantiateModule compiled = Some m0 /\
          initialize (load_handle cfg) m0 (i0, false) = (Ok tt, m1, (i1, false)) /\
          name ∈ required /\ ExportedFunction m1 name = false
      | Err _ => False
      | Ok (m, i) => CapManifest i = ManifestCapabilities fm /\ (forall name, declared name -> name ∈ NodeCapabilities) /\
          MaxMemoryBytes (ManifestResourceLimits fm) <= DefaultMaxMemoryBytes /\
          exists compiled m0, linked compiled /\ InstantiateModule compiled = Some m0 /\
            initialize (load_handle cfg) m0 (i0, false) = (Ok tt, m, (i, false)) /\
            forall name, name ∈ required -> ExportedFunction m name = true
      end
  end.
Proof.
  cbv zeta. unfold loadAgent. destruct (ParseManifest man) as [fm|e]; [|done]. cbn [map_err mbind result_bind].
  destruct (ValidateAgainstNode _ _) as [u|e] eqn:Ev; [|by apply ValidateAgainstNode_Err in Ev]. cbn [map_err mbind result_bind].
  destruct u. pose proof (proj1 (ValidateAgainstNode_Ok _ _) Ev) as Hcaps.
  unfold guard_err at 1. destruct (negb _) eqn:Em; [|by rewrite negb_false_iff in Em; zb]. cbn [mbind result_bind].
  set (cfg := RegisterHostModule _ _ _ _). destruct (CompileModule wasm) as [compiled|] eqn:Ec; [|done]. cbn [mbind result_bind].
  assert (forall f, f ∈ functions cfg <-> exists cap, f ∈ functions_of cap /\ Has (Some (ManifestCapabilities fm)) cap = true) as Hf
    by (intros f; apply registered_spec).
  pose proof (links_spec (functions cfg) compiled) as Hl. destruct (links _ _); cbn [guard_err mbind result_bind];
    [|destruct Hl as (f & Hi & Hn); exists compiled, f; split_and!; [done|done|intros cap ? ?; apply Hn, Hf; eauto]].
  assert (forall f, f ∈ imports compiled -> exists cap, f ∈ functions_of cap /\ Has (Some (ManifestCapabilities fm)) cap = true) as Hlink
    by (intros f Hi; by apply Hf, Hl).
  destruct (InstantiateModule compiled) as [m|] eqn:Em0; [|by exists compiled]. cbn [mbind result_bind].
  set (i0 := newInstance _ _ _ _ _ _ _ _ _ _ _). destruct (initialize (load_handle cfg) m (i0, false)) as [[r m1] [i1 p]] eqn:Ei.
  assert (p = true \/ r <> Ok tt -> ExportedFunction m "_initialize" = true) as Hexp.
  { unfold initialize in Ei. destruct (ExportedFunction m "_initialize"); [done|]. injection Ei as <- _ _ <-. by intros [?|?]. }
  assert (p = true \/ r <> Ok tt -> exists compiled0 m0 called m1 i1 nilState, (Some compiled = Some compiled0 /\
    forall f, f ∈ imports compiled0 -> exists cap, f ∈ functions_of cap /\ Has (Some (ManifestCapabilities fm)) cap = true) /\
    InstantiateModule compiled0 = Some m0 /\ ExportedFunction m0 "_initialize" = true /\
    initialize (load_handle cfg) m0 (i0, false) = (called, m1, (i1, nilState)) /\ (nilState = true \/ called <> Ok tt)) as Hinit.
  { intros Hp. exists compiled, m, r, m1, i1, p. auto 10. }
  destruct p; [destruct r; apply Hinit; by left|]. destruct r as [[]|e]; [|apply Hinit; by right]. destruct (verifyExports m1) as [name|] eqn:Ex.
  - unfold verifyExports in Ex. apply head_Some_elem_of, list_elem_of_filter in Ex as [Ex Hr]. by exists compiled, m, m1, i1.
  - rewrite (proj1 (initialize_same _ _ _ _ _ _ _ _ Ei)). split; [done|]. split; [done|].
    split; [apply negb_true_iff in Em; apply andb_false_iff in Em as [Em|Em]; zb; unfold DefaultMaxMemoryBytes in *; lia|].
    exists compiled, m. split_and!; try done. by apply verifyExports_none.
Qed.

(** C28: metering is exact and never wraps.  A tick of [nanos] nanoseconds
    at a non-negative price costs [nanos * price / 10^9] microcents, or the
    whole remaining budget when that product would overflow; the budget drops
    by exactly the cost, without wrap-around, and the cost is added to the
    cost of the current receipt epoch. *)
Theorem charge_exact i :
  let nanos := i64 (e_elapsed (env i) (env_step i)) in
  0 <= nanos -> 0 <= PricePerSecond i < 2 ^ 63 -> 0 <= Budget i < 2 ^ 63 ->
  let cost := if nanos * PricePerSecond i <=? max_i64 then nanos * PricePerSecond i / 1000000000 else Budget i in
  0 <= cost /\ Budget (charge i) = Budget i - cost /\ epochCost (charge i) = i64 (epochCost i + cost).
Proof.
  intros nanos Hn Hp Hb cost. pose proof (i64_range (e_elapsed (env i) (env_step i))) as Hr. fold nanos in Hr.
  assert (tick_cost nanos (PricePerSecond i) (Budget i) = cost) as Hc by (apply tick_cost_eq; unfold is_i64 in *; lia).
  unfold charge. fold nanos. rewrite Hc. cbn [tick_env set_epochCost set_Budget set_env_step Budget epochCost].
  assert (0 <= cost /\ cost <= 2 ^ 63) as [Hc0 Hc1].
  { unfold cost, max_i64. destruct (Z.leb_spec (nanos * PricePerSecond i) (2 ^ 63 - 1)); [|lia].
    split; [apply Z.div_pos; nia|]. apply Z.div_le_upper_bound; nia. }
  split_and!; [done| |done]. apply i64_id. unfold is_i64. lia.
Qed.

(** the replay window keeps the right ticks.  Adding a snapshot to a
    window within its bound keeps the bound and the new snapshot at the end;
    when one must go it is a snapshot with the fewest observations, the oldest
    of those, never the new one, and the others keep their order. *)
Theorem replay_window_eviction (max : Z) (s : TickSnapshot) (w : list TickSnapshot) :
  1 <= max -> blen w <= max ->
  let w' := push_snapshot max s w in
  blen w' <= max /\ last w' = Some s /\
  (w' = w ++ [s] \/
   exists k e, oldest_lowest (w ++ [s]) (length w) k e /\ w' = take k w ++ drop (S k) w ++ [s]).
Proof. apply push_snapshot_cases. Qed.
Lemma replay_window_eviction_witness :
  let s n := mkSnapshot n [] [] None in
  let w := [s 1; s 2] in
  let w' := push_snapshot 2 (s 3) w in
  blen w' <= 2 /\ last w' = Some (s 3) /\
  (w' = w ++ [s 3] \/
   exists k e, oldest_lowest (w ++ [s 3]) (length w) k e /\ w' = take k w ++ drop (S k) w ++ [s 3]).
Proof. intros s w w'. apply (replay_window_eviction 2 (s 3) w); vm_compute; congruence. Defined.

(** C14: payments are safe.  A [wallet_pay] call either refuses and leaves the
    agent untouched, or charges exactly the requested positive amount, which
    the budget covers and the cap allows, to a recipient the manifest allows,
    for a receipt that fits the buffer the guest offered; then the receipt is
    written to that buffer and recorded for replay and the call succeeds.  The
    one failure after charging is that the memory refuses this very write: it
    returns the processing error and records nothing. *)
Theorem wallet_pay_safe (cfg : PayConfig) (amount rp rl mp ml tp tc : Z) (m m' : Inst) i i' (v : Z) :
  host_fit i -> 0 <= rl -> 0 <= ml ->
  wallet_pay cfg amount rp rl mp ml tp tc m i = (v, m', i') ->
  (v < 0 /\ i' = i) \/
  (paid cfg amount i i' /\ host_fit i' /\ exists recipient receipt,
     mem_read m rp rl = Some recipient /\
     (allowedRecipients cfg = [] \/ string_of recipient ∈ allowedRecipients cfg) /\
     4 + blen receipt <= tc /\
     (v = payErrProcessing /\ mem_write m tp (put_u32 (blen receipt) ++ receipt) = None /\ m' = m /\ EvLog i' = EvLog i \/
      0 < v < 2 ^ 31 /\ v = 4 + blen receipt /\
      mem_write m tp (put_u32 (blen receipt) ++ receipt) = Some m' /\
      EvLog i' = Record_ WalletPay (put_u64 (u64 amount) ++ receipt) (EvLog i))).
Proof. intros Hf Hr Hm E. exact (wallet_pay_outcome (host_ok := host_fit) cfg amount rp rl mp ml tp tc m i v m' i' Hf Hr Hm E). Qed.
End Claims.

(** ** A concrete agent for the witnesses: the toy guest over the file store *)
Definition demo_env (tickNanos : Z) : Env := {|
  e_now n := 1700000000000000000 + Z.of_nat n;
  e_rand n k := Some (le_bytes (Z.to_nat k) (Z.of_nat n + 7));
  e_http _ _ := HError;
  e_elapsed _ := tickNanos;
  e_hostname _ := None |}.
Definition demo_fs : FSProvider := NewFSProvider "./checkpoints" ∅ ∅ [].
Definition demo_manifest : Manifest :=
  mkManifest (mkCapManifest (Some toy_caps)) None (mkLimits 0 0 0).
Definition demo_module (wasm : bytes) : Inst := mkToy (Z_of_byte <$> wasm) (zeros toy_size).
Definition demo_instance (wasm : bytes) (budget price tickNanos : Z) : Instance (St := FSProvider) :=
  mkInstance "agent" wasm (sha256 wasm) (RegisterHostModule (Some (mkCapManifest (Some toy_caps))) true true true)
    demo_fs [] budget price (mkCapManifest (Some toy_caps)) demo_manifest (NewEventLog DefaultMaxTicks) 0 [] 0 []
    0 0 (Some Receipt.sample_key) "node" None None (Some Checkpoint.sample_identity) (zeros 32) (demo_env tickNanos) 0.
(** clock, random bytes, log, balance, receipt count, price, pay *)
Definition demo_wasm : bytes := byte_of_Z <$> [1; 2; 3; 4; 5; 7; 9].
Definition demo : Inst * Instance (St := FSProvider) := (demo_module demo_wasm, demo_instance demo_wasm 1000000 1000 2000000000).

Example demo_loads :
  match loadAgent demo_wasm "agent" demo_fs 1000000 1000 (bytes_of "{}") (Some Receipt.sample_key) "node"
          (Some Checkpoint.sample_identity) (demo_env 2000000000) with
  | Ok (m, i) =>
      prog m = prog (fst demo) /\ mem m = mem (fst demo) /\
      functions (hostCfg i) = functions (hostCfg (snd demo)) /\ Budget i = 1000000 /\ PricePerSecond i = 1000
  | Err _ => False
  end.
Proof. vm_compute. done. Qed.

Definition after (o : agent_op) (mi : Inst * Instance (St := FSProvider)) : Inst * Instance (St := FSProvider) := run_agent_op o mi.
(** One tick costs 2000 microcents and pays 5. *)
Example demo_tick_budget : Budget (snd (after OTick demo)) = 997995.
Proof. vm_compute. reflexivity. Qed.

Lemma demo_fit : host_fit (snd demo).
Proof.
  split_and!; [vm_compute; split; congruence|vm_compute; split; congruence|].
  intros id [= <-]. split; vm_compute; reflexivity.
Qed.

Lemma save_then_load_witness :
  let mi := after OTick demo in
  exists m' i', SaveCheckpointToStorage (fst mi) (snd mi) = (Ok tt, m', i') /\
  exists state m1 i1, Checkpoint (fst mi) (snd mi) = (Ok state, m1, i1) /\
    (Checkpoint.fields_ok (checkpoint_fields i1) ->
     (forall id, AgentIdentity i1 = Some id -> Checkpoint.identity_ok id) ->
     forall (m2 : Inst) (i2 : Instance (St := FSProvider)),
     Storage i2 = Storage i' -> AgentID i2 = AgentID i' -> WASMHash i2 = WASMHash i1 ->
     exists i3, LoadCheckpointFromStorage m2 i2 = Resume state m2 i3 /\
       Budget i3 = Budget i1 /\ PricePerSecond i3 = PricePerSecond i1 /\ TickNumber i3 = TickNumber i1 /\
       (AgentIdentity i1 <> None -> PrevCheckpointHash i3 = PrevCheckpointHash i')).
Proof.
  intros mi. destruct (SaveCheckpointToStorage (fst mi) (snd mi)) as [[r m'] i'] eqn:E.
  assert (r = Ok tt) as -> by (apply (f_equal (fun x => fst (fst x))) in E; vm_compute in E; symmetry; exact E).
  exists m', i'. split; [reflexivity|].
  apply (save_then_load (fst mi) m' (snd mi) i' E).
  apply (f_equal (fun x => bad_reads (Storage (snd x)))) in E. cbn [snd] in E. unfold prov_readable, fs_provider.
  rewrite <- E. vm_compute. reflexivity.
Defined.

Lemma receipts_chain_witness :
  let i' := snd (run_agent_ops [OInit; OTick; OTick; OSave; OTick; OSave] demo) in
  contiguous 0 (Receipts i') = Some (lastReceiptTick i') /\
  Forall (fun r => Receipt.AgentID r = AgentID i' /\ Receipt.NodeID r = nodeID i' /\
    forall key, signingKey i' = Some key -> generated_key key -> Receipt.Verify (ed_public key) r = true) (Receipts i').
Proof. apply (receipts_chain _ (fst demo) (snd demo)); reflexivity. Defined.
Example demo_receipts :
  (fun r => (Receipt.EpochStart r, EpochEnd r, Receipt.CostMicrocents r)) <$>
    Receipts (snd (run_agent_ops [OInit; OTick; OTick; OSave; OTick; OSave] demo)) = [(1, 2, 4000); (3, 3, 2000)].
Proof. vm_compute. reflexivity. Qed.
(** Saving twice at one tick issues a receipt for an empty range. *)
Example empty_receipt :
  (fun r => (Receipt.EpochStart r, EpochEnd r, Receipt.CostMicrocents r)) <$>
    Receipts (snd (run_agent_ops [OTick; OSave; OSave] demo)) = [(1, 1, 2000); (2, 1, 0)].
Proof. vm_compute. reflexivity. Qed.

(** A node without a signing key that resumes an agent with receipts settles
    the last of them again at every checkpoint. *)
Definition unsigned (mi : Inst * Instance (St := FSProvider)) : Inst * Instance (St := FSProvider) :=
  let '(m, i) := mi in
  let fresh := mkInstance (AgentID i) (WASMBytes i) (WASMHash i) (hostCfg i) (Storage i) [] (Budget i) (PricePerSecond i) (CapManifest i)
    (FullManifest i) (NewEventLog DefaultMaxTicks) 0 [] 0 [] 0 0 None "" (Some MockAdapter) None (AgentIdentity i) (zeros 32) (env i) 0 in
  let '(_, m, i) := LoadCheckpointFromStorage m fresh in (m, i).
Example unsigned_node_settles_again :
  let '(_, i) := run_agent_ops [OTick; OSave; OTick; OSave; OTick; OSave] (unsigned (run_agent_ops [OTick; OSave] demo)) in
  length (Receipts i) = 1%nat /\ Settlements <$> BudgetAdapter i = (fun r => [r; r; r]) <$> last (Receipts i).
Proof. vm_compute. done. Qed.

Lemma charge_exact_witness :
  let i := snd demo in
  let cost := if 2000000000 * 1000 <=? max_i64 then 2000000000 * 1000 / 1000000000 else Budget i in
  0 <= cost /\ Budget (charge i) = Budget i - cost /\ epochCost (charge i) = i64 (epochCost i + cost).
Proof.
  apply (charge_exact (snd demo)).
  - vm_compute. congruence.
  - vm_compute. split; congruence.
  - vm_compute. split; congruence.
Defined.

Lemma wallet_pay_safe_witness :
  let cfg := mkPayConfig [] 10 in
  let r := wallet_pay cfg 5 0 0 0 0 128 300 (fst demo) (snd demo) in
  let v := fst (fst r) in let m' := snd (fst r) in let i' := snd r in
  (v < 0 /\ i' = snd demo) \/
  (paid cfg 5 (snd demo) i' /\ host_fit i' /\ exists recipient receipt,
     mem_read (fst demo) 0 0 = Some recipient /\
     (allowedRecipients cfg = [] \/ string_of recipient ∈ allowedRecipients cfg) /\
     4 + blen receipt <= 300 /\
     (v = payErrProcessing /\ mem_write (fst demo) 128 (put_u32 (blen receipt) ++ receipt) = None /\ m' = fst demo /\ EvLog i' = EvLog (snd demo) \/
      0 < v < 2 ^ 31 /\ v = 4 + blen receipt /\
      mem_write (fst demo) 128 (put_u32 (blen receipt) ++ receipt) = Some m' /\
      EvLog i' = Record_ WalletPay (put_u64 (u64 5) ++ receipt) (EvLog (snd demo)))).
Proof.
  intros cfg r v m' i'.
  apply (wallet_pay_safe cfg 5 0 0 0 0 128 300 (fst demo) m' (snd demo) i' v); [apply demo_fit|lia|lia|].
  unfold v, m', i'. fold r. by destruct r as [[? ?] ?].
Defined.

(** A tick can cost more than what is left; the checkpoint then saved cannot
    be loaded again. *)
Definition poor : Inst * Instance (St := FSProvider) := (demo_module [], demo_instance [] 1000 1000 2000000000).
Example overspent_checkpoint_unloadable :
  let mi := run_agent_ops [OTick; OSave] poor in
  Budget (snd mi) = -1000 /\
  fst (fst (LoadCheckpointFromStorage (fst poor) (set_Storage (Storage (snd mi)) (snd poor)))) =
    Err (ErrHeader (Checkpoint.ErrNegativeBudget (-1000))).
Proof. vm_compute. done. Qed.
