(* ===== verification/Replay.v ===== *)
(** * Deterministic replay (internal/replay/engine.go)

    The entry iterator, the replay-mode hostcalls, single-tick and chain
    replay.  The main lemma is proved against the host interfaces of
    Hostcall.v: a tick whose hostcalls were all recorded replays to the same
    state. *)
From S2P Require Import Prelude Crypto EventLog Manifest Wasm Hostcall ToyGuest.
From stdpp Require Import gmap.
Open Scope Z_scope.

Inductive replay_error :=
| ErrExhausted (pos : Z) (expected : HostcallID)
| ErrMismatch (pos : Z) (expected got : HostcallID)
| ErrPayloadLength (call : HostcallID) (have need : Z)
| ErrReplayWrite (call : HostcallID).

(** ** entryIterator *)
Record entryIterator := mkIter { it_entries : list Entry; it_pos : nat }.
Definition next (expectedID : HostcallID) (it : entryIterator) : result replay_error Entry * entryIterator :=
  match it_entries it !! it_pos it with
  | None => (Err (ErrExhausted (Z.of_nat (it_pos it)) expectedID), it)
  | Some entry =>
      if negb (entry_id entry =? expectedID)
      then (Err (ErrMismatch (Z.of_nat (it_pos it)) expectedID (entry_id entry)), it)
      else (Ok entry, mkIter (it_entries it) (S (it_pos it)))
  end.
Definition remaining (it : entryIterator) : Z := blen (it_entries it) - Z.of_nat (it_pos it).

(** The iterator in use ([iteratorHolder] in chain replay) and [replayError]. *)
Record replay_state := mkReplay { iter : entryIterator; repErr : option replay_error }.
Definition set_err (e : replay_error) (s : replay_state) : replay_state := mkReplay (iter s) (Some e).

Definition payReplayErr : Z := -6.

Section Replay.
Context {W : Wasm}.
Definition rhandler : Type := Inst -> replay_state -> Z * Inst * replay_state.

(** Take the next entry of the expected kind, or note the error and return
    [code]. *)
Definition with_entry (id : HostcallID) (code : Z) (k : Entry -> rhandler) : rhandler := fun i s =>
  let '(r, it) := next id (iter s) in
  match r with
  | Err e => (code, i, set_err e s)
  | Ok entry => k entry i (mkReplay it (repErr s))
  end.

(** A recorded 8-byte value ([clock_now], [wallet_balance], [node_price]). *)
Definition replay_int64 (id : HostcallID) : rhandler :=
  with_entry id 0 (fun entry i s =>
    if negb (blen (Payload entry) =? 8) then (0, i, set_err (ErrPayloadLength id (blen (Payload entry)) 8) s)
    else (i64 (get_u64 (Payload entry)), i, s)).

Definition registerReplayClock : rhandler := replay_int64 ClockNow.
Definition registerReplayRand (ptr length : Z) : rhandler :=
  with_entry RandBytes (-1) (fun entry i s =>
    if negb (u32 (blen (Payload entry)) =? length)
    then (-1, i, set_err (ErrPayloadLength RandBytes (blen (Payload entry)) length) s)
    else
      match mem_write i ptr (Payload entry) with
      | None => (-4, i, set_err (ErrReplayWrite RandBytes) s)
      | Some i => (0, i, s)
      end).
Definition registerReplayLog : rhandler := with_entry LogEmit 0 (fun _ i s => (0, i, s)).
Definition registerReplayWallet_balance : rhandler := replay_int64 WalletBalance.
Definition registerReplayWallet_count : rhandler :=
  with_entry WalletReceiptCount 0 (fun entry i s =>
    if negb (blen (Payload entry) =? 4)
    then (0, i, set_err (ErrPayloadLength WalletReceiptCount (blen (Payload entry)) 4) s)
    else (i32 (get_u32 (Payload entry)), i, s)).
Definition registerReplayWallet_receipt (ptr length : Z) : rhandler :=
  with_entry WalletReceipt (-1) (fun entry i s =>
    if length <? u32 (blen (Payload entry))
    then (-4, i, set_err (ErrPayloadLength WalletReceipt (blen (Payload entry)) length) s)
    else
      match mem_write i ptr (Payload entry) with
      | None => (-4, i, set_err (ErrReplayWrite WalletReceipt) s)
      | Some i => (i32 (blen (Payload entry)), i, s)
      end).
Definition registerReplayPricing : rhandler := replay_int64 NodePrice.
Definition registerReplayPayment (receiptPtr receiptCap : Z) : rhandler :=
  with_entry WalletPay payReplayErr (fun entry i s =>
    if blen (Payload entry) <? 8
    then (payReplayErr, i, set_err (ErrPayloadLength WalletPay (blen (Payload entry)) 8) s)
    else
      let receipt := drop 8 (Payload entry) in
      let needed := u32 (4 + blen receipt) in
      if receiptCap <? needed then (-5, write_u32_hint i receiptPtr receiptCap (blen receipt), s)
      else
        match mem_write i receiptPtr (put_u32 (u32 (blen receipt)) ++ copy_array (Z.to_nat (needed - 4)) receipt) with
        | None => (payReplayErr, i, set_err (ErrReplayWrite WalletPay) s)
        | Some i => (i32 needed, i, s)
        end).

(** The replay host module; [http_request] is never registered, so a module
    that links cannot call it. *)
Definition replay_handle (c : hostcall) : rhandler :=
  match c with
  | HClockNow => registerReplayClock
  | HRandBytes p n => registerReplayRand p n
  | HLogEmit _ _ => registerReplayLog
  | HWalletBalance => registerReplayWallet_balance
  | HWalletReceiptCount => registerReplayWallet_count
  | HWalletReceipt _ p n => registerReplayWallet_receipt p n
  | HNodePrice => registerReplayPricing
  | HHTTPRequest _ _ _ _ _ _ _ _ _ _ => fun i s => (0, i, s)
  | HWalletPay _ _ _ _ _ p n => registerReplayPayment p n
  end.
Definition replay_functions (m : option CapabilityManifest) : list string :=
  (if Has m "clock" then ["clock_now"] else []) ++
  (if Has m "rand" then ["rand_bytes"] else []) ++
  (if Has m "log" then ["log_emit"] else []) ++
  (if Has m "wallet" then ["wallet_balance"; "wallet_receipt_count"; "wallet_receipt"] else []) ++
  (if Has m "pricing" then ["node_price"] else []) ++
  (if Has m "x402" then ["wallet_pay"] else []).

(** ** ReplayTick *)
Inductive failure :=
| FCompile | FInstantiate | FInitialize (e : wasm_error) | FResume (e : wasm_error)
| FNoTick | FTick | FHostcall (e : replay_error) | FUnconsumed (n : Z) | FCheckpoint (e : wasm_error)
| FNoSnapshots.

Record Result := mkResult {
  Verified : bool; res_tick : Z; ReplayedState : option bytes; ExpectedState : option bytes;
  FirstDiffByte : Z; Error : option failure }.

Fixpoint firstDiff_from (a b : bytes) (i : Z) : Z :=
  match a, b with
  | [], [] => -1
  | x :: a, y :: b => if bool_decide (x = y) then firstDiff_from a b (i + 1) else i
  | _, _ => i
  end.
Definition firstDiff (a b : bytes) : Z := firstDiff_from a b 0.

(** A fresh instance of the module, linked against the replay host module,
    initialised and resumed. *)
Definition replay_start (wasmBytes : bytes) (m : option CapabilityManifest) (state : bytes) (s : replay_state)
    : result failure (Inst * replay_state) :=
  match CompileModule wasmBytes with
  | None => Err FCompile
  | Some compiled =>
      if negb (links (replay_functions m) compiled) then Err FInstantiate
      else
        match InstantiateModule compiled with
        | None => Err FInstantiate
        | Some i =>
            match initialize replay_handle i s with
            | (Err e, _, _) => Err (FInitialize e)
            | (Ok _, i, s) =>
                match ResumeAgent replay_handle state i s with
                | (Err e, _, _) => Err (FResume e)
                | (Ok _, i, s) => Ok (i, s)
                end
            end
        end
  end.

(** One tick against the log in [s]. *)
Definition replay_one (i : Inst) (s : replay_state) : result failure (Inst * replay_state) :=
  match exec replay_handle (invoke i "agent_tick" []) s with
  | (None, _, _) => Err FTick
  | (Some _, i, s) =>
      match repErr s with
      | Some e => Err (FHostcall e)
      | None => if 0 <? remaining (iter s) then Err (FUnconsumed (remaining (iter s))) else Ok (i, s)
      end
  end.

Definition replay_run (wasmBytes : bytes) (m : option CapabilityManifest) (state : bytes) (entries : list Entry)
    : result failure bytes :=
  match replay_start wasmBytes m state (mkReplay (mkIter entries 0) None) with
  | Err e => Err e
  | Ok (i, s) =>
      if negb (ExportedFunction i "agent_tick") then Err FNoTick
      else
        match replay_one i s with
        | Err e => Err e
        | Ok (i, s) =>
            match CaptureState replay_handle i s with
            | (Err e, _, _) => Err (FCheckpoint e)
            | (Ok st, _, _) => Ok st
            end
        end
  end.

Definition ReplayTick (wasmBytes : bytes) (m : option CapabilityManifest) (state : bytes) (tickLog : TickLog)
    (expectedState : option bytes) : Result :=
  match replay_run wasmBytes m state (entries tickLog) with
  | Err e => mkResult false (TickNumber tickLog) None expectedState (-1) (Some e)
  | Ok st =>
      match expectedState with
      | None => mkResult false (TickNumber tickLog) (Some st) None (-1) None
      | Some expected =>
          if bool_decide (st = expected)
          then mkResult true (TickNumber tickLog) (Some st) expectedState (-1) None
          else mkResult false (TickNumber tickLog) (Some st) expectedState (firstDiff st expected) None
      end
  end.

(** ** ReplayChain *)
Record ChainSnapshot := mkChainSnap { cs_tick : Z; cs_log : option TickLog }.
Record ChainResult := mkChainResult {
  cr_verified : bool; TicksReplayed : Z; FirstTick : Z; LastTick : Z; FinalReplayedState : option bytes;
  ExpectedFinalHash : bytes; cr_error : option failure; FailedAtTick : Z }.

(** The chain host module: functions of their own, which read the iterator the
    holder has at the time of the call. *)
Definition registerChainReplay_clock : rhandler := replay_int64 ClockNow.
Definition registerChainReplay_rand (ptr length : Z) : rhandler :=
  with_entry RandBytes (-1) (fun entry i s =>
    if negb (u32 (blen (Payload entry)) =? length)
    then (-1, i, set_err (ErrPayloadLength RandBytes (blen (Payload entry)) length) s)
    else
      match mem_write i ptr (Payload entry) with
      | None => (-4, i, set_err (ErrReplayWrite RandBytes) s)
      | Some i => (0, i, s)
      end).
Definition registerChainReplay_log : rhandler := with_entry LogEmit 0 (fun _ i s => (0, i, s)).
Definition registerChainReplayWallet_balance : rhandler := replay_int64 WalletBalance.
Definition registerChainReplayWallet_count : rhandler :=
  with_entry WalletReceiptCount 0 (fun entry i s =>
    if negb (blen (Payload entry) =? 4)
    then (0, i, set_err (ErrPayloadLength WalletReceiptCount (blen (Payload entry)) 4) s)
    else (i32 (get_u32 (Payload entry)), i, s)).
Definition registerChainReplayWallet_receipt (ptr length : Z) : rhandler :=
  with_entry WalletReceipt (-1) (fun entry i s =>
    if length <? u32 (blen (Payload entry))
    then (-4, i, set_err (ErrPayloadLength WalletReceipt (blen (Payload entry)) length) s)
    else
      match mem_write i ptr (Payload entry) with
      | None => (-4, i, set_err (ErrReplayWrite WalletReceipt) s)
      | Some i => (i32 (blen (Payload entry)), i, s)
      end).
Definition registerChainReplayPricing : rhandler := replay_int64 NodePrice.
Definition registerChainReplayPayment (receiptPtr receiptCap : Z) : rhandler :=
  with_entry WalletPay payReplayErr (fun entry i s =>
    if blen (Payload entry) <? 8
    then (payReplayErr, i, set_err (ErrPayloadLength WalletPay (blen (Payload entry)) 8) s)
    else
      let receipt := drop 8 (Payload entry) in
      let needed := u32 (4 + blen receipt) in
      if receiptCap <? needed then (-5, write_u32_hint i receiptPtr receiptCap (blen receipt), s)
      else
        match mem_write i receiptPtr (put_u32 (u32 (blen receipt)) ++ copy_array (Z.to_nat (needed - 4)) receipt) with
        | None => (payReplayErr, i, set_err (ErrReplayWrite WalletPay) s)
        | Some i => (i32 needed, i, s)
        end).
Definition chain_handle (c : hostcall) : rhandler :=
  match c with
  | HClockNow => registerChainReplay_clock
  | HRandBytes p n => registerChainReplay_rand p n
  | HLogEmit _ _ => registerChainReplay_log
  | HWalletBalance => registerChainReplayWallet_balance
  | HWalletReceiptCount => registerChainReplayWallet_count
  | HWalletReceipt _ p n => registerChainReplayWallet_receipt p n
  | HNodePrice => registerChainReplayPricing
  | HHTTPRequest _ _ _ _ _ _ _ _ _ _ => fun i s => (0, i, s)
  | HWalletPay _ _ _ _ _ p n => registerChainReplayPayment p n
  end.
(** One tick of the chain: the holder has the tick's iterator. *)
Definition chain_one (i : Inst) (s : replay_state) : result failure (Inst * replay_state) :=
  match exec chain_handle (invoke i "agent_tick" []) s with
  | (None, _, _) => Err FTick
  | (Some _, i, s) =>
      match repErr s with
      | Some e => Err (FHostcall e)
      | None => if 0 <? remaining (iter s) then Err (FUnconsumed (remaining (iter s))) else Ok (i, s)
      end
  end.
(** Before the first tick the holder is empty: a hostcall dereferences nil,
    which the engine reports as a failed call. *)
Definition nil_handle (_ : hostcall) (i : Inst) (_ : bool) : Z * Inst * bool := (0, i, true).
Definition chain_start (wasmBytes : bytes) (m : option CapabilityManifest) (state : bytes) : result failure Inst :=
  match CompileModule wasmBytes with
  | None => Err FCompile
  | Some compiled =>
      if negb (links (replay_functions m) compiled) then Err FInstantiate
      else
        match InstantiateModule compiled with
        | None => Err FInstantiate
        | Some i =>
            match initialize nil_handle i false with
            | (Err e, _, _) => Err (FInitialize e)
            | (Ok _, _, true) => Err (FInitialize (ErrCall "_initialize"))
            | (Ok _, i, false) =>
                match ResumeAgent nil_handle state i false with
                | (Err e, _, _) => Err (FResume e)
                | (Ok _, _, true) => Err (FResume (ErrCall "agent_resume"))
                | (Ok _, i, false) => Ok i
                end
            end
        end
  end.

Fixpoint chain_loop (snaps : list ChainSnapshot) (n : Z) (i : Inst) (s : replay_state)
    : (Z * option (failure * Z)) * Inst * replay_state :=
  match snaps with
  | [] => ((n, None), i, s)
  | snap :: snaps =>
      let s := mkReplay (mkIter match cs_log snap with None => [] | Some t => entries t end 0) None in
      match chain_one i s with
      | Err e => ((n, Some (e, cs_tick snap)), i, s)
      | Ok (i, s) => chain_loop snaps (n + 1) i s
      end
  end.

Definition ReplayChain `{Crypto} (wasmBytes : bytes) (m : option CapabilityManifest) (initialState : bytes)
    (snapshots : list ChainSnapshot) (expectedFinalHash : bytes) : ChainResult :=
  match snapshots with
  | [] => mkChainResult false 0 0 0 None expectedFinalHash (Some FNoSnapshots) 0
  | first :: _ =>
      let firstTick := cs_tick first in
      let lastTick := default 0 (cs_tick <$> last snapshots) in
      let fail n e at_ := mkChainResult false n firstTick lastTick None expectedFinalHash (Some e) at_ in
      match chain_start wasmBytes m initialState with
      | Err e => fail 0 e 0
      | Ok i =>
          if negb (ExportedFunction i "agent_tick") then fail 0 FNoTick 0
          else
            match chain_loop snapshots 0 i (mkReplay (mkIter [] 0) None) with
            | ((n, Some (e, t)), _, _) => fail n e t
            | ((n, None), i, s) =>
                match CaptureState chain_handle i s with
                | (Err e, _, _) => fail n (FCheckpoint e) 0
                | (Ok st, _, _) =>
                    mkChainResult (bool_decide (sha256 st = expectedFinalHash)) n firstTick lastTick (Some st)
                      expectedFinalHash None 0
                end
            end
      end
  end.
End Replay.

(** ** Recorded ticks replay

    [recorded cfg c i s]: handling the call live records an entry from which
    the replay hostcall can give the same answer.  Calls that fail before
    recording, zero-length and oversized buffers, and every HTTP request are
    not recorded. *)
Section Faithful.
Context {W : Wasm} `{!WasmLaws W} {S : Type} {host_ok : S -> Prop} `{HL : HostLaws S host_ok}.
Context (Rc R : Inst -> Inst -> Prop) (Hmem : mem_sim Rc).

Definition recorded (cfg : HostConfig) (c : hostcall) (i : Inst) (s : S) : bool :=
  let '(v, _, _) := live_handle cfg c i s in
  match c with
  | HClockNow | HWalletBalance | HWalletReceiptCount | HNodePrice => true
  | HRandBytes _ n => (0 <? n) && (v =? 0)
  | HLogEmit p n => (0 <? n) && (n <=? maxLogBytes) && bool_decide (is_Some (mem_read i p n))
  | HWalletReceipt _ _ _ => 0 <=? v
  | HHTTPRequest _ _ _ _ _ _ _ _ _ _ => false
  | HWalletPay _ _ rl _ ml _ _ => (0 <=? rl) && (0 <=? ml) && (0 <? v)
  end.

Lemma with_entry_ok e id code k j es pos err :
  es !! pos = Some e -> entry_id e = id ->
  with_entry id code k j (mkReplay (mkIter es pos) err) = k e j (mkReplay (mkIter es (1 + pos)) err).
Proof. intros He <-. unfold with_entry, next; cbn [iter it_entries it_pos repErr]. by rewrite He, Z.eqb_refl. Qed.

Lemma record_ok id p s : host_ok s -> host_ok (record id p s) /\ get_log (record id p s) = Record_ id p (get_log s).
Proof. intros Hok. unfold record. split; [by apply ok_set_log|by rewrite get_set_log]. Qed.

Lemma replay_int64_ok id v j es pos err :
  is_i64 v -> es !! pos = Some (mkEntry id (put_u64 (u64 v))) ->
  replay_int64 id j (mkReplay (mkIter es pos) err) = (v, j, mkReplay (mkIter es (1 + pos)) err).
Proof.
  intros Hv He. unfold replay_int64. rewrite (with_entry_ok _ _ _ _ _ _ _ _ He) by done.
  cbn [Payload]. rewrite blen_put_u64. change (negb (8 =? 8)) with false. cbv iota.
  rewrite get_put_u64', (u64_id (u64 _)), i64_of_u64 by auto with igor. done.
Qed.

(** The live call appends one entry and the replayed call, reading it, gives
    the same result and related memories. *)
Definition mirrors (c : hostcall) (i : Inst) (s : S) (v : Z) (i' : Inst) (s' : S) : Prop :=
  host_ok s' /\ exists e, get_log s' = Record_ (entry_id e) (Payload e) (get_log s) /\
    forall j es pos err, Rc i j -> es !! pos = Some e -> exists j',
      replay_handle c j (mkReplay (mkIter es pos) err) = (v, j', mkReplay (mkIter es (1 + pos)) err) /\ Rc i' j'.

Lemma mirrors_int64 c id v i s :
  host_ok s -> is_i64 v -> replay_handle c = replay_int64 id ->
  mirrors c i s v i (record id (put_u64 (u64 v)) s).
Proof.
  intros Hok Hv Hc. destruct (record_ok id (put_u64 (u64 v)) s Hok) as [Hok' Hl].
  split; [done|]. exists (mkEntry id (put_u64 (u64 v))). split; [done|].
  intros j es pos err HR He. exists j. rewrite Hc. split; [by apply replay_int64_ok|done].
Qed.

Lemma sim_write_ex i j p d i' : Rc i j -> mem_write i p d = Some i' -> exists j', mem_write j p d = Some j' /\ Rc i' j'.
Proof.
  intros HR Hw. pose proof (sim_write _ Hmem i j p d HR) as H'. rewrite Hw in H'.
  destruct (mem_write j p d) as [j'|]; [eauto|done].
Qed.

Lemma mirrors_rand cfg p n i s v i' s' :
  host_ok s -> live_handle cfg (HRandBytes p n) i s = (v, i', s') -> 0 < n -> v = 0 ->
  mirrors (HRandBytes p n) i s v i' s'.
Proof.
  intros Hok. cbn [live_handle]. unfold rand_bytes. intros E Hn ->.
  destruct (Z.eqb_spec n 0); [lia|]. destruct (Z.ltb_spec maxRandBytes n); [by injection E|].
  pose proof (rand_keeps n s Hok) as [Hl Hk]. pose proof (rand_size n s) as Hsz.
  destruct (crypto_rand n s) as [[buf|] s1]; [|by injection E]. simpl in Hl, Hk, Hsz.
  specialize (Hsz buf ltac:(lia) eq_refl).
  destruct (mem_write i p buf) as [i1|] eqn:Ew; [|by injection E]. injection E as <- <-.
  destruct (record_ok RandBytes buf s1 Hk) as [Hk' Hl']. split; [done|].
  exists (mkEntry RandBytes buf). rewrite Hl', Hl. split; [done|].
  intros j es pos err HR He. destruct (sim_write_ex i j p buf i1 HR Ew) as (j' & Ej & HR').
  exists j'. split; [|done]. cbn [replay_handle]. unfold registerReplayRand.
  rewrite (with_entry_ok _ _ _ _ _ _ _ _ He) by done. cbn [Payload].
  assert (u32 (blen buf) = n) as -> by (rewrite Hsz; apply u32_id; unfold is_u32, maxRandBytes in *; lia).
  rewrite Z.eqb_refl. cbn [negb]. by rewrite Ej.
Qed.

Lemma mirrors_log cfg p n i s v i' s' d :
  host_ok s -> live_handle cfg (HLogEmit p n) i s = (v, i', s') -> 0 < n <= maxLogBytes -> mem_read i p n = Some d ->
  mirrors (HLogEmit p n) i s v i' s'.
Proof.
  intros Hok. cbn [live_handle]. unfold log_emit. intros E Hn Hd.
  destruct (Z.eqb_spec n 0); [lia|]. destruct (Z.ltb_spec maxLogBytes n); [lia|].
  rewrite Hd in E. injection E as <- <- <-. destruct (record_ok LogEmit d s Hok) as [Hk' Hl'].
  split; [done|]. exists (mkEntry LogEmit d). split; [done|]. intros j es pos err HR He.
  exists j. split; [|done]. cbn [replay_handle]. unfold registerReplayLog.
  by rewrite (with_entry_ok _ _ _ _ _ _ _ _ He).
Qed.

Lemma mirrors_count cfg i s v i' s' :
  host_ok s -> live_handle cfg HWalletReceiptCount i s = (v, i', s') -> mirrors HWalletReceiptCount i s v i' s'.
Proof.
  intros Hok. cbn [live_handle]. unfold wallet_receipt_count. intros [= <- <- <-].
  set (n := i32 _). destruct (record_ok WalletReceiptCount (put_u32 (u32 n)) s Hok) as [Hk' Hl'].
  split; [done|]. exists (mkEntry WalletReceiptCount (put_u32 (u32 n))). split; [done|].
  intros j es pos err HR He. exists j. split; [|done]. cbn [replay_handle]. unfold registerReplayWallet_count.
  rewrite (with_entry_ok _ _ _ _ _ _ _ _ He) by done. cbn [Payload]. rewrite blen_put_u32.
  change (negb (4 =? 4)) with false. cbv iota. rewrite get_put_u32', (u32_id (u32 _)) by auto with igor.
  do 2 f_equal. unfold n, i32, u32. rewrite Zplus_mod_idemp_l, Z.sub_add. rewrite Z.mod_mod by lia. done.
Qed.

Lemma mirrors_receipt cfg x p n i s v i' s' :
  host_ok s -> live_handle cfg (HWalletReceipt x p n) i s = (v, i', s') -> 0 <= v ->
  mirrors (HWalletReceipt x p n) i s v i' s'.
Proof.
  intros Hok. cbn [live_handle]. unfold wallet_receipt. intros E Hv.
  destruct (GetReceiptBytes s x) as [d|]; [|injection E as <- <- <-; lia].
  destruct (n <? u32 (blen d)) eqn:En; [injection E as <- <- <-; lia|].
  destruct (mem_write i p d) as [i1|] eqn:Ew; [|injection E as <- <- <-; lia]. injection E as <- <- <-.
  destruct (record_ok WalletReceipt d s Hok) as [Hk' Hl']. split; [done|].
  exists (mkEntry WalletReceipt d). split; [done|]. intros j es pos err HR He.
  destruct (sim_write_ex i j p d i1 HR Ew) as (j' & Ej & HR'). exists j'. split; [|done].
  cbn [replay_handle]. unfold registerReplayWallet_receipt. rewrite (with_entry_ok _ _ _ _ _ _ _ _ He) by done.
  cbn [Payload]. by rewrite En, Ej.
Qed.

Lemma mirrors_pay cfg a rp rl mp ml tp tc i s v i' s' :
  host_ok s -> live_handle cfg (HWalletPay a rp rl mp ml tp tc) i s = (v, i', s') ->
  0 <= rl -> 0 <= ml -> 0 < v -> mirrors (HWalletPay a rp rl mp ml tp tc) i s v i' s'.
Proof.
  intros Hok. cbn [live_handle]. intros E Hrl Hml Hv.
  destruct (wallet_pay_outcome _ _ _ _ _ _ _ _ _ _ _ _ _ Hok Hrl Hml E)
    as [[? _]|(_ & Hok' & rec & rc & _ & _ & Htc & [(-> & _)|([_ Hv31] & Ev & Ew & Hl)])];
    [lia|unfold payErrProcessing in Hv; lia|].
  split; [done|]. exists (mkEntry WalletPay (put_u64 (u64 a) ++ rc)). split; [done|].
  intros j es pos err HR He. destruct (sim_write_ex i j _ _ _ HR Ew) as (j' & Ej & HR').
  exists j'. split; [|done]. cbn [replay_handle]. unfold registerReplayPayment.
  rewrite (with_entry_ok _ _ _ _ _ _ _ _ He) by done. cbn [Payload].
  pose proof (blen_nonneg rc). rewrite blen_app, blen_put_u64. destruct (Z.ltb_spec (8 + blen rc) 8); [lia|].
  assert (drop 8 (put_u64 (u64 a) ++ rc) = rc) as -> by (by apply (drop_app_mid (put_u64 (u64 a)) rc 8)).
  assert (u32 (4 + blen rc) = v) as -> by (rewrite Ev; apply u32_id; unfold is_u32; lia).
  destruct (Z.ltb_spec tc v); [lia|]. rewrite copy_array_id by lia.
  rewrite (u32_id (blen rc)) by (unfold is_u32; lia). rewrite Ej.
  assert (i32 v = v) as -> by (unfold i32; rewrite Z.mod_small; lia). done.
Qed.

Lemma recorded_mirrors cfg c i s v i' s' :
  host_ok s -> live_handle cfg c i s = (v, i', s') -> recorded cfg c i s = true -> mirrors c i s v i' s'.
Proof.
  intros Hok E Hr. unfold recorded in Hr. rewrite E in Hr. destruct c as [|p n|p n| | |x p n| | |a rp rl mp ml tp tc].
  - cbn [live_handle] in E. unfold clock_now in E. pose proof (now_range s) as Hv.
    pose proof (now_keeps s Hok) as (Hl & _ & Hk). destruct (now_unix_nano s) as [now s1].
    injection E as <- <- <-. simpl in Hl, Hk, Hv. destruct (mirrors_int64 HClockNow ClockNow now i s1 Hk Hv eq_refl) as [Hk' (e & He & Hm)].
    split; [done|]. exists e. rewrite He, Hl. done.
  - apply andb_true_iff in Hr as [Hn Hv]. zb. by eapply mirrors_rand.
  - apply andb_true_iff in Hr as [Hr Hd]. zb. apply bool_decide_eq_true in Hd as [d Hd].
    by eapply mirrors_log.
  - cbn [live_handle] in E. injection E as <- <- <-. apply mirrors_int64; [done|by apply budget_range|done].
  - by eapply mirrors_count.
  - zb. by eapply mirrors_receipt.
  - cbn [live_handle] in E. injection E as <- <- <-. apply mirrors_int64; [done|by apply price_range|done].
  - done.
  - apply andb_true_iff in Hr as [Hr Hv]. apply andb_true_iff in Hr as [Hrl Hml]. zb. by eapply mirrors_pay.
Qed.

(** Every hostcall of a run is recorded. *)
Fixpoint all_recorded (cfg : HostConfig) (r : run Inst) (s : S) : bool :=
  match r with
  | Host c i k =>
      let '(v, i', s') := live_handle cfg c i s in recorded cfg c i s && all_recorded cfg (k v i') s'
  | _ => true
  end.

(** The entries of the tick in progress. *)
Definition ticking (s : S) (n : Z) (es : list Entry) : Prop :=
  log_ok (get_log s) /\ view_tick <$> current (get_log s) = Some (n, es).
Lemma ticking_record l n es id p :
  log_ok l -> view_tick <$> current l = Some (n, es) ->
  log_ok (Record_ id p l) /\ view_tick <$> current (Record_ id p l) = Some (n, es ++ [mkEntry id p]).
Proof.
  intros Hl Hc. destruct (log_step (ORecord id p) l Hl) as [Hl' Hv]. split; [done|].
  apply (f_equal v_current) in Hv. simpl in Hv. rewrite Hv, Hc. done.
Qed.

(** One recorded call extends the tick in progress by its entry. *)
Lemma recorded_step cfg c i s v i' s' n es :
  host_ok s -> ticking s n es -> live_handle cfg c i s = (v, i', s') -> recorded cfg c i s = true ->
  host_ok s' /\ exists e, ticking s' n (es ++ [e]) /\
    forall j log pos err, Rc i j -> log !! pos = Some e -> exists j',
      replay_handle c j (mkReplay (mkIter log pos) err) = (v, j', mkReplay (mkIter log (1 + pos)) err) /\ Rc i' j'.
Proof.
  intros Hok [Hlog Hcur] El Hr. destruct (recorded_mirrors cfg c i s v i' s' Hok El Hr) as [Hok' (e & Hl & Hrep)].
  split; [done|]. exists e. split; [|done].
  destruct (ticking_record (get_log s) n es (entry_id e) (Payload e) Hlog Hcur) as [Hlog' Hcur'].
  unfold ticking. rewrite Hl. split; [done|]. by destruct e.
Qed.

Lemma exec_live cfg t : forall s n es res i1 s1,
  host_ok s -> ticking s n es -> all_recorded cfg t s = true ->
  exec (live_handle cfg) t s = (res, i1, s1) ->
  host_ok s1 /\ exists new, ticking s1 n (es ++ new).
Proof.
  induction t as [vs i|i|c i k IH]; intros s n es res i1 s1 Hok Ht Hrec E; cbn [exec all_recorded] in *.
  - injection E as <- <- <-. split; [done|]. exists []. by rewrite app_nil_r.
  - injection E as <- <- <-. split; [done|]. exists []. by rewrite app_nil_r.
  - destruct (live_handle cfg c i s) as [[v i'] s'] eqn:El. apply andb_true_iff in Hrec as [Hr Hrest].
    destruct (recorded_step cfg c i s v i' s' n es Hok Ht El Hr) as [Hok' (e & Ht' & _)].
    destruct (IH v i' s' n (es ++ [e]) res i1 s1 Hok' Ht' Hrest E) as [? [new Hn]].
    split; [done|]. exists (e :: new). by rewrite <- app_assoc in Hn.
Qed.

(** The main simulation: the replay of the recorded entries follows the live
    run and consumes exactly the entries that run produced. *)
Lemma exec_replay cfg t1 t2 : run_sim Rc R t1 t2 -> forall s n es res i1 s1 new log pre post err,
  host_ok s -> ticking s n es -> all_recorded cfg t1 s = true ->
  exec (live_handle cfg) t1 s = (res, i1, s1) -> ticking s1 n (es ++ new) -> log = pre ++ new ++ post ->
  exists i2, (res <> None -> R i1 i2) /\
    exec replay_handle t2 (mkReplay (mkIter log (length pre)) err) =
    (res, i2, mkReplay (mkIter log (length (pre ++ new))) err).
Proof.
  assert (forall (s : S) n (es new : list Entry), ticking s n es -> ticking s n (es ++ new) -> new = []) as Hnil.
  { intros s n es new [_ Hc1] [_ Hc2]. rewrite Hc1 in Hc2. injection Hc2 as Hc2.
    rewrite <- (app_nil_r es) in Hc2 at 1. by apply app_inv_head in Hc2. }
  induction 1 as [vs i1 i2 HR|i1 i2|c i1 i2 k1 k2 HR Hk IH];
    intros s n es res j1 s1 new log pre post err Hok Ht Hrec E Hn Hlog; cbn [exec all_recorded] in *.
  - injection E as <- <- <-. assert (new = []) as -> by exact (Hnil _ _ _ _ Ht Hn). exists i2. split; [done|]. rewrite app_nil_r. reflexivity.
  - injection E as <- <- <-. assert (new = []) as -> by exact (Hnil _ _ _ _ Ht Hn). exists i2. split; [done|]. rewrite app_nil_r. reflexivity.
  - destruct (live_handle cfg c i1 s) as [[v i1'] s'] eqn:El. apply andb_true_iff in Hrec as [Hr Hrest].
    destruct (recorded_step cfg c i1 s v i1' s' n es Hok Ht El Hr) as [Hok' (e & Ht' & Hrep)].
    destruct (exec_live cfg _ _ _ _ _ _ _ Hok' Ht' Hrest E) as [_ [new' Hn']].
    assert (new = e :: new') as ->.
    { destruct Hn as [_ Hn], Hn' as [_ Hn']. rewrite Hn in Hn'. injection Hn' as Hn'.
      rewrite <- app_assoc in Hn'. by apply app_inv_head in Hn'. }
    assert (log !! length pre = Some e) as He by (rewrite Hlog; by rewrite lookup_app_r, Nat.sub_diag).
    destruct (Hrep i2 log (length pre) err HR He) as (j' & Ej & HR'). rewrite Ej.
    destruct (IH v i1' j' HR' s' n (es ++ [e]) res j1 s1 new' log (pre ++ [e]) post err) as (i2' & ? & E2); try done.
    + by rewrite Hlog, <- !app_assoc.
    + exists i2'. split; [done|]. rewrite length_app in E2. simpl in E2.
      replace (length pre + 1)%nat with (1 + length pre)%nat in E2 by lia. rewrite E2. by rewrite <- app_assoc.
Qed.
End Faithful.

(** ** A replay that succeeds follows its log

    The hostcalls a replay makes, by the identifier of the entry each asks
    for. *)
Section Follows.
Context {W : Wasm}.

Definition call_id (c : hostcall) : HostcallID :=
  match c with
  | HClockNow => ClockNow
  | HRandBytes _ _ => RandBytes
  | HLogEmit _ _ => LogEmit
  | HWalletBalance => WalletBalance
  | HWalletReceiptCount => WalletReceiptCount
  | HWalletReceipt _ _ _ => WalletReceipt
  | HNodePrice => NodePrice
  | HHTTPRequest _ _ _ _ _ _ _ _ _ _ => HTTPRequest
  | HWalletPay _ _ _ _ _ _ _ => WalletPay
  end.
Fixpoint calls (r : run Inst) (s : replay_state) : list HostcallID :=
  match r with
  | Host c i k => let '(v, i, s) := replay_handle c i s in call_id c :: calls (k v i) s
  | _ => []
  end.

(** One hostcall either leaves an error behind or takes the next entry, which
    is of its kind. *)
Definition took (c : hostcall) (s s' : replay_state) : Prop :=
  it_entries (iter s') = it_entries (iter s) /\
  (repErr s' <> None \/
   (repErr s = None -> repErr s' = None) /\ (repErr s <> None -> repErr s' <> None) /\
   it_pos (iter s') = S (it_pos (iter s)) /\
   exists e, it_entries (iter s) !! it_pos (iter s) = Some e /\ entry_id e = call_id c).

Lemma with_entry_took c code k i s v i' s' :
  with_entry (call_id c) code k i s = (v, i', s') ->
  (forall e s1, let '(_, _, s2) := k e i s1 in iter s2 = iter s1 /\ (repErr s2 = repErr s1 \/ repErr s2 <> None)) ->
  took c s s'.
Proof.
  unfold with_entry, next, took. destruct (it_entries (iter s) !! it_pos (iter s)) as [e|] eqn:He.
  - destruct (Z.eqb_spec (entry_id e) (call_id c)) as [Hid|Hid]; cbn [negb].
    + intros E Hk. specialize (Hk e (mkReplay (mkIter (it_entries (iter s)) (S (it_pos (iter s)))) (repErr s))).
      rewrite E in Hk. destruct Hk as [-> [->|Hk]]; cbn; [|by auto]. split; [done|]. right.
      split_and!; [done..|]. by exists e.
    + intros [= <- <- <-] _. split; [done|]. by left.
  - intros [= <- <- <-] _. split; [done|]. by left.
Qed.

Lemma replay_handle_took c i s v i' s' :
  call_id c <> HTTPRequest -> replay_handle c i s = (v, i', s') -> took c s s'.
Proof.
  intros Hc E.
  destruct c; cbn [replay_handle] in E; try done;
    (eapply with_entry_took; [exact E|]); intros e s1;
    repeat case_match; simplify_eq; cbv zeta in *; repeat case_match; simplify_eq; cbn; auto.
Qed.

Lemma exec_sticky r : forall s res i' s',
  Forall (fun id => id <> HTTPRequest) (calls r s) -> exec replay_handle r s = (res, i', s') -> repErr s <> None ->
  repErr s' <> None.
Proof.
  induction r as [vs i|i|c i k IH]; intros s res i' s' Hc E Hs; cbn [exec calls] in *; try by injection E as <- <- <-.
  destruct (replay_handle c i s) as [[v i1] s1] eqn:Eh. apply Forall_cons in Hc as [Hc Hr].
  destruct (replay_handle_took _ _ _ _ _ _ Hc Eh) as [_ [He|(_ & He & _)]]; eauto.
Qed.

Lemma exec_follows r : forall s res i' s',
  Forall (fun id => id <> HTTPRequest) (calls r s) ->
  exec replay_handle r s = (res, i', s') -> repErr s' = None ->
  it_entries (iter s') = it_entries (iter s) /\
  exists used, entry_id <$> used = calls r s /\
    drop (it_pos (iter s)) (it_entries (iter s)) = used ++ drop (it_pos (iter s')) (it_entries (iter s)) /\
    it_pos (iter s') = (it_pos (iter s) + length used)%nat.
Proof.
  induction r as [vs i|i|c i k IH]; intros s res i' s' Hc E Hs; cbn [exec calls] in *.
  - injection E as <- <- <-. split; [done|]. exists []. split_and!; [done|done|simpl; lia].
  - injection E as <- <- <-. split; [done|]. exists []. split_and!; [done|done|simpl; lia].
  - destruct (replay_handle c i s) as [[v i1] s1] eqn:Eh. apply Forall_cons in Hc as [Hc Hr].
    destruct (replay_handle_took _ _ _ _ _ _ Hc Eh) as [Hes [He|(_ & _ & Hpos & e & Hlook & Hid)]].
    { by destruct (exec_sticky _ _ _ _ _ Hr E He). }
    destruct (IH v i1 s1 res i' s' Hr E Hs) as (Hes' & used & Hids & Hdrop & Hpos').
    split; [by rewrite Hes'|]. exists (e :: used). split_and!.
    + cbn [fmap list_fmap map]. by rewrite Hid, <- Hids.
    + rewrite Hes, Hpos in Hdrop. cbn [app]. rewrite <- Hdrop. by apply drop_S.
    + rewrite Hpos', Hpos. simpl. lia.
Qed.

(** C34: A replayed tick that reports no failure made exactly the hostcalls of
    its log: the identifiers of the log's entries, in order, are those of the
    hostcalls the agent made.  A replay that skips, reorders or adds a
    hostcall, or stops early, is rejected. *)
Theorem verified_replay_follows_log (i i' : Inst) (log : list Entry) (s' : replay_state) :
  let s := mkReplay (mkIter log 0) None in
  Forall (fun id => id <> HTTPRequest) (calls (invoke i "agent_tick" []) s) ->
  replay_one i s = Ok (i', s') ->
  calls (invoke i "agent_tick" []) s = map entry_id log.
Proof.
  intros s Hh. unfold replay_one. destruct (exec _ _ _) as [[[rs|] i1] s1] eqn:E; [|done].
  destruct (repErr s1) eqn:Er; [done|]. destruct (Z.ltb_spec 0 (remaining (iter s1))) as [|Hrem]; [done|].
  intros [= <- <-]. destruct (exec_follows _ _ _ _ _ Hh E Er) as (Hes & used & <- & Hdrop & Hpos).
  subst s. cbn in Hes, Hdrop, Hpos. rewrite drop_0 in Hdrop. unfold remaining, blen in Hrem. rewrite Hes, Hpos in Hrem.
  rewrite Hpos, drop_ge, app_nil_r in Hdrop by lia. by rewrite Hdrop.
Qed.
End Follows.

Lemma verified_replay_follows_log_witness :
  let i := mkToy [1; 7] (zeros toy_size) in
  let log := [mkEntry ClockNow (put_u64 1700); mkEntry NodePrice (put_u64 25)] in
  let s := mkReplay (mkIter log 0) None in
  calls (W := toy_wasm) (toy_invoke i "agent_tick" []) s = map entry_id log.
Proof.
  intros i log s.
  assert (is_ok (replay_one (W := toy_wasm) i s) = true) as Hok by (vm_compute; reflexivity).
  destruct (replay_one (W := toy_wasm) i s) as [[i' s']|e] eqn:E; [|discriminate Hok].
  apply (verified_replay_follows_log (W := toy_wasm) i i' log s'); [|exact E].
  vm_compute. repeat constructor; discriminate.
Defined.
