(* ===== verification/TickReplay.v ===== *)
(** * Live ticks against their replay

    Puts Instance.v and Replay.v together: under the contract an agent must
    keep (its state is what it checkpoints, and only ticks make hostcalls),
    the snapshot a live tick leaves in the replay window replays to the same
    post-state. *)
From S2P Require Import Prelude Crypto EventLog Manifest Wasm Hostcall Storage ToyGuest Instance Replay.
Open Scope Z_scope.

(** ** The agent contract *)
Definition null_handle `{W : Wasm} (_ : hostcall) (i : Inst) (u : unit) : Z * Inst * unit := (0, i, u).

Section Contract.
Context {W : Wasm}.

(** The two checkpoint exports return without hostcalls, alike on both sides,
    leave the agent state as it was and, when the state is not empty, show the
    same memory. *)
Definition checkpoints_alike (R : Inst -> Inst -> Prop) (i j : Inst) : Prop :=
  exists vs i1 j1 ps i2 j2,
    invoke i "agent_checkpoint" [] = Ret vs i1 /\ invoke j "agent_checkpoint" [] = Ret vs j1 /\ R i i1 /\ R j j1 /\
    invoke i1 "agent_checkpoint_ptr" [] = Ret ps i2 /\ invoke j1 "agent_checkpoint_ptr" [] = Ret ps j2 /\ R i i2 /\ R j j2 /\
    (Exists (fun v => u32 v <> 0) (take 1 vs) -> forall p n, mem_read i2 p n = mem_read j2 p n).

(** Hosts that change an instance only through [mem_write]. *)
Inductive written : Inst -> Inst -> Prop :=
| written_refl i : written i i
| written_step i p d j k : mem_write i p d = Some j -> written j k -> written i k.
Definition writes_only {HS} (h : hostcall -> Inst -> HS -> Z * Inst * HS) : Prop :=
  forall c i s v i' s', h c i s = (v, i', s') -> written i i'.

(** [R] relates instances in the same agent state; [Q] holds of a live
    instance between ticks. *)
Record agent_contract (wasm : bytes) (R : Inst -> Inst -> Prop) (Q : Inst -> Prop) : Prop := {
  ac_exports i j name : R i j -> ExportedFunction i name = ExportedFunction j name;
  (** while a tick runs, the two instances' memories stay alike *)
  ac_tick : exists Rc, mem_sim Rc /\
    forall i j, R i j -> run_sim Rc R (invoke i "agent_tick" []) (invoke j "agent_tick" []);
  ac_checkpoint i j : R i j -> checkpoints_alike R i j;
  ac_refl i : Q i -> R i i;
  ac_sym i j : R i j -> R j i;
  ac_trans i j k : R i j -> R j k -> R i k;
  (** ticks and checkpoints leave a live instance live, under any host that
      changes it only by writing its memory *)
  ac_tick_live {HS} (h : hostcall -> Inst -> HS -> Z * Inst * HS) i s rs i' s' :
    writes_only h -> Q i -> exec h (invoke i "agent_tick" []) s = (Some rs, i', s') -> Q i';
  ac_capture_live i vs i' : Q i ->
    invoke i "agent_checkpoint" [] = Ret vs i' \/ invoke i "agent_checkpoint_ptr" [] = Ret vs i' -> Q i';
  (** a fresh instance resumed from the captured state is in that state *)
  ac_resume i st i' : Q i -> CaptureState null_handle i tt = (Ok st, i', tt) ->
    exists compiled m0 j, CompileModule wasm = Some compiled /\ InstantiateModule compiled = Some m0 /\ R i' j /\
      forall (HS : Type) (handle : hostcall -> Inst -> HS -> Z * Inst * HS) (h : HS),
        exists m1, initialize handle m0 h = (Ok tt, m1, h) /\ ResumeAgent handle st m1 h = (Ok tt, j, h) }.

Context {wasm : bytes} {R : Inst -> Inst -> Prop} {Q : Inst -> Prop} (AC : agent_contract wasm R Q).

(** Capturing the state makes no hostcall and gives the same bytes on both
    sides, whatever the handlers. *)
Lemma capture_alike {HS1 HS2} (h1 : hostcall -> Inst -> HS1 -> Z * Inst * HS1) (h2 : hostcall -> Inst -> HS2 -> Z * Inst * HS2)
    i j s1 s2 :
  R i j -> exists r i' j', CaptureState h1 i s1 = (r, i', s1) /\ CaptureState h2 j s2 = (r, j', s2) /\ R i i' /\ R i' j'.
Proof.
  intros HR. assert (forall i' j', R i i' -> R j j' -> R i' j') as Hsq.
  { intros i' j' H1 H2. exact (ac_trans _ _ _ AC _ _ _ (ac_sym _ _ _ AC _ _ H1) (ac_trans _ _ _ AC _ _ _ HR H2)). }
  assert (R i i) as Hi by exact (ac_trans _ _ _ AC _ _ _ HR (ac_sym _ _ _ AC _ _ HR)).
  assert (R j j) as Hj by exact (ac_trans _ _ _ AC _ _ _ (ac_sym _ _ _ AC _ _ HR) HR).
  unfold CaptureState, require, mbind, M_bind, Call.
  rewrite (ac_exports _ _ _ AC i j "agent_checkpoint" HR).
  destruct (ExportedFunction j "agent_checkpoint"); [|by exists (Err (ErrNotExported "agent_checkpoint")), i, j].
  destruct (ac_checkpoint _ _ _ AC i j HR) as (vs & i1 & j1 & ps & i2 & j2 & -> & -> & Hi1 & Hj1 & Ei & Ej & Hi2 & Hj2 & Hmem).
  cbn [exec]. pose proof (Hsq _ _ Hi1 Hj1) as HR1.
  destruct vs as [|v vs]; cbn [result0]; [by exists (Err (ErrNoResult "agent_checkpoint")), i1, j1|].
  unfold mret, M_ret, raise. destruct (Z.eqb_spec (u32 v) 0) as [|Hv]; [by exists (Ok []), i1, j1|].
  rewrite (ac_exports _ _ _ AC i1 j1 "agent_checkpoint_ptr" HR1).
  destruct (ExportedFunction j1 "agent_checkpoint_ptr"); [|by exists (Err (ErrNotExported "agent_checkpoint_ptr")), i1, j1].
  rewrite Ei, Ej. cbn [exec]. pose proof (Hsq _ _ Hi2 Hj2) as HR2.
  destruct ps as [|p ps]; cbn [result0]; [by exists (Err (ErrNoResult "agent_checkpoint_ptr")), i2, j2|].
  unfold mret, M_ret, MemRead. cbv beta iota. rewrite Hmem by (by constructor).
  destruct (mem_read j2 (u32 p) (u32 v)) as [d|]; [by exists (Ok d), i2, j2|by exists (Err ErrMemRead), i2, j2].
Qed.

Lemma capture_keeps_live {HS} (h : hostcall -> Inst -> HS -> Z * Inst * HS) i s r i' s' :
  R i i -> Q i -> CaptureState h i s = (r, i', s') -> Q i'.
Proof.
  intros Hi HQ. unfold CaptureState, require, mbind, M_bind, Call.
  destruct (ExportedFunction i "agent_checkpoint"); [|by intros [= <- <- <-]].
  destruct (ac_checkpoint _ _ _ AC i i Hi) as (vs & i1 & _ & ps & i2 & _ & Ei & _ & _ & _ & Ep & _). rewrite Ei. cbn [exec].
  pose proof (ac_capture_live _ _ _ AC i vs i1 HQ (or_introl Ei)) as HQ1.
  destruct vs as [|v vs]; cbn [result0]; [by intros [= <- <- <-]|].
  unfold mret, M_ret, raise. destruct (u32 v =? 0); [by intros [= <- <- <-]|].
  destruct (ExportedFunction i1 "agent_checkpoint_ptr"); [|by intros [= <- <- <-]].
  rewrite Ep. cbn [exec]. pose proof (ac_capture_live _ _ _ AC i1 ps i2 HQ1 (or_intror Ep)) as HQ2.
  destruct ps as [|p ps]; cbn [result0]; [by intros [= <- <- <-]|].
  unfold mret, M_ret, MemRead. cbv beta iota. destruct (mem_read i2 (u32 p) (u32 v)); by intros [= <- <- <-].
Qed.
End Contract.

Section TickReplay.
Context {W : Wasm} `{!WasmLaws W} `{CryptoLaws} `{JSON} {St : Type} `{Provider St}.
Implicit Types (i : Instance (St := St)).

(** The instance as it enters [agent_tick]. *)
Definition entering i : Instance (St := St) :=
  let i := set_TickNumber (u64 (TickNumber i + 1)) i in set_EvLog (BeginTick (TickNumber i) (EvLog i)) i.

(** Every hostcall of the tick that [Tick] would run is recorded. *)
Definition tick_recorded (m : Inst) i : bool :=
  match captureState ErrWasm m i with
  | (Ok _, m, i) => all_recorded (hostCfg i) (invoke m "agent_tick" []) (entering i)
  | _ => true
  end.

Lemma entering_ticking i : log_ok (EvLog i) -> ticking (entering i) (u64 (TickNumber i + 1)) [].
Proof.
  intros Hl. unfold ticking. destruct (log_step (OBegin (u64 (TickNumber i + 1))) (EvLog i) Hl) as [Hl' Hv].
  split; [exact Hl'|]. apply (f_equal v_current) in Hv. exact Hv.
Qed.

Lemma push_last max s w : blen w <= max -> 1 <= max -> last (push_snapshot max s w) = Some s.
Proof. intros Hw Hm. by destruct (push_snapshot_cases max s w Hm Hw) as (_ & ? & _). Qed.

Lemma touched_window i i' : touched i i' -> ReplayWindow i' = ReplayWindow i /\ replayWindowMax i' = replayWindowMax i /\
  hostCfg i' = hostCfg i /\ TickNumber i' = TickNumber i.
Proof. by intros (b & l & n & ->). Qed.

(** What a successful tick did, step by step. *)
Lemma Tick_steps m i more m' i' :
  Tick m i = (Ok more, m', i') ->
  exists pre m1 i1 rs m2 i2 sealed l post m3 i3,
    captureState ErrWasm m i = (Ok pre, m1, i1) /\
    ExportedFunction m1 "agent_tick" = true /\
    exec (handle (entering i1)) (invoke m1 "agent_tick" []) (entering i1) = (Some rs, m2, i2) /\
    SealTick (EvLog i2) = (sealed, l) /\
    captureState ErrPostState m2 (set_EvLog l i2) = (Ok post, m3, i3) /\
    m' = m3 /\ more = has_more_work rs /\
    i' = charge (set_ReplayWindow (push_snapshot (max_snaps i3)
           (mkSnapshot (TickNumber i3) pre (sha256 post) sealed) (ReplayWindow i3)) i3).
Proof.
  unfold Tick. destruct (Budget i <=? 0); [done|].
  destruct (match BudgetAdapter i with Some a => negb (ValidateBudget a (AgentID i) (Budget i)) | None => false end); [done|].
  destruct (captureState ErrWasm m i) as [[[pre|e] m1] i1] eqn:E1; [|done].
  destruct (ExportedFunction m1 "agent_tick") eqn:Ex; [|done]. cbn [negb]. fold (entering i1).
  destruct (exec _ _ _) as [[rs m2] i2] eqn:E2. destruct (SealTick _) as [sealed l] eqn:Es.
  destruct rs as [rs|]; [|done].
  destruct (captureState ErrPostState m2 _) as [[[post|e] m3] i3] eqn:E3; [|done].
  intros [= <- <- <-]. by exists pre, m1, i1, rs, m2, i2, sealed, l, post, m3, i3.
Qed.

Section Steps.
Context {wasm : bytes} {R : Inst -> Inst -> Prop} {Q : Inst -> Prop} (AC : agent_contract wasm R Q).

Lemma R_refl_l m j : R m j -> R m m.
Proof. intros HR. eapply (ac_trans _ _ _ AC); [done|by apply (ac_sym _ _ _ AC)]. Qed.

Lemma capture_live wrap m j i r m' i' :
  R m j -> captureState wrap m i = (r, m', i') ->
  exists r0, r = map_err wrap r0 /\ i' = i /\ R m m' /\ R m' j /\
    forall HS (h : hostcall -> Inst -> HS -> Z * Inst * HS) s,
      exists j', CaptureState h j s = (r0, j', s) /\ R m' j'.
Proof.
  intros HR E. unfold captureState, on_module in E. pose proof (R_refl_l _ _ HR) as Hm.
  destruct (capture_alike AC (handle i) null_handle m j i tt HR) as (r0 & m1 & j1 & E1 & _ & HR0 & HR1).
  rewrite E1 in E. injection E as <- <- <-. exists r0. split_and!; try done.
  - exact (ac_trans _ _ _ AC _ _ _ (ac_sym _ _ _ AC _ _ HR0) HR).
  - intros HS h s. destruct (capture_alike AC (handle i) h m j i s HR) as (r2 & m2 & j2 & E2 & E3 & _ & HR2).
    rewrite E1 in E2. injection E2 as <- <-. by exists j2.
Qed.

(** What [Tick] needs of and leaves in the instance. *)
Definition tick_ready i : Prop := instance_ok i /\ blen (ReplayWindow i) <= max_snaps i.

(** The recorded run of a tick and its replay from a related instance. *)
Lemma tick_run_replays m1 j i rs m2 i2 sealed l :
  R m1 j -> instance_ok i -> all_recorded (hostCfg i) (invoke m1 "agent_tick" []) (entering i) = true ->
  exec (handle (entering i)) (invoke m1 "agent_tick" []) (entering i) = (Some rs, m2, i2) -> SealTick (EvLog i2) = (sealed, l) ->
  host_fit i2 /\ log_ok l /\ exists t j2 s2, sealed = Some t /\
    replay_one j (mkReplay (mkIter (entries t) 0) None) = Ok (j2, s2) /\ R m2 j2.
Proof.
  intros HR Hok Hrec E2 Es. pose proof (instance_ok_fit i Hok) as Hfit. assert (host_fit (entering i)) as Hfit' by exact Hfit.
  pose proof (entering_ticking i (io_log i Hok)) as Htick.
  unfold handle in E2. cbn [hostCfg entering set_EvLog set_TickNumber] in E2.
  destruct (ac_tick _ _ _ AC) as (Rc & Hmem & Htick_sim).
  destruct (exec_live (host_ok := host_fit) Rc Hmem (hostCfg i) _ _ _ _ _ _ _ Hfit' Htick Hrec E2) as [Hfit2 [new Htick2]].
  rewrite app_nil_l in Htick2. destruct Htick2 as [Hlog2 Hcur2]. change (get_log i2) with (EvLog i2) in Hlog2, Hcur2.
  destruct (log_step OSeal (EvLog i2) Hlog2) as [Hlog2' _]. cbn [do_op] in Hlog2'. rewrite Es in Hlog2'. cbn [snd] in Hlog2'.
  destruct (current (EvLog i2)) as [t|] eqn:Ecur; [|done]. unfold SealTick in Es. rewrite Ecur in Es. injection Es as <- Hl.
  cbn [fmap option_fmap option_map] in Hcur2. injection Hcur2 as Hnum Hents.
  destruct (exec_replay (host_ok := host_fit) Rc R Hmem (hostCfg i) _ _ (Htick_sim m1 j HR)
    _ _ _ _ _ _ new new [] [] None Hfit' Htick Hrec E2) as (j2 & HR2 & Erep).
  { unfold ticking. change (get_log i2) with (EvLog i2). rewrite Ecur. split; [done|].
    cbn [fmap option_fmap option_map app]. unfold view_tick. by rewrite Hnum, Hents. }
  { by rewrite app_nil_l, app_nil_r. }
  specialize (HR2 ltac:(done)). rewrite app_nil_l in Erep. cbn [length] in Erep.
  split; [done|]. split; [done|]. eexists t, j2, _. split; [done|]. split; [|done]. unfold replay_one. rewrite Hents, Erep. cbn [repErr iter].
  by assert (remaining (mkIter new (length new)) = 0) as -> by (unfold remaining, blen; cbn; lia).
Qed.
(** One live tick and its replay from a related instance. *)
Lemma tick_step m j i more m' i' :
  R m j -> tick_ready i -> Tick m i = (Ok more, m', i') -> tick_recorded m i = true ->
  exists snap log j2 st,
    ReplayWindow i' = push_snapshot (max_snaps i) snap (ReplayWindow i) /\
    LatestSnapshot i' = Some snap /\ SnapLog snap = Some log /\ snap_tick snap = u64 (TickNumber i + 1) /\
    ExportedFunction j "agent_tick" = true /\
    (exists s2, replay_one j (mkReplay (mkIter (entries log) 0) None) = Ok (j2, s2)) /\ R m' j2 /\
    sha256 st = PostStateHash snap /\
    (forall HS (h : hostcall -> Inst -> HS -> Z * Inst * HS) s, exists j', CaptureState h j2 s = (Ok st, j', s)) /\
    (exists m1, captureState ErrWasm m i = (Ok (PreState snap), m1, i)) /\
    tick_ready i' /\ WASMBytes i' = WASMBytes i /\ CapManifest i' = CapManifest i.
Proof.
  intros HRmj [Hok Hwin] HT Hrec.
  destruct (Tick_steps _ _ _ _ _ HT) as (pre & m1 & i1 & rs & m2 & i2 & sealed & l & post & m3 & i3 &
    E1 & Ex & E2 & Es & E3 & -> & _ & ->).
  unfold tick_recorded in Hrec. rewrite E1 in Hrec. pose proof E1 as E1'.
  destruct (capture_live ErrWasm m j i _ _ _ HRmj E1) as (r0 & Er0 & -> & _ & HR & _).
  destruct r0 as [st0|]; [|done]. injection Er0 as ->.
  pose proof (exec_touched _ _ _ _ _ _ E2) as Htouch.
  destruct (tick_run_replays _ _ _ _ _ _ _ _ HR Hok Hrec E2 Es) as (Hfit2 & Hlog2 & t & j2 & s2 & -> & Erep & HR2).
  destruct (capture_live ErrPostState m2 j2 _ _ _ _ HR2 E3) as (r3 & Er3 & -> & _ & HR3 & Hcap3).
  destruct r3 as [st3|]; [|done]. injection Er3 as ->.
  destruct (touched_window _ _ Htouch) as (Hw & Hwm & _ & Htn).
  cbn [entering set_EvLog set_TickNumber ReplayWindow replayWindowMax TickNumber] in Hw, Hwm, Htn.
  assert (max_snaps i2 = max_snaps i) as Hms by (unfold max_snaps; by rewrite Hwm).
  assert (1 <= max_snaps i) as Hms1 by (unfold max_snaps, DefaultReplayWindowSize; destruct (Z.leb_spec (replayWindowMax i) 0); lia).
  set (snap := mkSnapshot (TickNumber i2) st0 (sha256 st3) (Some t)).
  destruct (push_snapshot_cases (max_snaps i) snap (ReplayWindow i) Hms1 Hwin) as (Hpl & Hps & _).
  exists snap, t, j2, st3. split_and!; try done.
  - unfold charge, tick_env. cbn [ReplayWindow set_env_step set_epochCost set_Budget set_ReplayWindow set_EvLog].
    change (max_snaps (set_EvLog l i2)) with (max_snaps i2). by rewrite Hms, Hw.
  - unfold LatestSnapshot, charge, tick_env. cbn [ReplayWindow set_env_step set_epochCost set_Budget set_ReplayWindow set_EvLog].
    change (max_snaps (set_EvLog l i2)) with (max_snaps i2). by rewrite Hms, Hw.
  - by rewrite <- (ac_exports _ _ _ AC m1 j "agent_tick" HR).
  - by exists s2.
  - intros HS h s. destruct (Hcap3 HS h s) as (j' & ? & _). eauto.
  - by exists m1.
  - split.
    + destruct Hfit2 as (Hb & Hp & Hid). split; [apply i64_range|done|done|done].
    + unfold charge, tick_env. cbn [ReplayWindow set_env_step set_epochCost set_Budget set_ReplayWindow set_EvLog].
      change (max_snaps (set_EvLog l i2)) with (max_snaps i2). rewrite Hms, Hw.
      match goal with |- _ <= max_snaps ?x => change (max_snaps x) with (max_snaps i2) end. by rewrite Hms.
  - destruct Htouch as (b & l' & n & ->). done.
  - destruct Htouch as (b & l' & n & ->). done.
Qed.

(** The state captured before a live tick starts an instance related to the
    live one, with no hostcall. *)
Lemma replay_starts m i st0 m1 i1 :
  Q m -> captureState ErrWasm m i = (Ok st0, m1, i1) ->
  exists compiled m0 j, CompileModule wasm = Some compiled /\ InstantiateModule compiled = Some m0 /\ R m j /\
    forall (HS : Type) (h : hostcall -> Inst -> HS -> Z * Inst * HS) (s : HS),
      exists m2, initialize h m0 s = (Ok tt, m2, s) /\ ResumeAgent h st0 m2 s = (Ok tt, j, s).
Proof.
  intros HQ E. pose proof (ac_refl _ _ _ AC m HQ) as Hm. unfold captureState, on_module in E.
  destruct (capture_alike AC (handle i) null_handle m m i tt Hm) as (r & m2 & j2 & E1 & E2 & HR1 & HR2).
  rewrite E1 in E. injection E as Er <- _. destruct r as [st|]; [|done]. injection Er as ->.
  destruct (ac_resume _ _ _ AC m st0 j2 HQ E2) as (compiled & m0 & j & Hc & Hi & HR3 & Hrun).
  exists compiled, m0, j. split_and!; [done..| |done].
  exact (ac_trans _ _ _ AC _ _ _ HR1 (ac_trans _ _ _ AC _ _ _ HR2 HR3)).
Qed.

(** The replay host module offers everything the agent imports. *)
Definition replayable i : Prop :=
  forall compiled, CompileModule wasm = Some compiled -> links (replay_functions (Some (CapManifest i))) compiled = true.

(** [n] live ticks and the snapshots they leave. *)
Fixpoint live_ticks (n : nat) (m : Inst) i : option (list TickSnapshot * Inst * Instance (St := St)) :=
  match n with
  | O => Some ([], m, i)
  | S n =>
      '(snap, m, i) ← match Tick m i with (Ok _, m, i) => (fun s => (s, m, i)) <$> LatestSnapshot i | _ => None end;
      '(snaps, m, i) ← live_ticks n m i;
      Some (snap :: snaps, m, i)
  end.
Fixpoint live_recorded (n : nat) (m : Inst) i : bool :=
  match n with
  | O => true
  | S n => tick_recorded m i && match Tick m i with (Ok _, m, i) => live_recorded n m i | _ => true end
  end.
Definition to_chain (s : TickSnapshot) : ChainSnapshot := mkChainSnap (snap_tick s) (SnapLog s).

Lemma chain_loop_live n : forall m j i snaps m' i' k s,
  R m j -> tick_ready i -> live_ticks n m i = Some (snaps, m', i') -> live_recorded n m i = true ->
  exists j' s', chain_loop (to_chain <$> snaps) k j s = ((k + Z.of_nat n, None), j', s') /\
    forall snap, last snaps = Some snap -> exists st j2, sha256 st = PostStateHash snap /\
      CaptureState chain_handle j' s' = (Ok st, j2, s').
Proof.
  induction n as [|n IH]; intros m j i snaps m' i' k s HR Hr HL Hrec; cbn [live_ticks live_recorded] in HL, Hrec.
  - injection HL as <- <- <-. exists j, s. split; [cbn; by rewrite Z.add_0_r|done].
  - destruct (Tick m i) as [[[more|e] m1] i1] eqn:ET; [|done].
    apply andb_true_iff in Hrec as [Ht Hrec].
    destruct (tick_step m j i more m1 i1 HR Hr ET Ht) as
      (snap & log & j2 & st & _ & Hsnap & Hlog & _ & _ & [s2 Hone] & HR2 & Hst & Hcap & _ & Hr2 & _).
    rewrite Hsnap in HL. cbn in HL. apply bind_Some in HL as ([[l m2] i2] & HL & E). injection E as <- <- <-.
    destruct (IH m1 j2 i1 l m2 i2 (k + 1) s2 HR2 Hr2 HL Hrec) as (j' & s' & Hloop & Hlast).
    exists j', s'. split.
    + rewrite fmap_cons. cbn [chain_loop to_chain cs_log]. change (@chain_one W) with (@replay_one W). rewrite Hlog, Hone, Hloop. do 3 f_equal. lia.
    + intros x Hx. destruct l as [|y l]; [|by apply Hlast]. injection Hx as <-.
      destruct n; [|exfalso; cbn in HL; repeat case_match; simplify_eq; apply bind_Some in HL as ([[? ?] ?] & _ & HL); repeat case_match; simplify_eq;
        try (apply bind_Some in HL as ([[? ?] ?] & _ & HL); simplify_eq)].
      cbn in Hloop. injection Hloop as _ <- <-. destruct (Hcap _ chain_handle s2) as [j3 ?]. eauto.
Qed.
End Steps.

(** The snapshot of a recorded tick replays in a fresh instance. *)
Definition replays (wasm : bytes) (caps : CapabilityManifest) (snap : TickSnapshot) (st : bytes) : Prop :=
  exists log, SnapLog snap = Some log /\ sha256 st = PostStateHash snap /\
    replay_run wasm (Some caps) (PreState snap) (entries log) = Ok st.
Lemma snapshot_replays R Q m i more m' i' :
  agent_contract (WASMBytes i) R Q -> Q m -> tick_ready i -> replayable (wasm := WASMBytes i) i ->
  Tick m i = (Ok more, m', i') -> tick_recorded m i = true ->
  exists snap st,
    ReplayWindow i' = push_snapshot (max_snaps i) snap (ReplayWindow i) /\ LatestSnapshot i' = Some snap /\
    snap_tick snap = u64 (TickNumber i + 1) /\ replays (WASMBytes i) (CapManifest i) snap st /\
    tick_ready i' /\ WASMBytes i' = WASMBytes i /\ CapManifest i' = CapManifest i.
Proof.
  intros AC HQ Hr Hlink HT Hrec.
  destruct (tick_step AC m m i more m' i' (ac_refl _ _ _ AC m HQ) Hr HT Hrec) as
    (snap & log & _ & _ & Hwin & Hsnap & Hlog & Htick & _ & _ & _ & _ & _ & [m1 Hpre] & Hr' & Hw & Hcm).
  destruct (replay_starts AC m i _ _ _ HQ Hpre) as (compiled & m0 & j & Hc & Hi & HRj & Hrun).
  destruct (tick_step AC m j i more m' i' HRj Hr HT Hrec) as
    (snap' & log' & j2 & st & _ & Hsnap' & Hlog' & _ & Hex & [s2 Hone] & _ & Hst & Hcap & _).
  rewrite Hsnap in Hsnap'. injection Hsnap' as <-. rewrite Hlog in Hlog'. injection Hlog' as <-.
  exists snap, st. split_and!; try done. exists log. split_and!; [done..|].
  unfold replay_run, replay_start. rewrite Hc, (Hlink _ Hc), Hi. cbn [negb].
  destruct (Hrun _ replay_handle (mkReplay (mkIter (entries log) 0) None)) as (m2 & -> & ->). rewrite Hex. cbn [negb].
  rewrite Hone. by destruct (Hcap _ replay_handle s2) as [j3 ->].
Qed.

(** A successful tick of a live instance leaves it live. *)
Lemma live_handle_writes cfg : writes_only (live_handle (S := Instance (St := St)) cfg).
Proof.
  intros c m i v m' i' E.
  assert (forall p d m1, mem_write m p d = Some m1 -> written m m1) as Hw
    by (intros; econstructor; [done|constructor]).
  assert (forall p cap n, written m (write_u32_hint m p cap n)) as Hh.
  { intros p cap n. unfold write_u32_hint. destruct (4 <=? cap); [|constructor].
    destruct (mem_write m p _) eqn:?; [by eapply Hw|constructor]. }
  destruct c; cbn [live_handle] in E; unfold clock_now, rand_bytes, log_emit, wallet_balance, wallet_receipt_count,
    wallet_receipt, node_price, http_request_, wallet_pay in E;
    repeat match type of E with
    | context [match ?x with _ => _ end] => lazymatch x with context [match _ with _ => _ end] => fail | _ => destruct x eqn:? end; simplify_eq/=
    end; simplify_eq; eauto using written_refl.
Qed.
Lemma tick_keeps_live R Q m i more m' i' :
  agent_contract (WASMBytes i) R Q -> Q m -> Tick m i = (Ok more, m', i') -> Q m'.
Proof.
  intros AC HQ HT. destruct (Tick_steps _ _ _ _ _ HT) as (pre & m1 & i1 & rs & m2 & i2 & sealed & l & post & m3 & i3 &
    E1 & _ & E2 & _ & E3 & -> & _).
  unfold captureState, on_module in E1, E3.
  destruct (CaptureState (handle i) m i) as [[r1 m1'] i1'] eqn:C1. injection E1 as _ -> ->.
  pose proof (capture_keeps_live AC _ _ _ _ _ _ (ac_refl _ _ _ AC m HQ) HQ C1) as HQ1.
  pose proof (ac_tick_live _ _ _ AC _ _ _ _ _ _ (live_handle_writes _) HQ1 E2) as HQ2.
  destruct (CaptureState _ m2 _) as [[r3 m3'] i3'] eqn:C3. injection E3 as _ -> _.
  exact (capture_keeps_live AC _ _ _ _ _ _ (ac_refl _ _ _ AC m2 HQ2) HQ2 C3).
Qed.

(** ** The claims *)
(** C1: A tick whose hostcalls were all recorded replays from its snapshot
    to the state the live tick left. Take an agent that keeps the agent
    contract and whose imports the replay host offers ([replayable]: this
    leaves out every module that imports [http_request], see
    [http_module_never_replays]), and an instance in good order
    ([tick_ready]: keys of the right size, a price and a budget within 64
    bits, a well-formed log, a window within its bound). Then for a [Tick]
    that succeeds and whose calls are all recorded, a fresh instance resumed
    from the pre-state of the snapshot it took and fed the snapshot's event
    log runs without a divergence, consumes the whole log, and its
    checkpoint hashes to the recorded post-state hash. *)
Theorem tick_replays_to_same_state R Q m i more m' i' :
  agent_contract (WASMBytes i) R Q -> Q m -> tick_ready i -> replayable (wasm := WASMBytes i) i ->
  Tick m i = (Ok more, m', i') -> tick_recorded m i = true ->
  exists snap log st,
    LatestSnapshot i' = Some snap /\ SnapLog snap = Some log /\ snap_tick snap = u64 (TickNumber i + 1) /\
    sha256 st = PostStateHash snap /\
    ReplayTick (WASMBytes i') (Some (CapManifest i')) (PreState snap) log (Some st) =
      mkResult true (EventLog.TickNumber log) (Some st) (Some st) (-1) None.
Proof.
  intros AC HQ Hr Hlink HT Hrec.
  destruct (snapshot_replays R Q m i more m' i' AC HQ Hr Hlink HT Hrec) as
    (snap & st & _ & Hsnap & Htick & (log & Hlog & Hst & Hrun) & _ & -> & ->).
  exists snap, log, st. split_and!; try done. unfold ReplayTick. by rewrite Hrun, bool_decide_true.
Qed.

(** C32: The snapshots of any number of consecutive recorded ticks chain.
    For an agent that keeps the agent contract, whose imports the replay
    host offers ([replayable], which excludes importers of [http_request]),
    on an instance in good order ([tick_ready]): when [n] ticks in a row
    succeed with all their calls recorded, then replayed in one instance
    from the first pre-state every tick consumes its log exactly, and the
    state after the last hashes to that tick's recorded post-state hash. *)
Theorem ticks_chain_replay R Q n m i first snaps m' i' :
  agent_contract (WASMBytes i) R Q -> Q m -> tick_ready i -> replayable (wasm := WASMBytes i) i ->
  live_ticks n m i = Some (first :: snaps, m', i') -> live_recorded n m i = true ->
  let final := default first (last snaps) in
  exists st, sha256 st = PostStateHash final /\
    ReplayChain (WASMBytes i) (Some (CapManifest i)) (PreState first) (to_chain <$> first :: snaps) (PostStateHash final) =
      mkChainResult true (Z.of_nat n) (snap_tick first) (snap_tick final) (Some st) (PostStateHash final) None 0.
Proof.
  intros AC HQ Hr Hlink HL Hrec final.
  destruct n as [|n]; [done|]. pose proof HL as HL0. pose proof Hrec as Hrec0. cbn [live_ticks live_recorded] in HL, Hrec.
  destruct (Tick m i) as [[[more|e] m1] i1] eqn:ET; [|done]. apply andb_true_iff in Hrec as [Ht Hrec].
  destruct (tick_step AC m m i more m1 i1 (ac_refl _ _ _ AC m HQ) Hr ET Ht) as
    (snap & log & _ & _ & _ & Hsnap & _ & _ & _ & _ & _ & _ & _ & [mp Hpre] & _).
  rewrite Hsnap in HL. cbn in HL. apply bind_Some in HL as ([[l m2] i2] & HL & E). injection E as <- -> -> ->.
  destruct (replay_starts AC m i _ _ _ HQ Hpre) as (compiled & m0 & j & Hc & Hi & HRj & Hrun).
  destruct (tick_step AC m j i more m1 i1 HRj Hr ET Ht) as (? & ? & ? & ? & _ & _ & _ & _ & Hex & _).
  destruct (chain_loop_live AC (S n) m j i _ _ _ 0 (mkReplay (mkIter [] 0) None) HRj Hr HL0 Hrec0) as (j' & s' & Hloop & Hlast).
  assert (last (snap :: snaps) = Some final) as Hfin by (subst final; destruct snaps; [done|]; by rewrite last_cons_cons; destruct (last (t :: snaps)) eqn:El; [|apply last_None in El]).
  destruct (Hlast _ Hfin) as (st & j3 & Hst & Hcap).
  exists st. split; [done|]. unfold ReplayChain. rewrite fmap_cons. unfold chain_start. rewrite Hc, (Hlink _ Hc), Hi. cbn [negb].
  destruct (Hrun _ nil_handle false) as (m3 & -> & ->). rewrite Hex. cbn [negb].
  rewrite <- fmap_cons, Hloop, Hcap, bool_decide_true by done. f_equal.
  by rewrite fmap_last, Hfin.
Qed.
End TickReplay.

(** ** The toy guest keeps the contract *)
Definition toy_state (wasm : bytes) (m : toy_inst) : Prop :=
  prog m = Z_of_byte <$> wasm /\ exists st, length st = 8%nat /\ mem m = st ++ zeros 504.

Lemma toy_write_size i p d j : toy_write i p d = Some j -> prog j = prog i /\ length (mem j) = length (mem i).
Proof.
  unfold toy_write. destruct (write_at _ _ _) as [l|] eqn:E; [|done]. intros [= <-]. split; [done|]. by eapply write_at_size.
Qed.
Lemma written_toy (i j : toy_inst) : written (W := toy_wasm) i j -> prog j = prog i /\ length (mem j) = length (mem i).
Proof.
  induction 1 as [i|i p d j k Hw _ [IHp IHm]]; [done|]. apply toy_write_size in Hw as [Hp Hl]. split; congruence.
Qed.
Lemma toy_ops_live {HS} (h : hostcall -> toy_inst -> HS -> Z * toy_inst * HS) ops : writes_only (W := toy_wasm) h ->
  forall i s rs i' s', length (mem i) = 512%nat -> exec (W := toy_wasm) h (toy_ops ops i) s = (Some rs, i', s') ->
  prog i' = prog i /\ exists st, length st = 8%nat /\ mem i' = st ++ zeros 504.
Proof.
  intros Hh. induction ops as [|op ops IH]; intros i s rs i' s' Hm E; cbn [toy_ops exec] in E.
  - injection E as <- <- <-. split; [done|]. exists (take 8 (mem i)). rewrite length_take. split; [lia|done].
  - destruct (h (toy_call op) i s) as [[v j] s1] eqn:Eh. apply Hh, written_toy in Eh as [Hp Hl].
    apply IH in E as [Hp' Hst]; [|unfold bump, set_counter; cbn; rewrite length_app, length_put_u64, length_drop; lia].
    rewrite Hp'. unfold bump, set_counter. cbn. by rewrite Hp.
Qed.

Lemma toy_contract wasm : agent_contract (W := toy_wasm) wasm eq (toy_state wasm).
Proof.
  split.
  - by intros i j name ->.
  - exists eq. split; [apply toy_mem_sim|]. intros i ? <-. apply toy_run_sim.
  - intros i ? <-. by exists [8], i, i, [0], i, i.
  - done.
  - done.
  - by intros i j k -> ->.
  - intros HS h i s rs i' s' Hh [Hp (st & Hst & Hm)] E. change (invoke i "agent_tick" []) with (toy_ops (prog i) i) in E.
    apply toy_ops_live in E as [Hp' Hst']; [|done|rewrite Hm, length_app, Hst; reflexivity].
    split; [congruence|done].
  - intros i vs i' HQ [[= <- <-]|[= <- <-]]; exact HQ.
  - intros [ops m] st i' [Hp (s & Hs & Hm)] E. cbn in Hp, Hm. subst ops m.
    do 9 (destruct s as [|? s]; try done). vm_compute in E. injection E as <- <-.
    eexists _, _, _. split; [reflexivity|]. split; [reflexivity|]. split; [reflexivity|].
    intros HS h x. eexists. split; [reflexivity|]. vm_compute. reflexivity.
Qed.

Lemma demo_ready : tick_ready (snd demo).
Proof. split; [|vm_compute; discriminate]. split; [done|apply demo_fit|done|]. apply demo_fit. Qed.
Lemma demo_state : toy_state demo_wasm (fst demo).
Proof. split; [reflexivity|]. exists (zeros 8). split; reflexivity. Qed.
Lemma demo_replayable : replayable (wasm := demo_wasm) (snd demo).
Proof. intros c [= <-]. vm_compute. reflexivity. Qed.

Lemma tick_replays_to_same_state_witness :
  let '(r, _, i') := Tick (fst demo) (snd demo) in
  r = Ok false /\ exists snap log st,
    LatestSnapshot i' = Some snap /\ SnapLog snap = Some log /\ snap_tick snap = 1 /\
    sha256 st = PostStateHash snap /\
    ReplayTick (WASMBytes i') (Some (CapManifest i')) (PreState snap) log (Some st) =
      mkResult true (EventLog.TickNumber log) (Some st) (Some st) (-1) None.
Proof.
  assert (fst (fst (Tick (fst demo) (snd demo))) = Ok false) as Hok by (vm_compute; reflexivity).
  destruct (Tick (fst demo) (snd demo)) as [[r m'] i'] eqn:E. cbn in Hok. subst r. split; [done|].
  apply (tick_replays_to_same_state (W := toy_wasm) eq (toy_state demo_wasm) (fst demo) (snd demo) false m' i'
    (toy_contract demo_wasm) demo_state demo_ready demo_replayable E).
  vm_compute. reflexivity.
Defined.

Lemma ticks_chain_replay_witness :
  match live_ticks 3 (fst demo) (snd demo) with
  | Some (first :: snaps, _, _) =>
      let final := default first (last snaps) in
      exists st, sha256 st = PostStateHash final /\
      ReplayChain (WASMBytes (snd demo)) (Some (CapManifest (snd demo))) (PreState first) (to_chain <$> first :: snaps) (PostStateHash final) =
        mkChainResult true (Z.of_nat 3) (snap_tick first) (snap_tick final) (Some st) (PostStateHash final) None 0
  | _ => False
  end.
Proof.
  assert (match live_ticks 3 (fst demo) (snd demo) with Some (_ :: _, _, _) => true | _ => false end = true) as Hok
    by (vm_compute; reflexivity).
  destruct (live_ticks 3 (fst demo) (snd demo)) as [[[[|first snaps] m'] i']|] eqn:E; [discriminate Hok| |discriminate Hok]. clear Hok.
  apply (ticks_chain_replay (W := toy_wasm) eq (toy_state demo_wasm) 3 (fst demo) (snd demo) first snaps m' i'
    (toy_contract demo_wasm) demo_state demo_ready demo_replayable E).
  vm_compute. reflexivity.
Defined.

(** ** Ticks that the replay rejects

    A hostcall that is answered but not recorded (here a random read of no
    bytes) makes an honest tick fail its replay; a module that imports
    [http_request] runs live but is never replayed. *)
Definition replay_latest (ops : list Z) : option (option failure) :=
  let wasm := byte_of_Z <$> ops in
  match Tick (demo_module wasm) (demo_instance wasm 1000000 1000 2000000000) with
  | (Ok _, _, i) =>
      snap ← LatestSnapshot i;
      log ← SnapLog snap;
      Some (Error (ReplayTick wasm (Some (CapManifest i)) (PreState snap) log None))
  | _ => None
  end.
Example recorded_tick_verifies : replay_latest [1; 2; 3] = Some None.
Proof. vm_compute. reflexivity. Qed.
Example zero_length_rand_diverges : replay_latest [10] = Some (Some (FHostcall (ErrExhausted 0 RandBytes))).
Proof. vm_compute. reflexivity. Qed.
Example http_module_never_replays : replay_latest [8] = Some (Some FInstantiate).
Proof. vm_compute. reflexivity. Qed.
