(* ===== verification/Inspector.v ===== *)
(** * Checkpoint inspection and lineage verification (internal/inspector)

    [Inspect] of one checkpoint file and [VerifyChain] over the history
    directory of an agent; printing is left out. *)
From S2P Require Import Prelude Budget Crypto Manifest Storage ToyGuest Wasm Instance Lineage Identity Checkpoint.
From stdpp Require Import gmap strings sorting.
Open Scope Z_scope.

(** [hex.EncodeToString]. *)
Definition hex_digit (n : Z) : Ascii.ascii := Ascii.ascii_of_N (Z.to_N (if n <? 10 then 48 + n else 87 + n)).
Definition EncodeToString (b : bytes) : string :=
  String.string_of_list_ascii (b ≫= fun x => [hex_digit (Z_of_byte x / 16); hex_digit (Z_of_byte x mod 16)]).

(** ** inspector.go *)
Record Result := mkResult {
  header : CheckpointHeader;
  BudgetFormatted : string; PriceFormatted : string; WASMHashHex : string;
  StateSize : Z; State : bytes; TotalSize : Z;
  WASMVerified : option bool; WASMPath : string;
  PrevHashHex : string; AgentPubKeyHex : string;
  SignatureValid : option bool }.

Section Inspect.
Context `{Crypto}.

Definition Inspect (data : bytes) : result checkpoint_error Result :=
  '(hdr, state) ← ParseCheckpointHeader data;
  let r := mkResult hdr (Format (Checkpoint.Budget hdr)) (Format (PricePerSecond hdr)) (EncodeToString (WASMHash hdr))
             (blen state) state (blen data) None "" "" "" None in
  if HasLineage hdr
  then Ok (mkResult hdr (BudgetFormatted r) (PriceFormatted r) (WASMHashHex r) (StateSize r) (State r) (TotalSize r)
             None "" (EncodeToString (PrevHash hdr)) (EncodeToString (AgentPubKey hdr))
             (Some (signature_valid data hdr state)))
  else Ok r.

Inductive inspect_error := ErrReadFile | ErrParse (e : checkpoint_error) | ErrWASMMismatch.
Definition InspectFile (readFile : string -> option bytes) (path : string) : result inspect_error Result :=
  match readFile path with None => Err ErrReadFile | Some data => map_err ErrParse (Inspect data) end.
Definition VerifyWASM (readFile : string -> option bytes) (wasmPath : string) (r : Result)
    : result inspect_error unit * Result :=
  match readFile wasmPath with
  | None => (Err ErrReadFile, r)
  | Some wasmBytes =>
      let verified := bool_decide (sha256 wasmBytes = WASMHash (header r)) in
      let r := mkResult (header r) (BudgetFormatted r) (PriceFormatted r) (WASMHashHex r) (StateSize r) (State r)
                 (TotalSize r) (Some verified) wasmPath (PrevHashHex r) (AgentPubKeyHex r) (SignatureValid r) in
      (if verified then Ok tt else Err ErrWASMMismatch, r)
  end.
End Inspect.

(** ** chain.go *)
Inductive chain_error :=
| CannotRead (file : string)
| CannotParse (file : string) (e : checkpoint_error)
| NonMonotonic (tick prev : Z)
| MissingLineage (tick : Z)
| InvalidSignature (tick : Z)
| PrevHashMismatch (tick : Z) (expected got : bytes)
| IdentityChanged (tick : Z).

Record ChainSegment := mkSegment { seg_wasm : string; StartTick : Z; EndTick : Z; Count : Z }.
Record ChainResult := mkChain {
  AgentDID : bytes; ChainPubKeyHex : string; Checkpoints : Z; FirstTick : Z; LastTick : Z;
  ChainValid : bool; Errors : list chain_error; Segments : list ChainSegment }.
Record chainState := mkState {
  prevContentHash : bytes; prevTick : Z; currentSegment : option ChainSegment; agentPubKey : bytes }.

Definition with_errors (e : list chain_error) (r : ChainResult) : ChainResult :=
  mkChain (AgentDID r) (ChainPubKeyHex r) (Checkpoints r) (FirstTick r) (LastTick r) (ChainValid r) e (Segments r).
Definition addError (e : chain_error) (r : ChainResult) : ChainResult := with_errors (Errors r ++ [e]) r.
Definition err_if (b : bool) (e : chain_error) (r : ChainResult) : ChainResult := if b then addError e r else r.

(** [os.ReadDir]: names with whether they are directories. *)
Inductive chain_fail := ErrReadDir | ErrNoCheckpoints.
Definition listCheckpointFiles (readDir : string -> option (list (string * bool))) (historyDir : string)
    : result chain_fail (list string) :=
  match readDir historyDir with
  | None => Err ErrReadDir
  | Some es =>
      let files := (fun e => Storage.Join historyDir (fst e)) <$>
                     filter (fun e => negb (snd e) && has_suffix ".ckpt" (fst e) = true) es in
      match files with [] => Err ErrNoCheckpoints | _ => Ok (sort_strings files) end
  end.

Section Chain.
Context `{Crypto}.

Definition verifyLineage (cs : chainState) (i : nat) (data : bytes) (hdr : CheckpointHeader) (agentState : bytes)
    (r : ChainResult) : ChainResult :=
  let tick := TickNumber hdr in
  if negb (HasLineage hdr) then err_if (0 <? i)%nat (MissingLineage tick) r
  else
    let r := err_if (negb (signature_valid data hdr agentState)) (InvalidSignature tick) r in
    if (0 <? i)%nat then
      let r := err_if (negb (bool_decide (PrevHash hdr = prevContentHash cs)))
                 (PrevHashMismatch tick (prevContentHash cs) (PrevHash hdr)) r in
      err_if (negb (bool_decide (AgentPubKey hdr = agentPubKey cs))) (IdentityChanged tick) r
    else r.

Definition set_segments (s : list ChainSegment) (r : ChainResult) : ChainResult :=
  mkChain (AgentDID r) (ChainPubKeyHex r) (Checkpoints r) (FirstTick r) (LastTick r) (ChainValid r) (Errors r) s.
Definition set_segment (s : ChainSegment) (cs : chainState) : chainState :=
  mkState (prevContentHash cs) (prevTick cs) (Some s) (agentPubKey cs).

Definition updateSegments (hdr : CheckpointHeader) (r : ChainResult) (cs : chainState) : ChainResult * chainState :=
  let wasmHex := EncodeToString (WASMHash hdr) in
  let fresh :=
    let s := mkSegment wasmHex (TickNumber hdr) (TickNumber hdr) 1 in
    (set_segments (Segments r ++ [s]) r, set_segment s cs) in
  match currentSegment cs with
  | None => fresh
  | Some cur =>
      if negb (bool_decide (seg_wasm cur = wasmHex)) then fresh
      else
        let s := mkSegment (seg_wasm cur) (StartTick cur) (TickNumber hdr) (Count cur + 1) in
        (set_segments (take (length (Segments r) - 1) (Segments r) ++ [s]) r, set_segment s cs)
  end.

Definition set_identity (pk : bytes) (r : ChainResult) : ChainResult :=
  mkChain (DID pk) (EncodeToString pk) (Checkpoints r) (FirstTick r) (LastTick r) (ChainValid r) (Errors r) (Segments r).
Definition set_first (t : Z) (r : ChainResult) : ChainResult :=
  mkChain (AgentDID r) (ChainPubKeyHex r) (Checkpoints r) t (LastTick r) (ChainValid r) (Errors r) (Segments r).
Definition set_last (t : Z) (r : ChainResult) : ChainResult :=
  mkChain (AgentDID r) (ChainPubKeyHex r) (Checkpoints r) (FirstTick r) t (ChainValid r) (Errors r) (Segments r).
Definition set_key (pk : bytes) (cs : chainState) : chainState :=
  mkState (prevContentHash cs) (prevTick cs) (currentSegment cs) pk.

Definition verifyCheckpoint (i : nat) (data : bytes) (hdr : CheckpointHeader) (agentState : bytes)
    (r : ChainResult) (cs : chainState) : ChainResult * chainState :=
  let '(r, cs) :=
    if (i =? 0)%nat then
      let r := set_first (TickNumber hdr) r in
      if HasLineage hdr then (set_identity (AgentPubKey hdr) r, set_key (AgentPubKey hdr) cs) else (r, cs)
    else (r, cs) in
  let r := set_last (TickNumber hdr) r in
  let r := err_if ((0 <? i)%nat && (TickNumber hdr <=? prevTick cs)) (NonMonotonic (TickNumber hdr) (prevTick cs)) r in
  let r := verifyLineage cs i data hdr agentState r in
  let '(r, cs) := updateSegments hdr r cs in
  (r, mkState (ContentHash data) (TickNumber hdr) (currentSegment cs) (agentPubKey cs)).

Definition count_checkpoint (r : ChainResult) : ChainResult :=
  mkChain (AgentDID r) (ChainPubKeyHex r) (Checkpoints r + 1) (FirstTick r) (LastTick r) (ChainValid r) (Errors r)
    (Segments r).

(** The loop over the sorted files. *)
Fixpoint chain_files (readFile : string -> option bytes) (i : nat) (files : list string) (r : ChainResult)
    (cs : chainState) : ChainResult :=
  match files with
  | [] => r
  | f :: files =>
      match readFile f with
      | None => chain_files readFile (S i) files (addError (CannotRead f) r) cs
      | Some data =>
          match ParseCheckpointHeader data with
          | Err e => chain_files readFile (S i) files (addError (CannotParse f e) r) cs
          | Ok (hdr, agentState) =>
              let '(r, cs) := verifyCheckpoint i data hdr agentState (count_checkpoint r) cs in
              chain_files readFile (S i) files r cs
          end
      end
  end.

Definition VerifyChain (readDir : string -> option (list (string * bool))) (readFile : string -> option bytes)
    (historyDir : string) : result chain_fail ChainResult :=
  files ← listCheckpointFiles readDir historyDir;
  let r := chain_files readFile 0 files (mkChain [] "" 0 0 0 true [] []) (mkState (zeros 32) 0 None []) in
  Ok (if bool_decide (Errors r = []) then r
      else mkChain (AgentDID r) (ChainPubKeyHex r) (Checkpoints r) (FirstTick r) (LastTick r) false (Errors r)
             (Segments r)).
End Chain.

(** ** What a valid chain means *)
Section Facts.
Context `{Crypto}.

(** A file's contents with its parsed header and agent state. *)
Definition checkpoint : Type := bytes * CheckpointHeader * bytes.
Definition examine (readFile : string -> option bytes) (f : string) : option checkpoint :=
  data ← readFile f;
  match ParseCheckpointHeader data with Ok (hdr, state) => Some (data, hdr, state) | Err _ => None end.

Definition signed (c : checkpoint) : Prop :=
  let '(data, hdr, state) := c in HasLineage hdr = true /\ signature_valid data hdr state = true.
(** [b] follows [a] in the lineage of key [pk]. *)
Definition follows (pk prevHash : bytes) (prevTick : Z) (b : checkpoint) : Prop :=
  let '(data, hdr, state) := b in
  signed b /\ PrevHash hdr = prevHash /\ AgentPubKey hdr = pk /\ prevTick < TickNumber hdr.
Fixpoint chain_from (pk prevHash : bytes) (prevTick : Z) (l : list checkpoint) : Prop :=
  match l with
  | [] => True
  | (data, hdr, state) :: l =>
      follows pk prevHash prevTick (data, hdr, state) /\ chain_from pk (ContentHash data) (TickNumber hdr) l
  end.
Definition chain_ok (l : list checkpoint) : Prop :=
  match l with
  | [] => False
  | (data, hdr, state) :: l =>
      (HasLineage hdr = true -> signature_valid data hdr state = true) /\
      chain_from (AgentPubKey hdr) (ContentHash data) (TickNumber hdr) l
  end.

(** The condition under which the step at index [i] adds no error. *)
Definition clean_at (i : nat) (cs : chainState) (c : checkpoint) : Prop :=
  match i with
  | O => let '(data, hdr, state) := c in HasLineage hdr = true -> signature_valid data hdr state = true
  | S _ => follows (agentPubKey cs) (prevContentHash cs) (prevTick cs) c
  end.

Lemma Errors_err_if b e r : Errors (err_if b e r) = Errors r ++ (if b then [e] else []).
Proof. unfold err_if. destruct b; [done|by rewrite app_nil_r]. Qed.

Lemma ChainValid_err_if b e r : ChainValid (err_if b e r) = ChainValid r.
Proof. by destruct b. Qed.

Lemma updateSegments_spec hdr r cs r' cs' :
  updateSegments hdr r cs = (r', cs') ->
  Errors r' = Errors r /\ ChainValid r' = ChainValid r /\ agentPubKey cs' = agentPubKey cs.
Proof.
  unfold updateSegments. destruct (currentSegment cs) as [c|]; [destruct (negb _)|]; by intros [= <- <-].
Qed.

Definition lineage_clean (i : nat) (cs : chainState) (c : checkpoint) : Prop :=
  let '(data, hdr, state) := c in
  match i with
  | O => HasLineage hdr = true -> signature_valid data hdr state = true
  | S _ => signed c /\ PrevHash hdr = prevContentHash cs /\ AgentPubKey hdr = agentPubKey cs
  end.
Lemma verifyLineage_spec i data hdr state r cs :
  exists es, Errors (verifyLineage cs i data hdr state r) = Errors r ++ es /\
    ChainValid (verifyLineage cs i data hdr state r) = ChainValid r /\
    (es = [] <-> lineage_clean i cs (data, hdr, state)).
Proof.
  unfold verifyLineage, lineage_clean, signed. destruct (HasLineage hdr); cbn [negb].
  - destruct i as [|i]; cbn [Nat.ltb Nat.leb]; rewrite !ChainValid_err_if, !Errors_err_if, <- ?app_assoc;
      (eexists; split; [reflexivity|]; split; [done|]);
      destruct (signature_valid data hdr state); repeat case_bool_decide; cbn; naive_solver.
  - rewrite ChainValid_err_if, Errors_err_if. eexists. split; [reflexivity|]. split; [done|].
    destruct i; cbn; naive_solver.
Qed.

Lemma verifyCheckpoint_spec i data hdr state r cs r' cs' :
  verifyCheckpoint i data hdr state r cs = (r', cs') ->
  (exists es, Errors r' = Errors r ++ es /\ (es = [] <-> clean_at i cs (data, hdr, state))) /\
  ChainValid r' = ChainValid r /\
  prevContentHash cs' = ContentHash data /\ prevTick cs' = TickNumber hdr /\
  agentPubKey cs' = (if (i =? 0)%nat && HasLineage hdr then AgentPubKey hdr else agentPubKey cs).
Proof.
  unfold verifyCheckpoint. intros E.
  set (init := if (i =? 0)%nat then _ else _) in E.
  assert (Errors (fst init) = Errors r /\ ChainValid (fst init) = ChainValid r /\
    prevContentHash (snd init) = prevContentHash cs /\ prevTick (snd init) = prevTick cs /\
    agentPubKey (snd init) = (if (i =? 0)%nat && HasLineage hdr then AgentPubKey hdr else agentPubKey cs))
    as (I1 & I2 & I3 & I4 & I5).
  { unfold init. destruct (i =? 0)%nat; [|done]. by destruct (HasLineage hdr). }
  destruct init as [r0 cs0]. cbn [fst snd] in *.
  set (r1 := err_if _ _ _) in E. destruct (verifyLineage_spec i data hdr state r1 cs0) as (es & He & Hv & Hes).
  destruct (updateSegments _ _ _) as [r2 cs2] eqn:Eu. apply updateSegments_spec in Eu as (U1 & U2 & U3).
  injection E as <- <-. cbn [prevContentHash prevTick agentPubKey].
  split; [|split_and!; [by rewrite U2, Hv; unfold r1; rewrite ChainValid_err_if|done|done|by rewrite U3]].
  rewrite U1, He. unfold r1. rewrite Errors_err_if. cbn [set_last Errors]. rewrite I1, <- app_assoc.
  eexists. split; [reflexivity|]. rewrite I4. destruct i as [|i]; cbn [Nat.ltb Nat.leb andb app].
  - by rewrite Hes.
  - unfold clean_at, follows. unfold lineage_clean in Hes. rewrite I3, I5 in Hes. cbn [Nat.eqb andb] in Hes.
    destruct (Z.leb_spec (TickNumber hdr) (prevTick cs)); cbn.
    + split; [done|]. intros (_ & _ & _ & ?). lia.
    + rewrite Hes. naive_solver.
Qed.

Definition first_key (c : checkpoint) : bytes := let '(_, hdr, _) := c in if HasLineage hdr then AgentPubKey hdr else [].

(** From the second file on: no error is added exactly when every file parses
    and follows its predecessor. *)
Lemma chain_files_spec readFile files : forall i r cs,
  exists es, Errors (chain_files readFile (S i) files r cs) = Errors r ++ es /\
    ChainValid (chain_files readFile (S i) files r cs) = ChainValid r /\
    (es = [] <-> exists l, mapM (examine readFile) files = Some l /\
                   chain_from (agentPubKey cs) (prevContentHash cs) (prevTick cs) l).
Proof.
  induction files as [|f files IH]; intros i r cs; cbn [chain_files].
  { exists []. rewrite app_nil_r. split_and!; [done..|]. split; [intros _; by exists []|done]. }
  assert (forall e, examine readFile f = None ->
    exists es, Errors (chain_files readFile (S (S i)) files (addError e r) cs) = Errors r ++ es /\
      ChainValid (chain_files readFile (S (S i)) files (addError e r) cs) = ChainValid r /\
      (es = [] <-> exists l, mapM (examine readFile) (f :: files) = Some l /\
        chain_from (agentPubKey cs) (prevContentHash cs) (prevTick cs) l)) as Hbad.
  { intros e Hf. destruct (IH (S i) (addError e r) cs) as (es & He & Hv & _). exists (e :: es).
    rewrite He, Hv. split_and!; [by cbn; rewrite <- app_assoc|done|]. split; [done|].
    intros (l & Hl & _). cbn in Hl. by rewrite Hf in Hl. }
  destruct (readFile f) as [data|] eqn:Hf; [|apply Hbad; unfold examine; by rewrite Hf].
  destruct (ParseCheckpointHeader data) as [[hdr state]|e] eqn:Hp; [|apply Hbad; unfold examine; rewrite Hf; cbn; by rewrite Hp].
  destruct (verifyCheckpoint (S i) data hdr state (count_checkpoint r) cs) as [r1 cs1] eqn:E.
  destruct (verifyCheckpoint_spec _ _ _ _ _ _ _ _ E) as ((es1 & He1 & Hc1) & Hv1 & Hh & Ht & Hk). cbn [Nat.eqb andb] in Hk.
  destruct (IH (S i) r1 cs1) as (es2 & He2 & Hv2 & Hc2). exists (es1 ++ es2).
  rewrite He2, He1, Hv2, Hv1, app_assoc. split_and!; [done..|].
  assert (examine readFile f = Some (data, hdr, state)) as Hx by (unfold examine; rewrite Hf; cbn; by rewrite Hp).
  rewrite Hh, Ht, Hk in Hc2. cbn [mapM]. rewrite Hx. cbn. split.
  - intros [E1 E2]%app_nil. apply Hc1 in E1. apply Hc2 in E2 as (l & -> & Hl). by exists ((data, hdr, state) :: l).
  - intros (l & Hl & Hch). destruct (mapM (examine readFile) files) as [l'|]; [|done]. injection Hl as <-.
    destruct Hch as [H1 H2]. assert (es1 = []) as -> by (by apply Hc1). assert (es2 = []) as -> by (apply Hc2; eauto). done.
Qed.


Lemma examine_parsed readFile f data hdr state :
  examine readFile f = Some (data, hdr, state) -> readFile f = Some data /\ ParseCheckpointHeader data = Ok (hdr, state).
Proof. unfold examine. destruct (readFile f); [|done]. cbn. destruct (ParseCheckpointHeader _) as [[? ?]|] eqn:?; intros ?; by simplify_eq. Qed.

Lemma examine_key readFile f c : examine readFile f = Some c -> first_key c = AgentPubKey (snd (fst c)).
Proof.
  destruct c as [[data hdr] state]. intros [_ Hp]%examine_parsed. unfold first_key. cbn.
  destruct (HasLineage hdr) eqn:E; [done|]. by destruct (p_unsigned _ _ _ (parse_parsed _ _ _ Hp) E).
Qed.

(** [VerifyChain] accepts a history directory exactly when every
    checkpoint file reads and parses, the first is unsigned or carries a valid
    signature, and each later one, in file order, is a signed checkpoint of
    the first one's key, with a valid signature, whose previous-hash field is
    the content hash of the file before it and whose tick number is larger. *)
Theorem verify_chain_correct readDir readFile dir files :
  listCheckpointFiles readDir dir = Ok files ->
  exists r, VerifyChain readDir readFile dir = Ok r /\
    (ChainValid r = true <-> exists l, mapM (examine readFile) files = Some l /\ chain_ok l).
Proof.
  intros Hfiles. unfold VerifyChain. rewrite Hfiles. cbn.
  set (r0 := mkChain [] "" 0 0 0 true [] []). set (cs0 := mkState (zeros 32) 0 None []).
  assert (exists es, Errors (chain_files readFile 0 files r0 cs0) = es /\ ChainValid (chain_files readFile 0 files r0 cs0) = true /\
    (es = [] <-> exists l, mapM (examine readFile) files = Some l /\ chain_ok l)) as (es & He & Hv & Hes).
  { assert (files <> []) as Hne.
    { unfold listCheckpointFiles in Hfiles. destruct (readDir dir) as [es|]; [|done].
      destruct (_ <$> _) as [|f fs] eqn:Ef; [done|]. injection Hfiles as <-. intros Hx.
      pose proof (merge_sort_Permutation string_le (f :: fs)) as Hperm. unfold sort_strings in Hx. rewrite Hx in Hperm.
      by apply Permutation_nil in Hperm. }
    destruct files as [|f files]; [done|]. cbn [chain_files].
    assert (forall e, examine readFile f = None ->
      exists es, Errors (chain_files readFile 1 files (addError e r0) cs0) = es /\
        ChainValid (chain_files readFile 1 files (addError e r0) cs0) = true /\
        (es = [] <-> exists l, mapM (examine readFile) (f :: files) = Some l /\ chain_ok l)) as Hbad.
    { intros e Hf. destruct (chain_files_spec readFile files 0 (addError e r0) cs0) as (es & He & Hv & _).
      rewrite He, Hv. eexists. split; [reflexivity|]. split; [done|]. split; [done|].
      intros (l & Hl & _). cbn in Hl. by rewrite Hf in Hl. }
    destruct (readFile f) as [data|] eqn:Hf; [|apply Hbad; unfold examine; by rewrite Hf].
    destruct (ParseCheckpointHeader data) as [[hdr state]|e] eqn:Hp; [|apply Hbad; unfold examine; rewrite Hf; cbn; by rewrite Hp].
    destruct (verifyCheckpoint 0 data hdr state (count_checkpoint r0) cs0) as [r1 cs1] eqn:E.
    destruct (verifyCheckpoint_spec _ _ _ _ _ _ _ _ E) as ((es1 & He1 & Hc1) & Hv1 & Hh & Ht & Hk).
    destruct (chain_files_spec readFile files 0 r1 cs1) as (es2 & He2 & Hv2 & Hc2).
    exists (es1 ++ es2). rewrite He2, He1, Hv2, Hv1. split_and!; [done..|].
    assert (examine readFile f = Some (data, hdr, state)) as Hx by (unfold examine; rewrite Hf; cbn; by rewrite Hp).
    assert (agentPubKey cs1 = AgentPubKey hdr) as Hk' by (rewrite Hk; exact (examine_key readFile f _ Hx)).
    rewrite Hh, Ht, Hk' in Hc2. cbn [mapM]. rewrite Hx. cbn. split.
    - intros [E1 E2]%app_nil. apply Hc1 in E1. apply Hc2 in E2 as (l & -> & Hl). by exists ((data, hdr, state) :: l).
    - intros (l & Hl & Hch). destruct (mapM (examine readFile) files) as [l'|]; [|done]. injection Hl as <-.
      destruct Hch as [Hx1 Hx2]. assert (es1 = []) as -> by (by apply Hc1). assert (es2 = []) as -> by (apply Hc2; eauto). done. }
  eexists. split; [reflexivity|]. rewrite He, <- Hes. case_bool_decide as Hd; [|by cbn]. by rewrite Hv.
Qed.

(** *** Tamper evidence *)
Definition contents (c : checkpoint) : bytes := fst (fst c).
(** Two different byte strings among [l] with the same content hash. *)
Definition collision (l : list bytes) : Prop :=
  exists x y, x ∈ l /\ y ∈ l /\ x <> y /\ ContentHash x = ContentHash y.
Definition well_parsed (c : checkpoint) : Prop := ParseCheckpointHeader (contents c) = Ok (snd (fst c), snd c).

Lemma chain_from_app pk h t l c l' :
  chain_from pk h t (l ++ c :: l') -> chain_from pk h t (l ++ [c]).
Proof.
  revert h t. induction l as [|[[d hdr] s] l IH]; intros h t; cbn.
  - destruct c as [[d hdr] s]. by intros [? _].
  - intros [? Hl]. split; [done|]. by apply IH.
Qed.
Lemma chain_from_last pk h t l a b :
  chain_from pk h t (l ++ [a; b]) -> PrevHash (snd (fst b)) = ContentHash (contents a).
Proof.
  revert h t. induction l as [|[[d hdr] s] l IH]; intros h t; cbn.
  - destruct a as [[da ha] sa], b as [[db hb] sb]. intros (_ & (_ & Hb & _) & _). exact Hb.
  - intros [_ Hl]. by eapply IH.
Qed.
Lemma chain_ok_last l a b : chain_ok (l ++ [a; b]) -> PrevHash (snd (fst b)) = ContentHash (contents a).
Proof.
  destruct l as [|[[d hdr] s] l]; cbn.
  - destruct a as [[da ha] sa], b as [[db hb] sb]. intros (_ & (_ & Hb & _) & _). exact Hb.
  - intros [_ Hl]. by eapply chain_from_last.
Qed.
Lemma chain_ok_init l a b : chain_ok (l ++ [a; b]) -> chain_ok (l ++ [a]).
Proof.
  destruct l as [|[[d hdr] s] l]; cbn.
  - destruct a as [[da ha] sa]. by intros [? _].
  - intros [? Hl]. split; [done|]. by eapply chain_from_app.
Qed.

Lemma chains_agree n : forall l1 l2,
  length l1 = n -> length l2 = n -> chain_ok l1 -> chain_ok l2 ->
  Forall well_parsed l1 -> Forall well_parsed l2 ->
  contents <$> last l1 = contents <$> last l2 ->
  contents <$> l1 = contents <$> l2 \/ collision ((contents <$> l1) ++ (contents <$> l2)).
Proof.
  induction n as [|n IH]; intros l1 l2 Hn1 Hn2 H1 H2 W1 W2 Hl; [by destruct l1|].
  destruct l1 as [|b1 l1 _] using rev_ind; [done|]. destruct l2 as [|b2 l2 _] using rev_ind; [done|].
  rewrite length_app in Hn1, Hn2. cbn in Hn1, Hn2. rewrite !last_snoc in Hl. injection Hl as Hb.
  rewrite !fmap_app. cbn [fmap list_fmap map]. rewrite Hb.
  destruct l1 as [|a1 l1 _] using rev_ind; [left; destruct l2; [done|cbn in Hn1, Hn2; lia]|].
  destruct l2 as [|a2 l2 _] using rev_ind; [cbn in Hn1, Hn2; rewrite length_app in Hn1; cbn in Hn1; lia|].
  rewrite <- app_assoc in H1, H2. cbn [app] in H1, H2.
  pose proof (chain_ok_last _ _ _ H1) as P1. pose proof (chain_ok_last _ _ _ H2) as P2.
  apply Forall_app in W1 as [W1 Wb1], W2 as [W2 Wb2]. rewrite Forall_singleton in Wb1, Wb2.
  unfold well_parsed in Wb1, Wb2. rewrite Hb in Wb1. rewrite Wb1 in Wb2. injection Wb2 as Hh _.
  rewrite Hh, P2 in P1.
  destruct (decide (contents a1 = contents a2)) as [Ea|Ea].
  - destruct (IH (l1 ++ [a1]) (l2 ++ [a2])) as [E|(x & y & Hx & Hy & Hxy)]; try done; try lia.
    + by eapply chain_ok_init.
    + by eapply chain_ok_init.
    + rewrite !last_snoc. cbn. by rewrite Ea.
    + left. by rewrite E.
    + right. destruct Hxy as [Hxy Hxc]. exists x, y. rewrite elem_of_app in Hx, Hy. clear -Hx Hy Hxy Hxc. split_and!; [set_solver|set_solver|done|done].
  - right. exists (contents a1), (contents a2). split_and!; try done.
    + rewrite !fmap_app, !elem_of_app. cbn. set_solver.
    + rewrite !fmap_app, !elem_of_app. cbn. set_solver.
Qed.
Lemma mapM_examine_parsed readFile files l : mapM (examine readFile) files = Some l -> Forall well_parsed l.
Proof.
  intros Hm%mapM_Some_1. eapply Forall2_Forall_r; [exact Hm|]. apply Forall_true.
  intros f [[d h] s] [_ Hp]%examine_parsed. exact Hp.
Qed.
End Facts.

(** ** The claims on histories *)
Section Claims.
Context `{CryptoLaws}.

(** C9: A valid history is tamper evident: two accepted history directories
    with equally many checkpoints that agree on the last one hold the same
    checkpoints, file by file, or exhibit two different checkpoints with the
    same content hash. *)
Theorem history_tamper_evident rd1 rf1 dir1 files1 rd2 rf2 dir2 files2 r1 r2 data1 data2 :
  listCheckpointFiles rd1 dir1 = Ok files1 -> listCheckpointFiles rd2 dir2 = Ok files2 ->
  VerifyChain rd1 rf1 dir1 = Ok r1 -> VerifyChain rd2 rf2 dir2 = Ok r2 ->
  ChainValid r1 = true -> ChainValid r2 = true ->
  mapM rf1 files1 = Some data1 -> mapM rf2 files2 = Some data2 ->
  length files1 = length files2 -> last data1 = last data2 ->
  data1 = data2 \/ collision (data1 ++ data2).
Proof.
  intros F1 F2 E1 E2 V1 V2 D1 D2 Hn Hlast.
  assert (forall rd rf dir files r data, listCheckpointFiles rd dir = Ok files -> VerifyChain rd rf dir = Ok r ->
    ChainValid r = true -> mapM rf files = Some data ->
    exists l, chain_ok l /\ Forall well_parsed l /\ contents <$> l = data /\ length l = length files) as Hkey.
  { clear. intros rd rf dir files r data F E V D.
    destruct (verify_chain_correct rd rf dir files F) as (r' & E' & Hiff). rewrite E in E'. injection E' as <-.
    apply Hiff in V as (l & Hl & Hok). exists l. split_and!; [done|by eapply mapM_examine_parsed| |].
    - apply mapM_Some_1 in Hl, D. clear -Hl D. revert data D. induction Hl as [|f [[d h] s] fs l Hf Hl IH]; intros data D.
      + by inversion D.
      + inversion D as [|? y ? data' Hy HD]; subst. apply examine_parsed in Hf as [Hf _]. rewrite Hf in Hy. injection Hy as <-.
        cbn. f_equal. by apply IH.
    - apply mapM_Some_1, Forall2_length in Hl. done. }
  destruct (Hkey _ _ _ _ _ _ F1 E1 V1 D1) as (l1 & O1 & W1 & <- & L1).
  destruct (Hkey _ _ _ _ _ _ F2 E2 V2 D2) as (l2 & O2 & W2 & <- & L2).
  rewrite !fmap_last in Hlast. by apply (chains_agree (length l1)); [|lia|..].
Qed.

(** Consecutive saves of an agent, each chained to the one before. *)
Definition with_prev (h : bytes) (f : CheckpointFields) : CheckpointFields :=
  mkFields (f_budget f) (f_price f) (f_tick f) (f_wasmHash f) (f_lease f) (f_identity f) h.
Fixpoint save_chain (prev : bytes) (saves : list (CheckpointFields * bytes)) : Prelude.result key_error (list bytes) :=
  match saves with
  | [] => Ok []
  | (f, state) :: saves =>
      match buildCheckpoint (with_prev prev f) state with
      | Err e => Err e
      | Ok (c, prev) => (fun cs => c :: cs) <$> save_chain prev saves
      end
  end.
Definition save_ok (id : AgentIdentity) (s : CheckpointFields * bytes) : Prop :=
  fields_ok (with_prev (zeros 32) (fst s)) /\ f_identity (fst s) = Some id.

Lemma save_chain_step id prev s saves cs :
  identity_ok id -> save_ok id s -> blen prev = 32 -> save_chain prev (s :: saves) = Ok cs ->
  exists c hdr rest, cs = c :: rest /\ save_chain (ContentHash c) saves = Ok rest /\ blen (ContentHash c) = 32 /\
    ParseCheckpointHeader c = Ok (hdr, snd s) /\ signed (c, hdr, snd s) /\ PrevHash hdr = prev /\
    AgentPubKey hdr = PublicKey id /\ TickNumber hdr = f_tick (fst s).
Proof.
  intros Hid [Hok Hfid] Hprev E. destruct s as [f state]. cbn [fst snd] in *. cbn [save_chain] in E.
  destruct (buildCheckpoint (with_prev prev f) state) as [[c h]|] eqn:Eb; [|done].
  assert (fields_ok (with_prev prev f)) as Hok'.
  { destruct Hok. by split. }
  destruct (parse_build (with_prev prev f) state c h Hok') as (sig & Hp & Hs).
  { intros id' Hx. cbn in Hx. rewrite Hfid in Hx. by injection Hx as <-. }
  { done. }
  cbn [with_prev f_identity] in Hs. rewrite Hfid in Hs. destruct Hs as [Hs ->].
  destruct (save_chain (ContentHash c) saves) as [rest|] eqn:Er; [|done]. injection E as <-.
  exists c, (header_of (with_prev prev f) sig), rest. split_and!; try done; cbn;
    rewrite ?Hfid; try done; first [apply sha256_size|idtac].
Qed.

Lemma save_chain_linked id saves : forall prev t cs,
  identity_ok id -> Forall (save_ok id) saves -> blen prev = 32 -> save_chain prev saves = Ok cs ->
  StronglySorted Z.lt (t :: map (fun s => f_tick (fst s)) saves) ->
  exists l, contents <$> l = cs /\ Forall well_parsed l /\ chain_from (PublicKey id) prev t l.
Proof.
  induction saves as [|s saves IH]; intros prev t cs Hid Hf Hprev E Hsort.
  - injection E as <-. by exists [].
  - apply Forall_cons in Hf as [Hs Hf].
    destruct (save_chain_step id prev s saves cs Hid Hs Hprev E) as (c & hdr & rest & -> & Er & Hl & Hp & Hsig & Hph & Hk & Ht).
    inversion Hsort as [|? ? Hsort' Hall]; subst. apply Forall_cons in Hall as [Hlt _].
    cbn [map] in Hsort'. rewrite <- Ht in Hlt, Hsort'.
    destruct (IH (ContentHash c) (TickNumber hdr) rest Hid Hf Hl Er Hsort') as (l & <- & Hw & Hc).
    exists ((c, hdr, snd s) :: l). split; [done|]. split; [by constructor|]. by split.
Qed.

(** C33: The checkpoints an agent writes verify: consecutive saves under one
    identity with a generated key pair, with increasing tick numbers, header
    fields in range (in particular no negative budget: the checkpoint of an
    agent that overspent does not parse) and the previous-hash field
    threaded as [buildCheckpoint] does, give files that [VerifyChain]
    accepts as a valid lineage, wherever they are stored. *)
Theorem saved_chain_verifies id prev saves cs readDir readFile dir files :
  identity_ok id -> Forall (save_ok id) saves -> blen prev = 32 -> save_chain prev saves = Ok cs ->
  StronglySorted Z.lt (map (fun s => f_tick (fst s)) saves) ->
  listCheckpointFiles readDir dir = Ok files -> mapM readFile files = Some cs ->
  exists r, VerifyChain readDir readFile dir = Ok r /\ ChainValid r = true.
Proof.
  intros Hid Hf Hprev E Hsort Hfiles Hread.
  destruct (verify_chain_correct readDir readFile dir files Hfiles) as (r & Hr & Hiff).
  exists r. split; [done|]. apply Hiff. clear Hiff.
  assert (exists l, contents <$> l = cs /\ Forall well_parsed l /\ (saves <> [] -> chain_ok l)) as (l & Hl & Hw & Hc).
  { destruct saves as [|s saves]; [injection E as <-; by exists []|].
    apply Forall_cons in Hf as [Hs Hf].
    destruct (save_chain_step id prev s saves cs Hid Hs Hprev E) as (c & hdr & rest & -> & Er & Hlen & Hp & Hsig & Hph & Hk & Ht).
    cbn [map] in Hsort. rewrite <- Ht in Hsort.
    destruct (save_chain_linked id saves (ContentHash c) (TickNumber hdr) rest Hid Hf Hlen Er Hsort) as (l & <- & Hw & Hc).
    exists ((c, hdr, snd s) :: l). split; [done|]. split; [by constructor|]. intros _. cbn. rewrite Hk. split; [|done].
    intros _. apply Hsig. }
  exists l. split.
  - apply mapM_Some_1 in Hread. apply mapM_Some_2. subst cs. clear -Hread Hw. revert l Hw Hread.
    induction files as [|f fs IH]; intros [|[[d h] s] l] Hw Hread; try by inversion Hread.
    apply Forall_cons in Hw as [Hp Hw]. inversion Hread as [|? ? ? ? Hd HF]; subst. constructor.
    + unfold examine. rewrite Hd. cbn. unfold well_parsed in Hp. cbn in Hp. by rewrite Hp.
    + by apply IH.
  - apply Hc. intros ->. injection E as <-. apply mapM_Some_1, Forall2_nil_inv_r in Hread. subst files.
    unfold listCheckpointFiles in Hfiles. destruct (readDir dir) as [es|]; [|done].
    destruct (_ <$> _) as [|x xs]; [done|]. injection Hfiles as Hx.
    pose proof (merge_sort_Permutation string_le (x :: xs)) as Hperm. unfold sort_strings in Hx. rewrite Hx in Hperm.
    by apply Permutation_nil in Hperm.
Qed.
End Claims.

(** ** Histories written by a running agent *)
Definition ls (d : gmap string bytes) (dir : string) : option (list (string * bool)) :=
  Some ((fun kv => (default "" (last (split_slash (fst kv))), false)) <$>
          filter (fun kv => in_dir dir (fst kv) = true) (map_to_list d)).
Definition history (ops : list agent_op) : gmap string bytes :=
  disk (Instance.Storage (snd (run_agent_ops ops demo))).
Definition demo_dir : string := HistoryDir Instance.demo_fs "agent".
Definition verdict (ops : list agent_op) : option (list Z * list chain_error) :=
  let d := history ops in
  match VerifyChain (ls d) (fun f => d !! f) demo_dir with
  | Ok r => Some ([Checkpoints r; FirstTick r; LastTick r], Errors r)
  | Err _ => None
  end.
Example archive_verifies : verdict [OTick; OSave; OTick; OTick; OSave] = Some ([2; 1; 3], []).
Proof. vm_compute. reflexivity. Qed.
(** Two saves at one tick leave only the first in the archive, and the next
    checkpoint names the second as its predecessor. *)
Example second_save_breaks_chain :
  match verdict [OTick; OSave; OSave; OTick; OSave] with
  | Some (counts, [PrevHashMismatch tick _ _]) => counts = [2; 1; 2] /\ tick = 2
  | _ => False
  end.
Proof. vm_compute. done. Qed.

(** A single unsigned checkpoint passes as a valid lineage. *)
Definition unsigned_dir (dir : string) : option (list (string * bool)) := Some [("0000000003.ckpt", false)].
Definition unsigned_file (f : string) : option bytes :=
  match buildCheckpoint (mkFields 5 1 3 (zeros 32) None None (zeros 32)) [] with Ok (c, _) => Some c | Err _ => None end.
Example unsigned_history_valid :
  match VerifyChain unsigned_dir unsigned_file "history/agent" with
  | Ok r => ChainValid r = true /\ ChainPubKeyHex r = ""%string
  | Err _ => False
  end.
Proof. vm_compute. done. Qed.

Definition demo_disk : gmap string bytes := history [OTick; OSave; OTick; OTick; OSave].
Lemma verify_chain_correct_witness :
  match listCheckpointFiles (ls demo_disk) demo_dir with
  | Ok files => exists r, VerifyChain (ls demo_disk) (fun f => demo_disk !! f) demo_dir = Ok r /\
      (ChainValid r = true <-> exists l, mapM (examine (fun f => demo_disk !! f)) files = Some l /\ chain_ok l)
  | Err _ => False
  end.
Proof.
  assert (is_ok (listCheckpointFiles (ls demo_disk) demo_dir) = true) as Hok by (vm_compute; reflexivity).
  destruct (listCheckpointFiles (ls demo_disk) demo_dir) as [files|e] eqn:E; [|discriminate Hok].
  exact (verify_chain_correct _ _ _ _ E).
Defined.

Definition sample_saves : list (CheckpointFields * bytes) :=
  [(sample_fields, bytes_of "a");
   (mkFields 7 1 (f_tick sample_fields + 1) (zeros 32) None (Some sample_identity) (zeros 32), bytes_of "b")].
Definition saved_files : list bytes := match save_chain (zeros 32) sample_saves with Ok cs => cs | Err _ => [] end.
Definition two_files (dir : string) : option (list (string * bool)) :=
  Some [("0000000002.ckpt", false); ("notes.txt", false); ("0000000001.ckpt", false)].
Definition read_saved (f : string) : option bytes :=
  if bool_decide (f = "h/0000000001.ckpt"%string) then saved_files !! 0%nat else saved_files !! 1%nat.

Lemma saved_chain_verifies_witness : exists r, VerifyChain two_files read_saved "h" = Ok r /\ ChainValid r = true.
Proof.
  apply (saved_chain_verifies sample_identity (zeros 32) sample_saves saved_files two_files read_saved "h"
           ["h/0000000001.ckpt"; "h/0000000002.ckpt"]%string).
  - apply sample_identity_ok.
  - repeat constructor; vm_compute; try done; split; try done; intros; discriminate.
  - reflexivity.
  - vm_compute. reflexivity.
  - repeat constructor.
  - vm_compute. reflexivity.
  - vm_compute. reflexivity.
Defined.

Definition verified (r : Prelude.result chain_fail ChainResult) : bool := match r with Ok r => ChainValid r | Err _ => false end.
Lemma history_tamper_evident_witness : saved_files = saved_files \/ collision (saved_files ++ saved_files).
Proof.
  assert (verified (VerifyChain two_files read_saved "h") = true) as V by (vm_compute; reflexivity).
  destruct (VerifyChain two_files read_saved "h") as [r|] eqn:E; [|discriminate V].
  apply (history_tamper_evident two_files read_saved "h" ["h/0000000001.ckpt"; "h/0000000002.ckpt"]%string
           two_files read_saved "h" ["h/0000000001.ckpt"; "h/0000000002.ckpt"]%string r r); try done;
    vm_compute; reflexivity.
Defined.
