(* ===== verification/Report.v ===== *)
(** * Inspection reports (internal/inspector: Print, printHexDump, PrintChain)

    The text [igord inspect] and [igord verify] write to the standard output,
    with the calendar arithmetic behind [time.RFC3339] and the wording of the
    errors the reports and the commands quote. *)
From S2P Require Import Prelude Budget Strconv Crypto Identity Checkpoint Inspector.
From stdpp Require Import gmap strings pretty.
Open Scope Z_scope.

(** ** Text *)
Definition newline : string := String (ch 10) "".
Definition cat (l : list string) : string := String.concat "" l.
(** [fmt.Fprintf] of a format that ends a line. *)
Definition line (l : list string) : string := cat l +:+ newline.
Definition hex2 (n : Z) : string := EncodeToString [byte_of_Z n].

(** ** time.RFC3339 in UTC *)
(** The proleptic Gregorian date of a day counted from 1970-01-01. *)
Definition civil (days : Z) : Z * Z * Z :=
  let z := days + 719468 in
  let era := z / 146097 in
  let doe := z mod 146097 in
  let yoe := (doe - doe / 1460 + doe / 36524 - doe / 146096) / 365 in
  let doy := doe - (365 * yoe + yoe / 4 - yoe / 100) in
  let mp := (5 * doy + 2) / 153 in
  let m := if mp <? 10 then mp + 3 else mp - 9 in
  (yoe + era * 400 + (if m <=? 2 then 1 else 0), m, doy - (153 * mp + 2) / 5 + 1).
Definition second : Z := 1000000000.
(** ["15:04:05"]. *)
Definition clock_format (seconds : Z) : string :=
  let s := seconds mod 86400 in cat [pad0 2 (s / 3600); ":"; pad0 2 (s mod 3600 / 60); ":"; pad0 2 (s mod 60)].
(** [time.Unix(0, nanos).UTC().Format(time.RFC3339)]. *)
Definition rfc3339 (nanos : Z) : string :=
  let s := nanos / second in
  let '(y, m, d) := civil (s / 86400) in
  cat [pad0 4 y; "-"; pad0 2 m; "-"; pad0 2 d; "T"; clock_format s; "Z"].

(** The day a date falls on: the reference [civil] is checked against. *)
Definition day_of (y m d : Z) : Z :=
  let y := if m <=? 2 then y - 1 else y in
  let era := y / 400 in
  let yoe := y mod 400 in
  let doy := (153 * (if 2 <? m then m - 3 else m + 9) + 2) / 5 + d - 1 in
  era * 146097 + (yoe * 365 + yoe / 4 - yoe / 100 + doy) - 719468.

Lemma yoe_range doe : 0 <= doe < 146097 ->
  let yoe := (doe - doe / 1460 + doe / 36524 - doe / 146096) / 365 in
  0 <= yoe <= 399 /\ 0 <= doe - (365 * yoe + yoe / 4 - yoe / 100) <= 365.
Proof. intros H yoe. unfold yoe. Z.div_mod_to_equations; lia. Qed.
Lemma month_range doy : 0 <= doy <= 365 ->
  let mp := (5 * doy + 2) / 153 in 0 <= mp <= 11 /\ 1 <= doy - (153 * mp + 2) / 5 + 1 <= 31.
Proof. intros H mp. unfold mp. Z.div_mod_to_equations; lia. Qed.
(** A day's date is a date, and the day it falls on is that day. *)
Lemma civil_day days y m d : civil days = (y, m, d) -> day_of y m d = days /\ 1 <= m <= 12 /\ 1 <= d <= 31.
Proof.
  unfold civil. pose proof (Z.mod_pos_bound (days + 719468) 146097 ltac:(lia)) as Hb.
  pose proof (Z.div_mod (days + 719468) 146097 ltac:(lia)) as Hd.
  set (doe := (days + 719468) mod 146097) in *. set (era := (days + 719468) / 146097) in *.
  pose proof (yoe_range doe Hb) as Hy. cbv zeta in Hy. set (yoe := (doe - _ + _ - _) / 365) in *.
  set (doy := doe - (365 * yoe + yoe / 4 - yoe / 100)) in *. destruct Hy as [Hy Hdoy].
  pose proof (month_range doy Hdoy) as Hm. cbv zeta in Hm. set (mp := (5 * doy + 2) / 153) in *.
  intros [= <- <- <-]. unfold day_of. destruct (mp <? 10) eqn:E; zb.
  - replace (mp + 3 <=? 2) with false by (symmetry; zb; lia). replace (2 <? mp + 3) with true by (symmetry; zb; lia).
    rewrite Z.add_0_r, (Z.add_comm yoe), Z.div_add_l, (Z.add_comm (era * 400)), Z.mod_add, Z.div_small, Z.mod_small by lia.
    replace (mp + 3 - 3) with mp by lia. lia.
  - replace (mp - 9 <=? 2) with true by (symmetry; zb; lia). replace (2 <? mp - 9) with false by (symmetry; zb; lia).
    replace (yoe + era * 400 + 1 - 1) with (yoe + era * 400) by lia.
    rewrite Z.div_add, Z.mod_add, Z.div_small, Z.mod_small by lia.
    replace (mp - 9 + 9) with mp by lia. lia.
Qed.
Example a_date : rfc3339 1735701245000000000 = "2025-01-01T03:14:05Z"%string.
Proof. vm_compute. reflexivity. Qed.

(** ** The inspection report *)
(** [printHexDump]: one row of at most 16 bytes. *)
Definition printable (b : Byte.byte) : bool := within 32 126 (Z_of_byte b).
Definition hex_cell (j : nat) (b : Byte.byte) : string := cat [hex2 (Z_of_byte b); " "; if (j =? 7)%nat then " " else ""].
Definition blank_cell (j : nat) : string := cat ["   "; if (j =? 7)%nat then " " else ""].
Definition offset8 (i : Z) : string := EncodeToString (rev (put_u32 i)).
Definition hex_row (i : Z) (row : bytes) : string :=
  line ["  "; offset8 i; "  "; cat (imap hex_cell row); cat (blank_cell <$> seq (length row) (16 - length row)); " |";
        cat ((fun b => String (if printable b then ch (Z_of_byte b) else ch 46) "") <$> row); "|"].
Fixpoint dump_rows (fuel : nat) (i : Z) (data : bytes) : string :=
  match data, fuel with
  | [], _ | _, O => ""
  | _, S fuel => hex_row i (take 16 data) +:+ dump_rows fuel (i + 16) (drop 16 data)
  end.
Definition printHexDump (data : bytes) : string := dump_rows (length data) 0 data.

Definition EpochData_String (e : EpochData) : string := cat ["("; pretty (MajorVersion e); ","; pretty (LeaseGeneration e); ")"].
Definition print_header (r : Result) : string :=
  let h := header r in
  cat [line ["Checkpoint Inspector"]; line ["===================="; newline];
       line ["Version:          "; pretty (Version h); " (0x"; hex2 (Version h); ")"];
       line ["Budget:           "; BudgetFormatted r; " ("; pretty (Checkpoint.Budget h); " microcents)"];
       line ["Price/Second:     "; PriceFormatted r; " ("; pretty (PricePerSecond h); " microcents)"];
       line ["Tick Number:      "; pretty (TickNumber h)];
       line ["WASM Hash:        "; WASMHashHex r];
       if 3 <=? Version h
       then cat [line ["Epoch:            "; EpochData_String (Epoch h)];
                 line ["Lease Expiry:     "; if 0 <? LeaseExpiry h then rfc3339 (LeaseExpiry h) else "(none)"]]
       else ""].
Definition print_lineage (r : Result) : string :=
  if HasLineage (header r)
  then cat [line ["Agent Identity:   "; AgentPubKeyHex r]; line ["Previous Hash:    "; PrevHashHex r];
            match SignatureValid r with
            | Some true => line ["Signature:        VALID"]
            | Some false => line ["Signature:        INVALID"]
            | None => ""
            end;
            line ["Header Size:      209 bytes"]]
  else if 3 <=? Version (header r) then line ["Header Size:      81 bytes"] else line ["Header Size:      57 bytes"].
Definition print_state (r : Result) : string :=
  if 0 <? StateSize r
  then cat [newline; line ["State Hex Dump:"];
            printHexDump (take (Z.to_nat (Z.min 256 (StateSize r))) (State r));
            if 256 <? StateSize r then line ["  ... ("; pretty (StateSize r - 256); " more bytes)"] else ""]
  else "".
Definition Print (r : Result) : string :=
  cat [print_header r; print_lineage r;
       line ["Total Size:       "; pretty (TotalSize r); " bytes"]; line ["State Size:       "; pretty (StateSize r); " bytes"];
       match WASMVerified r with
       | Some true => line ["WASM Verified:    YES (matches "; WASMPath r; ")"]
       | Some false => line ["WASM Verified:    NO (mismatch with "; WASMPath r; ")"]
       | None => ""
       end;
       print_state r].

(** ** Errors in words *)
Definition parse_error_text (e : checkpoint_error) : string :=
  match e with
  | ErrEmpty => "checkpoint empty"
  | ErrVersion v => cat ["unsupported checkpoint version: "; pretty v]
  | ErrShort have need => cat ["checkpoint too short: "; pretty have; " bytes (need "; pretty need; ")"]
  | ErrNegativeBudget b => cat ["checkpoint contains negative budget: "; pretty b]
  | ErrNegativePrice p => cat ["checkpoint contains negative price: "; pretty p]
  end.
Section Words.
(** The operating system's text for a failure on a path, and
    [filepath.Base]. *)
Context (os_error base : string -> string).
Definition chain_error_text (e : chain_error) : string :=
  match e with
  | CannotRead f => cat ["failed to read "; base f; ": "; os_error f]
  | CannotParse f e => cat ["failed to parse "; base f; ": "; parse_error_text e]
  | NonMonotonic tick prev => cat ["tick "; pretty tick; ": non-monotonic (prev was "; pretty prev; ")"]
  | MissingLineage tick => cat ["tick "; pretty tick; ": missing lineage (not v4)"]
  | InvalidSignature tick => cat ["tick "; pretty tick; ": INVALID signature"]
  | PrevHashMismatch tick expected got =>
      cat ["tick "; pretty tick; ": prevHash mismatch (expected "; EncodeToString (take 8 expected); "..., got ";
           EncodeToString (take 8 got); "...)"]
  | IdentityChanged tick => cat ["tick "; pretty tick; ": agent identity changed"]
  end.
Definition chain_fail_text (historyDir : string) (e : chain_fail) : string :=
  match e with
  | ErrReadDir => cat ["read history directory: "; os_error historyDir]
  | ErrNoCheckpoints => cat ["no checkpoint files found in "; historyDir]
  end.

(** ** The chain report *)
Definition print_segment (i : nat) (seg : ChainSegment) : string :=
  line ["  ["; pretty (Z.of_nat i + 1); "] WASM "; String.substring 0 16 (seg_wasm seg); "...  ticks "; pretty (StartTick seg);
        "→"; pretty (EndTick seg); " ("; pretty (Count seg); " checkpoints)"].
Definition PrintChain (r : ChainResult) : string :=
  cat [line ["Checkpoint Lineage Verifier"]; line ["==========================="; newline];
       if bool_decide (AgentDID r = []) then "" else line ["Agent:          "; string_of (AgentDID r)];
       if bool_decide (ChainPubKeyHex r = ""%string) then "" else line ["Public Key:     "; ChainPubKeyHex r];
       line ["Checkpoints:    "; pretty (Checkpoints r)];
       line ["Tick Range:     "; pretty (FirstTick r); " → "; pretty (LastTick r)];
       if 0 <? blen (Segments r) then cat [newline; line ["Execution Segments:"]; cat (imap print_segment (Segments r))] else "";
       newline;
       if ChainValid r
       then line ["Lineage:        VALID (all "; pretty (Checkpoints r); " signatures verified, chain unbroken)"]
       else line ["Lineage:        INVALID ("; pretty (blen (Errors r)); " errors)"] +:+
            cat ((fun e => line ["  - "; chain_error_text e]) <$> Errors r)].
End Words.
