(* ===== verification/Timeline.v ===== *)
(** * Incident timelines (internal/timeline)

    Events, the timeline that collects them and the three reports rendered
    from it, as the text they write.  Timestamps are Unix nanoseconds;
    [time.Format] prints them in the local zone, given as the offset in
    seconds at an instant. *)
From S2P Require Import Prelude Strconv.
From S2P Require Report.
Open Scope Z_scope.

Inductive EventKind :=
| KindStateChange | KindCheckpoint | KindCrash | KindMigration | KindReplay | KindSideEffect | KindSkippedAction
| KindCompletion | KindInfo.
#[export] Instance EventKind_eq_dec : EqDecision EventKind.
Proof. solve_decision. Defined.
Record Event := mkEvent {
  Timestamp : Z; Node : string; TickNumber : Z; Kind : EventKind; Summary : string; Details : list string }.
Record SafetyCheck := mkCheck { Label : string; Passed : bool }.
Record Timeline := mkTimeline { CaseID : string; AgentID : string; Events : list Event }.
Definition New (caseID agentID : string) : Timeline := mkTimeline caseID agentID [].
Definition Add (ev : Event) (t : Timeline) : Timeline := mkTimeline (CaseID t) (AgentID t) (Events t ++ [ev]).

Definition separator : string := "===============================================================".
Abbreviation cat := Report.cat.
Abbreviation line := Report.line.

Section Render.
Context (zone : Z -> Z).
(** [ts.Format("15:04:05")]. *)
Definition clock (nanos : Z) : string := Report.clock_format (nanos / Report.second + zone nanos).
Definition render_event (ev : Event) : string :=
  let prefix := if bool_decide (Kind ev = KindCrash) then " ✗"%string else " "%string in
  cat [line [prefix; " "; clock (Timestamp ev); "  "; Summary ev];
       cat ((fun d => line ["            "; d]) <$> Details ev); line []].
Definition Render (t : Timeline) : string :=
  cat [line []; line [separator]; line [" INCIDENT TIMELINE — Case "; CaseID t]; line [" Agent: "; AgentID t];
       line [" Generated by Igor replay engine"]; line [separator]; line []; cat (render_event <$> Events t)].
End Render.
Definition check_mark (c : SafetyCheck) : string := if Passed c then "✓" else "✗".
Definition RenderSafetySummary (checks : list SafetyCheck) : string :=
  cat [line [separator]; line [" SAFETY SUMMARY"]; cat ((fun c => line [" "; check_mark c; " "; Label c]) <$> checks);
       line [separator]; line []].
Fixpoint Repeat (s : string) (n : nat) : string := match n with O => "" | S n => s +:+ Repeat s n end.
Definition RenderComparison : string :=
  let rule := line [Repeat "—" 63] in
  cat [line []; rule; line [" COMPARISON: Naive Worker vs Igor"]; rule; line [];
       line [" Naive Worker (typical automation):"]; line [];
       line ["   Finalize called"]; line ["   Process crashed"]; line ["   Process restarted"];
       line ["   State unclear — did finalize go through?"]; line ["   Options:"];
       line ["     a) Retry finalize  -> risk: double execution"]; line ["     b) Skip finalize   -> risk: stuck transaction"];
       line ["     c) Wake up human   -> cost: hours of investigation"]; line [];
       line [" Igor Worker:"]; line [];
       line ["   Finalize intent recorded with idempotency key"]; line ["   Node failed"];
       line ["   Agent migrated, resumed from checkpoint"]; line ["   Replay verified — intent already committed, skip duplicate"];
       line ["   Ack received, case completed"]; line ["   Timeline generated — full incident proof"]; line [];
       rule; line []].
