(* ===== verification/Migration.v ===== *)
(** * Migration between nodes (internal/migration, pkg/protocol)

    Retry classification and backoff, the migration package, the source side
    ([MigrateAgent], [MigrateAgentWithRetry], finalisation) and the target
    side ([handleIncomingMigration]).  Instances live on a heap and the table
    of active agents holds their addresses, because the source compares
    pointers before it removes one.  The nodes a source can reach and what the
    network does to each attempt are part of the world the source acts on. *)
From S2P Require Import Prelude GoFloat Crypto EventLog Manifest Storage Wasm Hostcall Replay ToyGuest Instance.
From S2P Require Authority Identity Checkpoint.
From stdpp Require Import gmap strings pretty.
Open Scope Z_scope.

(** ** retry.go *)
Record RetryConfig := mkRetry { MaxAttempts : Z; InitialDelay : Z; MaxDelay : Z; BackoffFactor : float64 }.
Definition second : Z := Authority.second.
Definition DefaultRetryConfig : RetryConfig := mkRetry 3 (1 * second) (30 * second) (f64_of_Z 2).

(** A Go error: its text and whether [errors.Is(err, ErrTransferSent)]. *)
Record migrate_error := mkError { msg : string; wraps_sent : bool }.

(** [strings.Contains]. *)
Fixpoint Contains (s sub : string) : bool :=
  String.prefix sub s || match s with EmptyString => false | String _ s => Contains s sub end.
Definition fatalPrefixes : list string :=
  ["WASM hash"; "WASM binary hash mismatch"; "capability check failed"; "agent migration policy disabled";
   "lease handoff transition"]%string.
Definition rejected_prefix : string := "target failed to start agent: ".
Definition TrimPrefix (p s : string) : string :=
  if String.prefix p s then String.substring (String.length p) (String.length s - String.length p) s else s.
Definition IsRetriable (err : option migrate_error) : bool :=
  match err with
  | None => false
  | Some e =>
      if wraps_sent e then false
      else if existsb (Contains (msg e)) fatalPrefixes then false
      else if String.prefix rejected_prefix (msg e) &&
              existsb (Contains (TrimPrefix rejected_prefix (msg e))) fatalPrefixes then false
      else true
  end.
Definition IsAmbiguous (err : option migrate_error) : bool :=
  match err with None => false | Some e => wraps_sent e end.

Definition BackoffDelay (cfg : RetryConfig) (attempt : Z) : Z :=
  let delay := f64_mul (f64_of_Z (InitialDelay cfg)) (pow_f64 (BackoffFactor cfg) attempt) in
  let delay := if f64_ltb (f64_of_Z (MaxDelay cfg)) delay then f64_of_Z (MaxDelay cfg) else delay in
  i64_of_f64 delay.
Example default_backoff :
  BackoffDelay DefaultRetryConfig <$> [0; 1; 2; 3; 4; 5; 6] =
    [1000000000; 2000000000; 4000000000; 8000000000; 16000000000; 30000000000; 30000000000].
Proof. vm_compute. reflexivity. Qed.

(** ** pkg/protocol/messages.go *)
Record ReplayData := mkReplayData { PreTickState : bytes; rd_tick : Z; rd_entries : list (Z * bytes) }.
Record AgentPackage := mkPackage {
  pkg_AgentID : string; WASMBinary : bytes; pkg_WASMHash : bytes; pkg_Checkpoint : bytes; ManifestData : bytes;
  pkg_Budget : Z; pkg_Price : Z; pkg_Replay : option ReplayData; pkg_Receipts : bytes;
  pkg_Major : Z; pkg_Generation : Z; pkg_Identity : bytes }.
Record AgentStarted := mkStarted { st_AgentID : string; st_NodeID : string; Success : bool; st_Error : string }.

(** The texts [Error()] gives the errors of the other packages. *)
Class ErrorText := {
  manifest_text : manifest_error -> string;
  checkpoint_text : Checkpoint.checkpoint_error -> string;
  replay_text : failure -> string;
  identity_text : Identity.identity_error -> string;
  storage_text : storage_error -> string;
  instance_text : instance_error -> string }.

(** ** replay.go *)
Section ReplayData.
Context {W : Wasm} `{Crypto} `{JSON} {St : Type} `{Provider St}.

Definition replayDataFromInstance (inst : Instance (St := St)) (checkpoint : bytes) : option ReplayData :=
  match LatestSnapshot inst with
  | None => None
  | Some snap =>
      match SnapLog snap with
      | None => None
      | Some log =>
          match Checkpoint.ExtractAgentState checkpoint with
          | Err _ => None
          | Ok storedState =>
              if negb (bool_decide (sha256 storedState = PostStateHash snap)) then None
              else Some (mkReplayData (PreState snap) (EventLog.TickNumber log)
                           ((fun e => (u16 (entry_id e), Payload e)) <$> entries log))
          end
      end
  end.
End ReplayData.
Definition toTickLog (rd : ReplayData) : TickLog :=
  mkTickLog (rd_tick rd) ((fun e => mkRef (fst e) (OnHeap (snd e))) <$> rd_entries rd) [] 0.

(** ** The service of one node *)
Section Service.
Context {W : Wasm} `{Crypto} `{JSON} `{ErrorText} {St : Type} `{Provider St}.

Record Service := mkService {
  storage : St;
  heap : gmap nat (Inst * Instance (St := St));
  activeAgents : gmap string nat;
  (** [runtimeEngine]: the agents' modules in its wazero runtime, by name
      (Engine.v), which is all that is ever asked of it *)
  runtimeEngine : gset string;
  replayMode : string;
  price : Z;
  leaseConfig : Authority.LeaseConfig;
  nodeCapabilities : option (list string);
  signing_key : option bytes;
  host_id : string;
  s_env : Env }.
Definition with_storage (x : St) (s : Service) : Service :=
  mkService x (heap s) (activeAgents s) (runtimeEngine s) (replayMode s) (price s) (leaseConfig s) (nodeCapabilities s) (signing_key s) (host_id s) (s_env s).
Definition with_heap (x : gmap nat (Inst * Instance (St := St))) (s : Service) : Service :=
  mkService (storage s) x (activeAgents s) (runtimeEngine s) (replayMode s) (price s) (leaseConfig s) (nodeCapabilities s) (signing_key s) (host_id s) (s_env s).
Definition with_active (x : gmap string nat) (s : Service) : Service :=
  mkService (storage s) (heap s) x (runtimeEngine s) (replayMode s) (price s) (leaseConfig s) (nodeCapabilities s) (signing_key s) (host_id s) (s_env s).
Definition with_runtime (x : gset string) (s : Service) : Service :=
  mkService (storage s) (heap s) (activeAgents s) x (replayMode s) (price s) (leaseConfig s) (nodeCapabilities s) (signing_key s) (host_id s) (s_env s).

(** [signingKey]: the host's private key, if it is an Ed25519 one. *)
Definition signingKey (privKey : option bytes) : option bytes :=
  raw ← privKey; if blen raw =? 64 then Some raw else None.
Definition NewService (privKey : option bytes) (id : string) (env : Env) (st : St) (mode : string) (pricePerSecond : Z)
    (leaseCfg : Authority.LeaseConfig) : Service :=
  mkService st ∅ ∅ ∅ mode pricePerSecond leaseCfg None (signingKey privKey) id env.
Definition RegisterAgent (agentID : string) (addr : nat) (s : Service) : Service :=
  with_active (<[agentID := addr]> (activeAgents s)) s.
Definition GetActiveInstance (agentID : string) (s : Service) : option nat := activeAgents s !! agentID.
Definition GetActiveAgents (s : Service) : list string := fst <$> map_to_list (activeAgents s).
Definition SetNodeCapabilities (caps : option (list string)) (s : Service) : Service :=
  mkService (storage s) (heap s) (activeAgents s) (runtimeEngine s) (replayMode s) (price s) (leaseConfig s) caps (signing_key s) (host_id s) (s_env s).

(** The lease of the active instance of an agent, and writing it back. *)
Definition getLease (agentID : string) (s : Service) : option (nat * Authority.Lease) :=
  addr ← activeAgents s !! agentID;
  '(m, i) ← heap s !! addr;
  l ← Lease i;
  Some (addr, l).
Definition put_lease (addr : nat) (l : Authority.Lease) (s : Service) : Service :=
  with_heap (alter (fun mi => (fst mi, set_Lease (Some l) (snd mi))) addr (heap s)) s.

(** *** The incoming side *)
Definition validateIncomingManifest (m : Manifest) (s : Service) : string :=
  let policy := ManifestMigrationPolicy m in
  let need := MaxMemoryBytes (ManifestResourceLimits m) in
  if match policy with Some p => negb (Enabled p) | None => false end then "agent migration policy disabled"
  else if match policy with
          | Some p => (0 <? MaxPricePerSecond p) && (MaxPricePerSecond p <? price s)
          | None => false
          end
  then "node price " +:+ pretty (price s) +:+ " exceeds agent max " +:+
         pretty (default 0 (MaxPricePerSecond <$> policy))
  else if (0 <? need) && (DefaultMaxMemoryBytes <? need)
  then "agent requires " +:+ pretty need +:+ " bytes memory, node provides " +:+ pretty DefaultMaxMemoryBytes
  else
    match ValidateAgainstNode (Some (ManifestCapabilities m)) (default NodeCapabilities (nodeCapabilities s)) with
    | Err e => "capability check failed: " +:+ manifest_text e
    | Ok _ => ""
    end.

(** [Some reason] rejects the package. *)
Definition verifyMigrationReplay (pkg : AgentPackage) (rd : ReplayData) : option string :=
  match ParseCapabilityManifest (ManifestData pkg) with
  | Err e => Some ("replay verification failed: invalid manifest: " +:+ manifest_text e)%string
  | Ok capManifest =>
      match Checkpoint.ExtractAgentState (pkg_Checkpoint pkg) with
      | Err e => Some ("replay verification failed: " +:+ checkpoint_text e)%string
      | Ok postTickState =>
          let r := ReplayTick (WASMBinary pkg) (Some capManifest) (PreTickState rd) (toTickLog rd) (Some postTickState) in
          match Error r with
          | Some e => Some ("replay verification failed: " +:+ replay_text e)%string
          | None =>
              if negb (Verified r)
              then Some ("replay divergence at tick " +:+ pretty (res_tick r) +:+ ", first diff byte " +:+
                           pretty (FirstDiffByte r))%string
              else None
          end
      end
  end.

(** The outer [None] is the death of the process in a write. *)
Definition restoreAgentIdentity (pkg : AgentPackage) (st : St)
    : option (result Identity.identity_error (option Identity.AgentIdentity)) * St :=
  if blen (pkg_Identity pkg) =? 0 then (Some (Ok None), st)
  else
    match Identity.UnmarshalBinary (pkg_Identity pkg) with
    | Err e => (Some (Err e), st)
    | Ok id =>
        match prov_SaveIdentity st (pkg_AgentID pkg) (pkg_Identity pkg) with
        | (Crashed, st) => (None, st)
        | (Returned _, st) => (Some (Ok (Some id)), st)
        end
    end.

(** [LoadAgentFromBytes]: the runtime refuses a second module of the agent's
    name; an agent refused for a missing export is not closed and keeps its
    name.  A module without a name (the empty ID) is anonymous and takes
    none. *)
Definition module_name (name : string) : gset string := if bool_decide (name = ""%string) then ∅ else {[name]}.
Definition load_named (pkg : AgentPackage) (ident : option Identity.AgentIdentity) (st : St) (s : Service)
    : result instance_error (Inst * Instance (St := St)) * gset string :=
  let name := pkg_AgentID pkg in
  let r := LoadAgentFromBytes (WASMBinary pkg) name st (pkg_Budget pkg) (pkg_Price pkg) (ManifestData pkg)
             (signing_key s) (host_id s) ident (s_env s) in
  if bool_decide (name ∈ runtimeEngine s) then
    (match r with
     | Err (ErrManifest _ as e) | Err (ErrMemoryLimit _ as e) | Err (ErrCompile as e) => Err e
     | _ => Err ErrInstantiate
     end, runtimeEngine s)
  else
    (r, match r with Ok _ | Err (ErrMissingExport _) => module_name name ∪ runtimeEngine s | _ => runtimeEngine s end).

(** The loaded instance, or the text of the error, with the storage and the
    runtime as left. *)
Definition loadMigratedAgent (pkg : AgentPackage) (s : Service)
    : option (result string (Inst * Instance (St := St))) * Service :=
  match restoreAgentIdentity pkg (storage s) with
  | (None, st) => (None, with_storage st s)
  | (Some (Err e), st) => (Some (Err ("invalid agent identity: " +:+ identity_text e)%string), with_storage st s)
  | (Some (Ok ident), st) =>
      let s := with_storage st s in
      match load_named pkg ident st s with
      | (Err e, names) => (Some (Err ("load agent: " +:+ instance_text e)%string), with_runtime names s)
      | (Ok (m, i), names) =>
          match Init m i with
          | (Err e, _, _) => (Some (Err ("init agent: " +:+ instance_text e)%string), s)
          | (Ok _, m, i) =>
              match LoadCheckpointFromStorage m i with
              | (Err e, _, _) => (Some (Err ("resume agent: " +:+ instance_text e)%string), s)
              | (Ok _, m, i) => (Some (Ok (m, i)), with_runtime names s)
              end
          end
      end
  end.

Definition deleteOrphanedCheckpoint (agentID : string) (st : St) : St := snd (prov_DeleteCheckpoint st agentID).

Definition reject (pkg : AgentPackage) (s : Service) (text : string) : AgentStarted :=
  mkStarted (pkg_AgentID pkg) (host_id s) false text.
Definition replay_reject (pkg : AgentPackage) (s : Service) : option string :=
  if bool_decide (replayMode s = "on-migrate") || bool_decide (replayMode s = "full")
  then pkg_Replay pkg ≫= verifyMigrationReplay pkg
  else None.

(** [None]: the process died while writing to its disk.  [now] is the clock
    when the lease is granted. *)
Definition handleIncomingMigration (now : Authority.time) (pkg : AgentPackage) (s : Service)
    : option AgentStarted * Service :=
  if negb (blen (pkg_WASMHash pkg) =? 32) then (Some (reject pkg s "WASM hash missing or invalid length"), s)
  else if negb (bool_decide (sha256 (WASMBinary pkg) = pkg_WASMHash pkg))
  then (Some (reject pkg s "WASM binary hash mismatch"), s)
  else
    match replay_reject pkg s with
    | Some text => (Some (reject pkg s text), s)
    | None =>
        match ParseManifest (ManifestData pkg) with
        | Err e => (Some (reject pkg s ("invalid manifest: " +:+ manifest_text e)%string), s)
        | Ok fullManifest =>
            let rejectMsg := validateIncomingManifest fullManifest s in
            if negb (bool_decide (rejectMsg = ""%string)) then (Some (reject pkg s rejectMsg), s)
            else
              match prov_SaveCheckpoint (storage s) (pkg_AgentID pkg) (pkg_Checkpoint pkg) with
              | (Crashed, st) => (None, with_storage st s)
              | (Returned (Err e), st) => (Some (reject pkg s (storage_text e)), with_storage st s)
              | (Returned (Ok _), st) =>
                  match (if blen (pkg_Receipts pkg) =? 0 then (Returned (Ok tt), st)
                         else prov_SaveReceipts st (pkg_AgentID pkg) (pkg_Receipts pkg)) with
                  | (Crashed, st) => (None, with_storage st s)
                  | (Returned _, st) =>
                      match loadMigratedAgent pkg (with_storage st s) with
                      | (None, s) => (None, s)
                      | (Some (Err text), s) =>
                          (Some (reject pkg s text),
                           with_storage (deleteOrphanedCheckpoint (pkg_AgentID pkg) (storage s)) s)
                      | (Some (Ok (m, i)), s) =>
                          let i := if 0 <? Authority.Duration (leaseConfig s)
                                   then set_Lease (Some (Authority.NewLeaseFromMigration (pkg_Major pkg) (leaseConfig s) now)) i
                                   else i in
                          let addr := fresh (dom (heap s)) in
                          let s := with_heap (<[addr := (m, i)]> (heap s)) s in
                          (Some (mkStarted (pkg_AgentID pkg) (host_id s) true ""), RegisterAgent (pkg_AgentID pkg) addr s)
                      end
                  end
              end
        end
    end.

(** *** The outgoing side *)
Definition buildMigrationPackage (readFile : string -> option bytes) (agentID wasmPath : string) (s : Service)
    : result string (AgentPackage * option nat) :=
  match readFile wasmPath with
  | None => Err "failed to read WASM binary"%string
  | Some wasmBinary =>
      let manifestData := LoadSidecarData readFile wasmPath "" in
      match prov_LoadCheckpoint (storage s) agentID with
      | Err e => Err ("failed to load checkpoint: " +:+ storage_text e)%string
      | Ok checkpoint =>
          let '(budgetVal, pricePerSecond, major, generation) :=
            match Checkpoint.ParseCheckpointHeader checkpoint with
            | Ok (hdr, _) => (Checkpoint.Budget hdr, Checkpoint.PricePerSecond hdr,
                              Checkpoint.MajorVersion (Checkpoint.Epoch hdr), Checkpoint.LeaseGeneration (Checkpoint.Epoch hdr))
            | Err _ => (0, 0, 0, 0)
            end in
          let receiptData := match prov_LoadReceipts (storage s) agentID with Ok d => d | Err _ => [] end in
          let localInstance := activeAgents s !! agentID in
          let inst := snd <$> (localInstance ≫= fun a => heap s !! a) in
          Ok (mkPackage agentID wasmBinary (sha256 wasmBinary) checkpoint manifestData budgetVal pricePerSecond
                (inst ≫= fun i => replayDataFromInstance i checkpoint) receiptData major generation
                (match inst ≫= AgentIdentity with Some id => Identity.MarshalBinary id | None => [] end),
              localInstance)
      end
  end.

(** [cleanupLocalAgent]. *)
Definition cleanupLocalAgent (agentID : string) (st : St) : St :=
  match prov_DeleteCheckpoint st agentID with
  | (Err _, st) => st
  | (Ok _, st) =>
      let '(_, st) := prov_DeleteReceipts st agentID in
      let '(_, st) := prov_DeleteIdentity st agentID in st
  end.

(** The lease of the instance at an address. *)
Definition lease_at (addr : nat) (s : Service) : option Authority.Lease := heap s !! addr ≫= fun mi => Lease (snd mi).
Definition on_lease (f : Authority.Lease -> Authority.Lease) (addr : nat) (s : Service) : Service :=
  match lease_at addr s with None => s | Some l => put_lease addr (f l) s end.

Definition finalizeMigration (agentID : string) (localInstance : option nat) (s : Service) : Service :=
  let s := match localInstance with
           | None => s
           | Some addr => on_lease (fun l => snd (Authority.TransitionToRetired l)) addr s
           end in
  let s := match localInstance with
           | None => s
           | Some addr =>
               if bool_decide (activeAgents s !! agentID = Some addr)
               then with_runtime (runtimeEngine s ∖ {[agentID]}) (with_active (delete agentID (activeAgents s)) s)
               else s
           end in
  with_storage (cleanupLocalAgent agentID (storage s)) s.

Definition revertHandoff (agentID : string) (s : Service) : Service :=
  match activeAgents s !! agentID with
  | None => s
  | Some addr => on_lease (fun l => snd (Authority.RevertHandoff l)) addr s
  end.

(** What the network does to one attempt: it fails before the whole package is
    sent, the package is sent and never arrives, or it arrives and the
    confirmation comes back or does not.  The flag says whether the context
    is cancelled in the wait that may follow. *)
Inductive delivery := NotSent (text : string) | Lost | Arrives (now : Authority.time) (answered : bool).
Record attempt := mkAttempt { deliver : delivery; cancelled : bool }.
Record World := mkWorld { me : Service; peers : gmap string Service; net : list attempt }.
Definition set_me (s : Service) (w : World) : World := mkWorld s (peers w) (net w).
Definition set_peer (a : string) (s : Service) (w : World) : World := mkWorld (me w) (<[a := s]> (peers w)) (net w).
Definition next_attempt (w : World) : attempt * World :=
  match net w with
  | [] => (mkAttempt (NotSent "failed to connect to target peer") false, w)
  | a :: net => (a, mkWorld (me w) (peers w) net)
  end.

Definition ErrTransferSent : migrate_error :=
  mkError "failed to read confirmation: transfer sent but confirmation not received" true.
(** A process that died keeps its disk and nothing else. *)
Definition restarted (s : Service) : Service := with_runtime ∅ (with_active ∅ (with_heap ∅ s)).

Definition migrateToTarget (d : delivery) (target : string) (pkg : AgentPackage) (w : World)
    : option migrate_error * World :=
  match peers w !! target with
  | None => (Some (mkError "failed to connect to target peer" false), w)
  | Some p =>
      match d with
      | NotSent text => (Some (mkError text false), w)
      | Lost => (Some ErrTransferSent, w)
      | Arrives now answered =>
          match handleIncomingMigration now pkg p with
          | (None, p) => (Some ErrTransferSent, set_peer target (restarted p) w)
          | (Some started, p) =>
              let w := set_peer target p w in
              if negb answered then (Some ErrTransferSent, w)
              else if Success started then (None, w)
              else (Some (mkError (rejected_prefix +:+ st_Error started)%string false), w)
          end
      end
  end.

Inductive verdict := Migrated | Ambiguous (e : migrate_error) | Cancelled | TryNext.
Fixpoint try_target (k : nat) (n : Z) (cfg : RetryConfig) (target : string) (pkg : AgentPackage) (w : World)
    : verdict * World :=
  match k with
  | O => (TryNext, w)
  | S k =>
      let '(a, w) := next_attempt w in
      let '(err, w) := migrateToTarget (deliver a) target pkg w in
      match err with
      | None => (Migrated, w)
      | Some e =>
          if IsAmbiguous err then (Ambiguous e, w)
          else if negb (IsRetriable err) then (TryNext, w)
          else if (n <? MaxAttempts cfg - 1) && cancelled a then (Cancelled, w)
          else try_target k (n + 1) cfg target pkg w
      end
  end.
Fixpoint try_targets (cfg : RetryConfig) (targets : list string) (pkg : AgentPackage) (w : World)
    : verdict * string * World :=
  match targets with
  | [] => (TryNext, ""%string, w)
  | t :: targets =>
      match try_target (Z.to_nat (MaxAttempts cfg)) 0 cfg t pkg w with
      | (TryNext, w) => try_targets cfg targets pkg w
      | (v, w) => (v, t, w)
      end
  end.

Definition target_list (primary : string) (candidates : list string) : list string :=
  (if bool_decide (primary = ""%string) then [] else [primary]) ++ filter (fun c => c <> primary) candidates.

Inductive migrate_fail :=
| FailHandoff (e : Authority.lease_error) | FailPackage (text : string) | FailNoTargets | FailAmbiguous (e : migrate_error)
| FailCancelled | FailExhausted | FailTransfer (e : migrate_error).

(** [TransitionToHandoff] of the active instance's lease, if it has one. *)
Definition beginHandoff (agentID : string) (s : Service) : option Authority.lease_error * Service :=
  match getLease agentID s with
  | None => (None, s)
  | Some (addr, l) =>
      match Authority.TransitionToHandoff l with
      | (Err e, _) => (Some e, s)
      | (Ok _, l) => (None, put_lease addr l s)
      end
  end.

Definition MigrateAgentWithRetry (readFile : string -> option bytes) (agentID wasmPath primaryTarget : string)
    (candidates : list string) (retryCfg : RetryConfig) (w : World) : result migrate_fail string * World :=
  let li := activeAgents (me w) !! agentID in
  let '(err, s) := beginHandoff agentID (me w) in
  match err with
  | Some e => (Err (FailHandoff e), w)
  | None =>
      let w := set_me s w in
      match buildMigrationPackage readFile agentID wasmPath s with
      | Err text => (Err (FailPackage text), set_me (revertHandoff agentID s) w)
      | Ok (pkg, localInstance) =>
          match target_list primaryTarget candidates with
          | [] => (Err FailNoTargets, set_me (revertHandoff agentID s) w)
          | targets =>
              match try_targets retryCfg targets pkg w with
              | (Migrated, target, w) => (Ok target, set_me (finalizeMigration agentID localInstance (me w)) w)
              | (Ambiguous e, _, w) =>
                  (Err (FailAmbiguous e),
                   match li with
                   | None => w
                   | Some addr => set_me (on_lease (Authority.with_state Authority.StateRecoveryRequired) addr (me w)) w
                   end)
              | (Cancelled, _, w) => (Err FailCancelled, set_me (revertHandoff agentID (me w)) w)
              | (TryNext, _, w) => (Err FailExhausted, set_me (revertHandoff agentID (me w)) w)
              end
          end
      end
  end.

(** The command line's single attempt, which never reverts the handoff. *)
Definition MigrateAgent (readFile : string -> option bytes) (agentID wasmPath target : string) (w : World)
    : result migrate_fail unit * World :=
  let '(err, s) := beginHandoff agentID (me w) in
  match err with
  | Some e => (Err (FailHandoff e), w)
  | None =>
      let w := set_me s w in
      match buildMigrationPackage readFile agentID wasmPath s with
      | Err text => (Err (FailPackage text), w)
      | Ok (pkg, localInstance) =>
          let '(a, w) := next_attempt w in
          match migrateToTarget (deliver a) target pkg w with
          | (Some e, w) => (Err (FailTransfer e), w)
          | (None, w) => (Ok tt, set_me (finalizeMigration agentID localInstance (me w)) w)
          end
      end
  end.
End Service.

(** ** Single ownership *)
Section Ownership.
Context {W : Wasm} `{Crypto} `{JSON} `{ErrorText} {St : Type} `{Provider St}.
Implicit Types (s p : Service (St := St)) (w : World (St := St)).

(** The agents a node holds and their instances, leases included. *)
Definition same_agents s s' : Prop :=
  activeAgents s' = activeAgents s /\ heap s' = heap s /\ leaseConfig s' = leaseConfig s.
Lemma same_agents_refl s : same_agents s s.
Proof. done. Qed.
Lemma same_agents_trans s1 s2 s3 : same_agents s1 s2 -> same_agents s2 s3 -> same_agents s1 s3.
Proof. unfold same_agents. intros (? & ? & ?) (? & ? & ?). split_and!; congruence. Qed.

(** [p'] runs the packaged agent under a lease one major version on. *)
Definition accepted (now : Authority.time) (pkg : AgentPackage) p p' : Prop :=
  exists addr m i, activeAgents p' = <[pkg_AgentID pkg := addr]> (activeAgents p) /\
    heap p !! addr = None /\ heap p' = <[addr := (m, i)]> (heap p) /\
    (0 < Authority.Duration (leaseConfig p) ->
     Lease i = Some (Authority.NewLeaseFromMigration (pkg_Major pkg) (leaseConfig p) now)).

Lemma loadMigratedAgent_agents pkg s r s' :
  loadMigratedAgent pkg s = (r, s') -> same_agents s s'.
Proof.
  unfold loadMigratedAgent. intros E.
  destruct (restoreAgentIdentity pkg (storage s)) as [[[ident|e]|] st]; [|by injection E as <- <-|by injection E as <- <-].
  destruct (load_named pkg ident st (with_storage st s)) as [[[m i]|e] names]; [|by injection E as <- <-].
  destruct (Init m i) as [[[[]|e] m1] i1]; [|by injection E as <- <-].
  destruct (LoadCheckpointFromStorage m1 i1) as [[[[]|e] m2] i2]; by injection E as <- <-.
Qed.

Lemma handleIncoming_agents now pkg p r p' :
  handleIncomingMigration now pkg p = (r, p') ->
  match r with
  | Some started => if Success started then accepted now pkg p p' else same_agents p p'
  | None => True
  end.
Proof.
  unfold handleIncomingMigration. intros E.
  destruct (negb _); [by injection E as <- <-|]. destruct (negb _); [by injection E as <- <-|].
  destruct (replay_reject pkg p); [by injection E as <- <-|].
  destruct (ParseManifest (ManifestData pkg)) as [fm|e]; [|by injection E as <- <-].
  destruct (negb _); [by injection E as <- <-|].
  destruct (prov_SaveCheckpoint _ _ _) as [[[[]|e]|] st]; [|by injection E as <- <-..].
  destruct (if blen (pkg_Receipts pkg) =? 0 then _ else _) as [[r0|] st1]; [|by injection E as <- <-].
  destruct (loadMigratedAgent pkg (with_storage st1 p)) as [[[[m i]|text]|] s1] eqn:El; [| |by injection E as <- <-];
    apply loadMigratedAgent_agents in El as (Ha & Hh & Hc); cbn in Ha, Hh, Hc; injection E as <- <-; cbn.
  - exists (fresh (dom (heap s1))), m, (if 0 <? Authority.Duration (leaseConfig s1)
        then set_Lease (Some (Authority.NewLeaseFromMigration (pkg_Major pkg) (leaseConfig s1) now)) i else i).
    cbn. rewrite ?Ha, ?Hh, ?Hc. split_and!; [done| |done|].
    + apply not_elem_of_dom. apply is_fresh.
    + intros Hd. by destruct (Z.ltb_spec 0 (Authority.Duration (leaseConfig p))); [|lia].
  - by split.
Qed.

Definition peers_same w w' : Prop :=
  forall a p', peers w' !! a = Some p' -> exists p, peers w !! a = Some p /\ same_agents p p'.
Lemma peers_same_refl w w' : peers w' = peers w -> peers_same w w'.
Proof. intros Hp a p' Ha. rewrite Hp in Ha. by exists p'. Qed.
Lemma peers_same_trans w1 w2 w3 : peers_same w1 w2 -> peers_same w2 w3 -> peers_same w1 w3.
Proof.
  intros H12 H23 a p3 Ha. destruct (H23 a p3 Ha) as (p2 & Ha2 & S2). destruct (H12 a p2 Ha2) as (p1 & Ha1 & S1).
  exists p1. split; [done|]. by eapply same_agents_trans.
Qed.

(** [target] took the agent and no other peer changed what it runs. *)
Definition took_over (pkg : AgentPackage) (target : string) w w' : Prop :=
  exists now p p', peers w !! target = Some p /\ peers w' !! target = Some p' /\ accepted now pkg p p' /\
    forall a q', a <> target -> peers w' !! a = Some q' -> exists q, peers w !! a = Some q /\ same_agents q q'.

Definition outcome_ok (pkg : AgentPackage) (v : verdict) (target : string) w w' : Prop :=
  me w' = me w /\
  match v with
  | Migrated => took_over pkg target w w'
  | Ambiguous _ => True
  | Cancelled | TryNext => peers_same w w'
  end.

Lemma took_over_later pkg target w w1 w' : peers_same w w1 -> took_over pkg target w1 w' -> took_over pkg target w w'.
Proof.
  intros Hs (now & p & p' & Hp & Hp' & (addr & m & i & E1 & E2 & E3 & E4) & Ho).
  destruct (Hs target p Hp) as (p0 & Hp0 & Ha & Hh & Hc). rewrite Ha, Hh, Hc in *.
  exists now, p0, p'. split_and!; [done..|by exists addr, m, i|].
  intros a q' Hne Hq. destruct (Ho a q' Hne Hq) as (q1 & Hq1 & S1). destruct (Hs a q1 Hq1) as (q & Hq0 & S0).
  exists q. split; [done|]. by eapply same_agents_trans.
Qed.

Lemma migrateToTarget_outcome d target pkg w err w' :
  migrateToTarget d target pkg w = (err, w') ->
  me w' = me w /\
  match err with
  | None => took_over pkg target w w'
  | Some e => wraps_sent e = false -> peers_same w w'
  end.
Proof.
  unfold migrateToTarget. intros E. destruct (peers w !! target) as [p|] eqn:Hp.
  2: { injection E as <- <-. split; [done|]. intros _. by apply peers_same_refl. }
  destruct d as [text| |now answered].
  - injection E as <- <-. split; [done|]. intros _. by apply peers_same_refl.
  - by injection E as <- <-.
  - destruct (handleIncomingMigration now pkg p) as [[started|] p'] eqn:Eh; [|by injection E as <- <-].
    apply handleIncoming_agents in Eh. destruct answered; cbn [negb] in E; [|by injection E as <- <-].
    destruct (Success started); injection E as <- <-; (split; [done|]).
    + exists now, p, p'. cbn. split_and!; [done|by rewrite lookup_insert_eq|done|].
      intros a q' Ha Hq. rewrite lookup_insert_ne in Hq by done. by exists q'.
    + intros _ a q' Hq. cbn in Hq. destruct (decide (a = target)) as [->|Ha].
      * rewrite lookup_insert_eq in Hq. injection Hq as <-. by exists p.
      * rewrite lookup_insert_ne in Hq by done. by exists q'.
Qed.

Lemma IsAmbiguous_false e : IsAmbiguous (Some e) = false -> wraps_sent e = false.
Proof. done. Qed.
Lemma next_attempt_same w a w' : next_attempt w = (a, w') -> me w' = me w /\ peers w' = peers w.
Proof. unfold next_attempt. destruct (net w); by intros [= <- <-]. Qed.

Lemma outcome_later pkg v target w w1 w' :
  me w1 = me w -> peers_same w w1 -> outcome_ok pkg v target w1 w' -> outcome_ok pkg v target w w'.
Proof.
  intros Hm Hs [Hm' Hv]. split; [congruence|]. destruct v; [by eapply took_over_later|done|by eapply peers_same_trans..].
Qed.

Lemma try_target_outcome cfg target pkg k : forall n w v w',
  try_target k n cfg target pkg w = (v, w') -> outcome_ok pkg v target w w'.
Proof.
  induction k as [|k IH]; intros n w v w' E; cbn [try_target] in E.
  { injection E as <- <-. split; [done|]. by apply peers_same_refl. }
  destruct (next_attempt w) as [a w1] eqn:En. apply next_attempt_same in En as [Hm1 Hp1].
  destruct (migrateToTarget (deliver a) target pkg w1) as [err w2] eqn:Em.
  apply migrateToTarget_outcome in Em as [Hm2 Hout].
  assert (peers_same w w1) as Hs1 by by apply peers_same_refl.
  apply (outcome_later pkg v target w w1 w' Hm1 Hs1).
  destruct err as [e|]; [|injection E as <- <-; by split].
  destruct (IsAmbiguous (Some e)) eqn:Ea; [injection E as <- <-; by split|].
  specialize (Hout Ea).
  destruct (negb (IsRetriable (Some e))); [injection E as <- <-; by split|].
  destruct (_ && _); [injection E as <- <-; by split|].
  exact (outcome_later pkg v target w1 w2 w' Hm2 Hout (IH _ _ _ _ E)).
Qed.

Lemma try_targets_outcome cfg pkg targets : forall w v t w',
  try_targets cfg targets pkg w = (v, t, w') -> outcome_ok pkg v t w w'.
Proof.
  induction targets as [|t targets IH]; intros w v t' w' E; cbn [try_targets] in E.
  { injection E as <- <- <-. split; [done|]. by apply peers_same_refl. }
  destruct (try_target _ _ _ _ _ _) as [v1 w1] eqn:Et. apply try_target_outcome in Et.
  destruct v1; try (by injection E as <- <- <-). destruct Et as [Hm Hs].
  exact (outcome_later pkg v t' w w1 w' Hm Hs (IH _ _ _ _ E)).
Qed.

Lemma lease_at_put addr l l0 s : lease_at addr s = Some l0 -> lease_at addr (put_lease addr l s) = Some l.
Proof.
  unfold lease_at, put_lease. cbn. rewrite lookup_alter_eq. destruct (heap s !! addr) as [[m i]|]; [|done]. done.
Qed.
Lemma lease_at_on f addr l s : lease_at addr s = Some l -> lease_at addr (on_lease f addr s) = Some (f l).
Proof. intros Hl. unfold on_lease. rewrite Hl. by eapply lease_at_put. Qed.
Lemma active_on f addr s : activeAgents (on_lease f addr s) = activeAgents s.
Proof. unfold on_lease. by destruct (lease_at addr s). Qed.

Lemma getLease_at agentID s addr l :
  getLease agentID s = Some (addr, l) <-> activeAgents s !! agentID = Some addr /\ lease_at addr s = Some l.
Proof.
  unfold getLease, lease_at. split.
  - intros (a & Ha & Hb)%bind_Some. apply bind_Some in Hb as ([m i] & Hh & Hb).
    apply bind_Some in Hb as (l' & Hl & E). injection E as <- <-. by rewrite Hh.
  - intros [-> Hl]. cbn. destruct (heap s !! addr) as [[m i]|]; [|done]. cbn in *. by rewrite Hl.
Qed.

Lemma build_local readFile agentID wasmPath s pkg li :
  buildMigrationPackage readFile agentID wasmPath s = Ok (pkg, li) ->
  li = activeAgents s !! agentID /\ pkg_AgentID pkg = agentID /\
  exists c, prov_LoadCheckpoint (storage s) agentID = Ok c /\ pkg_Checkpoint pkg = c /\
    forall hdr st, Checkpoint.ParseCheckpointHeader c = Ok (hdr, st) ->
      pkg_Major pkg = Checkpoint.MajorVersion (Checkpoint.Epoch hdr).
Proof.
  unfold buildMigrationPackage. destruct (readFile wasmPath); [|done].
  destruct (prov_LoadCheckpoint (storage s) agentID) as [c|]; [|done].
  destruct (Checkpoint.ParseCheckpointHeader c) as [[hdr st]|e] eqn:Ep; intros [= <- <-]; cbn;
    (split_and!; [done..|]); exists c; (split_and!; [done..|]); rewrite Ep; by intros ? ? [= <- <-].
Qed.

(** C8: Migration keeps a single owner.  When [MigrateAgentWithRetry] returns
    for an agent that runs here under a lease: on success the source's lease
    is RETIRED, the agent is gone from the source's table, exactly the
    reported target took it over, under a lease of the next major version
    (when it uses leases), and no other node changed what it runs; on failure
    the source's lease can tick again only if no node took the agent over,
    whatever the network lost, delivered or left unanswered and whichever
    targets crashed. *)
Theorem migration_single_owner readFile agentID wasmPath primary candidates cfg w r w' addr l :
  getLease agentID (me w) = Some (addr, l) ->
  MigrateAgentWithRetry readFile agentID wasmPath primary candidates cfg w = (r, w') ->
  exists l', lease_at addr (me w') = Some l' /\
    match r with
    | Ok target =>
        Authority.lease_state l' = Authority.StateRetired /\ activeAgents (me w') !! agentID = None /\
        exists pkg, pkg_AgentID pkg = agentID /\ took_over pkg target w w'
    | Err _ => Authority.CanTick (Authority.lease_state l') = true -> peers_same w w'
    end.
Proof.
  intros Hl E. unfold MigrateAgentWithRetry, beginHandoff in E. rewrite Hl in E.
  apply getLease_at in Hl as [Hact Hat]. rewrite Hact in E. unfold Authority.TransitionToHandoff in E.
  destruct (decide (Authority.lease_state l <> Authority.StateActiveOwner)) as [Hn|Hn].
  { injection E as <- <-. exists l. split; [done|]. intros _. by apply peers_same_refl. }
  set (l1 := Authority.with_state Authority.StateHandoffInitiated l) in *.
  set (s := put_lease addr l1 (me w)) in *.
  assert (lease_at addr s = Some l1) as Hs by (by eapply lease_at_put).
  assert (activeAgents s !! agentID = Some addr) as Hsa by done.
  assert (forall s', lease_at addr s' = Some l1 -> activeAgents s' !! agentID = Some addr ->
    lease_at addr (revertHandoff agentID s') = Some (Authority.with_state Authority.StateActiveOwner l1)) as Hrev.
  { intros s' Hs' Ha. unfold revertHandoff. rewrite Ha. by rewrite (lease_at_on _ _ _ _ Hs'). }
  destruct (buildMigrationPackage readFile agentID wasmPath s) as [[pkg li]|text] eqn:Eb.
  2: { injection E as <- <-. eexists. split; [by apply Hrev|]. intros _. by apply peers_same_refl. }
  apply build_local in Eb as (-> & Hid & _).
  destruct (target_list primary candidates) as [|t ts].
  { injection E as <- <-. eexists. split; [by apply Hrev|]. intros _. by apply peers_same_refl. }
  destruct (try_targets cfg (t :: ts) pkg (set_me s w)) as [[v target] w1] eqn:Et.
  apply try_targets_outcome in Et as [Hm Hv]. cbn in Hm.
  destruct v; injection E as <- <-; cbn [me set_me]; rewrite ?Hm.
  - rewrite Hact. unfold finalizeMigration.
    set (f := fun l => snd (Authority.TransitionToRetired l)).
    assert (activeAgents (on_lease f addr s) !! agentID = Some addr) as Hact2 by (by rewrite active_on).
    rewrite bool_decide_true by done. exists (f l1). split_and!.
    + change (lease_at addr (on_lease f addr s) = Some (f l1)). by apply lease_at_on.
    + done.
    + cbn. by rewrite lookup_delete_eq.
    + exists pkg. split; [done|]. exact Hv.
  - exists (Authority.with_state Authority.StateRecoveryRequired l1). split; [by apply lease_at_on|done].
  - eexists. split; [by apply Hrev|]. intros _. exact Hv.
  - eexists. split; [by apply Hrev|]. intros _. exact Hv.
Qed.
End Ownership.

(** ** What a node checks before it accepts an agent *)
Section Incoming.
Context {W : Wasm} `{Crypto} `{JSON} `{ErrorText} {St : Type} `{Provider St} `{!ProviderLaws St}.
Implicit Types (s p : Service (St := St)).

(** A successful restore, when there was a checkpoint. *)
Lemma load_ok_inv m (i : Instance (St := St)) c m' i' :
  prov_LoadCheckpoint (Storage i) (AgentID i) = Ok c ->
  LoadCheckpointFromStorage m i = (Ok tt, m', i') ->
  exists hdr state i0, Checkpoint.ParseCheckpointHeader c = Ok (hdr, state) /\
    Checkpoint.WASMHash hdr = WASMHash i /\
    (Checkpoint.HasLineage hdr = true -> Checkpoint.signature_valid c hdr state = true) /\
    Resume state m i0 = (Ok tt, m', i') /\ Budget i0 = Checkpoint.Budget hdr /\
    PricePerSecond i0 = Checkpoint.PricePerSecond hdr /\ TickNumber i0 = Checkpoint.TickNumber hdr.
Proof.
  intros Hl. unfold LoadCheckpointFromStorage. rewrite Hl.
  destruct (Checkpoint.ParseCheckpointHeader c) as [[hdr state]|e]; [|done].
  case_bool_decide as Hw; cbn [negb]; [|done].
  destruct (Checkpoint.HasLineage hdr && negb (Checkpoint.signature_valid c hdr state)) eqn:Es; [done|].
  intros E. exists hdr, state. eexists. split_and!; [done..| |exact E| | |].
  - intros Hh. rewrite Hh in Es. by destruct (Checkpoint.signature_valid c hdr state).
  - match goal with |- context [restore_receipts ?x] => destruct (restore_receipts_fields x) as (-> & _) end.
    by destruct (Checkpoint.HasLineage hdr).
  - match goal with |- context [restore_receipts ?x] => destruct (restore_receipts_fields x) as (_ & -> & _) end.
    by destruct (Checkpoint.HasLineage hdr).
  - match goal with |- context [restore_receipts ?x] => destruct (restore_receipts_fields x) as (_ & _ & -> & _) end.
    by destruct (Checkpoint.HasLineage hdr).
Qed.

(** The restored instance of a package whose checkpoint is in storage. *)
Definition restored (pkg : AgentPackage) (m : Inst) (i : Instance (St := St)) : Prop :=
  exists hdr state m0 i0, Checkpoint.ParseCheckpointHeader (pkg_Checkpoint pkg) = Ok (hdr, state) /\
    Checkpoint.WASMHash hdr = sha256 (WASMBinary pkg) /\
    (Checkpoint.HasLineage hdr = true -> Checkpoint.signature_valid (pkg_Checkpoint pkg) hdr state = true) /\
    Resume state m0 i0 = (Ok tt, m, i) /\ Budget i0 = Checkpoint.Budget hdr /\
    PricePerSecond i0 = Checkpoint.PricePerSecond hdr /\ TickNumber i0 = Checkpoint.TickNumber hdr.

Lemma loadMigratedAgent_restored pkg s m i s' :
  prov_LoadCheckpoint (storage s) (pkg_AgentID pkg) = Ok (pkg_Checkpoint pkg) ->
  loadMigratedAgent pkg s = (Some (Ok (m, i)), s') -> restored pkg m i.
Proof.
  intros Hl. unfold loadMigratedAgent. destruct (restoreAgentIdentity pkg (storage s)) as [[[ident|e]|] st] eqn:Er; [|done..].
  assert (prov_LoadCheckpoint st (pkg_AgentID pkg) = Ok (pkg_Checkpoint pkg)) as Hl'.
  { unfold restoreAgentIdentity in Er. destruct (_ =? 0); [by injection Er as _ <-|].
    destruct (Identity.UnmarshalBinary _); [|done].
    destruct (prov_SaveIdentity _ _ _) as [[r|] st1] eqn:Es; [|done]. injection Er as _ <-.
    by rewrite (prov_identity_keep_checkpoint _ _ _ _ _ Es). }
  unfold load_named, LoadAgentFromBytes. case_bool_decide; [by destruct (loadAgent _ _ _ _ _ _ _ _ _ _) as [[? ?]|[]]|].
  destruct (loadAgent _ _ _ _ _ _ _ _ _ _) as [[m1 i1]|e] eqn:Ea; [|done].
  destruct (loadAgent_fields _ _ _ _ _ _ _ _ _ _ _ _ Ea) as (Hst & Hid & Hw & _).
  destruct (Init m1 i1) as [[[[]|e] m2] i2] eqn:Ei; [|done]. destruct (Init_touched _ _ _ _ _ Ei) as (b & l & n & ->).
  destruct (LoadCheckpointFromStorage m2 _) as [[[[]|e] m3] i3] eqn:El; [|done]. intros [= <- <- <-].
  apply (load_ok_inv _ _ (pkg_Checkpoint pkg)) in El as (hdr & state & i0 & Hp & Hwh & Hsig & Hrest).
  - exists hdr, state, m2, i0. cbn in Hwh. rewrite Hw in Hwh. done.
  - cbn. by rewrite Hst, Hid.
Qed.

(** What a node went through before it confirmed. *)
Lemma handleIncoming_ok now pkg p started p' :
  handleIncomingMigration now pkg p = (Some started, p') -> Success started = true ->
  bool_decide (sha256 (WASMBinary pkg) = pkg_WASMHash pkg) = true /\ replay_reject pkg p = None /\
  (exists fm, ParseManifest (ManifestData pkg) = Ok fm /\ validateIncomingManifest fm p = ""%string) /\
  exists st o st1 m i s1, prov_SaveCheckpoint (storage p) (pkg_AgentID pkg) (pkg_Checkpoint pkg) = (Returned (Ok tt), st) /\
    (if blen (pkg_Receipts pkg) =? 0 then (Returned (Ok tt), st) else prov_SaveReceipts st (pkg_AgentID pkg) (pkg_Receipts pkg)) = (Returned o, st1) /\
    loadMigratedAgent pkg (with_storage st1 p) = (Some (Ok (m, i)), s1) /\
    exists addr, activeAgents p' !! pkg_AgentID pkg = Some addr /\
      heap p' !! addr = Some (m, if 0 <? Authority.Duration (leaseConfig p)
        then set_Lease (Some (Authority.NewLeaseFromMigration (pkg_Major pkg) (leaseConfig p) now)) i else i).
Proof.
  unfold handleIncomingMigration. intros E Hsucc.
  destruct (negb (blen (pkg_WASMHash pkg) =? 32)); [injection E as <- <-; done|].
  destruct (bool_decide (sha256 _ = _)); cbn [negb] in E; [|injection E as <- <-; done].
  destruct (replay_reject pkg p) as [text|]; [injection E as <- <-; done|].
  destruct (ParseManifest (ManifestData pkg)) as [fm|e]; [|injection E as <- <-; done].
  case_bool_decide as Hv; cbn [negb] in E; [|injection E as <- <-; done].
  destruct (prov_SaveCheckpoint _ _ _) as [[[[]|e]|] st] eqn:Es; [|injection E as <- <-; done|done].
  destruct (if blen (pkg_Receipts pkg) =? 0 then _ else _) as [[r0|] st1] eqn:Erc; [|done].
  destruct (loadMigratedAgent pkg (with_storage st1 p)) as [[[[m i]|text]|] s1] eqn:El; [|injection E as <- <-; done|done].
  pose proof (loadMigratedAgent_agents _ _ _ _ El) as (_ & _ & Hc). cbn in Hc. injection E as <- <-.
  do 2 (split; [done|]). split; [by exists fm|]. exists st, r0, st1, m, i, s1. do 3 (split; [done|]).
  exists (fresh (dom (heap s1))). cbn. by rewrite !lookup_insert_eq, Hc.
Qed.

(** C17: A node that confirms a migration has checked it. If the handler of
    an incoming migration answers success, on a node whose storage can be
    read, then the WASM binary hashes to the package's hash; when the node
    verifies migrations and replay data came along, replaying the last tick
    reached exactly the checkpoint's state; the manifest parses and
    [validateIncomingManifest], the check of this node's price, memory and
    capabilities, has no objection; the checkpoint parses, names this binary
    and, if it carries lineage, is correctly signed; and the agent the node
    registered was resumed from that checkpoint with its budget, price and
    tick number, under a lease one major version above the package's (when
    leases are on). *)
Theorem incoming_accept_sound now pkg p started p' :
  handleIncomingMigration now pkg p = (Some started, p') -> Success started = true -> prov_readable (storage p) ->
  sha256 (WASMBinary pkg) = pkg_WASMHash pkg /\
  (forall rd, replayMode p = "on-migrate" \/ replayMode p = "full" -> pkg_Replay pkg = Some rd ->
     exists caps st, ParseCapabilityManifest (ManifestData pkg) = Ok caps /\
       Checkpoint.ExtractAgentState (pkg_Checkpoint pkg) = Ok st /\
       Verified (ReplayTick (WASMBinary pkg) (Some caps) (PreTickState rd) (toTickLog rd) (Some st)) = true) /\
  (exists fm, ParseManifest (ManifestData pkg) = Ok fm /\ validateIncomingManifest fm p = ""%string) /\
  exists addr m i, activeAgents p' !! pkg_AgentID pkg = Some addr /\
    heap p' !! addr = Some (m, (if 0 <? Authority.Duration (leaseConfig p)
      then set_Lease (Some (Authority.NewLeaseFromMigration (pkg_Major pkg) (leaseConfig p) now)) i else i)) /\
    restored pkg m i.
Proof.
  intros E Hsucc Hread.
  destruct (handleIncoming_ok _ _ _ _ _ E Hsucc) as (Hh%bool_decide_eq_true & Erj & Hfm & st & o & st1 & m & i & s1 & Es & Erc & El & addr & Ha & Hheap).
  assert (prov_LoadCheckpoint st (pkg_AgentID pkg) = Ok (pkg_Checkpoint pkg)) as Hl.
  { eapply prov_checkpoint_saved; [|exact Es]. by apply (prov_save_readable _ _ _ _ _ Es). }
  assert (prov_LoadCheckpoint st1 (pkg_AgentID pkg) = Ok (pkg_Checkpoint pkg)) as Hl1.
  { destruct (_ =? 0); [by injection Erc as _ <-|]. by rewrite (prov_receipts_keep_checkpoint _ _ _ _ _ Erc). }
  pose proof (loadMigratedAgent_restored pkg (with_storage st1 p) m i s1 Hl1 El) as Hrest.
  split_and!; [done| |done|by exists addr, m, i].
  intros rd Hmode Hrd. unfold replay_reject in Erj. rewrite Hrd in Erj.
  assert (bool_decide (replayMode p = "on-migrate") || bool_decide (replayMode p = "full") = true) as Hm
    by (destruct Hmode as [->| ->]; reflexivity).
  rewrite Hm in Erj. cbn in Erj. unfold verifyMigrationReplay in Erj.
  destruct (ParseCapabilityManifest _) as [caps|]; [|done].
  destruct (Checkpoint.ExtractAgentState _) as [st0|]; [|done].
  destruct (Error _); [done|]. exists caps, st0. split_and!; [done..|]. by destruct (Verified _).
Qed.
End Incoming.

(** ** Two nodes *)
#[export] Instance demo_texts : ErrorText := {|
  manifest_text _ := "manifest"; checkpoint_text _ := "checkpoint"; replay_text _ := "replay";
  identity_text _ := "identity"; storage_text _ := "storage"; instance_text _ := "instance" |}.
Definition demo_now : Authority.time := Authority.unix_epoch + 1700000000 * second.
Definition demo_lease : Authority.Lease := Authority.NewLease Authority.DefaultLeaseConfig demo_now.
(** The demo agent after a tick and a save, under a lease. *)
Definition demo_saved : Inst * Instance (St := FSProvider) :=
  let '(m, i) := run_agent_ops [OTick; OSave] (fst demo, set_Lease (Some demo_lease) (snd demo)) in (m, i).
Definition node (fs : FSProvider) (agents : gmap string nat) (h : gmap nat (Inst * Instance (St := FSProvider))) (names : gset string)
    (id : string) : Service (St := FSProvider) :=
  mkService fs h agents names "full" 1000 Authority.DefaultLeaseConfig None (Some Receipt.sample_key) id (demo_env 2000000000).
Definition source_node : Service (St := FSProvider) :=
  node (Instance.Storage (snd demo_saved)) {["agent" := 0%nat]} {[0%nat := demo_saved]} {["agent"]} "a".
Definition target_node : Service (St := FSProvider) := node (NewFSProvider "./b" ∅ ∅ []) ∅ ∅ ∅ "b".
Definition demo_files (f : string) : option bytes := if bool_decide (f = "agent.wasm"%string) then Some demo_wasm else None.
Definition demo_world (net : list attempt) : World (St := FSProvider) :=
  mkWorld source_node {["/b" := target_node]} net.
Definition migrate_demo (net : list attempt) := 
  MigrateAgentWithRetry demo_files "agent" "agent.wasm" "/b" [] DefaultRetryConfig (demo_world net).
(** The lease states of the agent on the two nodes. *)
Definition owners (w : World (St := FSProvider)) : option Authority.Lease * option Authority.Lease :=
  (lease_at 0 (me w), b ← peers w !! "/b"; snd <$> getLease "agent" b).
Definition arrives (answered : bool) : attempt := mkAttempt (Arrives demo_now answered) false.
Definition lease_summary (l : Authority.Lease) : Authority.State * Authority.Epoch := (Authority.lease_state l, Authority.lease_epoch l).

Lemma migration_single_owner_witness :
  let '(r, w') := migrate_demo [arrives true] in
  exists l', lease_at 0 (me w') = Some l' /\
    match r with
    | Ok target =>
        Authority.lease_state l' = Authority.StateRetired /\ activeAgents (me w') !! "agent" = None /\
        exists pkg, pkg_AgentID pkg = "agent"%string /\ took_over pkg target (demo_world [arrives true]) w'
    | Err _ => Authority.CanTick (Authority.lease_state l') = true -> peers_same (demo_world [arrives true]) w'
    end.
Proof.
  destruct (migrate_demo [arrives true]) as [r w'] eqn:E.
  apply (migration_single_owner demo_files "agent" "agent.wasm" "/b" [] DefaultRetryConfig (demo_world [arrives true])
           r w' 0 demo_lease); [vm_compute; reflexivity|exact E].
Defined.
Example migration_succeeds :
  let '(r, w) := migrate_demo [mkAttempt (NotSent "failed to open migration stream") false; arrives true] in
  r = Ok "/b"%string /\ (lease_summary <$> fst (owners w)) = Some (Authority.StateRetired, Authority.mkEpoch 0 0) /\
  (lease_summary <$> snd (owners w)) = Some (Authority.StateActiveOwner, Authority.mkEpoch 1 0).
Proof. vm_compute. done. Qed.

(** After an unanswered delivery the source recovers its lease with the very
    epoch the target was granted: two active owners, neither superseding. *)
Example ambiguous_then_recovered :
  let '(_, w) := migrate_demo [arrives false] in
  match owners w with
  | (Some a, Some b) =>
      Authority.lease_state a = Authority.StateRecoveryRequired /\
      let '(_, a) := Authority.Recover demo_now a in
      Authority.CanTick (Authority.lease_state a) = true /\ Authority.CanTick (Authority.lease_state b) = true /\
      Authority.Supersedes (Authority.lease_epoch a) (Authority.lease_epoch b) = false /\
      Authority.Supersedes (Authority.lease_epoch b) (Authority.lease_epoch a) = false
  | _ => False
  end.
Proof. vm_compute. done. Qed.

Definition demo_package : AgentPackage :=
  match buildMigrationPackage demo_files "agent" "agent.wasm" source_node with
  | Ok (pkg, _) => pkg
  | Err _ => mkPackage "" [] [] [] [] 0 0 None [] 0 0 []
  end.
Lemma incoming_accept_sound_witness :
  let '(r, p') := handleIncomingMigration demo_now demo_package target_node in
  match r with
  | Some started => Success started = true /\ sha256 (WASMBinary demo_package) = pkg_WASMHash demo_package /\
      exists addr m i, activeAgents p' !! pkg_AgentID demo_package = Some addr /\
        heap p' !! addr = Some (m, (if 0 <? Authority.Duration (leaseConfig target_node)
          then set_Lease (Some (Authority.NewLeaseFromMigration (pkg_Major demo_package) (leaseConfig target_node) demo_now)) i else i)) /\
        restored demo_package m i
  | None => False
  end.
Proof.
  assert (match fst (handleIncomingMigration demo_now demo_package target_node) with Some s => Success s | None => false end = true) as Hok
    by (vm_compute; reflexivity).
  destruct (handleIncomingMigration demo_now demo_package target_node) as [[started|] p'] eqn:E; cbn [fst] in Hok; [|discriminate Hok].
  assert (prov_readable (storage target_node)) as Hread by (vm_compute; reflexivity).
  destruct (incoming_accept_sound demo_now demo_package target_node started p' E Hok Hread) as (Hh & _ & _ & Hi).
  split; [exact Hok|split; [exact Hh|exact Hi]].
Defined.

(** A package for an agent the node already runs is refused because its module
    name is taken, after its checkpoint replaced the running agent's, and the
    clean-up deletes it. *)
Example refused_duplicate_deletes_checkpoint :
  let '(r, p) := handleIncomingMigration demo_now demo_package source_node in
  Success <$> r = Some false /\ is_ok (prov_LoadCheckpoint (storage source_node) "agent") = true /\
  prov_LoadCheckpoint (storage p) "agent" = Err ErrNotFound /\ activeAgents p !! "agent" = Some 0%nat.
Proof. vm_compute. done. Qed.

(** The command line migrates from a service that runs no agents: the package
    then carries no identity, and the source deletes its only copy. *)
Definition stored_node : Service (St := FSProvider) :=
  node (snd (SaveIdentity (Instance.Storage (snd demo_saved)) "agent" (Identity.MarshalBinary Checkpoint.sample_identity))) ∅ ∅ ∅ "a".
Example command_line_loses_identity :
  let '(r, w) := MigrateAgent demo_files "agent" "agent.wasm" "/b" (mkWorld stored_node {["/b" := target_node]} [arrives true]) in
  r = Ok tt /\ is_ok (LoadIdentity (storage stored_node) "agent") = true /\
  LoadIdentity (storage (me w)) "agent" = Err ErrNotFound /\
  match peers w !! "/b" with
  | Some b => LoadIdentity (storage b) "agent" = Err ErrNotFound /\
      (activeAgents b !! "agent" ≫= fun a => (fun mi => AgentIdentity (snd mi)) <$> heap b !! a) = Some None
  | None => False
  end.
Proof. vm_compute. done. Qed.

(** When it fails, it leaves the lease in HANDOFF_INITIATED. *)
Example command_line_keeps_handoff :
  let '(r, w) := MigrateAgent demo_files "agent" "agent.wasm" "/b" (demo_world []) in
  is_ok r = false /\ (lease_summary <$> fst (owners w)) = Some (Authority.StateHandoffInitiated, Authority.mkEpoch 0 0).
Proof. vm_compute. done. Qed.
