(* ===== verification/Engine.v ===== *)
(** * The WASM engine (internal/runtime/engine.go)

    The engine wraps one wazero runtime, in which modules have names: WASI,
    the host module "igor" and one module per agent.  The runtime is a
    parameter ([Runtime], with its documented behaviour as [RuntimeLaws]);
    the operations of the engine, the registration of the host module
    (internal/hostcall/registry.go) and the loading of an agent
    (internal/agent/instance.go) are the source's sequences of calls on it.
    The loader refines the one of Instance.v, which knows no names, and the
    set of names that stands for the engine in Migration.v is that of the
    modules here. *)
From S2P Require Import Prelude Crypto EventLog Manifest Wasm Hostcall ToyGuest Storage Instance Migration.
From S2P Require Identity.
From stdpp Require Import gmap strings.
Open Scope Z_scope.

(** ** The wazero runtime *)
(** [exports_of rt]: the open modules by name, with the functions they export
    to other modules.  An operation that fails returns [None]. *)
Class Runtime `{W : Wasm} := {
  RT : Type;
  NewRuntimeWithConfig : Z -> bool -> RT;            (** memory limit in pages; close when the context is done *)
  wasi_Instantiate : RT -> option RT;
  exports_of : RT -> gmap string (list string);
  CloseModule : RT -> string -> option RT;
  HostInstantiate : RT -> string -> list string -> option RT;
  rt_Instantiate : RT -> Compiled -> string -> option (Inst * RT);
  CloseRuntime : RT -> option RT }.

Definition wasi_name : string := "wasi_snapshot_preview1".
Definition host_name : string := "igor".
(** What the module "igor" offers; nothing when there is none. *)
Definition host_functions `{Runtime} (rt : RT) : list string := default [] (exports_of rt !! host_name).

(** Names are unique in a runtime and free again once their module is
    closed; a guest is instantiated when its name is free and its imports
    resolve.  (The empty name is none: such modules are anonymous.) *)
Class RuntimeLaws `(R : Runtime) := {
  new_runtime limit close : exports_of (NewRuntimeWithConfig limit close) = ∅;
  wasi_instantiated rt rt' : wasi_Instantiate rt = Some rt' -> exists fs, exports_of rt' = <[wasi_name := fs]> (exports_of rt);
  module_closed rt name : exists rt', CloseModule rt name = Some rt' /\ exports_of rt' = delete name (exports_of rt);
  host_instantiated rt name fs : name <> ""%string -> exports_of rt !! name = None ->
    exists rt', HostInstantiate rt name fs = Some rt' /\ exports_of rt' = <[name := fs]> (exports_of rt);
  name_taken rt c name : name <> ""%string -> is_Some (exports_of rt !! name) -> rt_Instantiate rt c name = None;
  guest_instantiated rt c name : name <> ""%string -> exports_of rt !! name = None ->
    if links (host_functions rt) c then
      match InstantiateModule c with
      | Some m => exists rt' fs, rt_Instantiate rt c name = Some (m, rt') /\ exports_of rt' = <[name := fs]> (exports_of rt)
      | None => rt_Instantiate rt c name = None
      end
    else rt_Instantiate rt c name = None }.

(** ** engine.go *)
Inductive engine_error := ErrInstantiateWASI | ErrReadWASMFile | ErrCompileWASM | ErrInstantiateModule.
Section Engine.
Context `{R : Runtime}.
Record Engine := mkEngine { runtime : RT }.
Definition memory_limit_pages : Z := 1024.
(** A runtime whose WASI module can not be instantiated is closed and dropped. *)
Definition NewEngine : result engine_error Engine :=
  let rt := NewRuntimeWithConfig memory_limit_pages true in
  match wasi_Instantiate rt with
  | None => Err ErrInstantiateWASI
  | Some rt => Ok (mkEngine rt)
  end.
Definition CompileWASMBytes (wasmBytes : bytes) (e : Engine) : result engine_error Compiled :=
  match CompileModule wasmBytes with Some compiled => Ok compiled | None => Err ErrCompileWASM end.
Definition LoadWASM (readFile : string -> option bytes) (wasmPath : string) (e : Engine) : result engine_error Compiled :=
  match readFile wasmPath with
  | None => Err ErrReadWASMFile
  | Some wasmBytes => CompileWASMBytes wasmBytes e
  end.
Definition InstantiateModule (compiled : Compiled) (moduleName : string) (e : Engine) : result engine_error Inst * Engine :=
  match rt_Instantiate (runtime e) compiled moduleName with
  | None => (Err ErrInstantiateModule, e)
  | Some (m, rt) => (Ok m, mkEngine rt)
  end.
(** Whether closing succeeded. *)
Definition Close (e : Engine) : bool * Engine :=
  match CloseRuntime (runtime e) with Some rt => (true, mkEngine rt) | None => (false, e) end.
End Engine.

(** ** Loading an agent on an engine *)
Inductive load_error :=
| ErrCloseHost | ErrInstantiateHost          (** [RegisterHostModule] *)
| ErrEngine (e : engine_error)
| ErrLoad (e : instance_error).

Section Load.
Context {W : Wasm} {R : Runtime} `{Crypto} `{JSON} {St : Type} `{Provider St}.
(** A step on the engine that can fail. *)
Definition Eng (A : Type) := Engine -> result load_error A * Engine.
#[export] Instance Eng_ret : MRet Eng := fun _ a e => (Ok a, e).
#[export] Instance Eng_bind : MBind Eng := fun _ _ f m e =>
  match m e with (Ok a, e) => f a e | (Err x, e) => (Err x, e) end.
Definition lift {A} (r : result instance_error A) : Eng A := fun e => (map_err ErrLoad r, e).
Definition on_runtime (err : load_error) (f : RT -> option RT) : Eng unit := fun e =>
  match f (runtime e) with Some rt => (Ok tt, mkEngine rt) | None => (Err err, e) end.

(** registry.go: a host module that is there is closed first; with no
    function registered none is instantiated. *)
Definition closeExisting : Eng unit := fun e =>
  if decide (is_Some (exports_of (runtime e) !! host_name)) then on_runtime ErrCloseHost (fun rt => CloseModule rt host_name) e
  else (Ok tt, e).
Definition RegisterHostModule (m : option CapabilityManifest) (ws ps wps : bool) : Eng HostConfig :=
  _ ← closeExisting;
  let cfg := Hostcall.RegisterHostModule m ws ps wps in
  match functions cfg with
  | [] => mret cfg
  | fs => _ ← on_runtime ErrInstantiateHost (fun rt => HostInstantiate rt host_name fs); mret cfg
  end.
(** [module.Close], its error ignored. *)
Definition close_module (name : string) (e : Engine) : Engine :=
  match CloseModule (runtime e) name with Some rt => mkEngine rt | None => e end.

Definition fail_closing {A} (name : string) (x : instance_error) : Eng A := fun e => (Err (ErrLoad x), close_module name e).
Definition compile (wasmBytes : bytes) : Eng Compiled := fun e => (map_err ErrEngine (CompileWASMBytes wasmBytes e), e).
Definition instantiate (compiled : Compiled) (name : string) : Eng Inst := fun e =>
  let '(r, e) := InstantiateModule compiled name e in (map_err ErrEngine r, e).

(** instance.go: [loadAgent].  The module is closed when its initialisation
    fails, not when an export is missing. *)
Definition loadAgent (wasmBytes : bytes) (agentID : string) (storage : St) (budgetVal pricePerSecond : Z)
    (manifestData : bytes) (signingKey : option bytes) (nodeID : string)
    (agentIdentity : option Identity.AgentIdentity) (env : Env) : Eng (Inst * Instance) :=
  fullManifest ← lift (map_err ErrManifest (ParseManifest manifestData));
  let capManifest := ManifestCapabilities fullManifest in
  _ ← lift (map_err ErrManifest (ValidateAgainstNode (Some capManifest) NodeCapabilities));
  let need := MaxMemoryBytes (ManifestResourceLimits fullManifest) in
  _ ← lift (guard_err (negb ((0 <? need) && (DefaultMaxMemoryBytes <? need))) (ErrMemoryLimit need));
  cfg ← RegisterHostModule (Some capManifest) true true true;
  compiled ← compile wasmBytes;
  m ← instantiate compiled agentID;
  let i := newInstance wasmBytes agentID storage budgetVal pricePerSecond fullManifest cfg signingKey nodeID agentIdentity env in
  match initialize (load_handle cfg) m (i, false) with
  | (_, _, (_, true)) | (Err _, _, _) => fail_closing agentID ErrInitialize
  | (Ok _, m, (i, false)) =>
      match verifyExports m with
      | Some name => lift (Err (ErrMissingExport name))
      | None => mret (m, i)
      end
  end.
End Load.

(** ** What the operations do to the runtime's modules *)
(** An agent ID that names a module, and none of the node's own. *)
Definition ordinary (name : string) : Prop := name <> ""%string /\ name <> wasi_name /\ name <> host_name.
(** The modules of agents. *)
Definition agent_names `{Runtime} (e : Engine) : gset string := dom (exports_of (runtime e)) ∖ {[wasi_name; host_name]}.
(** The engine loader reports what the loader of Instance.v reports; wazero
    reports an unresolved import and a taken name in the same way. *)
Definition same_outcome {A} (r : result load_error A) (r' : result instance_error A) : Prop :=
  match r, r' with
  | Ok a, Ok a' => a = a'
  | Err (ErrLoad e), Err e' => e = e'
  | Err (ErrEngine ErrCompileWASM), Err ErrCompile => True
  | Err (ErrEngine ErrInstantiateModule), Err (ErrInstantiate | ErrNoHostModule) => True
  | _, _ => False
  end.

Section Modules.
Context {W : Wasm} {R : Runtime} {L : RuntimeLaws R}.
Implicit Types (e : Engine) (name : string).

Lemma bind_ok {A B} (m : Eng A) (f : A -> Eng B) e a e' : m e = (Ok a, e') -> (m ≫= f) e = f a e'.
Proof. intros E. unfold mbind, Eng_bind. by rewrite E. Qed.
Lemma bind_err {A B} (m : Eng A) (f : A -> Eng B) e x e' : m e = (Err x, e') -> (m ≫= f) e = (Err x, e').
Proof. intros E. unfold mbind, Eng_bind. by rewrite E. Qed.
Lemma lift_ok {A B} (a : A) (f : A -> Eng B) e : (lift (Ok a) ≫= f) e = f a e.
Proof. done. Qed.
Lemma new_engine_names e : NewEngine = Ok e -> agent_names e = ∅ /\ is_Some (exports_of (runtime e) !! wasi_name).
Proof.
  unfold NewEngine. destruct (wasi_Instantiate _) as [rt|] eqn:E; intros [= <-]. apply wasi_instantiated in E as [fs E].
  unfold agent_names. cbn [runtime]. rewrite E, new_runtime. split; [set_solver|by rewrite lookup_insert_eq].
Qed.
(** The host module afterwards is that of the manifest. *)
Lemma register_spec m ws ps wps e : exists e',
  let cfg := Hostcall.RegisterHostModule m ws ps wps in
  RegisterHostModule m ws ps wps e = (Ok cfg, e') /\
  exports_of (runtime e') !! host_name = match functions cfg with [] => None | fs => Some fs end /\
  forall name, name <> host_name -> exports_of (runtime e') !! name = exports_of (runtime e) !! name.
Proof.
  cbv zeta. set (cfg := Hostcall.RegisterHostModule m ws ps wps).
  assert (exists e1, closeExisting e = (Ok tt, e1) /\ exports_of (runtime e1) = delete host_name (exports_of (runtime e))) as (e1 & E1 & X1).
  { unfold closeExisting. destruct (decide _) as [Hs|Hn]; [|exists e; split; [done|]; symmetry; apply delete_id; by apply eq_None_not_Some].
    destruct (module_closed (runtime e) host_name) as (rt & Ec & X). unfold on_runtime. rewrite Ec. by exists (mkEngine rt). }
  unfold RegisterHostModule. rewrite (bind_ok _ _ _ _ _ E1). fold cfg. destruct (functions cfg) as [|f fs].
  - exists e1. rewrite X1. split; [done|]. split; [apply lookup_delete_eq|]. intros name Hn. by rewrite lookup_delete_ne.
  - destruct (host_instantiated (runtime e1) host_name (f :: fs) ltac:(done)) as (rt & Eh & X2); [rewrite X1; apply lookup_delete_eq|].
    erewrite bind_ok by (unfold on_runtime; by rewrite Eh). exists (mkEngine rt). cbn [runtime]. rewrite X2, X1. split; [done|].
    split; [apply lookup_insert_eq|]. intros name Hn. by rewrite lookup_insert_ne, lookup_delete_ne.
Qed.
Lemma agent_names_ext e e' : (forall name, ~ (name = wasi_name \/ name = host_name) -> exports_of (runtime e') !! name = exports_of (runtime e) !! name) ->
  agent_names e' = agent_names e.
Proof.
  intros Hx. apply set_eq. intros n. unfold agent_names. rewrite !elem_of_difference, !elem_of_union, !elem_of_singleton, !elem_of_dom.
  destruct (decide (n = wasi_name \/ n = host_name)) as [Hn|Hn]; [tauto|]. rewrite (Hx n); tauto.
Qed.
Lemma agent_name_in e name : ordinary name -> name ∈ agent_names e <-> is_Some (exports_of (runtime e) !! name).
Proof.
  intros (_ & ? & ?). unfold agent_names. rewrite elem_of_difference, elem_of_union, !elem_of_singleton, elem_of_dom. tauto.
Qed.
Lemma agent_names_insert e e' name fs : ordinary name -> exports_of (runtime e') = <[name := fs]> (exports_of (runtime e)) ->
  agent_names e' = {[name]} ∪ agent_names e.
Proof. intros (_ & ? & ?) X. unfold agent_names. rewrite X. set_solver. Qed.
Lemma agent_names_delete e e' name : exports_of (runtime e') = delete name (exports_of (runtime e)) -> agent_names e' = agent_names e ∖ {[name]}.
Proof. intros X. unfold agent_names. rewrite X. set_solver. Qed.
Lemma close_module_names name e : agent_names (close_module name e) = agent_names e ∖ {[name]}.
Proof. unfold close_module. destruct (module_closed (runtime e) name) as (rt & -> & X). by apply agent_names_delete. Qed.
(** A guest added to the runtime, and closed again. *)
Lemma guest_added e e' name fs : ordinary name -> exports_of (runtime e') = <[name := fs]> (exports_of (runtime e)) ->
  agent_names e' = {[name]} ∪ agent_names e /\
  agent_names (close_module name e') = (if bool_decide (name ∈ agent_names e) then agent_names e ∖ {[name]} else agent_names e) /\
  forall other, other <> name -> exports_of (runtime e') !! other = exports_of (runtime e) !! other /\
    exports_of (runtime (close_module name e')) !! other = exports_of (runtime e) !! other.
Proof.
  intros Hn X. pose proof (agent_names_insert _ _ _ _ Hn X) as N. rewrite close_module_names, N.
  split; [done|]. split; [case_bool_decide; set_solver|]. intros other Ho. unfold close_module.
  destruct (module_closed (runtime e') name) as (rt & -> & X'). cbn [runtime]. by rewrite X', X, lookup_delete_ne, lookup_insert_ne.
Qed.
(** Instantiating a guest. *)
Lemma instantiate_spec compiled name e : ordinary name ->
  if bool_decide (name ∈ agent_names e) || negb (links (host_functions (runtime e)) compiled)
  then InstantiateModule compiled name e = (Err ErrInstantiateModule, e)
  else match Wasm.InstantiateModule compiled with
       | Some m => exists e' fs, InstantiateModule compiled name e = (Ok m, e') /\
           exports_of (runtime e') = <[name := fs]> (exports_of (runtime e))
       | None => InstantiateModule compiled name e = (Err ErrInstantiateModule, e)
       end.
Proof.
  intros Hn. unfold InstantiateModule. case_bool_decide as Hin; rewrite (agent_name_in _ _ Hn) in Hin; cbn [orb].
  - destruct Hn as [Hn _]. by rewrite name_taken.
  - apply eq_None_not_Some in Hin. pose proof (guest_instantiated (runtime e) compiled name (proj1 Hn) Hin) as Hg.
    destruct (links _ _); cbn [negb]; [|by rewrite Hg]. destruct (Wasm.InstantiateModule compiled) as [m|]; [|by rewrite Hg].
    destruct Hg as (rt & fs & -> & X). by exists (mkEngine rt), fs.
Qed.
End Modules.

(** ** The bookkeeping of the migration service *)
Section Refinement.
Context {W : Wasm} {R : Runtime} {L : RuntimeLaws R} `{Crypto} `{JSON} {St : Type} `{Provider St}.
Implicit Types (e : Engine) (s : Service (St := St)).

(** [loadAgentFromBytes] as the service calls it. *)
Definition load_on_engine (pkg : AgentPackage) (ident : option Identity.AgentIdentity) (st : St) (s : Service (St := St))
    : Eng (Inst * Instance (St := St)) :=
  loadAgent (WASMBinary pkg) (pkg_AgentID pkg) st (pkg_Budget pkg) (pkg_Price pkg) (ManifestData pkg) (signing_key s) (host_id s) ident (s_env s).

(** What a load reports when the agent's name is taken. *)
Definition name_refused {A} (r : result instance_error A) : result instance_error A :=
  match r with
  | Err (ErrManifest _ as x) | Err (ErrMemoryLimit _ as x) | Err (ErrCompile as x) => Err x
  | _ => Err ErrInstantiate
  end.
Definition manifest_refused {A} (r : result load_error A) : bool :=
  match r with Err (ErrLoad (ErrManifest _ | ErrMemoryLimit _)) => true | _ => false end.
(** The host module of a manifest. *)
Definition host_of (fm : Manifest) : option (list string) :=
  match functions (Hostcall.RegisterHostModule (Some (ManifestCapabilities fm)) true true true) with [] => None | fs => Some fs end.
(** The engine's loader against the loader of Instance.v: what it reports, the
    modules it leaves and, unless the manifest is refused, the host module. *)
Lemma load_spec wasm id st budget price man key node ident env e : ordinary id ->
  let '(r, e') := loadAgent (St := St) wasm id st budget price man key node ident env e in
  let r0 := Instance.loadAgent wasm id st budget price man key node ident env in
  let taken := bool_decide (id ∈ agent_names e) in
  same_outcome r (if taken then name_refused r0 else r0) /\
  agent_names e' = (if taken then agent_names e
                    else match r0 with Ok _ | Err (ErrMissingExport _) => {[id]} ∪ agent_names e | _ => agent_names e end) /\
  (forall fm, ParseManifest man = Ok fm -> manifest_refused r = false -> exports_of (runtime e') !! host_name = host_of fm) /\
  forall other, other <> id -> other <> host_name -> exports_of (runtime e') !! other = exports_of (runtime e) !! other.
Proof.
  intros Hid. unfold loadAgent, Instance.loadAgent.
  destruct (ParseManifest man) as [fm|x]; [|cbn; by case_bool_decide]. cbn [map_err]. rewrite lift_ok. cbn [mbind result_bind].
  destruct (ValidateAgainstNode _ _) as [u|x]; [|cbn; by case_bool_decide]. cbn [map_err]. rewrite lift_ok. cbn [mbind result_bind].
  set (need := MaxMemoryBytes _). destruct (guard_err _ (ErrMemoryLimit need)) as [u'|x] eqn:Eg;
    [|unfold guard_err in Eg; destruct (negb _); [done|]; injection Eg as <-; cbn; by case_bool_decide].
  rewrite lift_ok. cbn [mbind result_bind].
  destruct (register_spec (Some (ManifestCapabilities fm)) true true true e) as (e1 & Er & Xh & X1). cbv zeta in Er, Xh.
  rewrite (bind_ok _ _ _ _ _ Er). change (exports_of (runtime e1) !! host_name = host_of fm) in Xh.
  set (cfg := Hostcall.RegisterHostModule _ _ _ _) in *.
  assert (agent_names e1 = agent_names e) as N1 by (apply agent_names_ext; intros n Hne; apply X1; tauto).
  assert (host_functions (runtime e1) = functions cfg) as Hf by (unfold host_functions; rewrite Xh; unfold host_of; fold cfg; by destruct (functions cfg)).
  assert (forall fm', Ok (E := manifest_error) fm = Ok fm' -> exports_of (runtime e1) !! host_name = host_of fm') as Xh1 by (intros fm' [= <-]; done).
  assert (forall other, other <> id -> other <> host_name -> exports_of (runtime e1) !! other = exports_of (runtime e) !! other) as X1' by auto.
  destruct (CompileModule wasm) as [compiled|] eqn:Ec;
    [|erewrite bind_err by (unfold compile, CompileWASMBytes; by rewrite Ec); case_bool_decide; split_and!; first [done | by auto]].
  rewrite (bind_ok _ _ e1 compiled e1) by (unfold compile, CompileWASMBytes; by rewrite Ec).
  cbn [mbind result_bind]. pose proof (instantiate_spec compiled id e1 Hid) as Hi. rewrite N1, Hf in Hi.
  destruct (links (functions cfg) compiled); cbn [negb guard_err mbind result_bind]; [|rewrite orb_true_r in Hi;
    erewrite bind_err by (unfold instantiate; by rewrite Hi); case_bool_decide; split_and!; first [done | by auto]].
  rewrite orb_false_r in Hi. case_bool_decide as Hin.
  { erewrite bind_err by (unfold instantiate; by rewrite Hi). split_and!; [|first [done | by auto]..].
    destruct (Wasm.InstantiateModule compiled) as [m|]; [|done]. cbn [mbind result_bind].
    destruct (initialize _ _ _) as [[[u1|x] m1] [i1 [|]]]; [done| |done..]. by destruct (verifyExports m1). }
  destruct (Wasm.InstantiateModule compiled) as [m|]; [|erewrite bind_err by (unfold instantiate; by rewrite Hi); split_and!; first [done | by auto]].
  destruct Hi as (e2 & fs & Ei & X2). erewrite bind_ok by (unfold instantiate; by rewrite Ei). cbn [mbind result_bind].
  destruct (guest_added _ _ _ _ Hid X2) as (N2 & N3 & H2). rewrite N1 in N2, N3 by done.
  rewrite bool_decide_false in N3 by done. pose proof (H2 host_name ltac:(destruct Hid as (_ & _ & ?); done)) as [H3 H4]. rewrite Xh in H3, H4.
  assert (forall other, other <> id -> other <> host_name -> exports_of (runtime e2) !! other = exports_of (runtime e) !! other /\
    exports_of (runtime (close_module id e2)) !! other = exports_of (runtime e) !! other) as X2' by (intros other Ho Hh; rewrite <- X1' by done; by apply H2).
  destruct (initialize _ _ _) as [[[u1|x] m1] [i1 [|]]]; [| |cbn..]; try (destruct (verifyExports m1)); cbn;
    (split; [done|]); (split; [done|]); (split; [intros fm' [= <-]; done|]); intros other Ho Hh; by apply X2'.
Qed.

Lemma module_named name : name <> ""%string -> module_name name = {[name]}.
Proof. intros Hn. unfold module_name. by rewrite bool_decide_false. Qed.
(** The load on the engine against the load the service makes. *)
Lemma named_load pkg ident st s e : ordinary (pkg_AgentID pkg) -> agent_names e = runtimeEngine s ->
  let '(r, e') := load_on_engine pkg ident st s e in
  let '(r', names) := load_named pkg ident st s in
  same_outcome r r' /\ agent_names e' = names /\
  (is_ok r = true -> (pkg_AgentID pkg ∉ runtimeEngine s) /\ names = module_name (pkg_AgentID pkg) ∪ runtimeEngine s).
Proof.
  intros Hid Hn. unfold load_on_engine, load_named, LoadAgentFromBytes. rewrite <- Hn.
  pose proof (load_spec (WASMBinary pkg) (pkg_AgentID pkg) st (pkg_Budget pkg) (pkg_Price pkg) (ManifestData pkg)
    (signing_key s) (host_id s) ident (s_env s) e Hid) as Hs.
  destruct (loadAgent _ _ _ _ _ _ _ _ _ _ e) as [r e']. destruct Hs as (Ho & Hm & _).
  rewrite (module_named (pkg_AgentID pkg)) by apply Hid. case_bool_decide as Hin; (split; [exact Ho|]); (split; [exact Hm|]);
    (destruct r as [a|x]; [|done]); (destruct (Instance.loadAgent _ _ _ _ _ _ _ _ _ _) as [b|[]]; done).
Qed.

(** service.go: [loadMigratedAgent] with its calls on the engine: the instance
    is closed when it can not be initialised or resumed.  The outer [None] is
    the death of the process, the inner one an error. *)
Definition loadMigratedAgent (pkg : AgentPackage) (s : Service (St := St)) (e : Engine)
    : option (option (Inst * Instance (St := St))) * Engine :=
  match restoreAgentIdentity pkg (storage s) with
  | (None, _) => (None, e)
  | (Some (Err _), _) => (Some None, e)
  | (Some (Ok agentIdent), st) =>
      match load_on_engine pkg agentIdent st s e with
      | (Err _, e) => (Some None, e)
      | (Ok (m, i), e) =>
          match Init m i with
          | (Err _, _, _) => (Some None, close_module (pkg_AgentID pkg) e)
          | (Ok _, m, i) =>
              match LoadCheckpointFromStorage m i with
              | (Err _, _, _) => (Some None, close_module (pkg_AgentID pkg) e)
              | (Ok _, m, i) => (Some (Some (m, i)), e)
              end
          end
      end
  end.

(** So the set of names in the service of Migration.v is that of the modules in
    its engine: the migration's load on the engine ends on every branch as
    the service's, with the same module and instance or with an error. *)
Lemma service_engine `{ErrorText} pkg s e :
  ordinary (pkg_AgentID pkg) -> agent_names e = runtimeEngine s ->
  let '(r, e') := loadMigratedAgent pkg s e in
  let '(r', s') := Migration.loadMigratedAgent pkg s in
  r = (fun x => match x with Ok mi => Some mi | Err _ => None end) <$> r' /\ agent_names e' = runtimeEngine s'.
Proof.
  intros Hid Hn. unfold loadMigratedAgent, Migration.loadMigratedAgent. destruct (restoreAgentIdentity _ _) as [[[ident|x]|] st]; [|done..].
  change (load_named pkg ident st (with_storage st s)) with (load_named pkg ident st s).
  pose proof (named_load pkg ident st s e Hid Hn) as Hl. destruct (load_on_engine _ _ _ _ _) as [r e1].
  destruct (load_named _ _ _ _) as [r' names]. destruct Hl as (Ho & Hm & Hfree).
  destruct r as [[m i]|x], r' as [[m' i']|x']; [|done|by destruct x as [| |[]|]|done].
  injection Ho as <- <-. assert (agent_names (close_module (pkg_AgentID pkg) e1) = runtimeEngine s) as Hc; [|by repeat case_match; simplify_eq/=].
  destruct (Hfree eq_refl) as [Hfr Hns]. rewrite close_module_names, Hm, Hns, module_named by apply Hid. clear -Hfr. set_solver.
Qed.

(** A load of an agent whose name is taken fails. *)
Lemma taken_refused wasm id st budget price man key node ident env e : ordinary id -> id ∈ agent_names e ->
  let '(r, e') := loadAgent (St := St) wasm id st budget price man key node ident env e in is_ok r = false /\ agent_names e' = agent_names e.
Proof.
  intros Hid Hin. pose proof (load_spec wasm id st budget price man key node ident env e Hid) as Hs. rewrite bool_decide_true in Hs by done.
  destruct (loadAgent _ _ _ _ _ _ _ _ _ _ e) as [[a|y] e2]; [|by destruct Hs as (_ & ? & _)].
  destruct Hs as [Ho _]. by destruct (Instance.loadAgent _ _ _ _ _ _ _ _ _ _) as [b|[]].
Qed.
(** After a load ended on a missing export the agent's ID can not be loaded
    on this engine again: the module was not closed. *)
Lemma missing_export_blocks_id wasm id st budget price man key node ident env e x e' : ordinary id -> id ∉ agent_names e ->
  loadAgent (St := St) wasm id st budget price man key node ident env e = (Err (ErrLoad (ErrMissingExport x)), e') ->
  forall wasm2 st2 budget2 price2 man2 key2 node2 ident2 env2,
    is_ok (fst (loadAgent (St := St) wasm2 id st2 budget2 price2 man2 key2 node2 ident2 env2 e')) = false.
Proof.
  intros Hid Hn E wasm2 st2 b2 p2 man2 k2 n2 i2 env2. pose proof (load_spec wasm id st budget price man key node ident env e Hid) as Hs.
  rewrite E, bool_decide_false in Hs by done. destruct Hs as (Ho & Hm & _).
  destruct (Instance.loadAgent _ _ _ _ _ _ _ _ _ _) as [a|y]; [done|]. cbn in Ho. subst y.
  pose proof (load_spec wasm2 id st2 b2 p2 man2 k2 n2 i2 env2 e' Hid) as Hs2. rewrite Hm, bool_decide_true in Hs2 by set_solver.
  destruct (loadAgent _ _ _ _ _ _ _ _ _ _ e') as [[a|y] e2]; [|done]. destruct Hs2 as [Ho2 _].
  destruct (Instance.loadAgent _ _ _ _ _ _ _ _ _ _) as [b|[]]; done.
Qed.
(** A load replaces the host module of the agents the engine already runs:
    they stay instantiated, and "igor" is that of the new manifest. *)
Lemma load_replaces_host other fm wasm id st budget price man key node ident env e : ordinary id -> ordinary other ->
  other ∈ agent_names e -> ParseManifest man = Ok fm ->
  let '(r, e') := loadAgent (St := St) wasm id st budget price man key node ident env e in
  manifest_refused r = false -> other ∈ agent_names e' /\ exports_of (runtime e') !! host_name = host_of fm.
Proof.
  intros Hid Ho Hin Hp. pose proof (load_spec wasm id st budget price man key node ident env e Hid) as Hs.
  destruct (loadAgent _ _ _ _ _ _ _ _ _ _ e) as [r e']. destruct Hs as (_ & Hm & Hh & _). intros Hr. split; [|by apply Hh].
  rewrite Hm. case_bool_decide; [done|]. destruct (Instance.loadAgent _ _ _ _ _ _ _ _ _ _) as [a|[]]; set_solver.
Qed.
(** Which loads leave a module behind. *)
Definition leaves_module {A} (r : result load_error A) : bool :=
  match r with Ok _ | Err (ErrLoad (ErrMissingExport _)) => true | _ => false end.

(** C18: One agent, one module.  Loading an agent on a node's engine
    ([LoadAgentFromBytes]: register the host module, compile, instantiate,
    initialise, check the exports), under an ID that is not empty and not the
    name of one of the node's own modules: it fails when a module of that name
    is open, and changes no agent's module then.  Otherwise it leaves a module
    under the ID exactly when it succeeds or ends on a missing export, and
    every other failure, a failed initialisation included, leaves the agents'
    modules as they were.  While the module is there no load of that ID
    succeeds, with any binary or manifest; closing it frees the ID and restores
    the agents' modules.  Modules of other names are never touched, but unless
    the manifest is refused the host module, which all agents on the engine
    share, is replaced by the one of this manifest. *)
Theorem one_module_per_agent wasm id st budget price man key node ident env e : ordinary id ->
  let load wasm st budget price man key node ident env := loadAgent (St := St) wasm id st budget price man key node ident env in
  let '(r, e') := load wasm st budget price man key node ident env e in
  (id ∈ agent_names e -> is_ok r = false /\ agent_names e' = agent_names e) /\
  (id ∉ agent_names e ->
     agent_names e' = (if leaves_module r then {[id]} ∪ agent_names e else agent_names e) /\
     agent_names (close_module id e') = agent_names e /\
     (leaves_module r = true -> forall wasm2 st2 budget2 price2 man2 key2 node2 ident2 env2,
        is_ok (fst (load wasm2 st2 budget2 price2 man2 key2 node2 ident2 env2 e')) = false)) /\
  (forall other, other <> id -> other <> host_name -> exports_of (runtime e') !! other = exports_of (runtime e) !! other) /\
  (forall fm, ParseManifest man = Ok fm -> manifest_refused r = false -> exports_of (runtime e') !! host_name = host_of fm).
Proof.
  intros Hid load. pose proof (load_spec wasm id st budget price man key node ident env e Hid) as Hs.
  pose proof (taken_refused wasm id st budget price man key node ident env e Hid) as Ht. unfold load.
  destruct (loadAgent wasm id _ _ _ _ _ _ _ _ e) as [r e']. destruct Hs as (Ho & Hm & Hh & Hoth).
  split; [exact Ht|]. split; [|by split]. intros Hn. rewrite bool_decide_false in Ho, Hm by done.
  assert (agent_names e' = (if leaves_module r then {[id]} ∪ agent_names e else agent_names e)) as Hm'.
  { rewrite Hm. destruct r as [?|[| |[]|[]]]; destruct (Instance.loadAgent _ _ _ _ _ _ _ _ _ _) as [?|[]]; try done; by injection Ho. }
  split; [exact Hm'|]. split.
  - rewrite close_module_names, Hm'. clear -Hn. destruct (leaves_module r); set_solver.
  - intros Hl wasm2 st2 b2 p2 man2 k2 n2 i2 env2. rewrite Hl in Hm'.
    pose proof (taken_refused wasm2 id st2 b2 p2 man2 k2 n2 i2 env2 e' Hid ltac:(rewrite Hm'; set_solver)) as Hr.
    destruct (loadAgent wasm2 id _ _ _ _ _ _ _ _ e') as [r2 e2]. exact (proj1 Hr).
Qed.
End Refinement.

(** ** An executable runtime *)
#[export] Instance table_runtime : Runtime (W := toy_wasm) := {|
  RT := gmap string (list string);
  NewRuntimeWithConfig _ _ := ∅;
  wasi_Instantiate rt := Some (<[wasi_name := ["fd_write"%string]]> rt);
  exports_of rt := rt;
  CloseModule rt name := Some (delete name rt);
  HostInstantiate rt name fs := if decide (is_Some (rt !! name)) then None else Some (<[name := fs]> rt);
  rt_Instantiate rt c name :=
    if decide (is_Some (rt !! name)) then None
    else if links (default [] (rt !! host_name)) c then
      match Wasm.InstantiateModule c with Some m => Some (m, <[name := toy_exports]> rt) | None => None end
    else None;
  CloseRuntime _ := Some ∅ |}.
#[export] Instance table_runtime_laws : RuntimeLaws table_runtime.
Proof.
  split.
  - done.
  - intros rt rt' [= <-]. by eexists.
  - intros rt name. by eexists.
  - intros rt name fs _ Hn. cbn in *. rewrite decide_False by (rewrite Hn; by intros [? [=]]). by eexists.
  - intros rt c name _ Hs. cbn in *. by rewrite decide_True.
  - intros rt c name _ Hn. cbn in *. rewrite decide_False by (rewrite Hn; by intros [? [=]]). unfold host_functions. cbn.
    destruct (forallb _ _); [by eexists _, _|done].
Qed.
Definition toy_engine : Engine (R := table_runtime) := match NewEngine with Ok e => e | Err _ => mkEngine (NewRuntimeWithConfig 0 false) end.
(** The target once it has saved the package's checkpoint. *)
Definition arriving : Service (St := FSProvider) :=
  with_storage (snd (prov_SaveCheckpoint (storage target_node) "agent" (pkg_Checkpoint demo_package))) target_node.
Local Abbreviation toy_load := (loadMigratedAgent demo_package arriving toy_engine).
Definition loaded {A} (r : option (option A)) : bool := match r with Some (Some _) => true | _ => false end.
Example service_engine_agree :
  loaded (fst toy_load) = true /\ agent_names (snd toy_load) = {["agent"%string]} /\
  runtimeEngine (snd (Migration.loadMigratedAgent demo_package arriving)) = {["agent"%string]}.
Proof. vm_compute. done. Qed.
(** A second agent, without capabilities, arrives on the engine that runs the
    first: the host module the first is linked to is gone. *)
Definition second_load : result load_error (toy_inst * Instance (St := FSProvider)) * Engine (R := table_runtime) :=
  loadAgent (R := table_runtime) [] "other" (storage target_node) 1 1 [] None "b" None (s_env target_node) (snd toy_load).
Example second_agent_unhosts_first :
  loaded (fst toy_load) = true /\ "clock_now" ∈ default [] (exports_of (runtime (snd toy_load)) !! host_name) /\
  is_ok (fst second_load) = true /\ is_Some (exports_of (runtime (snd second_load)) !! "agent"%string) /\
  exports_of (runtime (snd second_load)) !! host_name = None.
Proof. vm_compute. split_and!; try done; [left|by eexists]. Qed.
(** The toy guest loaded on the fresh engine, once more, and after a close; and
    a binary that fails to initialise. *)
Definition load_toy (wasm : bytes) : Engine (R := table_runtime) -> result load_error (toy_inst * Instance (St := FSProvider)) * Engine (R := table_runtime) :=
  loadAgent (R := table_runtime) wasm "agent" (storage target_node) 1000 1 (bytes_of "{}") None "b" None (s_env target_node).
Lemma one_module_per_agent_witness :
  let e1 := snd (load_toy demo_wasm toy_engine) in
  leaves_module (fst (load_toy demo_wasm toy_engine)) = true /\ agent_names e1 = {["agent"%string]} /\
  is_ok (fst (load_toy demo_wasm e1)) = false /\ agent_names (close_module "agent" e1) = ∅ /\
  is_ok (fst (load_toy demo_wasm (close_module "agent" e1))) = true.
Proof.
  intros e1. assert (leaves_module (fst (load_toy demo_wasm toy_engine)) = true) as Hr by (vm_compute; reflexivity).
  pose proof (one_module_per_agent demo_wasm "agent" (storage target_node) 1000 1 (bytes_of "{}") None "b" None (s_env target_node) toy_engine) as Ht.
  assert (agent_names toy_engine = ∅) as H0 by (vm_compute; reflexivity).
  cbv zeta beta in Ht. split; [exact Hr|]. revert Hr Ht. unfold e1, load_toy. destruct (loadAgent demo_wasm "agent" _ _ _ _ _ _ _ _ toy_engine) as [r e'] eqn:E. cbn [fst snd].
  intros Hr Ht. destruct Ht as (_ & Hfree & _ & _); [split_and!; discriminate|]. destruct Hfree as (Hm & Hc & Hno); [rewrite H0; apply not_elem_of_empty|].
  apply (fun H => eq_trans H (f_equal (fun b : bool => if b then {["agent"%string]} ∪ agent_names toy_engine else agent_names toy_engine) Hr)) in Hm.
  rewrite H0 in Hm, Hc. split; [rewrite Hm; reflexivity|]. split; [apply Hno; exact Hr|]. split; [exact Hc|].
  apply (f_equal (fun x => is_ok (fst (load_toy demo_wasm (close_module "agent" (snd x)))))) in E. 
  etransitivity; [symmetry; exact E|vm_compute; reflexivity].
Defined.
