(* ===== verification/Demo.v ===== *)
(** * The reconciliation demo (agents/research/reconciliation/cmd/demo)

    Two nodes, the reconciliation agent run on the first until after its side
    effect, its migration to the second, the rest of its life there, the
    replay of the recorded ticks and the incident timeline read out of the
    agent's log lines. *)
From S2P Require Import Prelude GoFloat Strconv Flags Crypto EventLog Manifest Wasm Hostcall Storage Instance Replay Migration.
From S2P Require Authority Identity Checkpoint Budget Report Timeline.
From stdpp Require Import gmap strings pretty.
Open Scope Z_scope.

Abbreviation cat := Report.cat.
Abbreviation line := Report.line.
Definition agentID : string := "bridge-reconciler".
Definition crashAfterTick : Z := 9.
Definition totalPreCrashTicks : nat := 9.

(** ** Reading the agent's log lines *)
(** The first position of [substr]. *)
Fixpoint indexOf (s substr : string) : option nat :=
  if String.prefix substr s then Some O
  else match s with EmptyString => None | String _ s => S <$> indexOf s substr end.
Definition contains (s substr : string) : bool := bool_decide (is_Some (indexOf s substr)).
(** [s[n:]] and [s[:n]]. *)
Fixpoint skip (n : nat) (s : string) : string := match n, s with S n, String _ s => skip n s | _, _ => s end.
Fixpoint keep (n : nat) (s : string) : string := match n, s with S n, String c s => String c (keep n s) | _, _ => "" end.
Definition extractField (msg prefix suffix : string) : string :=
  match indexOf msg prefix with
  | None => ""
  | Some idx =>
      let rest := skip (idx + String.length prefix) msg in
      if bool_decide (suffix = ""%string) then rest
      else match indexOf rest suffix with None => rest | Some e => keep e rest end
  end.
Definition stripPrefix (msg : string) : string :=
  let prefix := "[reconciler] "%string in
  match indexOf msg prefix with Some idx => skip (idx + String.length prefix) msg | None => msg end.

(** The timeline event of a log line, if it shows in the timeline. *)
Definition logToEvent (msg : string) (ts : Z) (node : string) (tick : Z) : option Timeline.Event :=
  let ev kind summary details := Some (Timeline.mkEvent ts node tick kind summary details) in
  if contains msg "Case" && contains msg "detected"
  then ev Timeline.KindStateChange (stripPrefix msg) ["State: DetectedPendingTransfer"%string]
  else if contains msg "Confirmation threshold met" then ev Timeline.KindStateChange (stripPrefix msg) []
  else if contains msg "State:" && contains msg "->" then ev Timeline.KindStateChange (stripPrefix msg) []
  else if contains msg "Finalize intent recorded" then ev Timeline.KindSideEffect "Finalize intent recorded"%string []
  else if contains msg "Idempotency key" then ev Timeline.KindInfo (stripPrefix msg) []
  else if contains msg "Finalize EXECUTED" then ev Timeline.KindSideEffect (stripPrefix msg) []
  else if contains msg "Finalize action SKIPPED" then ev Timeline.KindSkippedAction "Finalize action SKIPPED"%string []
  else if contains msg "Reason:" && contains msg "already committed"
  then ev Timeline.KindSkippedAction (stripPrefix msg) ["No duplicate execution"%string]
  else if contains msg "Acknowledgment received" then ev Timeline.KindStateChange (stripPrefix msg) []
  else if contains msg "Case" && contains msg "completed" then ev Timeline.KindCompletion (stripPrefix msg) []
  else if contains msg "Side effects executed" then ev Timeline.KindCompletion (stripPrefix msg) []
  else if contains msg "Total processing time" then ev Timeline.KindInfo (stripPrefix msg) []
  else None.

Section Timeline.
(** [time.Now], asked for a tick log without a clock reading, or for an empty
    history. *)
Context (wall : option TickLog -> Z).
Definition clock_reading (e : Entry) : option Z :=
  if (entry_id e =? ClockNow) && (8 <=? blen (Payload e)) then Some (i64 (get_u64 (Payload e))) else None.
Definition extractTimestamp (tl : TickLog) : Z := default (wall (Some tl)) (head (omap clock_reading (entries tl))).
(** The log lines of a tick. *)
Definition log_lines (tl : TickLog) : list string :=
  omap (fun e => if entry_id e =? LogEmit then Some (string_of (Payload e)) else None) (entries tl).
Definition addEventsFromHistory (history : list TickLog) (node : string) (t : Timeline.Timeline) : Timeline.Timeline :=
  foldl (fun t tickLog =>
    let ts := extractTimestamp tickLog in
    foldl (fun t msg => match logToEvent msg ts node (EventLog.TickNumber tickLog) with Some ev => Timeline.Add ev t | None => t end)
      t (log_lines tickLog)) t history.
Definition case_id (history : list TickLog) : string :=
  foldl (fun id msg => let f := extractField msg "Case " " detected" in if bool_decide (f = ""%string) then id else f)
    "unknown"%string (history ≫= log_lines).
Definition number (z : Z) : string := pretty z.
Definition buildTimeline (preCrashHistory postResumeHistory : list TickLog) (leaseEpoch : string) (replayPassed : bool)
    (replayedTicks : Z) : Timeline.Timeline :=
  let tl := addEventsFromHistory preCrashHistory "node-a" (Timeline.New (case_id preCrashHistory) agentID) in
  let crashTime := match last preCrashHistory with Some t => extractTimestamp t + Report.second | None => wall None end in
  let tl := Timeline.Add (Timeline.mkEvent crashTime "node-a" 0 Timeline.KindCheckpoint
                            (cat ["Checkpoint #"; number crashAfterTick; " written"]) []) tl in
  let crashTime := crashTime + Report.second in
  let tl := Timeline.Add (Timeline.mkEvent crashTime "node-a" 0 Timeline.KindCrash "HOST NODE FAILURE"
              ["Node node-a became unreachable"%string; cat ["Last confirmed checkpoint: #"; number crashAfterTick]]) tl in
  let migTime := crashTime + 3 * Report.second in
  let tl := Timeline.Add (Timeline.mkEvent migTime "node-b" 0 Timeline.KindMigration "Agent migrated to node-b"
              [cat ["Lease epoch: "; leaseEpoch]; cat ["Checkpoint #"; number crashAfterTick; " loaded and verified"]]) tl in
  let replayTime := migTime + Report.second in
  let tl := Timeline.Add (Timeline.mkEvent replayTime "node-b" 0 Timeline.KindReplay
              (cat ["Replay verification "; if replayPassed then "PASSED" else "FAILED"])
              [cat [number replayedTicks; " ticks replayed deterministically"]; "State hash match confirmed"%string]) tl in
  addEventsFromHistory postResumeHistory "node-b" tl.
End Timeline.

(** ** The run *)
Definition printBanner : string :=
  let bar := Timeline.Repeat "═" 63 in
  cat [line []; line ["╔"; bar; "╗"]; line ["║   Bridge Reconciliation Agent: Fail, Migrate, Resume, Prove  ║"];
       line ["╚"; bar; "╝"]; line []].
Inductive demo_error :=
| ErrCreateNode (name : string) | ErrLoadAgent (e : instance_error) | ErrInitAgent (e : instance_error)
| ErrTickA (n : Z) (e : instance_error) | ErrSaveA (e : instance_error) | ErrMigrate (e : migrate_fail) | ErrNotOnB
| ErrTickB (e : instance_error) | ErrSaveB (e : instance_error).

Section Demo.
Context {W : Wasm} `{Crypto} `{JSON} `{ErrorText}.
Abbreviation agent := (Instance (St := FSProvider)).
Abbreviation service := (Service (St := FSProvider)).

Definition demo_price : Z := Budget.FromFloat (decimal false 1 (-3)).
Definition demo_budget : Z := Budget.FromFloat (f64_of_Z 100).
(** What [newDemoNode] obtains: the libp2p host with its key, peer ID and
    address, a temporary directory, and the environment of its instances;
    [None] if the host, the directory or the engine cannot be had. *)
Record NodeParts := mkParts { np_key : option bytes; np_id : string; np_addr : string; np_dir : string; np_env : Env }.
Definition newDemoNode (name : string) (parts : option NodeParts) (leaseCfg : Authority.LeaseConfig) : result demo_error service :=
  match parts with
  | None => Err (ErrCreateNode name)
  | Some p => Ok (NewService (np_key p) (np_id p) (np_env p) (NewFSProvider (np_dir p) ∅ ∅ []) "full" demo_price leaseCfg)
  end.
Definition manifestJSON : bytes := bytes_of (cat [
  "{"; quote "capabilities"; ":{"; quote "clock"; ":{"; quote "version"; ":1},"; quote "rand"; ":{"; quote "version"; ":1},";
  quote "log"; ":{"; quote "version"; ":1}},"; quote "migration_policy"; ":{"; quote "enabled"; ":true}}"]).

(** The log lines of the latest tick. *)
Definition printTickLogs (i : agent) (tick : Z) (node : string) : string :=
  match last (History (EvLog i)) with
  | None => ""
  | Some latest => cat ((fun msg => line ["  ["; node; "] tick "; pretty tick; ": "; msg]) <$> log_lines latest)
  end.
(** The ticks before the crash. *)
Fixpoint ticks_on_a (k : nat) (n : Z) (m : Inst) (i : agent) : string * result demo_error (Inst * agent) :=
  match k with
  | O => ("", Ok (m, i))
  | S k =>
      match Instance.Tick m i with
      | (Err e, _, _) => ("", Err (ErrTickA n e))
      | (Ok _, m, i) => let '(out, r) := ticks_on_a k (n + 1) m i in (printTickLogs i n "node-a" +:+ out, r)
      end
  end.
(** [resumeAndTick]: tick until there is no more to do, then save. *)
Fixpoint ticks_on_b (fuel : nat) (m : Inst) (i : agent) : option (string * result demo_error (Inst * agent)) :=
  match fuel with
  | O => None
  | S fuel =>
      match Instance.Tick m i with
      | (Err e, _, _) => Some ("", Err (ErrTickB e))
      | (Ok hasMore, m, i) =>
          let out := printTickLogs i (Instance.TickNumber i) "node-b" in
          if hasMore then '(more, r) ← ticks_on_b fuel m i; Some (out +:+ more, r) else Some (out, Ok (m, i))
      end
  end.
Definition resumeAndTick (fuel : nat) (m : Inst) (i : agent) : option (string * result demo_error (Inst * agent)) :=
  '(out, r) ← ticks_on_b fuel m i;
  let out := cat [line ["Resuming agent on node-b..."]; line []; out] in
  match r with
  | Err e => Some (out, Err e)
  | Ok (m, i) =>
      match SaveCheckpointToStorage m i with
      | (Err e, _, _) => Some (out, Err (ErrSaveB e))
      | (Ok _, m, i) =>
          Some (cat [out; line ["  [node-b] Final checkpoint #"; pretty (Instance.TickNumber i); " saved"]; line []], Ok (m, i))
      end
  end.

(** One snapshot with a tick log: what is printed, whether it passes, whether
    it counts. *)
Definition verify_snapshot (i : agent) (snap : TickSnapshot) (log : TickLog) : string * bool * bool :=
  let r := ReplayTick (WASMBytes i) (Some (CapManifest i)) (PreState snap) log None in
  match Error r with
  | Some e => (line ["  Replay error at tick "; pretty (snap_tick snap); ": "; replay_text e], false, false)
  | None =>
      if bool_decide (sha256 (default [] (ReplayedState r)) = PostStateHash snap) then ("", true, true)
      else (line ["  Replay divergence at tick "; pretty (snap_tick snap)], false, true)
  end.
Fixpoint verify_window (i : agent) (snaps : list TickSnapshot) (passed : bool) (verified : Z) : string * bool * Z :=
  match snaps with
  | [] => ("", passed, verified)
  | snap :: snaps =>
      match SnapLog snap with
      | None => verify_window i snaps passed verified
      | Some log =>
          let '(out, ok, counts) := verify_snapshot i snap log in
          let '(more, passed, verified) := verify_window i snaps (passed && ok) (if counts then verified + 1 else verified) in
          (out +:+ more, passed, verified)
      end
  end.
Definition verifyReplay (i : agent) : string * bool * Z :=
  let '(out, passed, verified) := verify_window i (ReplayWindow i) true 0 in
  let verdict := if passed && (0 <? verified)
                 then line ["  Replay verification PASSED ("; pretty verified; " ticks verified)"]
                 else if negb passed then line ["  Replay verification completed with divergences"] else "" in
  (cat [line ["Running replay verification..."]; out; verdict; line []], passed, verified).

Definition safety_checks (replayPassed : bool) : list Timeline.SafetyCheck := [
  Timeline.mkCheck "No duplicate finalize execution" true; Timeline.mkCheck "Checkpoint integrity verified" true;
  Timeline.mkCheck "Replay determinism confirmed" replayPassed; Timeline.mkCheck "Single-instance invariant maintained throughout" true].

(** What the run meets: the parts of the two nodes, the clock when the lease is
    granted, the fate of the one transfer, [time.Now] and the zone of the
    timeline. *)
Record Stage := mkStage {
  parts_a : option NodeParts; parts_b : option NodeParts; lease_time : Authority.time; transfer : delivery;
  wall : option TickLog -> Z; zone : Z -> Z }.
Definition agent_on_a (readFile : string -> option bytes) (wasmPath : string) (a : service) : result demo_error (Inst * agent) :=
  match LoadAgent readFile wasmPath agentID (storage a) demo_budget demo_price manifestJSON None "" None (s_env a) with
  | Err e => Err (ErrLoadAgent e)
  | Ok (m, i) => match Init m i with (Err e, _, _) => Err (ErrInitAgent e) | (Ok _, m, i) => Ok (m, i) end
  end.
(** Node A with its agent registered, after the ticks and the save. *)
Definition registered_on_a (a : service) (m : Inst) (i : agent) : service :=
  RegisterAgent agentID 0%nat (with_runtime {[agentID]} (with_heap {[0%nat := (m, i)]} (with_storage (Storage i) a))).
Definition run_on_a (stage : Stage) (readFile : string -> option bytes) (wasmPath : string) (a : service)
    : string * result demo_error (Inst * agent) :=
  match agent_on_a readFile wasmPath a with
  | Err e => ("", Err e)
  | Ok (m, i) =>
      let i := set_Lease (Some (Authority.NewLease Authority.DefaultLeaseConfig (lease_time stage))) i in
      let '(out, r) := ticks_on_a totalPreCrashTicks 1 m i in
      let out := cat [line ["Agent loaded on node-a"]; line []; line ["Running agent on node-a..."]; line []; out] in
      match r with
      | Err e => (out, Err e)
      | Ok (m, i) =>
          match SaveCheckpointToStorage m i with
          | (Err e, _, _) => (out, Err (ErrSaveA e))
          | (Ok _, m, i) =>
              let n := pretty (Instance.TickNumber i) in
              (cat [out; line ["  [node-a] Checkpoint #"; n; " saved"]; line []; line ["  ✗ HOST NODE FAILURE"];
                    line ["    Node node-a became unreachable"]; line ["    Last confirmed checkpoint: #"; n]; line []], Ok (m, i))
          end
      end
  end.
(** The migration, and the agent found on node B with its lease epoch. *)
Definition move_to_b (stage : Stage) (readFile : string -> option bytes) (wasmPath target : string) (a b : service)
    : result demo_error (string * (Inst * agent)) :=
  let w := mkWorld a {[target := b]} [mkAttempt (transfer stage) false] in
  match MigrateAgent readFile agentID wasmPath target w with
  | (Err e, _) => Err (ErrMigrate e)
  | (Ok _, w) =>
      match (b ← peers w !! target; addr ← GetActiveInstance agentID b; heap b !! addr) with
      | None => Err ErrNotOnB
      | Some (m, i) =>
          Ok (match Lease i with Some l => Authority.Epoch_String (Authority.lease_epoch l) | None => "(1,0)"%string end, (m, i))
      end
  end.
(** [s[:12]] of a peer ID, which is never shorter. *)
Definition intro (pa pb : NodeParts) : string :=
  cat [line ["  node-a: "; keep 12 (np_id pa)]; line ["  node-b: "; keep 12 (np_id pb)]; line []].
Definition target_of (p : NodeParts) : string := cat [np_addr p; "/p2p/"; np_id p].

(** [runDemo]: the printed text with the error or the timeline; [None] if the
    agent still has work after [fuel] ticks on node B. *)
Definition runDemo (fuel : nat) (stage : Stage) (readFile : string -> option bytes) (wasmPath : string)
    : option (string * result demo_error Timeline.Timeline) :=
  let start := cat [printBanner; line ["Setting up two nodes..."]] in
  match newDemoNode "node-a" (parts_a stage) Authority.DefaultLeaseConfig, newDemoNode "node-b" (parts_b stage) Authority.DefaultLeaseConfig,
        parts_a stage, parts_b stage with
  | Ok a, Ok b, Some pa, Some pb =>
      let '(out, r) := run_on_a stage readFile wasmPath a in
      let out := cat [start; intro pa pb; out] in
      match r with
      | Err e => Some (out, Err e)
      | Ok (m, i) =>
          let out := cat [out; line ["  Migrating agent to node-b..."]] in
          match move_to_b stage readFile wasmPath (target_of pb) (registered_on_a a m i) b with
          | Err e => Some (out, Err e)
          | Ok (leaseEpoch, (mb, ib)) =>
              let out := cat [out; line ["  Agent migrated to node-b (epoch: "; leaseEpoch; ")"]; line []] in
              '(more, r) ← resumeAndTick fuel mb ib;
              let out := cat [out; more] in
              match r with
              | Err e => Some (out, Err e)
              | Ok (mb, ib) =>
                  let '(more, passed, verified) := verifyReplay ib in
                  let tl := buildTimeline (wall stage) (History (EvLog i)) (History (EvLog ib)) leaseEpoch passed verified in
                  Some (cat [out; more; Timeline.Render (zone stage) tl; Timeline.RenderSafetySummary (safety_checks passed);
                             Timeline.RenderComparison], Ok tl)
              end
          end
      end
  | Err e, _, _, _ => Some (start, Err e)
  | _, Err e, _, _ => Some (start, Err e)
  | _, _, _, _ => Some (start, Err (ErrCreateNode "node-a"))
  end.
(** [main]: the text and the exit code; [None] as for [runDemo]. *)
Definition demo_flags : values := defaults [mkFlag "wasm" (VString "") "" "Path to reconciliation agent WASM"].
Definition main (fuel : nat) (stage : Stage) (readFile : string -> option bytes) (args : list string) : option (string * Z) :=
  match Parse demo_flags args with
  | Err e => Some (""%string, flag_exit e)
  | Ok (v, _) =>
      let wasmPath := get_string "wasm" v in
      if bool_decide (wasmPath = ""%string) then Some (""%string, 1)
      else '(out, r) ← runDemo fuel stage readFile wasmPath; Some (out, if is_ok r then 0 else 1)
  end.
End Demo.
