(* ===== verification/Runner.v ===== *)
(** * Tick loops (internal/runner, internal/config, cmd/igord, cmd/igord-lab)

    Node configuration, lease checks around a tick, self-verification with
    its escalation policies, and the two tick loops as functions over a list
    of the events their [select] receives. *)
From S2P Require Import Prelude GoFloat Crypto EventLog Manifest Storage Wasm Hostcall Replay ToyGuest Instance TickReplay.
From S2P Require Authority Identity Checkpoint Budget.
From stdpp Require Import gmap strings.
#[local] Existing Instance Authority.State_eq_dec.
Open Scope Z_scope.

(** ** internal/config *)
Record Config := mkConfig {
  NodeID : string; ListenAddress : string; cfg_Price : Z; BootstrapPeers : list string; CheckpointDir : string;
  ReplayWindowSize : Z; VerifyInterval : Z; ReplayMode : string; ReplayCostLog : bool; ReplayOnDivergence : string;
  LeaseDuration : Z; LeaseRenewalWindow : float64; LeaseGracePeriod : Z;
  MigrationMaxRetries : Z; MigrationRetryDelay : Z }.
Definition second : Z := Authority.second.
Definition TickTimeout : Z := 15 * second.
Definition default_config (nodeID : string) : Config := {|
  NodeID := nodeID; ListenAddress := "/ip4/0.0.0.0/tcp/4001"; cfg_Price := 1000; BootstrapPeers := [];
  CheckpointDir := "./checkpoints"; ReplayWindowSize := 16; VerifyInterval := 5; ReplayMode := "full";
  ReplayCostLog := false; ReplayOnDivergence := "log"; LeaseDuration := 60 * second;
  LeaseRenewalWindow := f64_div f64_one (f64_of_Z 2); LeaseGracePeriod := 10 * second;
  MigrationMaxRetries := 3; MigrationRetryDelay := 1 * second |}.

Inductive config_field :=
| FPrice | FWindow | FInterval | FMode | FPolicy | FRetries | FRetryDelay | FLeaseDuration | FRenewal | FGrace.
Definition Validate (c : Config) : result config_field unit :=
  if cfg_Price c <=? 0 then Err FPrice
  else if ReplayWindowSize c <? 0 then Err FWindow
  else if VerifyInterval c <? 0 then Err FInterval
  else if negb (bool_decide (ReplayMode c ∈ ["off"; "periodic"; "on-migrate"; "full"]%string)) then Err FMode
  else if negb (bool_decide (ReplayOnDivergence c ∈ ["log"; "pause"; "intensify"; "migrate"]%string)) then Err FPolicy
  else if MigrationMaxRetries c <? 0 then Err FRetries
  else if MigrationRetryDelay c <? 0 then Err FRetryDelay
  else if LeaseDuration c <? 0 then Err FLeaseDuration
  else if 0 <? LeaseDuration c then
    if f64_leb (LeaseRenewalWindow c) f64_zero || f64_leb f64_one (LeaseRenewalWindow c) then Err FRenewal
    else if LeaseGracePeriod c <? 0 then Err FGrace
    else Ok tt
  else Ok tt.
Definition Load (uuid : string) : result config_field Config :=
  let cfg := default_config uuid in
  match Validate cfg with Ok _ => Ok cfg | Err e => Err e end.

(** cmd/igord-lab: the flags, applied after validation. *)
Definition applyCLIOverrides (c : Config) (replayWindow verifyInterval : Z) (replayMode : string) (replayCostLog : bool)
    (replayOnDivergence : string) (leaseDuration leaseGrace migrationRetries migrationRetryDelay : Z) : Config := {|
  NodeID := NodeID c; ListenAddress := ListenAddress c; cfg_Price := cfg_Price c; BootstrapPeers := BootstrapPeers c;
  CheckpointDir := CheckpointDir c;
  ReplayWindowSize := if 0 <? replayWindow then replayWindow else ReplayWindowSize c;
  VerifyInterval := if 0 <? verifyInterval then verifyInterval else VerifyInterval c;
  ReplayMode := if bool_decide (replayMode = ""%string) then ReplayMode c else replayMode;
  ReplayCostLog := replayCostLog || ReplayCostLog c;
  ReplayOnDivergence := if bool_decide (replayOnDivergence = ""%string) then ReplayOnDivergence c else replayOnDivergence;
  LeaseDuration := leaseDuration; LeaseRenewalWindow := LeaseRenewalWindow c; LeaseGracePeriod := leaseGrace;
  MigrationMaxRetries := if 0 <? migrationRetries then migrationRetries else MigrationMaxRetries c;
  MigrationRetryDelay := if 0 <? migrationRetryDelay then migrationRetryDelay else MigrationRetryDelay c |}.
Definition set_VerifyInterval (n : Z) (c : Config) : Config := {|
  NodeID := NodeID c; ListenAddress := ListenAddress c; cfg_Price := cfg_Price c; BootstrapPeers := BootstrapPeers c;
  CheckpointDir := CheckpointDir c; ReplayWindowSize := ReplayWindowSize c; VerifyInterval := n;
  ReplayMode := ReplayMode c; ReplayCostLog := ReplayCostLog c; ReplayOnDivergence := ReplayOnDivergence c;
  LeaseDuration := LeaseDuration c; LeaseRenewalWindow := LeaseRenewalWindow c; LeaseGracePeriod := LeaseGracePeriod c;
  MigrationMaxRetries := MigrationMaxRetries c; MigrationRetryDelay := MigrationRetryDelay c |}.

(** ** internal/runner *)
Inductive DivergenceAction := DivergenceNone | DivergenceLog | DivergencePause | DivergenceIntensify | DivergenceMigrate.
Definition EscalationForPolicy (policy : string) : DivergenceAction :=
  if bool_decide (policy = "pause"%string) then DivergencePause
  else if bool_decide (policy = "intensify"%string) then DivergenceIntensify
  else if bool_decide (policy = "migrate"%string) then DivergenceMigrate
  else DivergenceLog.

Section Runner.
Context {W : Wasm} `{Crypto} `{JSON} {St : Type} `{Provider St}.
Abbreviation agent := (Instance (St := St)).

(** A piece of the loop: [None] when the process dies in a storage call. *)
Definition Run (A : Type) := Inst -> agent -> option A * Inst * agent.
#[export] Instance Run_ret : MRet Run := fun _ a m i => (Some a, m, i).
#[export] Instance Run_bind : MBind Run := fun _ _ f o m i =>
  match o m i with (Some a, m, i) => f a m i | (None, m, i) => (None, m, i) end.

Definition SafeTick : Op (St := St) bool := Tick.
(** Errors of a save are logged and dropped; storage is always present. *)
Definition trySaveCheckpoint : Run unit := fun m i =>
  match SaveCheckpointToStorage m i with
  | (Err ErrCrashed, m, i) => (None, m, i)
  | (_, m, i) => (Some tt, m, i)
  end.
Definition HandleTickFailure (tickErr : instance_error) : Run instance_error :=
  _ ← trySaveCheckpoint; mret tickErr.

(** ** internal/runner/research *)
(** The clock as the lease operations read it: once to validate, once to
    decide on renewal, twice to renew, once to recover. *)
Record Clock := mkClock { c_validate : Authority.time; c_need : Authority.time;
  c_renew1 : Authority.time; c_renew2 : Authority.time; c_recover : Authority.time }.

(** Only the lease changes. *)
Definition CheckAndRenewLease (c : Clock) (i : agent) : result Authority.lease_error unit * agent :=
  match Lease i with
  | None => (Ok tt, i)
  | Some lease =>
      match Authority.ValidateForTick (c_validate c) lease with
      | (Err e, lease) => (Err e, set_Lease (Some lease) i)
      | (Ok _, lease) =>
          if Authority.NeedsRenewal (c_need c) lease
          then (Ok tt, set_Lease (Some (snd (Authority.Renew (c_renew1 c) (c_renew2 c) lease))) i)
          else (Ok tt, set_Lease (Some lease) i)
      end
  end.

Definition HandleLeaseExpiry (e : Authority.lease_error) : Run Authority.lease_error :=
  _ ← trySaveCheckpoint; mret e.

Inductive recovery_error := ErrNoLease | ErrRecover (e : Authority.lease_error).
Definition AttemptLeaseRecovery (c : Clock) : Run (result recovery_error unit) := fun m i =>
  match Lease i with
  | None => (Some (Err ErrNoLease), m, i)
  | Some lease =>
      match Authority.Recover (c_recover c) lease with
      | (Err e, lease) => (Some (Err (ErrRecover e)), m, set_Lease (Some lease) i)
      | (Ok _, lease) => (_ ← trySaveCheckpoint; mret (Ok tt)) m (set_Lease (Some lease) i)
      end
  end.

(** Replay the oldest unverified tick that made observations. *)
Fixpoint verify_snaps (wasm : bytes) (caps : CapabilityManifest) (snaps : list TickSnapshot) (lastVerified : Z)
    (policy : string) : Z * DivergenceAction :=
  match snaps with
  | [] => (lastVerified, DivergenceNone)
  | snap :: snaps =>
      if snap_tick snap <=? lastVerified then verify_snaps wasm caps snaps lastVerified policy
      else
        match SnapLog snap with
        | None => verify_snaps wasm caps snaps lastVerified policy
        | Some log =>
            if blen (Entries log) =? 0 then verify_snaps wasm caps snaps lastVerified policy
            else
              let r := ReplayTick wasm (Some caps) (PreState snap) log None in
              match Error r with
              | Some _ => (snap_tick snap, EscalationForPolicy policy)
              | None =>
                  if bool_decide (sha256 (default [] (ReplayedState r)) = PostStateHash snap)
                  then (snap_tick snap, DivergenceNone)
                  else (snap_tick snap, EscalationForPolicy policy)
              end
        end
  end.
Definition VerifyNextTick (i : agent) (lastVerified : Z) (policy : string) : Z * DivergenceAction :=
  verify_snaps (WASMBytes i) (CapManifest i) (ReplayWindow i) lastVerified policy.

(** [migrateFn] is absent, or tells whether the migration succeeded; the
    configuration is changed in place. *)
Definition HandleDivergenceAction (action : DivergenceAction) (migrateFn : option (Run bool)) (cfg : Config) : Run (bool * Config) :=
  match action with
  | DivergencePause => _ ← trySaveCheckpoint; mret (true, cfg)
  | DivergenceIntensify => mret (false, set_VerifyInterval 1 cfg)
  | DivergenceMigrate =>
      migrated ← match migrateFn with Some f => f | None => mret false end;
      if migrated : bool then mret (true, cfg) else _ ← trySaveCheckpoint; mret (true, cfg)
  | DivergenceNone | DivergenceLog => mret (false, cfg)
  end.

(** ** cmd/igord-lab *)
(** Registering the instance for migration is [Migration.RegisterAgent]. *)
Definition initLocalAgent (cfg : Config) (now : Authority.time) : Op (St := St) unit := fun m i =>
  let i := set_BudgetAdapter (Some MockAdapter) (SetReplayWindowSize (ReplayWindowSize cfg) i) in
  match Init m i with
  | (Err e, m, i) => (Err e, m, i)
  | (Ok _, m, i) =>
      let '(_, m, i) := LoadCheckpointFromStorage m i in
      if 0 <? LeaseDuration cfg
      then (Ok tt, m, set_Lease (Some (Authority.NewLease
              (Authority.mkLeaseConfig (LeaseDuration cfg) (LeaseRenewalWindow cfg) (LeaseGracePeriod cfg)) now)) i)
      else (Ok tt, m, i)
  end.

Inductive tickResult := tickNormal | tickFastPath | tickRecovered | tickStopped.
Inductive loop_error := LeaseErr (e : Authority.lease_error) | TickErr (e : instance_error).
(** What the loop keeps between ticks. *)
Record LoopVars := mkVars { l_cfg : Config; ticksSinceVerify : Z; lastVerifiedTick : Z }.

Definition recovery_required (i : agent) : bool :=
  match Lease i with Some l => bool_decide (Authority.lease_state l = Authority.StateRecoveryRequired) | None => false end.

(** Verification after a successful tick. *)
Definition verify_step (periodicVerify : bool) (hasMoreWork : bool) (l : LoopVars) : Run (tickResult * LoopVars) := fun m i =>
  let more := if hasMoreWork then tickFastPath else tickNormal in
  let since := ticksSinceVerify l + 1 in
  if periodicVerify && (0 <? VerifyInterval (l_cfg l)) && (VerifyInterval (l_cfg l) <=? since) then
    let '(last, action) := VerifyNextTick i (lastVerifiedTick l) (ReplayOnDivergence (l_cfg l)) in
    ('(stop, cfg) ← HandleDivergenceAction action None (l_cfg l);
     mret (if stop : bool then tickStopped else more, mkVars cfg 0 last)) m i
  else (Some (more, mkVars (l_cfg l) since (lastVerifiedTick l)), m, i).

Definition handleTick (periodicVerify : bool) (c : Clock) (l : LoopVars) : Run (result loop_error (tickResult * LoopVars)) := fun m i =>
  match CheckAndRenewLease c i with
  | (Err leaseErr, i) =>
      let expire : Run _ := e ← HandleLeaseExpiry leaseErr; mret (Err (LeaseErr e)) in
      if recovery_required i
      then (r ← AttemptLeaseRecovery c;
            match r with Ok _ => mret (Ok (tickRecovered, l)) | Err _ => expire end) m i
      else expire m i
  | (Ok _, i) =>
      match SafeTick m i with
      | (Err tickErr, m, i) => (e ← HandleTickFailure tickErr; mret (Err (TickErr e))) m i
      | (Ok hasMoreWork, m, i) => (r ← verify_step periodicVerify hasMoreWork l; mret (Ok r)) m i
      end
  end.

(** The events the loops select on, and how a loop ends. *)
Inductive event := EvTick (c : Clock) | EvCheckpoint | EvSignal | EvCancelled.
Inductive stop := StopSignal | StopCancelled | StopDiverged | StopError (e : loop_error).

(** [runLocalAgent] after [initLocalAgent]: the loop over the events it
    receives; [Some None] when the events run out. *)
Fixpoint runLocalAgent_loop (periodicVerify : bool) (events : list event) (l : LoopVars) : Run (option stop) :=
  match events with
  | [] => mret None
  | EvCancelled :: _ => mret (Some StopCancelled)
  | EvSignal :: _ => _ ← trySaveCheckpoint; mret (Some StopSignal)
  | EvCheckpoint :: events => _ ← trySaveCheckpoint; runLocalAgent_loop periodicVerify events l
  | EvTick c :: events =>
      r ← handleTick periodicVerify c l;
      match r with
      | Err e => mret (Some (StopError e))
      | Ok (tickStopped, _) => mret (Some StopDiverged)
      | Ok (_, l) => runLocalAgent_loop periodicVerify events l
      end
  end.

(** ** cmd/igord *)
Fixpoint runTickLoop (events : list event) : Run (option stop) :=
  match events with
  | [] => mret None
  | EvCancelled :: _ => mret (Some StopCancelled)
  | EvSignal :: _ => _ ← trySaveCheckpoint; mret (Some StopSignal)
  | EvCheckpoint :: events => _ ← trySaveCheckpoint; runTickLoop events
  | EvTick _ :: events => fun m i =>
      match SafeTick m i with
      | (Err e, m, i) => (e ← HandleTickFailure e; mret (Some (StopError (TickErr e)))) m i
      | (Ok _, m, i) => runTickLoop events m i
      end
  end.
End Runner.

(** ** Facts *)
Section Facts.
Context {W : Wasm} `{!WasmLaws W} `{CryptoLaws} `{JSON} {St : Type} `{Provider St}.
Implicit Types (i : Instance (St := St)).

(** A view of the instance that saving its checkpoint does not write. *)
Record unsaved {T} (view : Instance (St := St) -> T) : Prop := {
  us_storage x i : view (set_Storage x i) = view i;
  us_prev x i : view (set_PrevCheckpointHash x i) = view i;
  us_env n i : view (set_env_step n i) = view i;
  us_receipts x i : view (set_Receipts x i) = view i;
  us_last x i : view (set_lastReceiptTick x i) = view i;
  us_cost x i : view (set_epochCost x i) = view i;
  us_adapter x i : view (set_BudgetAdapter x i) = view i }.

Lemma Save_keeps {T} (view : _ -> T) m i r m' i' :
  unsaved view -> SaveCheckpointToStorage m i = (r, m', i') ->
  exists rc i1, Checkpoint m i = (rc, m', i1) /\ view i' = view i1.
Proof.
  intros Hv. unfold SaveCheckpointToStorage. destruct (Checkpoint m i) as [[rc m1] i1].
  intros E. exists rc, i1. enough (m' = m1 /\ view i' = view i1) as [-> ?] by done. revert E.
  destruct rc as [state|e]; [|by intros [= _ <- <-]].
  unfold buildCheckpoint. destruct (Checkpoint.buildCheckpoint _ _) as [[c h]|e]; [|by intros [= _ <- <-]].
  destruct (prov_SaveCheckpoint _ _ _) as [o st]. set (i2 := set_Storage st _).
  assert (view i2 = view i1) as E2 by (unfold i2; by rewrite (us_storage _ Hv), (us_prev _ Hv)).
  destruct (of_outcome o); [|by intros [= _ <- <-]].
  destruct (CreateReceipt i2) as [r3 i3] eqn:E3. destruct (persist_receipts i3) as [r4 i4] eqn:E4.
  intros [= _ <- <-]. split; [done|]. rewrite <- E2. clear E2. transitivity (view i3).
  - clear E3. revert E4. unfold persist_receipts. repeat case_match_goal; intros; simplify_eq/=;
      by rewrite ?(us_adapter _ Hv), ?(us_storage _ Hv).
  - clear E4. revert E3. unfold CreateReceipt. destruct (signingKey i2); [|by intros [= _ <-]].
    cbn [now_unix_nano instance_env]. unfold tick_env. destruct (Receipt.Sign _ _) as [[u|e] r0]; intros [= _ <-];
      by rewrite ?(us_cost _ Hv), ?(us_last _ Hv), ?(us_receipts _ Hv), (us_env _ Hv).
Qed.
Lemma Save_inert {T} (view : _ -> T) m i r m' i' :
  unsaved view -> inert view -> SaveCheckpointToStorage m i = (r, m', i') -> view i' = view i.
Proof.
  intros Hu Hi E. destruct (Save_keeps view _ _ _ _ _ Hu E) as (rc & i1 & Ec & ->). by eapply Checkpoint_inert.
Qed.
Lemma trySave_Save m i r m' i' : trySaveCheckpoint m i = (r, m', i') ->
  exists rs, SaveCheckpointToStorage m i = (rs, m', i').
Proof.
  unfold trySaveCheckpoint. destruct (SaveCheckpointToStorage m i) as [[rs m1] i1].
  destruct rs as [u|e]; [|destruct e]; intros [= _ <- <-]; eauto.
Qed.

(** What a tick leaves its trace in, and the lease. *)
Definition progress i : Z * list TickSnapshot * option Authority.Lease := (TickNumber i, ReplayWindow i, Lease i).
Lemma progress_unsaved : unsaved progress.
Proof. by split. Qed.
Lemma progress_inert : inert progress.
Proof. split; [|done]. by intros i i' (b & l & n & ->). Qed.
Lemma trySave_progress m i r m' i' : trySaveCheckpoint m i = (r, m', i') -> progress i' = progress i.
Proof. intros [rs E]%trySave_Save. by eapply Save_inert; [apply progress_unsaved|apply progress_inert|]. Qed.

(** A round that finds the lease in RECOVERY_REQUIRED. *)
Lemma recovery_round c l lease (m m' : Inst) i i' (k : Run (result loop_error (tickResult * LoopVars))) r :
  Lease i = Some lease -> Authority.lease_state lease = Authority.StateRecoveryRequired ->
  mbind (M := Run) (fun r => match r with Ok _ => mret (M := Run) (Ok (tickRecovered, l)) | Err _ => k end) (AttemptLeaseRecovery c) m i = (r, m', i') ->
  TickNumber i' = TickNumber i /\ ReplayWindow i' = ReplayWindow i /\
  (r = None \/ r = Some (Ok (tickRecovered, l))) /\
  exists lease', Lease i' = Some lease' /\ Authority.lease_state lease' = Authority.StateActiveOwner /\
    Authority.lease_epoch lease' = Authority.mkEpoch (u64 (Authority.MajorVersion (Authority.lease_epoch lease) + 1)) 0.
Proof.
  intros Hl Hs. unfold mbind, Run_bind at 1, AttemptLeaseRecovery. rewrite Hl. unfold Authority.Recover.
  rewrite decide_False by tauto. unfold mbind, Run_bind.
  destruct (trySaveCheckpoint _ _) as [[rs m1] i1] eqn:Es. apply trySave_progress in Es. injection Es as E1 E2 E3.
  destruct rs; intros [= <- <- <-]; (split_and!; [done..| |eexists; by split_and!]); auto.
Qed.

(** C27: no lease, no tick.  When the lease does not permit a tick
    ([ValidateForTick] fails), [handleTick] never runs the agent: tick number
    and replay window are as before.  A node whose lease ran out, or that is
    in RECOVERY_REQUIRED, comes back under a new major epoch and does not tick
    in this round; any other state (a hand-off under way, a retired lease)
    stops the loop with the lease error and leaves the lease alone.  The only
    other outcome is the death of the process while it saves. *)
Theorem no_tick_without_lease periodicVerify c l (m m' : Inst) i i' lease e r :
  Lease i = Some lease -> fst (Authority.ValidateForTick (c_validate c) lease) = Err e ->
  handleTick periodicVerify c l m i = (r, m', i') ->
  TickNumber i' = TickNumber i /\ ReplayWindow i' = ReplayWindow i /\
  if decide (Authority.lease_state lease = Authority.StateActiveOwner \/
             Authority.lease_state lease = Authority.StateRecoveryRequired)
  then (r = None \/ r = Some (Ok (tickRecovered, l))) /\
       exists lease', Lease i' = Some lease' /\ Authority.lease_state lease' = Authority.StateActiveOwner /\
         Authority.lease_epoch lease' = Authority.mkEpoch (u64 (Authority.MajorVersion (Authority.lease_epoch lease) + 1)) 0
  else (r = None \/ r = Some (Err (LeaseErr e))) /\ Lease i' = Some lease.
Proof.
  intros Hl Hv. unfold handleTick, CheckAndRenewLease. rewrite Hl. unfold Authority.ValidateForTick in *.
  destruct (decide (Authority.lease_state lease <> Authority.StateActiveOwner)) as [Ha|Ha].
  - injection Hv as <-. unfold recovery_required. cbn [Lease set_Lease].
    destruct (decide (Authority.lease_state lease = Authority.StateRecoveryRequired)) as [Hr|Hr].
    + rewrite bool_decide_eq_true_2, (decide_True (P := _ \/ _)) by tauto. intros E.
      by apply (recovery_round c l lease) in E.
    + rewrite bool_decide_eq_false_2, (decide_False (P := _ \/ _)) by tauto.
      unfold HandleLeaseExpiry, mbind, Run_bind. destruct (trySaveCheckpoint _ _) as [[rs m1] i1] eqn:Es.
      apply trySave_progress in Es. injection Es as E1 E2 E3.
      destruct rs; intros [= <- <- <-]; split_and!; auto.
  - apply dec_stable in Ha. destruct (Authority.IsExpiredWithGrace _ _); [|done].
    unfold recovery_required. cbn [Lease set_Lease]. rewrite bool_decide_eq_true_2, (decide_True (P := _ \/ _)) by tauto.
    intros E. by apply (recovery_round c l (Authority.with_state Authority.StateRecoveryRequired lease)) in E.
Qed.

(** *** Self-verification of an honest agent *)
Definition window_replays i : Prop :=
  Forall (fun s => exists st, replays (WASMBytes i) (CapManifest i) s st) (ReplayWindow i).
Record live_inv (R : Inst -> Inst -> Prop) (Q : Inst -> Prop) (m : Inst) i : Prop := {
  li_contract : agent_contract (WASMBytes i) R Q;
  li_live : Q m;
  li_ready : tick_ready i;
  li_replayable : replayable (wasm := WASMBytes i) i;
  li_window : window_replays i }.

(** All that [live_inv] looks at. *)
Definition live_view i :=
  (Budget i, PricePerSecond i, EvLog i, AgentIdentity i, (ReplayWindow i, replayWindowMax i), (WASMBytes i, CapManifest i)).
Lemma live_view_unsaved : unsaved live_view.
Proof. by split. Qed.
Lemma live_inv_view R Q m m' i i' : live_view i' = live_view i -> Q m' -> live_inv R Q m i -> live_inv R Q m' i'.
Proof.
  unfold live_view. intros [= E1 E2 E3 E4 E5 E6 E7 E8] HQ [Hc _ [Hok Hw] Hr Hwin].
  split; [by rewrite E7|done| | |].
  - split.
    + destruct Hok. split; [by rewrite E1|by rewrite E2|by rewrite E3|by rewrite E4].
    + unfold max_snaps in *. by rewrite E5, E6.
  - unfold replayable in *. by rewrite E7, E8.
  - unfold window_replays. by rewrite E5, E7, E8.
Qed.

Lemma verify_snaps_honest wasm caps policy snaps : Forall (fun s => exists st, replays wasm caps s st) snaps ->
  forall lastV, snd (verify_snaps wasm caps snaps lastV policy) = DivergenceNone.
Proof.
  induction 1 as [|s snaps (st & log & Hlog & Hst & Hrun) _ IH]; intros lastV; cbn [verify_snaps]; [done|].
  destruct (snap_tick s <=? lastV); [apply IH|]. rewrite Hlog. destruct (blen (Entries log) =? 0); [apply IH|].
  unfold ReplayTick. rewrite Hrun. cbn. by rewrite bool_decide_true.
Qed.

(** The contract makes saving harmless: no hostcall runs, only the stored
    state changes. *)
Lemma Checkpoint_live R Q m i r m' i' :
  live_inv R Q m i -> Checkpoint m i = (r, m', i') -> Q m' /\ live_view i' = live_view i.
Proof.
  intros [AC HQ _ _ _]. pose proof (ac_refl _ _ _ AC m HQ) as Hm.
  unfold Checkpoint, on_module, require, mbind, M_bind, live_call.
  destruct (ExportedFunction m "agent_checkpoint"); [|by intros [= _ <- <-]].
  destruct (ac_checkpoint _ _ _ AC m m Hm) as (vs & m1 & _ & ps & m2 & _ & E1 & _ & _ & _ & Ep & _). unfold Call. rewrite E1. cbn [exec].
  pose proof (ac_capture_live _ _ _ AC m vs m1 HQ (or_introl E1)) as HQ1.
  destruct vs as [|v vs]; cbn [result0]; [by intros [= _ <- <-]|].
  unfold mret, M_ret, raise. destruct (u32 v =? 0); [by intros [= _ <- <-]|].
  destruct (ExportedFunction m1 "agent_checkpoint_ptr"); [|by intros [= _ <- <-]].
  rewrite Ep. cbn [exec].
  pose proof (ac_capture_live _ _ _ AC m1 ps m2 HQ1 (or_intror Ep)) as HQ2.
  destruct ps as [|p ps]; cbn [result0]; [by intros [= _ <- <-]|].
  unfold mret, M_ret, MemRead, keep_state. cbv beta iota. destruct (mem_read m2 (u32 p) (u32 v)); by intros [= _ <- <-].
Qed.
Lemma Save_live R Q m i r m' i' :
  live_inv R Q m i -> SaveCheckpointToStorage m i = (r, m', i') -> live_inv R Q m' i'.
Proof.
  intros Hi E. destruct (Save_keeps live_view _ _ _ _ _ live_view_unsaved E) as (rc & i1 & Ec & Ev).
  destruct (Checkpoint_live R Q m i _ _ _ Hi Ec) as [HQ Ev1]. eapply live_inv_view; [|done|done]. congruence.
Qed.
Lemma trySave_live R Q m i r m' i' :
  live_inv R Q m i -> trySaveCheckpoint m i = (r, m', i') -> live_inv R Q m' i'.
Proof. intros Hi [rs E]%trySave_Save. by eapply Save_live. Qed.

Lemma push_snapshot_Forall (P : TickSnapshot -> Prop) max s w :
  1 <= max -> blen w <= max -> P s -> Forall P w -> Forall P (push_snapshot max s w).
Proof.
  intros Hm Hw Hs Hf. destruct (push_snapshot_cases max s w Hm Hw) as (_ & _ & [->|(k & e & _ & ->)]).
  - by apply Forall_app; split; [|constructor].
  - apply Forall_app. split; [by apply Forall_take|]. apply Forall_app. split; [by apply Forall_drop|by constructor].
Qed.
Lemma Tick_live R Q m i more m' i' :
  live_inv R Q m i -> Tick m i = (Ok more, m', i') -> tick_recorded m i = true -> live_inv R Q m' i'.
Proof.
  intros [AC HQ Hr Hlink Hwin] HT Hrec.
  destruct (snapshot_replays R Q m i more m' i' AC HQ Hr Hlink HT Hrec) as
    (snap & st & Hpush & _ & _ & Hrep & Hr' & Ew & Ec).
  pose proof (tick_keeps_live R Q m i more m' i' AC HQ HT) as HQ'.
  split; [by rewrite Ew|done|done|unfold replayable in *; by rewrite Ew, Ec|].
  unfold window_replays in *. rewrite Ew, Ec, Hpush. apply push_snapshot_Forall; [|by destruct Hr|by exists st|done].
  unfold max_snaps, DefaultReplayWindowSize. destruct (Z.leb_spec (replayWindowMax i) 0); lia.
Qed.
Lemma CheckAndRenewLease_view c i r i' : CheckAndRenewLease c i = (r, i') -> live_view i' = live_view i.
Proof. unfold CheckAndRenewLease. repeat case_match_goal; intros [= <- <-]; done. Qed.

(** One round of the loop. *)
Definition round_recorded (c : Clock) (m : Inst) i : bool :=
  match CheckAndRenewLease c i with (Ok _, i) => tick_recorded m i | _ => true end.
Lemma handleTick_live R Q periodicVerify c l m i r m' i' :
  live_inv R Q m i -> round_recorded c m i = true -> handleTick periodicVerify c l m i = (Some (Ok r), m', i') ->
  fst r <> tickStopped /\ live_inv R Q m' i'.
Proof.
  intros Hi Hrec. unfold handleTick, round_recorded in *.
  destruct (CheckAndRenewLease c i) as [[u|e] i1] eqn:Ec; apply CheckAndRenewLease_view in Ec;
    assert (live_inv R Q m i1) as Hi1 by (eapply live_inv_view; [done|by destruct Hi|done]).
  - unfold SafeTick. destruct (Tick m i1) as [[[more|e] m2] i2] eqn:ET.
    + pose proof (Tick_live R Q _ _ _ _ _ Hi1 ET Hrec) as Hi2. unfold verify_step.
      destruct (_ && _); [|intros [= <- <- <-]; cbn; by destruct more].
      unfold VerifyNextTick. pose proof (verify_snaps_honest _ _ (ReplayOnDivergence (l_cfg l)) _ (li_window _ _ _ _ Hi2) (lastVerifiedTick l)) as Hn.
      unfold mbind, Run_bind. destruct (verify_snaps _ _ _ _ _) as [lastV action]. cbn in Hn. subst action. cbn.
      intros [= <- <- <-]. by destruct more.
    + unfold HandleTickFailure, mbind, Run_bind. by destruct (trySaveCheckpoint m2 i2) as [[[[]|] m3] i3].
  - destruct (recovery_required i1).
    + unfold mbind at 1, Run_bind at 1, AttemptLeaseRecovery. destruct (Lease i1) as [lease|].
      2: { unfold HandleLeaseExpiry, mbind, Run_bind. by destruct (trySaveCheckpoint m i1) as [[[[]|] m3] i3]. }
      destruct (Authority.Recover _ lease) as [[u|e2] lease'].
      * unfold mbind, Run_bind. destruct (trySaveCheckpoint _ _) as [[[[]|] m3] i3] eqn:Es; [|done].
        intros [= <- <- <-]. split; [done|]. eapply trySave_live; [|done]. by eapply live_inv_view; [|by destruct Hi|exact Hi1].
      * unfold HandleLeaseExpiry, mbind, Run_bind. by destruct (trySaveCheckpoint _ _) as [[[[]|] m3] i3].
    + unfold HandleLeaseExpiry, mbind, Run_bind. by destruct (trySaveCheckpoint _ _) as [[[[]|] m3] i3].
Qed.

(** Every tick the run comes to is recorded. *)
Fixpoint loop_recorded (periodicVerify : bool) (events : list event) (l : LoopVars) (m : Inst) i : bool :=
  match events with
  | [] | EvCancelled :: _ | EvSignal :: _ => true
  | EvCheckpoint :: events => let '(_, m, i) := trySaveCheckpoint m i in loop_recorded periodicVerify events l m i
  | EvTick c :: events =>
      round_recorded c m i &&
      match handleTick periodicVerify c l m i with
      | (Some (Ok (_, l)), m, i) => loop_recorded periodicVerify events l m i
      | _ => true
      end
  end.

(** C22: Self-verification never stops an honest agent that can be replayed.
    If the agent keeps its contract, its imports are offered by the replay
    host ([replayable]: an importer of [http_request] is excluded, it fails
    the replay and is stopped whatever it does), the instance is in good
    order with a window of replayable snapshots ([live_inv]), and all the
    hostcalls its ticks make are recorded, then whatever the escalation
    policy, the verification interval, the lease events and the checkpoints
    between the ticks, the lab's loop never ends because of a replay
    divergence. *)
Theorem honest_agent_never_stopped R Q periodicVerify events l m i :
  live_inv R Q m i -> loop_recorded periodicVerify events l m i = true ->
  fst (fst (runLocalAgent_loop periodicVerify events l m i)) <> Some (Some StopDiverged).
Proof.
  revert l m i. induction events as [|[c| | |] events IH]; intros l m i Hi Hrec; cbn [runLocalAgent_loop loop_recorded] in *; [done|..].
  - apply andb_true_iff in Hrec as [Ht Hrec]. unfold mbind, Run_bind.
    destruct (handleTick periodicVerify c l m i) as [[[[[res l']|e]|] m1] i1] eqn:E; [|done..].
    destruct (handleTick_live R Q _ _ _ _ _ _ _ _ Hi Ht E) as [Hs Hi1]. cbn in Hs.
    destruct res; [by apply IH..|done].
  - unfold mbind, Run_bind. destruct (trySaveCheckpoint m i) as [[[[]|] m1] i1] eqn:E; [|done].
    apply IH; [|done]. by eapply trySave_live.
  - unfold mbind, Run_bind. by destruct (trySaveCheckpoint m i) as [[[[]|] m1] i1].
  - done.
Qed.

(** *** The budget bounds a run *)
Definition spends i i' : Prop :=
  is_i64 (Budget i) ->
  is_i64 (Budget i') /\ Budget i' <= Budget i /\ (0 <= Budget i -> 0 <= Budget i') /\
  PricePerSecond i' = PricePerSecond i /\ env i' = env i.
Lemma spends_view i i' : Budget i' = Budget i -> PricePerSecond i' = PricePerSecond i -> env i' = env i -> spends i i'.
Proof. intros E1 E2 E3 Hb. rewrite E1, E2, E3. split_and!; [done|lia|done|done|done]. Qed.
Lemma live_handle_spends cfg c m i v m' i' : live_handle cfg c m i = (v, m', i') -> spends i i'.
Proof.
  intros E. destruct c; cbn [live_handle] in E;
    try (apply spends_view; revert E; unfold clock_now, rand_bytes, log_emit, wallet_balance, wallet_receipt_count,
      wallet_receipt, node_price, http_request_; cbn [now_unix_nano crypto_rand http_do instance_env];
      repeat case_match_goal; intros; simplify_eq/=; done).
  revert E. unfold wallet_pay. cbn [now_unix_nano DeductBudget instance_pay instance_env pay_GetBudget]. unfold DeductBudget_.
  intros E Hb.
  assert (is_i64 (Budget i) /\ Budget i <= Budget i /\ (0 <= Budget i -> 0 <= Budget i) /\
    PricePerSecond i = PricePerSecond i /\ env i = env i) as Hsame by (split_and!; auto; lia).
  destruct (_ || _); [by injection E as _ _ <-|]. destruct (mem_read _ _ _); [|by injection E as _ _ <-].
  destruct (if 0 <? _ then _ else _); [|by injection E as _ _ <-].
  destruct (Z.leb_spec amount 0); [by injection E as _ _ <-|].
  destruct (_ && _); [by injection E as _ _ <-|]. destruct (negb _ && negb _); [by injection E as _ _ <-|].
  match type of E with (if ?b then _ else _) = _ => destruct b; [by injection E as _ _ <-|] end.
  destruct (Z.ltb_spec (Budget i) amount); [by injection E as _ _ <-|].
  assert (is_i64 (Budget i - amount)) as Hd by (unfold is_i64 in *; lia).
  destruct (mem_write _ _ _); injection E as _ _ <-; cbn; rewrite (i64_id _ Hd); (split_and!; [done|lia|lia|done|done]).
Qed.
Lemma spends_respected : respected spends.
Proof.
  split; [intros i; by apply spends_view| |apply live_handle_spends].
  intros i1 i2 i3 H12 H23 Hb. destruct (H12 Hb) as (Hb2 & ? & ? & Hp & He).
  destruct (H23 Hb2) as (? & ? & ? & Hp' & He'). split_and!; [done|lia|auto|congruence|congruence].
Qed.
Lemma trySave_spends m i r m' i' : trySaveCheckpoint m i = (r, m', i') -> spends i i'.
Proof.
  intros [rs E]%trySave_Save.
  destruct (Save_keeps (fun i => (Budget i, PricePerSecond i, env i)) _ _ _ _ _ ltac:(by split) E) as (rc & i1 & Ec & [= E1 E2 E3]).
  apply (Checkpoint_keeps spends spends_respected) in Ec; [|intros; by apply spends_view].
  eapply (rs_trans _ spends_respected); [done|by apply spends_view].
Qed.

(** A tick that succeeds and takes long enough to cost a microcent. *)
Lemma Tick_costs m i more m' i' :
  is_i64 (Budget i) -> 0 <= PricePerSecond i < 2 ^ 63 ->
  (forall n, 0 <= i64 (e_elapsed (env i) n) /\ 1000000000 <= i64 (e_elapsed (env i) n) * PricePerSecond i) ->
  Tick m i = (Ok more, m', i') ->
  0 < Budget i /\ Budget i' < Budget i /\ is_i64 (Budget i') /\ PricePerSecond i' = PricePerSecond i /\ env i' = env i.
Proof.
  intros Hb Hp He HT. assert (0 < Budget i) as Hpos.
  { unfold Tick in HT. destruct (Z.leb_spec (Budget i) 0); [done|lia]. }
  destruct (Tick_steps _ _ _ _ _ HT) as (pre & m1 & i1 & rs & m2 & i2 & sealed & l & post & m3 & i3 &
    E1 & _ & E2 & _ & E3 & _ & _ & ->).
  apply (captureState_keeps spends spends_respected) in E1, E3.
  apply (exec_respects spends spends_respected) in E2.
  assert (spends i i3) as Hs.
  { eapply (rs_trans _ spends_respected); [exact E1|].
    eapply (rs_trans _ spends_respected); [by apply spends_view|].
    eapply (rs_trans _ spends_respected); [exact E2|].
    eapply (rs_trans _ spends_respected); [by apply spends_view|exact E3]. }
  destruct (Hs Hb) as (Hb3 & Hle & Hpos3 & Hp3 & He3).
  specialize (He (env_step i3)). rewrite <- He3, <- Hp3 in He.
  set (i4 := set_ReplayWindow _ i3).
  assert (Budget i4 = Budget i3 /\ PricePerSecond i4 = PricePerSecond i3 /\ env i4 = env i3 /\ env_step i4 = env_step i3) as (B4 & P4 & N4 & S4) by done.
  split; [done|]. unfold charge. cbn [tick_env set_env_step set_epochCost set_Budget Budget PricePerSecond env].
  rewrite B4, P4, N4, S4. pose proof (i64_range (e_elapsed (env i3) (env_step i3))) as Hr. unfold is_i64 in Hr, Hb3.
  rewrite tick_cost_eq by lia. set (c := i64 (e_elapsed (env i3) (env_step i3)) * PricePerSecond i3) in *.
  destruct (Z.leb_spec c max_i64) as [Hc|Hc].
  - assert (1 <= c / 1000000000 <= 2 ^ 63) as Hc1.
    { unfold max_i64 in Hc. split; [apply Z.div_le_lower_bound; lia|apply Z.div_le_upper_bound; lia]. }
    rewrite i64_id by (unfold is_i64; lia). split_and!; [lia|unfold is_i64; lia|done|done].
  - rewrite Z.sub_diag. change (i64 0) with 0. split_and!; [lia|by unfold is_i64|done|done].
Qed.

Definition is_tick (e : event) : bool := match e with EvTick _ => true | _ => false end.
Definition count_ticks (events : list event) : Z := blen (filter is_tick events).

(** C29: a budget buys finitely many ticks.  If every tick takes long enough
    to cost a microcent, an agent started with [Budget] microcents cannot make
    more than [Budget] ticks: on any sequence of loop events with more ticks
    than that, interleaved with checkpoints in any way and whatever its
    hostcalls do, [igord]'s tick loop has ended by itself (or the process has
    died in a save). *)
Theorem budget_bounds_ticks events (m m' : Inst) i i' r :
  is_i64 (Budget i) -> 0 <= PricePerSecond i < 2 ^ 63 ->
  (forall n, 0 <= i64 (e_elapsed (env i) n) /\ 1000000000 <= i64 (e_elapsed (env i) n) * PricePerSecond i) ->
  Z.max 0 (Budget i) < count_ticks events ->
  runTickLoop events m i = (r, m', i') -> r <> Some None.
Proof.
  revert m i. induction events as [|[c| | |] events IH]; intros m i Hb Hp He Hn; cbn [runTickLoop].
  - exfalso. unfold count_ticks, blen in Hn. simpl in Hn. lia.
  - unfold SafeTick. destruct (Tick m i) as [[[more|e] m1] i1] eqn:ET.
    + destruct (Tick_costs _ _ _ _ _ Hb Hp He ET) as (Hpos & Hlt & Hb1 & Hp1 & He1).
      apply IH; [done|by rewrite Hp1|intros n; rewrite He1, Hp1; apply He|].
      unfold count_ticks in *. rewrite filter_cons_True, blen_cons in Hn by done. pose proof (blen_nonneg (filter is_tick events)). lia.
    + unfold HandleTickFailure, mbind, Run_bind. by destruct (trySaveCheckpoint m1 i1) as [[[[]|] m2] i2]; intros [= <- _ _].
  - unfold mbind, Run_bind. destruct (trySaveCheckpoint m i) as [[[[]|] m1] i1] eqn:E; [|by intros [= <- _ _]].
    destruct (trySave_spends _ _ _ _ _ E Hb) as (Hb1 & Hle & _ & Hp1 & He1).
    apply IH; [done|by rewrite Hp1|intros n; rewrite He1, Hp1; apply He|].
    unfold count_ticks in *. rewrite filter_cons_False in Hn by naive_solver. lia.
  - unfold mbind, Run_bind. by destruct (trySaveCheckpoint m i) as [[[[]|] m1] i1]; intros [= <- _ _].
  - by intros [= <- _ _].
Qed.
End Facts.

(** ** Witnesses *)
Definition at_ (t : Authority.time) : Clock := mkClock t t t t t.
Definition leased (s : Authority.State) : Instance (St := FSProvider) := set_Lease (Some (Authority.example_lease s)) (snd demo).
Lemma no_tick_without_lease_witness :
  let run := handleTick false (at_ (1000 * second)) (mkVars (default_config "node") 0 0) (fst demo) (leased Authority.StateActiveOwner) in
  let i' := snd run in
  TickNumber i' = 0 /\ ReplayWindow i' = [] /\
  if decide (Authority.StateActiveOwner = Authority.StateActiveOwner \/ Authority.StateActiveOwner = Authority.StateRecoveryRequired)
  then (fst (fst run) = None \/ fst (fst run) = Some (Ok (tickRecovered, mkVars (default_config "node") 0 0))) /\
       exists lease', Lease i' = Some lease' /\ Authority.lease_state lease' = Authority.StateActiveOwner /\
         Authority.lease_epoch lease' = Authority.mkEpoch 1 0
  else (fst (fst run) = None \/ fst (fst run) = Some (Err (LeaseErr Authority.ErrTickExpired))) /\
       Lease i' = Some (Authority.example_lease Authority.StateActiveOwner).
Proof.
  intros run i'.
  apply (no_tick_without_lease false (at_ (1000 * second)) (mkVars (default_config "node") 0 0) (fst demo) (snd (fst run))
    (leased Authority.StateActiveOwner) i' (Authority.example_lease Authority.StateActiveOwner) Authority.ErrTickExpired (fst (fst run))).
  - reflexivity.
  - vm_compute. reflexivity.
  - unfold i', run. by destruct (handleTick _ _ _ _ _) as [[? ?] ?].
Defined.
(** The recovered node ticks in the next round; a hand-off stops the loop. *)
Example recovery_then_tick :
  let cfg := default_config "node" in
  let '(r, m, i) := runLocalAgent_loop true [EvTick (at_ (1000 * second)); EvCheckpoint; EvTick (at_ (1001 * second)); EvSignal]
    (mkVars cfg 0 0) (fst demo) (leased Authority.StateActiveOwner) in
  r = Some (Some StopSignal) /\ TickNumber i = 1.
Proof. vm_compute. done. Qed.
Example handoff_stops_loop :
  fst (fst (runLocalAgent_loop true [EvTick (at_ 100); EvTick (at_ 100)] (mkVars (default_config "node") 0 0)
    (fst demo) (leased Authority.StateHandoffInitiated))) =
  Some (Some (StopError (LeaseErr (Authority.ErrTickForbidden Authority.StateHandoffInitiated)))).
Proof. vm_compute. reflexivity. Qed.

Lemma demo_live : live_inv (W := toy_wasm) eq (toy_state demo_wasm) (fst demo) (snd demo).
Proof. split; [apply toy_contract|apply demo_state|apply demo_ready|apply demo_replayable|constructor]. Qed.
Definition paranoid : Config := set_VerifyInterval 1 (default_config "node").
Lemma honest_agent_never_stopped_witness :
  let events := [EvTick (at_ 1); EvCheckpoint; EvTick (at_ 2); EvTick (at_ 3); EvSignal] in
  fst (fst (runLocalAgent_loop true events (mkVars paranoid 0 0) (fst demo) (snd demo))) <> Some (Some StopDiverged).
Proof.
  intros events. apply (honest_agent_never_stopped (W := toy_wasm) eq (toy_state demo_wasm)).
  - apply demo_live.
  - vm_compute. reflexivity.
Defined.
(** An agent whose random read of no bytes is not recorded is stopped by the
    policies other than "log". *)
Definition with_policy (policy : string) (c : Config) : Config := applyCLIOverrides c 0 0 "" false policy 0 0 0 0.
Example unrecorded_agent_stopped :
  let wasm := byte_of_Z <$> [1; 10] in
  (fun policy => fst (fst (runLocalAgent_loop true [EvTick (at_ 1); EvTick (at_ 2)] (mkVars (with_policy policy paranoid) 0 0)
    (demo_module wasm) (demo_instance wasm 1000000 1000 2000000000)))) <$> ["log"; "pause"; "intensify"; "migrate"]%string =
  [Some None; Some (Some StopDiverged); Some None; Some (Some StopDiverged)].
Proof. vm_compute. reflexivity. Qed.

Lemma budget_bounds_ticks_witness :
  let i := demo_instance [] 3 1 1000000000 in
  let events := [EvTick (at_ 1); EvTick (at_ 2); EvCheckpoint; EvTick (at_ 3); EvTick (at_ 4); EvTick (at_ 5)] in
  let run := runTickLoop events (demo_module []) i in
  fst (fst run) <> Some None.
Proof.
  intros i events run.
  apply (budget_bounds_ticks events (demo_module []) (snd (fst run)) i (snd run) (fst (fst run))).
  - vm_compute. split; congruence.
  - vm_compute. split; congruence.
  - intros n. vm_compute. split; congruence.
  - vm_compute. reflexivity.
  - unfold run. by destruct (runTickLoop _ _ _) as [[? ?] ?].
Defined.
Example budget_runs_out :
  fst (fst (runTickLoop [EvTick (at_ 1); EvTick (at_ 2); EvTick (at_ 3); EvTick (at_ 4)] (demo_module [])
    (demo_instance [] 3 1 1000000000))) = Some (Some (StopError (TickErr (ErrBudgetExhausted 0)))).
Proof. vm_compute. reflexivity. Qed.

Example default_config_loads : Load "node" = Ok (default_config "node").
Proof. vm_compute. reflexivity. Qed.
(** The flags are applied after [Validate]: a bad grace period gets through. *)
Example overrides_not_validated :
  let c := applyCLIOverrides (default_config "node") 0 0 "sometimes" false "" (60 * second) (-1) 0 0 in
  ReplayMode c = "sometimes"%string /\ Validate c = Err FMode.
Proof. vm_compute. done. Qed.
