(* ===== verification/P2p.v ===== *)
(** * The libp2p node (internal/p2p)

    Node creation, the ping protocol on both sides of a stream, and the
    bootstrap loop.  libp2p itself is a parameter: what it makes of addresses,
    dials and streams. *)
From S2P Require Import Prelude.
From S2P Require Runner.
From stdpp Require Import strings.
Open Scope Z_scope.

Definition PingProtocol : string := "/igor/ping/1.0.0".
Definition ping : bytes := bytes_of "ping".
Definition pong : bytes := bytes_of "pong".

(** [io.ReadFull] of [n] bytes from what a stream still delivers. *)
Definition ReadFull (n : nat) (incoming : bytes) : option bytes :=
  if decide (n <= length incoming)%nat then Some (take n incoming) else None.

(** ** Answering *)
Inductive ping_outcome := NoDeadline | ReadFailed | Invalid (received : bytes) | WriteFailed | Answered.
(** [handlePing]: what it writes, and how it ends.  The parameters say whether
    the deadline can be set, what arrives in time, and whether the write
    succeeds. *)
Definition handlePing (deadline : bool) (incoming : bytes) (writes : bool) : bytes * ping_outcome :=
  if negb deadline then ([], NoDeadline)
  else match ReadFull 4 incoming with
       | None => ([], ReadFailed)
       | Some buf =>
           if negb (bool_decide (buf = ping)) then ([], Invalid buf)
           else if writes then (pong, Answered) else ([], WriteFailed)
       end.

(** ** The host *)
Section Node.
Context {Multiaddr PeerID : Type}.
(** A dialled stream: whether writing to it succeeds, and what comes back for
    what was written. *)
Record Stream := mkStream { can_write : bool; answer : bytes -> bytes }.
Record Libp2p := mkLibp2p {
  NewMultiaddr : string -> option Multiaddr;
  AddrInfoFromP2pAddr : Multiaddr -> option PeerID;
  NewHost : Multiaddr -> option PeerID;
  Connect : PeerID -> bool;
  NewStream : PeerID -> string -> option Stream;
  Peers : list PeerID }.
Context (net : Libp2p).

Inductive ping_error :=
| ErrPeerAddress | ErrPeerInfo | ErrConnect | ErrOpenStream | ErrSendPing | ErrReadPong | ErrUnexpected (received : bytes).
Definition PingPeer (peerAddr : string) : result ping_error unit :=
  match NewMultiaddr net peerAddr with
  | None => Err ErrPeerAddress
  | Some maddr =>
      match AddrInfoFromP2pAddr net maddr with
      | None => Err ErrPeerInfo
      | Some id =>
          if negb (Connect net id) then Err ErrConnect
          else match NewStream net id PingProtocol with
               | None => Err ErrOpenStream
               | Some s =>
                   if negb (can_write s) then Err ErrSendPing
                   else match ReadFull 4 (answer s ping) with
                        | None => Err ErrReadPong
                        | Some buf => if bool_decide (buf = pong) then Ok tt else Err (ErrUnexpected buf)
                        end
               end
      end
  end.
(** [bootstrapPeers]: what became of each peer; a failure is logged and the
    next peer is tried. *)
Definition bootstrapPeers (peers : list string) : list (string * result ping_error unit) := (fun p => (p, PingPeer p)) <$> peers.
Definition ConnectedPeers : list PeerID := Peers net.

Inductive node_error := ErrListenAddress | ErrCreateHost.
(** The protocols a node answers, and what became of its bootstrap peers. *)
Record Node := mkNode { host : PeerID; protocols : list string; bootstrapped : list (string * result ping_error unit) }.
Definition registerHandlers (n : Node) : Node := mkNode (host n) (PingProtocol :: protocols n) (bootstrapped n).
Definition NewNode (cfg : Runner.Config) : result node_error Node :=
  match NewMultiaddr net (Runner.ListenAddress cfg) with
  | None => Err ErrListenAddress
  | Some listenAddr =>
      match NewHost net listenAddr with
      | None => Err ErrCreateHost
      | Some h =>
          let node := registerHandlers (mkNode h [] []) in
          match Runner.BootstrapPeers cfg with
          | [] => Ok node
          | peers => Ok (mkNode (host node) (protocols node) (bootstrapPeers peers))
          end
      end
  end.

(** ** The two sides together *)
Lemma ReadFull_app n a b : length a = n -> ReadFull n (a ++ b) = Some a.
Proof.
  intros <-. unfold ReadFull. rewrite decide_True by (rewrite length_app; lia). by rewrite take_app_length.
Qed.
(** A node that can be reached, answers with [handlePing] and whose answer gets
    through is pinged successfully; and a successful ping has met a peer that
    wrote "pong". *)
Lemma ping_meets_pong addr maddr id s :
  NewMultiaddr net addr = Some maddr -> AddrInfoFromP2pAddr net maddr = Some id -> Connect net id = true ->
  NewStream net id PingProtocol = Some s -> can_write s = true ->
  (PingPeer addr = Ok tt <-> exists rest, answer s ping = pong ++ rest).
Proof.
  intros E1 E2 E3 E4 E5. unfold PingPeer. rewrite E1, E2, E3, E4, E5. cbn [negb]. split.
  - unfold ReadFull. destruct (decide _) as [Hn|]; [|done]. destruct (bool_decide _) eqn:E; [|done].
    apply bool_decide_eq_true in E. exists (drop 4 (answer s ping)). by rewrite <- E, take_drop.
  - intros [rest ->]. rewrite ReadFull_app by done. by rewrite bool_decide_true.
Qed.
Lemma handler_answers incoming : fst (handlePing true (ping ++ incoming) true) = pong.
Proof. unfold handlePing. cbn [negb]. by rewrite ReadFull_app, bool_decide_true. Qed.
Lemma tried_all peers : fst <$> bootstrapPeers peers = peers.
Proof. induction peers as [|q peers IH]; [done|]. cbn. f_equal. exact IH. Qed.
Lemma bootstrap_tries_all cfg n : NewNode cfg = Ok n -> fst <$> bootstrapped n = Runner.BootstrapPeers cfg /\ PingProtocol ∈ protocols n.
Proof.
  unfold NewNode. destruct (NewMultiaddr _ _); [|done]. destruct (NewHost _ _); [|done].
  destruct (Runner.BootstrapPeers cfg) as [|q peers]; intros [= <-]; (split; [|by left]); [done|]. exact (tried_all (q :: peers)).
Qed.
End Node.
