(* ===== verification/Registry.v ===== *)
(** * Peer registry (internal/registry)

    The peers a node knows and the choice of migration candidates among
    them.  Go visits a map in no particular order and [sort.Slice] leaves the
    order of equal elements open, so the visiting order is an argument and
    the theorems hold for every one. *)
From S2P Require Import Prelude.
From S2P Require Authority.
From stdpp Require Import gmap strings sorting.
Open Scope Z_scope.

Record PeerInfo := mkPeer {
  ID : string; Addrs : list string; PricePerSecond : Z; Capabilities : option (list string);
  LastSeen : Authority.time; FailCount : Z }.
#[export] Instance PeerInfo_eq_dec : EqDecision PeerInfo.
Proof. solve_decision. Defined.
Record Registry := mkRegistry { peers : gmap string PeerInfo }.
Definition New : Registry := mkRegistry ∅.
(** [r.peers[id] = p] *)
Definition put (id : string) (p : PeerInfo) (r : Registry) : Registry := mkRegistry (<[id := p]> (peers r)).

Definition Add (info : PeerInfo) (r : Registry) : Registry :=
  match peers r !! ID info with
  | None => put (ID info) info r
  | Some existing =>
      put (ID info) (mkPeer (ID existing)
          (match Addrs info with [] => Addrs existing | a => a end)
          (if 0 <? PricePerSecond info then PricePerSecond info else PricePerSecond existing)
          (match Capabilities info with None => Capabilities existing | c => c end)
          (if Authority.IsZero (LastSeen info) then LastSeen existing else LastSeen info)
          (FailCount existing)) r
  end.
Definition Remove (id : string) (r : Registry) : Registry := mkRegistry (delete id (peers r)).
Definition Get (id : string) (r : Registry) : option PeerInfo := peers r !! id.
Definition set_health (seen : Authority.time) (fails : Z) (p : PeerInfo) : PeerInfo :=
  mkPeer (ID p) (Addrs p) (PricePerSecond p) (Capabilities p) seen fails.
Definition RecordSuccess (id : string) (now : Authority.time) (r : Registry) : Registry :=
  match peers r !! id with Some p => put id (set_health now 0 p) r | None => r end.
Definition RecordFailure (id : string) (r : Registry) : Registry :=
  match peers r !! id with Some p => put id (set_health (LastSeen p) (i64 (FailCount p + 1)) p) r | None => r end.
Definition All (r : Registry) : list PeerInfo := snd <$> map_to_list (peers r).
Definition Len (r : Registry) : Z := Z.of_nat (size (peers r)).

Definition hasCapabilities (peerCaps : option (list string)) (requiredCaps : list string) : bool :=
  match requiredCaps with
  | [] => true
  | _ => match peerCaps with
         | None => true
         | Some caps => forallb (fun req => bool_decide (req ∈ caps)) requiredCaps
         end
  end.

(** The filters of the candidate loop. *)
Definition eligible (maxPrice : Z) (requiredCaps excludeIDs : list string) (maxFailures : Z) (p : PeerInfo) : bool :=
  if bool_decide (ID p ∈ excludeIDs) then false
  else if (0 <=? maxFailures) && (maxFailures <? FailCount p) then false
  else if (0 <? maxPrice) && (0 <? PricePerSecond p) && (maxPrice <? PricePerSecond p) then false
  else hasCapabilities (Capabilities p) requiredCaps.

(** The comparison handed to [sort.Slice]. *)
Definition less (a b : PeerInfo) : bool :=
  if negb (PricePerSecond a =? PricePerSecond b) then
    if PricePerSecond a =? 0 then false
    else if PricePerSecond b =? 0 then true
    else PricePerSecond a <? PricePerSecond b
  else if negb (FailCount a =? FailCount b) then FailCount a <? FailCount b
  else Authority.After (LastSeen a) (LastSeen b).
(** [a] may stand before [b] in a sorted slice. *)
Definition not_after (a b : PeerInfo) : Prop := less b a = false.
#[export] Instance not_after_dec a b : Decision (not_after a b).
Proof. unfold not_after. apply _. Defined.

(** [visit]: the peers in the order the map iteration yields them. *)
Definition SelectCandidates (visit : list PeerInfo) (maxPrice : Z) (requiredCaps excludeIDs : list string) (maxFailures : Z)
    : list PeerInfo :=
  merge_sort not_after (filter (eligible maxPrice requiredCaps excludeIDs maxFailures) visit).

(** ** The preference order *)
(** The sort key of a peer, an unknown price above every known one. *)
Definition key_le (a b : PeerInfo) : Prop :=
  let known p := negb (PricePerSecond p =? 0) in
  (known a = true /\ (known b = false \/ PricePerSecond a < PricePerSecond b)) \/
  (PricePerSecond a = PricePerSecond b /\
   (FailCount a < FailCount b \/ (FailCount a = FailCount b /\ LastSeen b <= LastSeen a))).

Lemma not_after_key a b : not_after a b <-> key_le a b.
Proof.
  unfold not_after, less, key_le, Authority.After.
  destruct (Z.eqb_spec (PricePerSecond b) (PricePerSecond a)), (Z.eqb_spec (PricePerSecond a) 0),
    (Z.eqb_spec (PricePerSecond b) 0), (Z.eqb_spec (FailCount b) (FailCount a)); cbn [negb];
    rewrite ?Z.ltb_ge; intuition (congruence || lia).
Qed.
#[export] Instance not_after_trans : Transitive not_after.
Proof.
  intros a b c. rewrite !not_after_key. unfold key_le.
  destruct (Z.eqb_spec (PricePerSecond a) 0), (Z.eqb_spec (PricePerSecond b) 0), (Z.eqb_spec (PricePerSecond c) 0);
    cbn [negb]; intuition (congruence || lia).
Qed.
#[export] Instance not_after_total : Total not_after.
Proof.
  intros a b. rewrite !not_after_key. unfold key_le.
  destruct (Z.eqb_spec (PricePerSecond a) 0), (Z.eqb_spec (PricePerSecond b) 0); cbn [negb];
    destruct (Z.lt_trichotomy (PricePerSecond a) (PricePerSecond b)) as [?|[?|?]];
    destruct (Z.lt_trichotomy (FailCount a) (FailCount b)) as [?|[?|?]];
    destruct (Z.le_ge_cases (LastSeen a) (LastSeen b)); intuition (congruence || lia).
Qed.

(** What the constraints mean. *)
Record allowed (maxPrice : Z) (requiredCaps excludeIDs : list string) (maxFailures : Z) (p : PeerInfo) : Prop := {
  al_included : ID p ∉ excludeIDs;
  al_healthy : 0 <= maxFailures -> FailCount p <= maxFailures;
  al_price : 0 < maxPrice -> PricePerSecond p <= maxPrice;
  al_caps caps : Capabilities p = Some caps -> requiredCaps ⊆ caps }.
Lemma hasCapabilities_spec caps req :
  hasCapabilities caps req = true <-> forall l, caps = Some l -> req ⊆ l.
Proof.
  unfold hasCapabilities. destruct req as [|r rs]; [split; [intros _ l _; set_solver|done]|].
  destruct caps as [l|]; [|split; done].
  rewrite forallb_forall. split.
  - intros Hc ? [= <-] x Hx. by apply list_elem_of_In, Hc, bool_decide_eq_true in Hx.
  - intros Hc x Hx. apply bool_decide_eq_true, (Hc l eq_refl). by apply list_elem_of_In.
Qed.
Lemma eligible_spec maxPrice req excl maxF p :
  eligible maxPrice req excl maxF p = true <-> allowed maxPrice req excl maxF p.
Proof.
  unfold eligible. case_bool_decide as Hex.
  { split; [done|]. by intros []. }
  destruct (Z.leb_spec 0 maxF), (Z.ltb_spec maxF (FailCount p)); cbn [andb];
    try (split; [done|intros []; lia]);
    destruct (Z.ltb_spec 0 maxPrice), (Z.ltb_spec 0 (PricePerSecond p)), (Z.ltb_spec maxPrice (PricePerSecond p)); cbn [andb];
    try (split; [done|intros []; lia]); rewrite hasCapabilities_spec;
    (split; [intros Hc; split; [done|lia|lia|apply Hc]|intros []; done]).
Qed.

(** candidates are exactly the peers the constraints allow, in order of
    preference.  For every order in which the map is visited, the result holds
    each allowed peer once (not excluded, not above the failure or the price
    limit, its known capabilities including the required ones; an unknown
    price or unknown capabilities pass), and no peer stands behind one that is
    worse: known prices before unknown, then lower price, fewer failures,
    later contact. *)
Theorem select_candidates_correct (r : Registry) (visit : list PeerInfo) maxPrice req excl maxF :
  visit ≡ₚ All r ->
  let out := SelectCandidates visit maxPrice req excl maxF in
  out ≡ₚ filter (eligible maxPrice req excl maxF) (All r) /\
  (forall p, p ∈ out <-> (exists id, Get id r = Some p) /\ allowed maxPrice req excl maxF p) /\
  (forall i j a b, out !! i = Some a -> out !! j = Some b -> (i < j)%nat -> key_le a b).
Proof.
  intros Hv out. assert (out ≡ₚ filter (eligible maxPrice req excl maxF) (All r)) as Hp.
  { unfold out, SelectCandidates. by rewrite merge_sort_Permutation, Hv. }
  split_and!; [done| |].
  - intros p. rewrite Hp, list_elem_of_filter, Is_true_true, eligible_spec. unfold Get, All.
    rewrite list_elem_of_fmap. split.
    + intros [Ha ([id q] & -> & Hq)]. apply elem_of_map_to_list in Hq. split; [by exists id|done].
    + intros [[id Hid] Ha]. split; [done|]. exists (id, p). split; [done|]. by apply elem_of_map_to_list.
  - pose proof (StronglySorted_merge_sort not_after (filter (eligible maxPrice req excl maxF) visit)) as Hs.
    fold (SelectCandidates visit maxPrice req excl maxF) in Hs. fold out in Hs. clear Hp. clearbody out.
    induction Hs as [|x l Hs IH Hx]; intros i j a b Ha Hb Hij; [done|].
    destruct j as [|j]; [lia|]. simpl in Hb. destruct i as [|i]; simpl in Ha.
    + injection Ha as <-. apply not_after_key. rewrite Forall_lookup in Hx. by eapply Hx.
    + eapply IH; [done|done|lia].
Qed.

(** *** The records themselves *)
Lemma Add_twice info r : Add info (Add info r) = Add info r.
Proof.
  unfold Add. destruct (peers r !! ID info) as [e|] eqn:E; unfold put; cbn [peers ID]; rewrite lookup_insert_eq; cbn.
  - rewrite insert_insert_eq. do 2 f_equal. f_equal;
      [by destruct (Addrs info)|by destruct (0 <? _)|by destruct (Capabilities info)|by destruct (Authority.IsZero _)].
  - rewrite insert_insert_eq. do 2 f_equal. destruct info as [i a p c s f]. cbn.
    f_equal; [by destruct a|by destruct (0 <? p)|by destruct c|by destruct (Authority.IsZero s)].
Qed.
(** Every peer is filed under its own identifier. *)
Definition filed (r : Registry) : Prop := forall id p, peers r !! id = Some p -> ID p = id.
Inductive registry_op := OAdd (i : PeerInfo) | ORemove (id : string) | OSuccess (id : string) (now : Authority.time) | OFailure (id : string).
Definition do_registry (o : registry_op) (r : Registry) : Registry :=
  match o with OAdd i => Add i r | ORemove id => Remove id r | OSuccess id n => RecordSuccess id n r | OFailure id => RecordFailure id r end.
Lemma do_registry_filed o r : filed r -> filed (do_registry o r).
Proof.
  intros Hf id p. destruct o as [i|x|x n|x]; cbn [do_registry].
  - unfold Add. destruct (peers r !! ID i) as [e|] eqn:E; cbn [put peers]; rewrite lookup_insert_Some; intros [[<- <-]|[_ Hp]]; auto.
    by apply Hf in E.
  - unfold Remove. cbn [peers]. rewrite lookup_delete_Some. intros [_ ?]; auto.
  - unfold RecordSuccess. destruct (peers r !! x) as [e|] eqn:E; [|auto]. cbn [put peers]. rewrite lookup_insert_Some. intros [[<- <-]|[_ ?]]; auto.
    by apply Hf in E.
  - unfold RecordFailure. destruct (peers r !! x) as [e|] eqn:E; [|auto]. cbn [put peers]. rewrite lookup_insert_Some. intros [[<- <-]|[_ ?]]; auto.
    by apply Hf in E.
Qed.

Definition sample : list PeerInfo :=
  [mkPeer "a" ["/a"] 2000 None 5 0; mkPeer "b" [] 0 (Some ["clock"]) 9 0; mkPeer "c" ["/c"] 1000 (Some ["clock"; "rand"]) 3 1;
   mkPeer "d" [] 1000 None 4 0; mkPeer "e" [] 5000 None 8 0; mkPeer "f" [] 10 None 8 7].
Definition sample_registry : Registry := foldr Add New sample.
Lemma select_candidates_correct_witness :
  let visit := reverse (All sample_registry) in
  let out := SelectCandidates visit 3000 ["clock"] ["x"] 3 in
  out ≡ₚ filter (eligible 3000 ["clock"] ["x"] 3) (All sample_registry) /\
  (forall p, p ∈ out <-> (exists id, Get id sample_registry = Some p) /\ allowed 3000 ["clock"] ["x"] 3 p) /\
  (forall i j a b, out !! i = Some a -> out !! j = Some b -> (i < j)%nat -> key_le a b).
Proof. apply (select_candidates_correct sample_registry). apply reverse_Permutation. Defined.
Example sample_selection :
  ID <$> SelectCandidates (All sample_registry) 3000 ["clock"]%string ["x"]%string 3 = ["d"; "c"; "a"; "b"]%string.
Proof. vm_compute. reflexivity. Qed.
