(* ===== verification/Igord.v ===== *)
(** * The command-line programs (cmd/igord, cmd/igord-lab)

    What [igord run], [igord resume] and the lab's local run do from the file
    store to the tick loop: identity, loading, initialisation, restoring. *)
From S2P Require Import Prelude GoFloat Crypto EventLog Manifest Wasm Hostcall ToyGuest Instance Replay TickReplay Runner.
From S2P Require Import Storage.
From S2P Require Authority Identity Checkpoint Budget.
From stdpp Require Import gmap strings.
Open Scope Z_scope.

(** ** path/filepath: [Ext], [Base] and [Dir] *)
Definition dot : Ascii.ascii := Ascii.ascii_of_nat 46.
Fixpoint ext_loop (rev : list Ascii.ascii) (acc : string) : string :=
  match rev with
  | [] => ""
  | c :: rev =>
      if bool_decide (c = slash) then ""
      else if bool_decide (c = dot) then String c acc else ext_loop rev (String c acc)
  end.
Definition Ext (path : string) : string := ext_loop (reverse (chars path)) "".
Fixpoint skip_while (f : Ascii.ascii -> bool) (l : list Ascii.ascii) : list Ascii.ascii :=
  match l with c :: l' => if f c then skip_while f l' else l | [] => [] end.
Fixpoint take_while (f : Ascii.ascii -> bool) (l : list Ascii.ascii) : list Ascii.ascii :=
  match l with c :: l => if f c then c :: take_while f l else [] | [] => [] end.
Definition is_slash (c : Ascii.ascii) : bool := bool_decide (c = slash).
Definition not_slash (c : Ascii.ascii) : bool := negb (is_slash c).
Definition of_rev (l : list Ascii.ascii) : string := String.string_of_list_ascii (reverse l).
Definition Base (path : string) : string :=
  if bool_decide (path = ""%string) then "."
  else match take_while not_slash (skip_while is_slash (reverse (chars path))) with
       | [] => "/"
       | l => of_rev l
       end.
Definition Dir (path : string) : string := Clean (of_rev (skip_while not_slash (reverse (chars path)))).

Definition agentIDFromPath (wasmPath : string) : string :=
  let base := Base wasmPath in
  let ext := Ext base in
  let name := String.substring 0 (String.length base - String.length ext) base in
  let name := if bool_decide (name = ""%string) || bool_decide (name = "agent"%string) then Base (Dir wasmPath) else name in
  if bool_decide (name = ""%string) || bool_decide (name = "."%string) then "agent" else name.

Example agent_ids :
  agentIDFromPath <$> ["agents/heartbeat/agent.wasm"; "survivor.wasm"; "agent.wasm"; "a.b.wasm"; "/agent.wasm"]%string =
  ["heartbeat"; "survivor"; "agent"; "a.b"; "/"]%string.
Proof. vm_compute. reflexivity. Qed.

(** ** Starting an agent *)
Inductive start_error :=
| NoIdentity (e : Identity.identity_error) | NotLoaded (e : instance_error) | NotInitialized (e : instance_error)
| NoCheckpointFile | NotStaged (e : storage_error) | BadCheckpoint (e : Checkpoint.checkpoint_error)
| NotResumed (e : instance_error) | Died.

(** The machine a command runs on: its files, random source and environment. *)
Record Machine := mkMachine { files : string -> option bytes; rnd : option bytes; menv : Env }.

Section Igord.
Context {W : Wasm} `{Crypto} `{JSON}.
Abbreviation agent := (Instance (St := FSProvider)).

(** [agent.LoadAgent], the settlement adapter and [Init]. *)
Definition launch (mc : Machine) (fs : FSProvider) (wasmPath agentID : string) (budgetMicrocents pricePerSecond : Z)
    (manifestPath : string) (ident : Identity.AgentIdentity) : result start_error (Inst * agent) :=
  let manifestData := LoadSidecarData (files mc) wasmPath manifestPath in
  match LoadAgent (files mc) wasmPath agentID fs budgetMicrocents pricePerSecond manifestData None "" (Some ident) (menv mc) with
  | Err e => Err (NotLoaded e)
  | Ok (m, i) =>
      match Init m (set_BudgetAdapter (Some MockAdapter) i) with
      | (Err e, _, _) => Err (NotInitialized e)
      | (Ok _, m, i) => Ok (m, i)
      end
  end.

(** [runStandalone] up to its loop: the instance before the checkpoint is
    looked for, and the file store if it does not get there. *)
Definition bootStandalone (mc : Machine) (wasmPath agentID : string) (budgetVal : float64) (manifestPath checkpointDir : string)
    (fs : FSProvider) : result start_error (Inst * agent) * FSProvider :=
  let fs := NewFSProvider checkpointDir (disk fs) (bad_reads fs) (scripts fs) in
  match Identity.LoadOrGenerate fs agentID (rnd mc) with
  | (Err e, fs) => (Err (NoIdentity e), fs)
  | (Ok ident, fs) => (launch mc fs wasmPath agentID (Budget.FromFloat budgetVal) 1000000 manifestPath ident, fs)
  end.

(** How a run ends: it never starts, or its loop ends ([None]: the process
    died in a save; [Some None]: it is still running). *)
Definition finished (r : option (option stop) * Inst * agent) : result start_error (option (option stop)) * FSProvider :=
  let '(s, _, i) := r in (Ok s, Storage i).
(** An error while loading the checkpoint is taken for its absence. *)
Definition runStandalone (mc : Machine) (events : list event) (wasmPath agentID : string) (budgetVal : float64)
    (manifestPath checkpointDir : string) (fs : FSProvider) : result start_error (option (option stop)) * FSProvider :=
  match bootStandalone mc wasmPath agentID budgetVal manifestPath checkpointDir fs with
  | (Err e, fs) => (Err e, fs)
  | (Ok (m, i), _) =>
      let '(_, m, i) := LoadCheckpointFromStorage m i in
      finished (runTickLoop events m i)
  end.

(** [resumeFromCheckpoint] up to the identity: the given file is saved as the
    agent's checkpoint before it is parsed. *)
Definition stageResume (mc : Machine) (checkpointPath agentID checkpointDir : string) (fs : FSProvider)
    : result start_error (Checkpoint.CheckpointHeader * Identity.AgentIdentity) * FSProvider :=
  let fs := NewFSProvider checkpointDir (disk fs) (bad_reads fs) (scripts fs) in
  match files mc checkpointPath with
  | None => (Err NoCheckpointFile, fs)
  | Some ckptData =>
      match SaveCheckpoint fs agentID ckptData with
      | (Crashed, fs) => (Err Died, fs)
      | (Returned (Err e), fs) => (Err (NotStaged e), fs)
      | (Returned (Ok _), fs) =>
          match Checkpoint.ParseCheckpointHeader ckptData with
          | Err e => (Err (BadCheckpoint e), fs)
          | Ok (hdr, _) =>
              let stored := match LoadIdentity fs agentID with
                            | Ok idData => match Identity.UnmarshalBinary idData with Ok id => Some id | Err _ => None end
                            | Err _ => None
                            end in
              match (match stored with
                     | Some id => (Ok id, fs)
                     | None => Identity.LoadOrGenerate fs agentID (rnd mc)
                     end) with
              | (Err e, fs) => (Err (NoIdentity e), fs)
              | (Ok ident, fs) => (Ok (hdr, ident), fs)
              end
          end
      end
  end.
(** The budget it hands to [LoadAgent]. *)
Definition resumeBudget (budgetVal : float64) (hdr : Checkpoint.CheckpointHeader) : Z :=
  let b := Budget.FromFloat budgetVal in if b =? 0 then Checkpoint.Budget hdr else b.
Definition resumeFromCheckpoint (mc : Machine) (events : list event) (checkpointPath wasmPath agentID : string) (budgetVal : float64)
    (manifestPath checkpointDir : string) (fs : FSProvider) : result start_error (option (option stop)) * FSProvider :=
  match stageResume mc checkpointPath agentID checkpointDir fs with
  | (Err e, fs) => (Err e, fs)
  | (Ok (hdr, ident), fs) =>
      match launch mc fs wasmPath agentID (resumeBudget budgetVal hdr) (Checkpoint.PricePerSecond hdr) manifestPath ident with
      | Err e => (Err e, fs)
      | Ok (m, i) =>
          match LoadCheckpointFromStorage m i with
          | (Err e, _, i) => (Err (NotResumed e), Storage i)
          | (Ok _, m, i) => finished (runTickLoop events m i)
          end
      end
  end.

(** [igord run] and [igord resume] after flag parsing. *)
Definition subcmdRun (mc : Machine) (events : list event) (wasmPath agentID : string) (budget : float64)
    (manifestPath checkpointDir : string) :=
  runStandalone mc events wasmPath (if bool_decide (agentID = ""%string) then agentIDFromPath wasmPath else agentID)
    budget manifestPath checkpointDir.
Definition subcmdResume (mc : Machine) (events : list event) (checkpointPath wasmPath agentID : string) (budget : float64)
    (manifestPath checkpointDir : string) :=
  resumeFromCheckpoint mc events checkpointPath wasmPath
    (if bool_decide (agentID = ""%string) then agentIDFromPath wasmPath else agentID) budget manifestPath checkpointDir.

(** ** The lab's local run *)
(** [node]: the signing key and peer ID of the P2P node. *)
Definition runLocalAgent (mc : Machine) (cfg : Config) (now : Authority.time) (node : option bytes * string) (events : list event)
    (wasmPath : string) (budgetMicrocents : Z) (manifestPathFlag : string) (fs : FSProvider)
    : result start_error (option (option stop)) * FSProvider :=
  let manifestData := LoadSidecarData (files mc) wasmPath manifestPathFlag in
  match Identity.LoadOrGenerate fs "local-agent" (rnd mc) with
  | (Err e, fs) => (Err (NoIdentity e), fs)
  | (Ok agentIdent, fs) =>
      match LoadAgent (files mc) wasmPath "local-agent" fs budgetMicrocents (cfg_Price cfg) manifestData (fst node) (snd node)
              (Some agentIdent) (menv mc) with
      | Err e => (Err (NotLoaded e), fs)
      | Ok (m, i) =>
          match initLocalAgent cfg now m i with
          | (Err e, _, i) => (Err (NotInitialized e), Storage i)
          | (Ok _, m, i) =>
              let periodicVerify := bool_decide (ReplayMode cfg = "periodic"%string) || bool_decide (ReplayMode cfg = "full"%string) in
              finished (runLocalAgent_loop periodicVerify events (mkVars cfg 0 0) m i)
          end
      end
  end.
End Igord.

(** ** What a run leaves alone *)
Section Restart.
Context {W : Wasm} `{!WasmLaws W} `{CryptoLaws} `{JSON}.
Implicit Types (i : Instance (St := FSProvider)).

Definition stored_identity i : result storage_error bytes := LoadIdentity (Storage i) (AgentID i).
(** The agent's name, binary, keys and identity file. *)
Definition self i := (AgentID i, WASMHash i, AgentIdentity i, (baseDir (Storage i), bad_reads (Storage i), stored_identity i)).
Definition same_self i i' : Prop := self i' = self i.

Lemma touched_self i i' : touched i i' -> same_self i i'.
Proof. by intros (b & l & n & ->). Qed.
Lemma self_respected : respected same_self.
Proof.
  split; [done|by unfold same_self; intros ??? -> ->|]. intros ??????? E%live_handle_touched. by apply touched_self.
Qed.
Lemma Tick_self m i r m' i' : Tick m i = (r, m', i') -> same_self i i'.
Proof. apply Tick_respects; [apply self_respected|done..]. Qed.
Lemma set_storage_self st i :
  baseDir st = baseDir (Storage i) -> bad_reads st = bad_reads (Storage i) ->
  LoadIdentity st (AgentID i) = LoadIdentity (Storage i) (AgentID i) -> same_self i (set_Storage st i).
Proof. intros E1 E2 E3. unfold same_self, self, stored_identity. cbn. by rewrite E1, E2, E3. Qed.
Lemma persist_self i r i' : persist_receipts i = (r, i') -> same_self i i'.
Proof.
  unfold persist_receipts. destruct (blen (Receipts i) =? 0); [by intros [= _ <-]|].
  destruct (prov_SaveReceipts _ _ _) as [o st] eqn:Es.
  destruct (SaveReceipts_frame ".identity" _ _ _ _ _ ltac:(do 2 right; by left) ltac:(done) Es) as (Hl & Hb & Hr).
  pose proof (set_storage_self st i Hb Hr Hl) as Hs.
  destruct o as [x|]; [|by intros [= _ <-]]. repeat case_match_goal; intros; simplify_eq/=; exact Hs.
Qed.
Lemma Save_self m i r m' i' : SaveCheckpointToStorage m i = (r, m', i') -> same_self i i'.
Proof.
  unfold SaveCheckpointToStorage. destruct (Checkpoint m i) as [[rc m1] i1] eqn:Ec.
  apply (Checkpoint_inert self) in Ec; [|by split; [apply touched_self|]]. intros E.
  enough (same_self i1 i') as Hs by (unfold same_self in *; congruence). revert E. clear Ec.
  destruct rc as [state|e]; [|by intros [= _ _ <-]].
  unfold buildCheckpoint. destruct (Checkpoint.buildCheckpoint _ _) as [[c h]|e]; [|by intros [= _ _ <-]].
  destruct (prov_SaveCheckpoint _ _ _) as [o st] eqn:Es.
  destruct (SaveCheckpoint_frame ".identity" _ _ _ _ _ ltac:(do 2 right; by left) ltac:(done) Es) as (Hl & Hb & Hr).
  set (i2 := set_Storage st _).
  assert (same_self i1 i2) as H2 by exact (set_storage_self st (set_PrevCheckpointHash h i1) Hb Hr Hl).
  destruct (of_outcome o); [|by intros [= _ _ <-]].
  destruct (CreateReceipt i2) as [r3 i3] eqn:E3. destruct (persist_receipts i3) as [r4 i4] eqn:E4.
  intros [= _ _ <-]. apply persist_self in E4.
  assert (same_self i2 i3) as H3.
  { revert E3. unfold CreateReceipt. destruct (signingKey i2); [|by intros [= _ <-]].
    cbn [now_unix_nano instance_env]. by destruct (Receipt.Sign _ _) as [[u|e] r0]; intros [= _ <-]. }
  unfold same_self in *. congruence.
Qed.
Lemma Load_self m i r m' i' : LoadCheckpointFromStorage m i = (r, m', i') -> same_self i i'.
Proof.
  unfold LoadCheckpointFromStorage. destruct (prov_LoadCheckpoint _ _) as [c|[]]; try by intros [= _ _ <-].
  destruct (Checkpoint.ParseCheckpointHeader c) as [[hdr st]|e]; [|by intros [= _ _ <-]].
  destruct (negb _); [by intros [= _ _ <-]|]. destruct (_ && _); [by intros [= _ _ <-]|].
  intros E. apply (Resume_keeps same_self self_respected) in E; [|done].
  unfold same_self in *. rewrite E. unfold restore_receipts. repeat case_match_goal; done.
Qed.

(** The instance as the tick loop goes on: ticks and saves. *)
Inductive ran : Inst * Instance (St := FSProvider) -> Inst * Instance (St := FSProvider) -> Prop :=
| ran_refl mi : ran mi mi
| ran_tick m i r m1 i1 mi : Tick m i = (Ok r, m1, i1) -> ran (m1, i1) mi -> ran (m, i) mi
| ran_save m i m1 i1 mi : trySaveCheckpoint m i = (Some tt, m1, i1) -> ran (m1, i1) mi -> ran (m, i) mi.
Lemma ran_self mi mi' : ran mi mi' -> same_self (snd mi) (snd mi').
Proof.
  induction 1 as [mi|m i r m1 i1 mi E _ IH|m i m1 i1 mi E _ IH]; cbn [snd] in *; [done|..].
  - apply Tick_self in E. unfold same_self in *. congruence.
  - apply trySave_Save in E as [rs E]. apply Save_self in E. unfold same_self in *. congruence.
Qed.
(** A run that stops on a signal has last saved from a state its loop reached. *)
Lemma signalled events : forall m i m' i', runTickLoop events m i = (Some (Some StopSignal), m', i') ->
  exists m1 i1, ran (m, i) (m1, i1) /\ trySaveCheckpoint m1 i1 = (Some tt, m', i').
Proof.
  induction events as [|[c| | |] events IH]; intros m i m' i'; cbn [runTickLoop]; [done|..].
  - unfold SafeTick. destruct (Tick m i) as [[[more|e] m1] i1] eqn:ET.
    + intros (m2 & i2 & Hr & Hs)%IH. exists m2, i2. split; [by eapply ran_tick|done].
    + unfold HandleTickFailure, mbind, Run_bind. by destruct (trySaveCheckpoint m1 i1) as [[[[]|] ?] ?].
  - unfold mbind, Run_bind. destruct (trySaveCheckpoint m i) as [[[[]|] m1] i1] eqn:E; [|done].
    intros (m2 & i2 & Hr & Hs)%IH. exists m2, i2. split; [by eapply ran_save|done].
  - unfold mbind, Run_bind. destruct (trySaveCheckpoint m i) as [[[[]|] m1] i1] eqn:E; [|done].
    intros [= <- <-]. exists m, i. split; [apply ran_refl|done].
  - done.
Qed.

(** What starting an agent fixes. *)
Lemma launch_self mc fs wasmPath id b p man ident m i :
  launch mc fs wasmPath id b p man ident = Ok (m, i) ->
  AgentID i = id /\ AgentIdentity i = Some ident /\ Storage i = fs /\
  exists wasm, files mc wasmPath = Some wasm /\ WASMHash i = sha256 wasm.
Proof.
  unfold launch, LoadAgent. destruct (files mc wasmPath) as [wasm|] eqn:Ew; [|done].
  destruct (loadAgent _ _ _ _ _ _ _ _ _ _) as [[m0 i0]|] eqn:El; [|done].
  destruct (Init m0 _) as [[[u|e] m1] i1] eqn:Ei; [|done]. intros [= <- <-].
  apply Init_touched in Ei as (x & y & z & ->).
  destruct (loadAgent_fields _ _ _ _ _ _ _ _ _ _ _ _ El) as (E1 & E2 & E3 & E4 & _).
  split_and!; try done. by exists wasm.
Qed.

Lemma loaded_identity fs id rnd ident fs' : bad_reads fs = ∅ -> (forall s, rnd = Some s -> blen s = 32) ->
  Identity.LoadOrGenerate fs id rnd = (Ok ident, fs') ->
  bad_reads fs' = ∅ /\ baseDir fs' = baseDir fs /\
  exists data, LoadIdentity fs' id = Ok data /\ Identity.UnmarshalBinary data = Ok ident.
Proof.
  intros Hr Hs E.
  assert (bad_reads fs' = bad_reads fs /\ baseDir fs' = baseDir fs) as [Hr' Hb].
  { assert (forall d b st, Identity.SaveIdentity fs id d = (b, st) -> bad_reads st = bad_reads fs /\ baseDir st = baseDir fs) as Hsv.
    { intros d b st. cbn [Identity.SaveIdentity fs_store]. unfold SaveIdentity.
      destruct (next_script fs) as [sc p1] eqn:En. apply next_script_same in En as (Eb & _ & Er).
      destruct (save_at (identityPath p1 id) d sc p1) as [r q] eqn:Eq. intros Est.
      assert (q = st) as <- by (destruct r as [[[]|]|]; congruence).
      unfold identityPath in Eq. destruct (agent_path ".identity" p1 id) as [path|]; [|by injection Eq as _ <-].
      pose proof (save_at_post path d sc p1) as Hp. rewrite Eq in Hp. destruct Hp as (_ & Hp1 & Hp2). by rewrite Hp1, Hp2. }
    revert E. unfold Identity.LoadOrGenerate. destruct (Identity.LoadIdentity fs id) as [d|].
    - destruct (Identity.UnmarshalBinary d); [by intros [= _ <-]|].
      destruct (Identity.Generate rnd); [|done]. destruct (Identity.SaveIdentity fs id _) as [[] st] eqn:Esv; [|done].
      apply Hsv in Esv. by intros [= _ <-].
    - destruct (Identity.Generate rnd); [|done]. destruct (Identity.SaveIdentity fs id _) as [[] st] eqn:Esv; [|done].
      apply Hsv in Esv. by intros [= _ <-]. }
  split; [congruence|]. split; [done|].
  assert (Identity.LoadOrGenerate fs' id None = (Ok ident, fs')) as E'.
  { eapply Identity.LoadOrGenerate_again; [done|done|]. cbn [Identity.identity_readable fs_store]. congruence. }
  unfold Identity.LoadOrGenerate in E'. cbn [Identity.LoadIdentity fs_store] in E'.
  destruct (LoadIdentity fs' id) as [data|]; [|done]. exists data. split; [done|].
  destruct (Identity.UnmarshalBinary data); [|done]. congruence.
Qed.

Lemma boot_self mc wasmPath id b man dir fs m i fs' :
  bad_reads fs = ∅ -> (forall s, rnd mc = Some s -> blen s = 32) ->
  bootStandalone mc wasmPath id b man dir fs = (Ok (m, i), fs') ->
  exists wasm ident data, files mc wasmPath = Some wasm /\ self i = (id, sha256 wasm, Some ident, (dir, ∅, Ok data)) /\
    Identity.UnmarshalBinary data = Ok ident /\
    (forall d, LoadIdentity (NewFSProvider dir (disk fs) (bad_reads fs) (scripts fs)) id = Ok d -> Identity.UnmarshalBinary d = Ok ident \/ is_ok (Identity.UnmarshalBinary d) = false) /\
    ((exists d, LoadIdentity (NewFSProvider dir (disk fs) (bad_reads fs) (scripts fs)) id = Ok d /\ Identity.UnmarshalBinary d = Ok ident) ->
      Storage i = NewFSProvider dir (disk fs) (bad_reads fs) (scripts fs)).
Proof.
  intros Hr Hs. unfold bootStandalone. set (fs0 := NewFSProvider _ _ _ _).
  destruct (Identity.LoadOrGenerate fs0 id (rnd mc)) as [[ident|e] fs1] eqn:E; [|done]. intros [= El <-].
  destruct (loaded_identity fs0 id (rnd mc) ident fs1 Hr Hs E) as (Hr1 & Hb1 & data & Hd & Hu).
  destruct (launch_self _ _ _ _ _ _ _ _ _ _ El) as (Eid & Eident & Est & wasm & Ew & Eh).
  exists wasm, ident, data. split_and!; [done| |done| |].
  - unfold self, stored_identity. by rewrite Eid, Eh, Eident, Est, Hr1, Hb1, Hd.
  - intros d Hd0. unfold Identity.LoadOrGenerate in E. cbn [Identity.LoadIdentity fs_store] in E. rewrite Hd0 in E.
    destruct (Identity.UnmarshalBinary d) as [x|]; [left; congruence|by right].
  - intros (d & Hd0 & Hu0). unfold Identity.LoadOrGenerate in E. cbn [Identity.LoadIdentity fs_store] in E.
    rewrite Hd0, Hu0 in E. congruence.
Qed.

(** C24: An agent outlives its process. Run an agent with [igord run] until
    a signal stops it, on machines whose random seeds have 32 bytes and from
    directories whose files can be read. If the save on shutdown succeeded,
    with a budget that is not negative (a last tick may overspend it; that
    checkpoint is refused) and the other header fields in range, and the
    agent's key pair is a generated one, then starting the same binary again
    from that directory, on any such machine with any budget flag, clock and
    randomness, gives the agent the same identity, and loading its
    checkpoint (before the first tick) verifies and restores the budget,
    price, tick number and chain hash it was saved with and resumes the
    guest from exactly the state it handed over. *)
Theorem restart_continues mc1 mc2 events wasmPath id b1 b2 man1 man2 dir fs1 fs2 m1 i1 st1 rl ml il m' i' m2 i2 st2 :
  bad_reads fs1 = ∅ -> (forall s, rnd mc1 = Some s -> blen s = 32) -> (forall s, rnd mc2 = Some s -> blen s = 32) ->
  bootStandalone mc1 wasmPath id b1 man1 dir fs1 = (Ok (m1, i1), st1) ->
  LoadCheckpointFromStorage m1 i1 = (rl, ml, il) ->
  runTickLoop events ml il = (Some (Some StopSignal), m', i') ->
  disk fs2 = disk (Storage i') -> bad_reads fs2 = ∅ -> files mc2 wasmPath = files mc1 wasmPath ->
  bootStandalone mc2 wasmPath id b2 man2 dir fs2 = (Ok (m2, i2), st2) ->
  AgentIdentity i2 = AgentIdentity i1 /\
  exists mz iz rs, ran (ml, il) (mz, iz) /\ SaveCheckpointToStorage mz iz = (rs, m', i') /\
    (rs = Ok tt ->
     exists state mc ic, Checkpoint mz iz = (Ok state, mc, ic) /\
      (Checkpoint.fields_ok (checkpoint_fields ic) ->
       (forall ident, AgentIdentity i1 = Some ident -> Checkpoint.identity_ok ident) ->
       exists i3, LoadCheckpointFromStorage m2 i2 = Resume state m2 i3 /\
         Budget i3 = Budget ic /\ PricePerSecond i3 = PricePerSecond ic /\ TickNumber i3 = TickNumber ic /\
         PrevCheckpointHash i3 = PrevCheckpointHash i')).
Proof.
  intros Hr1 Hs1 Hs2 Hb1 Hl1 Hrun Hdisk Hr2 Hf Hb2.
  destruct (boot_self _ _ _ _ _ _ _ _ _ _ Hr1 Hs1 Hb1) as (wasm & ident & data & Hw & Hself & Hu & _).
  destruct (boot_self _ _ _ _ _ _ _ _ _ _ Hr2 Hs2 Hb2) as (wasm2 & ident2 & data2 & Hw2 & Hself2 & _ & Hsame & Hst2).
  destruct (signalled _ _ _ _ _ Hrun) as (mz & iz & Hran & Hts).
  apply Load_self in Hl1. pose proof (ran_self _ _ Hran) as Hrs. cbn [snd] in Hrs.
  assert (self iz = self i1) as His by (unfold same_self in *; congruence).
  assert (exists rs, SaveCheckpointToStorage mz iz = (rs, m', i')) as [rs Hsave] by by apply trySave_Save in Hts.
  pose proof (Save_self _ _ _ _ _ Hsave) as Hi'. unfold same_self in Hi'. rewrite His, Hself in Hi'.
  unfold self, stored_identity in Hi'. injection Hi' as Eid Eh Eident Eb Er Es.
  set (fs0 := NewFSProvider dir (disk fs2) (bad_reads fs2) (scripts fs2)) in *.
  assert (forall suf, suf ∈ suffixes -> load_at fs0 (agent_path suf fs0 id) = load_at (Storage i') (agent_path suf (Storage i') id)) as Hfs.
  { intros suf Hsuf. unfold fs0, NewFSProvider. rewrite load_clean by done. apply load_at_eq; cbn; [by rewrite Eb|congruence|by rewrite Hdisk]. }
  assert (LoadIdentity fs0 id = Ok data) as Hid0.
  { unfold LoadIdentity, identityPath. rewrite Hfs by (do 2 right; by left). by rewrite <- Eid at 1. }
  destruct (Hsame data Hid0) as [Hu2|Hu2]; [|by rewrite Hu in Hu2]. rewrite Hu in Hu2. injection Hu2 as <-.
  assert (Storage i2 = fs0) as Est by (apply Hst2; eauto).
  unfold self in Hself, Hself2. injection Hself as E1 E2 E3 _ _ _. injection Hself2 as E4 E5 E6 _ _ _.
  split; [congruence|]. exists mz, iz, rs. split; [done|]. split; [done|]. intros ->.
  destruct (save_stored mz iz m' i' Hsave Er) as (state & mc & ic & c & h & Hc & Hb & Hl & Hh & Hidc).
  exists state, mc, ic. split; [done|]. intros Hok Hidok.
  pose proof (Checkpoint_inert self _ _ _ _ _ ltac:(by split; [apply touched_self|]) Hc) as Hic.
  rewrite His in Hic. unfold self in Hic. injection Hic as F1 F2 F3 _ _ _.
  destruct (Checkpoint.parse_build _ _ _ _ Hok (fun x Hx => Hidok x (eq_trans (eq_sym F3) Hx)) Hb) as (sig & Hp & Hsig).
  destruct (load_restores i2 c h (Checkpoint.header_of (checkpoint_fields ic) sig) state m2 (checkpoint_fields ic) sig)
    as (i3 & E & B & P & T & Pv); [|exact Hp|done| |exact Hsig|].
  - rewrite Est, E4. rewrite F1, E1 in Hl. cbn [prov_LoadCheckpoint fs_provider] in *.
    unfold LoadCheckpoint, checkpointPath in *. rewrite Hfs by (by left). exact Hl.
  - cbn. rewrite F2, E5. congruence.
  - exists i3. split_and!; try done. rewrite Hh. apply Pv. cbn. by rewrite F3, E3.
Qed.
End Restart.

(** ** Witness and examples *)
Definition empty_fs : FSProvider := mkFS "ckpt" ∅ ∅ [].
Definition demo_machine (seed : Z) : Machine :=
  mkMachine (fun f => if bool_decide (f = "agent.wasm"%string) then Some demo_wasm else None)
    (Some (le_bytes 32 seed)) (demo_env 1000000).
Definition first_run (events : list event) : option (Instance (St := FSProvider)) :=
  match bootStandalone (demo_machine 5) "agent.wasm" "a" (f64_of_Z 10) "" "ckpt" empty_fs with
  | (Ok (m1, i1), _) =>
      let '(_, ml, il) := LoadCheckpointFromStorage m1 i1 in
      match runTickLoop events ml il with (Some (Some StopSignal), _, i') => Some i' | _ => None end
  | _ => None
  end.
Definition busy : list event := [EvTick (at_ 0); EvCheckpoint; EvTick (at_ 0); EvTick (at_ 0); EvSignal].
Definition second_disk : FSProvider :=
  match first_run busy with Some i => mkFS "ckpt" (disk (Storage i)) ∅ [] | None => empty_fs end.

Lemma restart_continues_witness :
  match bootStandalone (demo_machine 5) "agent.wasm" "a" (f64_of_Z 10) "" "ckpt" empty_fs with
  | (Ok (m1, i1), _) =>
      let '(_, ml, il) := LoadCheckpointFromStorage m1 i1 in
      match runTickLoop busy ml il with
      | (Some (Some StopSignal), m', i') =>
          match bootStandalone (demo_machine 6) "agent.wasm" "a" (f64_of_Z 3) "" "ckpt" (mkFS "ckpt" (disk (Storage i')) ∅ []) with
          | (Ok (m2, i2), _) =>
              AgentIdentity i2 = AgentIdentity i1 /\
              exists mz iz rs, ran (ml, il) (mz, iz) /\ SaveCheckpointToStorage mz iz = (rs, m', i') /\
                (rs = Ok tt ->
                 exists state mc ic, Checkpoint mz iz = (Ok state, mc, ic) /\
                  (Checkpoint.fields_ok (checkpoint_fields ic) ->
                   (forall ident, AgentIdentity i1 = Some ident -> Checkpoint.identity_ok ident) ->
                   exists i3, LoadCheckpointFromStorage m2 i2 = Resume state m2 i3 /\
                     Budget i3 = Budget ic /\ PricePerSecond i3 = PricePerSecond ic /\ TickNumber i3 = TickNumber ic /\
                     PrevCheckpointHash i3 = PrevCheckpointHash i'))
          | _ => False
          end
      | _ => False
      end
  | _ => False
  end.
Proof.
  assert (match first_run busy with
    | Some i => is_ok (fst (bootStandalone (demo_machine 6) "agent.wasm" "a" (f64_of_Z 3) "" "ckpt" (mkFS "ckpt" (disk (Storage i)) ∅ [])))
    | None => false end = true) as Hgo by (vm_compute; reflexivity).
  unfold first_run in Hgo.
  destruct (bootStandalone (demo_machine 5) _ _ _ _ _ _) as [[[m1 i1]|e] st1] eqn:Hb1; [|discriminate Hgo].
  destruct (LoadCheckpointFromStorage m1 i1) as [[rl ml] il] eqn:Hl.
  destruct (runTickLoop busy ml il) as [[[[s|]|] m'] i'] eqn:Hr; [|discriminate Hgo..].
  destruct s; try discriminate Hgo.
  destruct (bootStandalone (demo_machine 6) _ _ _ _ _ _) as [[[m2 i2]|e] st2] eqn:Hb2; [|discriminate Hgo].
  refine (restart_continues (demo_machine 5) (demo_machine 6) busy "agent.wasm" "a" (f64_of_Z 10) (f64_of_Z 3) "" "" "ckpt"
    empty_fs (mkFS "ckpt" (disk (Storage i')) ∅ []) m1 i1 st1 rl ml il m' i' m2 i2 st2 _ _ _ Hb1 Hl Hr _ _ _ Hb2);
    try reflexivity; intros s [= <-]; reflexivity.
Defined.

Definition resumed (r : result start_error (option (option stop)) * FSProvider) : option (Z * Z) :=
  match LoadCheckpoint (snd r) "a" with
  | Ok c => match Checkpoint.ParseCheckpointHeader c with
            | Ok (hdr, _) => Some (Checkpoint.Budget hdr, Checkpoint.TickNumber hdr)
            | Err _ => None
            end
  | Err _ => None
  end.
(** Each of the demo's ticks costs 1000 microcents and pays 5; the second run
    ignores its own budget flag. *)
Example two_runs :
  resumed (runStandalone (demo_machine 5) busy "agent.wasm" "a" (f64_of_Z 10) "" "ckpt" empty_fs) = Some (9996985, 3) /\
  resumed (runStandalone (demo_machine 6) [EvTick (at_ 0); EvSignal] "agent.wasm" "a" (f64_of_Z 3) "" "ckpt" second_disk) =
    Some (9995980, 4).
Proof. vm_compute. done. Qed.

(** [igord resume --budget] has no effect either: the header's budget is
    restored over it. *)
Definition with_checkpoint (c : bytes) (mc : Machine) : Machine :=
  mkMachine (fun f => if bool_decide (f = "saved.ckpt"%string) then Some c else files mc f) (rnd mc) (menv mc).
Definition saved_checkpoint : bytes := match LoadCheckpoint second_disk "a" with Ok c => c | Err _ => [] end.
Example resume_ignores_budget :
  resumed (resumeFromCheckpoint (with_checkpoint saved_checkpoint (demo_machine 6)) [EvTick (at_ 0); EvSignal]
    "saved.ckpt" "agent.wasm" "a" (f64_of_Z 1000) "" "elsewhere" empty_fs) = Some (9995980, 4).
Proof. vm_compute. reflexivity. Qed.
(** Resuming from a file that is no checkpoint destroys the stored one: it is
    saved before it is parsed. *)
Example resume_overwrites_before_parsing :
  let r := resumeFromCheckpoint (with_checkpoint [Byte.x00] (demo_machine 6)) [] "saved.ckpt" "agent.wasm" "a" f64_zero "" "ckpt" second_disk in
  match fst r with Err (BadCheckpoint _) => true | _ => false end = true /\
  LoadCheckpoint second_disk "a" = Ok saved_checkpoint /\ LoadCheckpoint (snd r) "a" = Ok [Byte.x00].
Proof. vm_compute. done. Qed.
(** [igord run] with another binary of the same name takes the hash mismatch
    for a missing checkpoint, starts afresh and overwrites the checkpoint. *)
Example other_binary_starts_afresh :
  let mc := mkMachine (fun f => if bool_decide (f = "agent.wasm"%string) then Some (byte_of_Z <$> [1]) else None)
              (Some (le_bytes 32 9)) (demo_env 1000000) in
  resumed (runStandalone mc [EvTick (at_ 0); EvSignal] "agent.wasm" "a" (f64_of_Z 2) "" "ckpt" second_disk) = Some (1999000, 1).
Proof. vm_compute. reflexivity. Qed.
