(* ===== verification/Simulator.v ===== *)
(** * The local simulator (internal/simulator)

    A single-process run of an agent: with live hostcalls or with a fixed
    clock and a seeded generator, and with per-tick replay verification.  The
    measured tick durations are the list [durations], one per tick. *)
From S2P Require Import Prelude GoFloat Crypto EventLog Manifest Wasm Hostcall Storage ToyGuest Instance Replay TickReplay.
From S2P Require Budget.
From stdpp Require Import gmap strings pretty.
Open Scope Z_scope.

(** ** math/rand/v2: the PCG-DXSM source *)
Record PCG := mkPCG { pcg_hi : Z; pcg_lo : Z }.
Definition NewPCG (seed1 seed2 : Z) : PCG := mkPCG (u64 seed1) (u64 seed2).
Definition pcg_next (p : PCG) : Z * PCG :=
  let mul := 2549297995355413924 * 2 ^ 64 + 4865540595714422341 in
  let inc := 6364136223846793005 * 2 ^ 64 + 1442695040888963407 in
  let s := ((pcg_hi p * 2 ^ 64 + pcg_lo p) * mul + inc) mod 2 ^ 128 in
  let hi := s / 2 ^ 64 in
  let lo := u64 s in
  let h := Z.lxor hi (Z.shiftr hi 32) in
  let h := u64 (h * 15750249268501108917) in
  let h := Z.lxor h (Z.shiftr h 48) in
  (u64 (h * Z.lor lo 1), mkPCG hi lo).
(** [Rand.Uint32]. *)
Definition Uint32 (p : PCG) : Z * PCG := let '(v, p) := pcg_next p in (Z.shiftr v 32, p).
Fixpoint fill (n : nat) (p : PCG) : bytes * PCG :=
  match n with
  | O => ([], p)
  | S n => let '(v, p) := Uint32 p in let '(l, p) := fill n p in (byte_of_Z v :: l, p)
  end.
Example pcg_reference : (let '(a, p) := pcg_next (NewPCG 1 2) in (a, fst (pcg_next p))) = (14192431797130687760, 11371241257079532652).
Proof. vm_compute. reflexivity. Qed.

(** ** Configuration and result *)
Record Config := mkConfig {
  WASMPath : string; ManifestPath : string; cfg_Budget : float64; cfg_Price : float64; Ticks : Z;
  Verify : bool; Deterministic : bool; RandSeed : Z; ClockStart : Z; ClockDelta : Z }.
Inductive sim_error :=
| ErrPreState (tick : Z) (e : wasm_error) | ErrTick (tick : Z) | ErrPostState (tick : Z) (e : wasm_error)
| ErrReplay (tick : Z) (f : failure) | ErrDivergence (tick : Z)
| ErrFinal (e : wasm_error) | ErrRoundTrip (e : wasm_error) | ErrStateMismatch.
Record Result := mkRes {
  TicksExecuted : Z; FinalBudget : Z; BudgetConsumed : Z; CheckpointSize : Z;
  ReplayVerified : Z; ReplayFailed : Z; Errors : list sim_error }.
Definition no_result : Result := mkRes 0 0 0 0 0 0 [].
Definition add_error (e : sim_error) (r : Result) : Result :=
  mkRes (TicksExecuted r) (FinalBudget r) (BudgetConsumed r) (CheckpointSize r) (ReplayVerified r) (ReplayFailed r) (Errors r ++ [e]).
Definition count_tick (r : Result) : Result :=
  mkRes (TicksExecuted r + 1) (FinalBudget r) (BudgetConsumed r) (CheckpointSize r) (ReplayVerified r) (ReplayFailed r) (Errors r).
Definition count_verified (r : Result) : Result :=
  mkRes (TicksExecuted r) (FinalBudget r) (BudgetConsumed r) (CheckpointSize r) (ReplayVerified r + 1) (ReplayFailed r) (Errors r).
Definition count_failed (r : Result) : Result :=
  mkRes (TicksExecuted r) (FinalBudget r) (BudgetConsumed r) (CheckpointSize r) (ReplayVerified r) (ReplayFailed r + 1) (Errors r).
Definition set_size (n : Z) (r : Result) : Result :=
  mkRes (TicksExecuted r) (FinalBudget r) (BudgetConsumed r) n (ReplayVerified r) (ReplayFailed r) (Errors r).
Definition set_budget (final consumed : Z) (r : Result) : Result :=
  mkRes (TicksExecuted r) final consumed (CheckpointSize r) (ReplayVerified r) (ReplayFailed r) (Errors r).

(** ** hostcalls.go: deterministic hostcalls *)
(** [budget] is never assigned by the simulator. *)
Record deterministicHostcalls := mkDet {
  clockValue : Z; clockDelta : Z; randSrc : PCG; d_log : EventLog; d_budget : Z; nodePrice : Z }.
Definition newDeterministicHostcalls (clockStart clockDelta randSeed nodePrice : Z) (el : EventLog) : deterministicHostcalls :=
  mkDet clockStart clockDelta (NewPCG randSeed randSeed) el 0 nodePrice.
Definition set_d_log (l : EventLog) (d : deterministicHostcalls) : deterministicHostcalls :=
  mkDet (clockValue d) (clockDelta d) (randSrc d) l (d_budget d) (nodePrice d).
Definition d_record (id : HostcallID) (payload : bytes) (d : deterministicHostcalls) : deterministicHostcalls :=
  set_d_log (Record_ id payload (d_log d)) d.
Definition det_functions (m : option CapabilityManifest) : list string :=
  (if Has m "clock" then ["clock_now"] else []) ++ (if Has m "rand" then ["rand_bytes"] else []) ++
  (if Has m "log" then ["log_emit"] else []) ++
  (if Has m "wallet" then ["wallet_balance"; "wallet_receipt_count"; "wallet_receipt"] else []) ++
  (if Has m "pricing" then ["node_price"] else []).

Section Det.
Context {W : Wasm}.
Definition dhandler : Type := Inst -> deterministicHostcalls -> Z * Inst * deterministicHostcalls.
Definition registerClock : dhandler := fun i d =>
  let now := clockValue d in
  let d := mkDet (i64 (now + clockDelta d)) (clockDelta d) (randSrc d) (d_log d) (d_budget d) (nodePrice d) in
  (now, i, d_record ClockNow (put_u64 (u64 now)) d).
Definition registerRand (ptr length : Z) : dhandler := fun i d =>
  let '(buf, p) := fill (Z.to_nat length) (randSrc d) in
  let d := mkDet (clockValue d) (clockDelta d) p (d_log d) (d_budget d) (nodePrice d) in
  let d := d_record RandBytes buf d in
  match mem_write i ptr buf with None => (-4, i, d) | Some i => (0, i, d) end.
Definition registerLog (ptr length : Z) : dhandler := fun i d =>
  match mem_read i ptr length with None => (0, i, d) | Some data => (0, i, d_record LogEmit data d) end.
Definition registerWallet_balance : dhandler := fun i d =>
  (d_budget d, i, d_record WalletBalance (put_u64 (u64 (d_budget d))) d).
Definition registerWallet_count : dhandler := fun i d => (0, i, d_record WalletReceiptCount (put_u32 0) d).
Definition registerWallet_receipt : dhandler := fun i d => (-1, i, d_record WalletReceipt [] d).
Definition registerPricing : dhandler := fun i d =>
  (nodePrice d, i, d_record NodePrice (put_u64 (u64 (nodePrice d))) d).
(** The last two are never registered: a module that imports them does not
    instantiate. *)
Definition det_handle (c : hostcall) : dhandler :=
  match c with
  | HClockNow => registerClock
  | HRandBytes p n => registerRand p n
  | HLogEmit p n => registerLog p n
  | HWalletBalance => registerWallet_balance
  | HWalletReceiptCount => registerWallet_count
  | HWalletReceipt _ _ _ => registerWallet_receipt
  | HNodePrice => registerPricing
  | _ => fun i d => (0, i, d)
  end.
End Det.

(** ** Live hostcalls: a registry without wallet, pricing or payment state

    The corresponding functions are not registered, so the operations given
    for these states are never run. *)
Record LiveEnv := mkLiveEnv {
  l_now : nat -> Z; l_rand : nat -> Z -> option bytes; l_http : nat -> http_request -> http_result;
  l_hostname : string -> option string }.
Record LiveHost := mkLive { v_log : EventLog; v_env : LiveEnv; v_step : nat }.
Definition v_tick (h : LiveHost) : LiveHost := mkLive (v_log h) (v_env h) (S (v_step h)).
#[export] Instance live_recorder : EventRecorder LiveHost := {| get_log := v_log; set_log l h := mkLive l (v_env h) (v_step h) |}.
#[export] Instance live_env : HostEnv LiveHost := {|
  now_unix_nano h := (i64 (l_now (v_env h) (v_step h)), v_tick h);
  crypto_rand n h := (copy_array (Z.to_nat n) <$> l_rand (v_env h) (v_step h) n, v_tick h);
  http_do r h := (l_http (v_env h) (v_step h) r, v_tick h);
  url_hostname h := l_hostname (v_env h) |}.
#[export] Instance live_wallet : WalletState LiveHost := {| GetBudget _ := 0; GetReceiptCount _ := 0; GetReceiptBytes _ _ := None |}.
#[export] Instance live_pricing : PricingState LiveHost := {| GetNodePrice _ := 0 |}.
#[export] Instance live_pay : WalletPayState LiveHost := {|
  pay_GetBudget _ := 0; DeductBudget _ _ := None; GetAgentPubKey _ := zeros 32; SignPayment _ _ := zeros 64 |}.
#[export] Instance det_recorder : EventRecorder deterministicHostcalls := {| get_log := d_log; set_log := set_d_log |}.

(** ** simulator.go *)
Inductive setup_error :=
| ErrReadWASM | ErrSimManifest (e : manifest_error) | ErrSimCompile | ErrSimLink | ErrSimInstantiate | ErrSimInitialize (e : wasm_error)
| ErrSimExport (name : string) | ErrSimInit (e : wasm_error).
Record simEnv := mkEnv { wasmBytes : bytes; capManifest : CapabilityManifest; verifies : bool; pricePerSecond : Z }.

Section Run.
Context {W : Wasm} `{Crypto} `{JSON}.
Section Host.
Context {HS : Type} `{EventRecorder HS} (handle : hostcall -> Inst -> HS -> Z * Inst * HS).

Definition sim_required : list string := ["agent_init"; "agent_tick"; "agent_checkpoint"; "agent_checkpoint_ptr"; "agent_resume"].
(** [setup] from the compilation on. *)
Definition setup_module (names : list string) (wasm : bytes) (h : HS) : result setup_error (Inst * HS) :=
  match CompileModule wasm with
  | None => Err ErrSimCompile
  | Some compiled =>
      if negb (links names compiled) then Err ErrSimLink
      else
        match InstantiateModule compiled with
        | None => Err ErrSimInstantiate
        | Some m =>
            match initialize handle m h with
            | (Err e, _, _) => Err (ErrSimInitialize e)
            | (Ok _, m, h) =>
                match filter (fun n => ExportedFunction m n = false) sim_required with
                | name :: _ => Err (ErrSimExport name)
                | [] =>
                    match Call handle "agent_init" [] m h with
                    | (Err e, _, _) => Err (ErrSimInit e)
                    | (Ok _, m, h) => Ok (m, h)
                    end
                end
            end
        end
  end.

Definition verifyTick (env : simEnv) (result : Result) (tickNum : Z) (preState postState : bytes) (sealed : TickLog) : Result :=
  let rr := ReplayTick (wasmBytes env) (Some (capManifest env)) preState sealed None in
  match Replay.Error rr with
  | Some f => add_error (ErrReplay tickNum f) (count_failed result)
  | None =>
      if bool_decide (sha256 (default [] (ReplayedState rr)) = sha256 postState)
      then count_verified result
      else add_error (ErrDivergence tickNum) (count_failed result)
  end.

(** The budget left, whether to go on, and what the tick changed. *)
Definition executeTick (env : simEnv) (result : Result) (tickNum budgetMicrocents elapsed : Z) (m : Inst) (h : HS)
    : Z * bool * Result * Inst * HS :=
  match CaptureState handle m h with
  | (Err e, m, h) => (budgetMicrocents, false, add_error (ErrPreState tickNum e) result, m, h)
  | (Ok preState, m, h) =>
      let h := set_log (BeginTick tickNum (get_log h)) h in
      let '(r, m, h) := exec handle (invoke m "agent_tick" []) h in
      let '(sealed, l) := SealTick (get_log h) in
      let h := set_log l h in
      match r with
      | None => (budgetMicrocents, false, add_error (ErrTick tickNum) result, m, h)
      | Some _ =>
          match CaptureState handle m h with
          | (Err e, m, h) => (budgetMicrocents, false, add_error (ErrPostState tickNum e) result, m, h)
          | (Ok postState, m, h) =>
              let costMicrocents := Z.quot (i64 (i64 elapsed * pricePerSecond env)) 1000000000 in
              let budgetMicrocents := i64 (budgetMicrocents - costMicrocents) in
              let result := count_tick result in
              let result := match sealed with
                            | Some t => if verifies env then verifyTick env result tickNum preState postState t else result
                            | None => result
                            end in
              (budgetMicrocents, true, result, m, h)
          end
      end
  end.

(** [None]: still running when the durations run out. *)
Fixpoint runTickLoop (env : simEnv) (maxTicks i : Z) (durations : list Z) (result : Result) (budgetMicrocents : Z) (m : Inst) (h : HS)
    : option (Z * Result * Inst * HS) :=
  if negb (i <? maxTicks) then Some (budgetMicrocents, result, m, h)
  else if budgetMicrocents <=? 0 then Some (budgetMicrocents, result, m, h)
  else
    match durations with
    | [] => None
    | elapsed :: durations =>
        match executeTick env result (i + 1) budgetMicrocents elapsed m h with
        | (remaining, true, result, m, h) => runTickLoop env maxTicks (i + 1) durations result remaining m h
        | (remaining, false, result, m, h) => Some (remaining, result, m, h)
        end
    end.

Definition verifyCheckpointRoundTrip (state : bytes) : M (HS := HS) bytes := fun m h =>
  if blen state =? 0 then (Ok [], m, h)
  else (_ ← ResumeAgent handle state; CaptureState handle) m h.
Definition finalize (result : Result) (m : Inst) (h : HS) : Result :=
  match CaptureState handle m h with
  | (Err e, _, _) => add_error (ErrFinal e) result
  | (Ok finalState, m, h) =>
      let result := set_size (blen finalState) result in
      match verifyCheckpointRoundTrip finalState m h with
      | (Err e, _, _) => add_error (ErrRoundTrip e) result
      | (Ok resumedState, _, _) =>
          if bool_decide (sha256 resumedState = sha256 finalState) then result else add_error ErrStateMismatch result
      end
  end.

(** The budget and the price [setup] computes. *)
Definition setup_budget (cfg : Config) : Z := Budget.FromFloat (cfg_Budget cfg).
Definition setup_price (cfg : Config) : Z :=
  let price := Budget.FromFloat (cfg_Price cfg) in if price =? 0 then 1000 else price.
Definition setup_env (cfg : Config) (wasm : bytes) (caps : CapabilityManifest) : simEnv := mkEnv wasm caps (Verify cfg) (setup_price cfg).
Definition run_host (names : list string) (cfg : Config) (wasm : bytes) (caps : CapabilityManifest) (durations : list Z) (h : HS)
    : option (result setup_error Result) :=
  let budgetMicrocents := setup_budget cfg in
  match setup_module names wasm h with
  | Err e => Some (Err e)
  | Ok (m, h) =>
      let maxTicks := if Ticks cfg =? 0 then 2 ^ 31 - 1 else Ticks cfg in
      match runTickLoop (setup_env cfg wasm caps) maxTicks 0 durations no_result budgetMicrocents m h with
      | None => None
      | Some (final, result, m, h) =>
          Some (Ok (set_budget final (i64 (budgetMicrocents - final)) (finalize result m h)))
      end
  end.
End Host.

(** The files [setup] reads. *)
Definition setup_files (files : string -> option bytes) (cfg : Config) : result setup_error (bytes * CapabilityManifest) :=
  match files (WASMPath cfg) with
  | None => Err ErrReadWASM
  | Some wasm =>
      match ParseCapabilityManifest (LoadSidecarData files (WASMPath cfg) (ManifestPath cfg)) with
      | Err e => Err (ErrSimManifest e)
      | Ok caps => Ok (wasm, caps)
      end
  end.
(** [registerHostcalls]: the host of a deterministic run, with a log. *)
Definition deterministic_host (cfg : Config) (el : EventLog) : deterministicHostcalls :=
  let clockStart := if ClockStart cfg =? 0 then 1000000000 else ClockStart cfg in
  let clockDelta := if ClockDelta cfg =? 0 then 1000000000 else ClockDelta cfg in
  newDeterministicHostcalls clockStart clockDelta (RandSeed cfg) (Budget.FromFloat (cfg_Price cfg)) el.
(** [Run]: [None] when the durations run out before the simulation ends. *)
Definition Run (files : string -> option bytes) (env : LiveEnv) (durations : list Z) (cfg : Config) : option (result setup_error Result) :=
  match setup_files files cfg with
  | Err e => Some (Err e)
  | Ok (wasm, caps) =>
      let el := NewEventLog DefaultMaxTicks in
      if Deterministic cfg then
        run_host det_handle (det_functions (Some caps)) cfg wasm caps durations (deterministic_host cfg el)
      else
        let reg := RegisterHostModule (Some caps) false false false in
        run_host (live_handle reg) (functions reg) cfg wasm caps durations (mkLive el env 0)
  end.

(** The numbers [PrintSummary] reports, and the errors after them. *)
Definition PrintSummary (r : Result) : list (string * string) * list sim_error :=
  ([("ticks_executed"%string, pretty (TicksExecuted r)); ("budget_consumed"%string, Budget.Format (BudgetConsumed r));
    ("budget_remaining"%string, Budget.Format (FinalBudget r)); ("checkpoint_bytes"%string, pretty (CheckpointSize r));
    ("replay_verified"%string, pretty (ReplayVerified r)); ("replay_failed"%string, pretty (ReplayFailed r));
    ("errors"%string, pretty (blen (Errors r)))], Errors r).
End Run.

(** ** Deterministic hostcalls as live ones

    The deterministic host seen as a state the live handlers could run on:
    its counter as the clock, its generator as the random source. *)
#[export] Instance det_wallet : WalletState deterministicHostcalls :=
  {| GetBudget := d_budget; GetReceiptCount _ := 0; GetReceiptBytes _ _ := None |}.
#[export] Instance det_pricing : PricingState deterministicHostcalls := {| GetNodePrice := nodePrice |}.
#[export] Instance det_pay : WalletPayState deterministicHostcalls := {|
  pay_GetBudget := d_budget;
  DeductBudget a d := Some (mkDet (clockValue d) (clockDelta d) (randSrc d) (d_log d) (d_budget d - a) (nodePrice d));
  GetAgentPubKey _ := zeros 32; SignPayment _ _ := zeros 64 |}.
#[export] Instance det_env : HostEnv deterministicHostcalls := {|
  now_unix_nano d := (i64 (clockValue d),
    mkDet (i64 (clockValue d + clockDelta d)) (clockDelta d) (randSrc d) (d_log d) (d_budget d) (nodePrice d));
  crypto_rand n d := let '(buf, p) := fill (Z.to_nat n) (randSrc d) in
    (Some buf, mkDet (clockValue d) (clockDelta d) p (d_log d) (d_budget d) (nodePrice d));
  http_do _ d := (HError, d);
  url_hostname _ _ := None |}.

Definition det_ok (d : deterministicHostcalls) : Prop := is_i64 (clockValue d) /\ is_i64 (d_budget d) /\ is_i64 (nodePrice d).
Lemma length_fill n : forall p, length (fst (fill n p)) = n.
Proof.
  induction n as [|n IH]; intros p; [done|]. cbn [fill]. destruct (Uint32 p) as [v p1].
  specialize (IH p1). destruct (fill n p1) as [l p2]. simpl in *. by rewrite IH.
Qed.
#[export] Instance det_host_laws : HostLaws deterministicHostcalls det_ok.
Proof.
  split; cbn [get_log set_log det_recorder GetBudget det_wallet pay_GetBudget det_pay GetNodePrice det_pricing GetAgentPubKey
    SignPayment DeductBudget now_unix_nano crypto_rand http_do det_env fst snd]; try done.
  - by intros d (_ & ? & _).
  - by intros d (_ & _ & ?).
  - intros a d Ha (Hc & Hb & Hp). eexists. split; [done|]. unfold det_ok, is_i64 in *. cbn. split_and!; try done; lia.
  - intros d. apply i64_range.
  - intros d (Hc & Hb & Hp). split_and!; [done..|]. split_and!; [apply i64_range|done|done].
  - intros n d (Hc & Hb & Hp). destruct (fill _ _) as [buf p]. done.
  - intros n d b Hn. pose proof (length_fill (Z.to_nat n) (randSrc d)) as Hl. destruct (fill _ _) as [buf p].
    intros [= <-]. simpl in Hl. unfold blen. rewrite Hl. lia.
Qed.

(** ** A deterministic run is a live run *)
Section DetLive.
Context {W : Wasm} `{!WasmLaws W}.
(** The hostcalls that the simulator answers as a node does.  It also records
    [wallet_receipt], but with an entry that replays differently. *)
Definition det_call (c : hostcall) : bool :=
  match c with
  | HClockNow | HRandBytes _ _ | HLogEmit _ _ | HWalletBalance | HWalletReceiptCount | HNodePrice => true
  | _ => false
  end.
Definition any_config : HostConfig := mkHostConfig [] (mkPayConfig [] 0) (mkHTTPConfig [] 0 0).
(** A call recorded with an entry that replay can follow. *)
Definition det_replayable_call (c : hostcall) (m : Inst) (d : deterministicHostcalls) : bool :=
  det_call c && match c with HRandBytes _ n => n <=? maxRandBytes | _ => true end && recorded any_config c m d.
Lemma det_is_live c m d : det_ok d -> det_replayable_call c m d = true -> det_handle c m d = live_handle any_config c m d.
Proof.
  intros (Hc & _ & _). unfold det_replayable_call, recorded. destruct c; try done; cbn [det_call andb det_handle live_handle].
  - intros _. unfold registerClock, clock_now. cbn [now_unix_nano det_env]. by rewrite (i64_id _ Hc).
  - unfold registerRand, rand_bytes. intros Hr. zb. cbn [crypto_rand det_env] in *.
    destruct (Z.eqb_spec len 0) as [->|_]; [done|]. destruct (Z.ltb_spec maxRandBytes len); [lia|].
    destruct (fill _ _) as [buf p]. by destruct (mem_write m ptr buf).
  - unfold registerLog, log_emit. intros Hr. zb. destruct (Z.eqb_spec len 0) as [->|_]; [lia|].
    destruct (Z.ltb_spec maxLogBytes len); [lia|done].
Qed.

(** Every hostcall of a deterministic run is one of those. *)
Fixpoint det_replayable (t : run Inst) (d : deterministicHostcalls) : bool :=
  match t with
  | Host c i k => det_replayable_call c i d && let '(v, i, d) := det_handle c i d in det_replayable (k v i) d
  | _ => true
  end.
Lemma recorded_ok c m d v m' d' : det_ok d -> live_handle any_config c m d = (v, m', d') -> recorded any_config c m d = true -> det_ok d'.
Proof.
  intros Hok E Hr. assert (mem_sim (fun _ _ : Inst => False)) as Hm by by split.
  by destruct (recorded_mirrors (host_ok := det_ok) _ Hm any_config c m d v m' d' Hok E Hr).
Qed.
Lemma det_run_is_live t : forall d, det_ok d -> det_replayable t d = true ->
  all_recorded any_config t d = true /\ exec det_handle t d = exec (live_handle any_config) t d.
Proof.
  induction t as [vs i|i|c i k IH]; intros d Hok Hr; cbn [det_replayable all_recorded exec] in *; [done..|].
  apply andb_true_iff in Hr as [Hc Hr]. rewrite (det_is_live c i d Hok Hc) in *.
  assert (recorded any_config c i d = true) as Hrec.
  { unfold det_replayable_call in Hc. zb. done. }
  destruct (live_handle any_config c i d) as [[v i'] d'] eqn:E.
  destruct (IH v i' d') as [H1 H2]; [by eapply recorded_ok|done|]. by rewrite Hrec, H1.
Qed.

End DetLive.

(** ** The simulator's verification *)
Section Verification.
Context {W : Wasm} `{!WasmLaws W} `{CryptoLaws} `{JSON}.
Context {R : Inst -> Inst -> Prop} {Q : Inst -> Prop}.

(** The hostcalls [executeTick] would make are all of that kind. *)
Definition sim_replayable (tickNum : Z) (m : Inst) (d : deterministicHostcalls) : bool :=
  match CaptureState det_handle m d with
  | (Ok _, m, d) => det_replayable (invoke m "agent_tick" []) (set_d_log (BeginTick tickNum (d_log d)) d)
  | _ => true
  end.

(** Capturing the state of a contract-abiding agent calls no host. *)
Lemma capture_det wasm m d r m1 d1 {HS2} (h2 : hostcall -> Inst -> HS2 -> Z * Inst * HS2) (j : Inst) s2 :
  agent_contract wasm R Q -> R m j -> CaptureState det_handle m d = (r, m1, d1) ->
  d1 = d /\ R m1 j /\ exists j', CaptureState h2 j s2 = (r, j', s2) /\ R m1 j'.
Proof.
  intros AC HR E.
  destruct (capture_alike AC det_handle h2 m j d s2 HR) as (r0 & m0 & j0 & E1 & E2 & HR1 & HR2).
  rewrite E in E1. injection E1 as <- <- ->. split; [done|]. split; [|by exists j0].
  eapply (ac_trans _ _ _ AC); [by apply (ac_sym _ _ _ AC)|done].
Qed.

(** A fresh instance resumed from the captured state is in that state. *)
Lemma sim_resumes wasm m d pre m1 d1 :
  agent_contract wasm R Q -> Q m -> CaptureState det_handle m d = (Ok pre, m1, d1) ->
  exists compiled m0 j, CompileModule wasm = Some compiled /\ InstantiateModule compiled = Some m0 /\ R m1 j /\
    forall (HS : Type) (h : hostcall -> Inst -> HS -> Z * Inst * HS) (s : HS),
      exists m2, initialize h m0 s = (Ok tt, m2, s) /\ ResumeAgent h pre m2 s = (Ok tt, j, s).
Proof.
  intros AC HQ E. pose proof (ac_refl _ _ _ AC m HQ) as Hm.
  destruct (capture_det wasm m d _ m1 d1 null_handle m tt AC Hm E) as (_ & _ & j2 & E2 & HR2).
  destruct (ac_resume _ _ _ AC m pre j2 HQ E2) as (compiled & m0 & j & Hc & Hi & HR3 & Hrun).
  exists compiled, m0, j. split_and!; [done..| |done]. by eapply (ac_trans _ _ _ AC).
Qed.

(** One deterministic tick against its replay. *)
Lemma det_tick_replays wasm m1 j tickNum d rs m2 d2 sealed l post m3 d3 :
  agent_contract wasm R Q -> R m1 j -> det_ok d -> log_ok (d_log d) ->
  let d1 := set_d_log (BeginTick tickNum (d_log d)) d in
  det_replayable (invoke m1 "agent_tick" []) d1 = true ->
  exec det_handle (invoke m1 "agent_tick" []) d1 = (Some rs, m2, d2) ->
  SealTick (d_log d2) = (sealed, l) ->
  CaptureState det_handle m2 (set_d_log l d2) = (Ok post, m3, d3) ->
  exists t j2 s2 j3, sealed = Some t /\ replay_one j (mkReplay (mkIter (entries t) 0) None) = Ok (j2, s2) /\
    CaptureState replay_handle j2 s2 = (Ok post, j3, s2).
Proof.
  intros AC HR Hok Hlog d1 Hrec E2 Es E3.
  assert (ticking d1 tickNum []) as Htick.
  { destruct (log_step (OBegin tickNum) (d_log d) Hlog) as [Hl Hv]. split; [exact Hl|]. by apply (f_equal v_current) in Hv. }
  assert (det_ok d1) as Hok1 by exact Hok.
  destruct (det_run_is_live _ d1 Hok1 Hrec) as [Hall Eexec]. rewrite Eexec in E2.
  destruct (ac_tick _ _ _ AC) as (Rc & Hmem & Htick_sim).
  destruct (exec_live (host_ok := det_ok) Rc Hmem any_config _ _ _ _ _ _ _ Hok1 Htick Hall E2) as [_ [new Hnew]].
  rewrite app_nil_l in Hnew. destruct Hnew as [Hlog2 Hcur2]. change (get_log d2) with (d_log d2) in Hlog2, Hcur2.
  destruct (current (d_log d2)) as [t|] eqn:Ecur; [|done].
  unfold SealTick in Es. rewrite Ecur in Es. injection Es as <- <-.
  cbn [fmap option_fmap option_map] in Hcur2. injection Hcur2 as Hnum Hents.
  destruct (exec_replay (host_ok := det_ok) Rc R Hmem any_config _ _ (Htick_sim m1 j HR)
    _ _ _ _ _ _ new new [] [] None Hok1 Htick Hall E2) as (j2 & HR2 & Erep).
  { unfold ticking. change (get_log d2) with (d_log d2). rewrite Ecur. split; [done|].
    cbn [fmap option_fmap option_map app]. unfold view_tick. by rewrite Hnum, Hents. }
  { by rewrite app_nil_l, app_nil_r. }
  specialize (HR2 ltac:(done)). rewrite app_nil_l in Erep. cbn [length] in Erep.
  destruct (capture_det wasm m2 _ _ m3 d3 replay_handle j2 (mkReplay (mkIter new (length new)) None) AC HR2 E3) as (_ & _ & j3 & Ecap & _).
  exists t, j2, (mkReplay (mkIter new (length new)) None), j3. split_and!; [done| |done].
  unfold replay_one. rewrite Hents, Erep. cbn [repErr Replay.iter].
  assert (remaining (mkIter new (length new)) = 0) as -> by (unfold remaining, blen; cbn; lia). done.
Qed.

(** C7: [simulate --verify --deterministic] accepts what replays. Let the
    agent keep its contract, export [agent_tick] and link against the replay
    host (no [http_request]), and the simulation be in good order (its
    counters within 64 bits, its log well formed). If in a tick that the
    simulator completes with its own deterministic hostcalls every call is
    one of clock, non-empty random buffers within the limit, non-empty log
    lines within the limit, balance, receipt count and price, and succeeds
    ([sim_replayable]), then the replay engine replays the tick to the
    identical state: it is counted as executed and verified and no error is
    added. Calls of [wallet_receipt] are excluded: the simulator records
    them, but with an entry that replays to a different result
    ([receipt_reader_diverges]). *)
Theorem simulated_tick_verifies env result tickNum budget elapsed m d remaining result' m' d' :
  agent_contract (wasmBytes env) R Q -> Q m ->
  (forall compiled, CompileModule (wasmBytes env) = Some compiled ->
     links (replay_functions (Some (capManifest env))) compiled = true) ->
  ExportedFunction m "agent_tick" = true -> det_ok d -> log_ok (d_log d) -> verifies env = true ->
  executeTick det_handle env result tickNum budget elapsed m d = (remaining, true, result', m', d') ->
  sim_replayable tickNum m d = true ->
  result' = count_verified (count_tick result).
Proof.
  intros AC HQ Hlink Hex Hok Hlog Hv. unfold executeTick, sim_replayable.
  destruct (CaptureState det_handle m d) as [[[pre|e] m1] d1] eqn:E1; [|done].
  destruct (sim_resumes (wasmBytes env) m d pre m1 d1 AC HQ E1) as (compiled & m0 & j & Hc & Hi & HRj & Hrun).
  destruct (capture_det (wasmBytes env) m d _ m1 d1 null_handle m tt AC (ac_refl _ _ _ AC m HQ) E1) as (-> & _ & _).
  cbn [get_log set_log det_recorder].
  destruct (exec det_handle _ _) as [[r m2] d2] eqn:E2. destruct (SealTick (d_log d2)) as [sealed l] eqn:Es.
  destruct r as [rs|]; [|done].
  destruct (CaptureState det_handle m2 _) as [[[post|e] m3] d3] eqn:E3; [|done].
  intros [= _ <- _ _] Hrec.
  destruct (det_tick_replays (wasmBytes env) m1 j tickNum d rs m2 d2 sealed l post m3 d3 AC HRj Hok Hlog Hrec E2 Es E3)
    as (t & j2 & s2 & j3 & -> & Hone & Hcap).
  rewrite Hv. unfold verifyTick, ReplayTick, replay_run, replay_start. rewrite Hc, (Hlink _ Hc), Hi. cbn [negb].
  destruct (Hrun _ replay_handle (mkReplay (mkIter (entries t) 0) None)) as (m4 & -> & ->).
  destruct (capture_det (wasmBytes env) m d _ m1 d null_handle m tt AC (ac_refl _ _ _ AC m HQ) E1) as (_ & HR1 & _).
  rewrite <- (ac_exports _ _ _ AC m1 j "agent_tick" HRj), (ac_exports _ _ _ AC m1 m "agent_tick" HR1), Hex. cbn [negb].
  rewrite Hone, Hcap. cbn [Replay.Error ReplayedState default]. by rewrite bool_decide_true.
Qed.
End Verification.

(** ** What a simulation accounts for *)
Section Accounting.
Context {W : Wasm} `{Crypto} `{JSON} {HS : Type} `{EventRecorder HS} (handle : hostcall -> Inst -> HS -> Z * Inst * HS).

(** The exact price of a tick of [e] nanoseconds. *)
Definition cost (price e : Z) : Z := e * price / 1000000000.
Definition total_cost (price : Z) (durations : list Z) : Z := foldr (fun e => Z.add (cost price e)) 0 durations.
(** Durations whose price does not overflow. *)
Definition priced (price : Z) (durations : list Z) : Prop := Forall (fun e => 0 <= e /\ 0 <= price /\ e * price < 2 ^ 63) durations.

(** The counters add up: every executed tick was verified, failed or not
    looked at, every failed replay is one of the [k] fewer-than-errors. *)
Definition tallied (i k : Z) (r : Result) : Prop :=
  TicksExecuted r = i /\ 0 <= ReplayVerified r /\ 0 <= ReplayFailed r /\ ReplayVerified r + ReplayFailed r <= i /\
  blen (Errors r) = ReplayFailed r + k.

Lemma tallied_error e i r : tallied i 0 r -> tallied i 1 (add_error e r).
Proof. intros (? & ? & ? & ? & He). unfold tallied, add_error. cbn [TicksExecuted ReplayVerified ReplayFailed Errors]. rewrite blen_app. change (blen [e]) with 1. split_and!; try done; lia. Qed.
Lemma verifyTick_tallied env r n pre post t :
  let r' := verifyTick env r n pre post t in
  TicksExecuted r' = TicksExecuted r /\
  ((r' = count_verified r) \/ (ReplayVerified r' = ReplayVerified r /\ ReplayFailed r' = ReplayFailed r + 1 /\ blen (Errors r') = blen (Errors r) + 1)).
Proof.
  unfold verifyTick. destruct (Replay.Error _); [|case_bool_decide]; (split; [done|]);
    (by left) || (right; split_and!; [done..|]; cbn [add_error count_failed Errors]; by rewrite blen_app).
Qed.
Lemma cost_range price e : 0 <= e -> 0 <= price -> e * price < 2 ^ 63 -> Z.quot (i64 (i64 e * price)) 1000000000 = cost price e \/ price = 0.
Proof.
  intros He Hp Ho. destruct (Z.eq_dec price 0) as [->|Hn]; [by right|left].
  rewrite (i64_id e) by (unfold is_i64; nia). rewrite i64_id by (unfold is_i64; nia).
  unfold cost. apply Z.quot_div_nonneg; nia.
Qed.
Lemma cost_exact price e : 0 <= e -> 0 <= price -> e * price < 2 ^ 63 -> Z.quot (i64 (i64 e * price)) 1000000000 = cost price e.
Proof.
  intros He Hp Ho. destruct (cost_range price e He Hp Ho) as [?| ->]; [done|].
  unfold cost. by rewrite !Z.mul_0_r.
Qed.
Lemma cost_bounds price e : 0 <= e -> 0 <= price -> e * price < 2 ^ 63 -> 0 <= cost price e < 2 ^ 34.
Proof. intros. unfold cost. split; [apply Z.div_pos; nia|apply Z.div_lt_upper_bound; lia]. Qed.

Lemma total_cost_nonneg price l : priced price l -> 0 <= total_cost price l.
Proof.
  induction 1 as [|e l (X1 & X2 & X3) _ IH]; [done|].
  pose proof (cost_bounds price e X1 X2 X3). change (total_cost price (e :: l)) with (cost price e + total_cost price l). lia.
Qed.

Lemma total_cost_take price n l : priced price l -> total_cost price (take n l) <= total_cost price l.
Proof.
  intros Hp. revert n. induction Hp as [|e l He Hp IH]; intros [|n]; [done|done| |].
  - change (take 0 (e :: l)) with (@nil Z). apply (total_cost_nonneg price (e :: l)). by constructor.
  - specialize (IH n). cbn [take]. unfold total_cost in *. cbn [foldr]. lia.
Qed.

(** One tick either ends the loop with one more error and the budget as it
    was, or is counted and paid for. *)
Lemma executeTick_accounts env r i b e m h b' go r' m' h' :
  tallied i 0 r -> is_i64 b -> 0 < b -> 0 <= e /\ 0 <= pricePerSecond env /\ e * pricePerSecond env < 2 ^ 63 ->
  executeTick handle env r (i + 1) b e m h = (b', go, r', m', h') ->
  if go then b' = b - cost (pricePerSecond env) e /\ tallied (i + 1) 0 r' else b' = b /\ tallied i 1 r'.
Proof.
  intros Htal Hb Hpos (He0 & Hp0 & Ho). unfold executeTick.
  destruct (CaptureState _ m h) as [[[pre|e1] m1] h1].
  2: { intros [= <- <- <- <- <-]. split; [done|]. by apply tallied_error. }
  destruct (exec _ _ _) as [[rs m2] h2]. destruct (SealTick _) as [sealed l]. destruct rs as [rs|].
  2: { intros [= <- <- <- <- <-]. split; [done|]. by apply tallied_error. }
  destruct (CaptureState _ m2 _) as [[[post|e3] m3] h3].
  2: { intros [= <- <- <- <- <-]. split; [done|]. by apply tallied_error. }
  destruct Htal as (Ht & Hv & Hf & Hs & He).
  intros [= <- <- <- <- <-]. rewrite cost_exact by done. split.
  { pose proof (cost_bounds (pricePerSecond env) e He0 Hp0 Ho). unfold is_i64 in Hb. apply i64_id. unfold is_i64. lia. }
  destruct sealed as [t|]; [destruct (verifies env)|]; try (unfold tallied; cbn; lia).
  destruct (verifyTick_tallied env (count_tick r) (i + 1) pre post t) as [X1 [->|(X2 & X3 & X4)]]; [unfold tallied; cbn; lia|].
  unfold tallied. rewrite X1, X2, X3, X4. cbn. lia.
Qed.

Lemma runTickLoop_accounts env maxTicks durations : forall i r b m h,
  priced (pricePerSecond env) durations -> 0 <= i <= maxTicks -> is_i64 b -> tallied i 0 r ->
  (Z.to_nat (maxTicks - i) <= length durations)%nat ->
  exists b' r' m' h' n k, runTickLoop handle env maxTicks i durations r b m h = Some (b', r', m', h') /\
    tallied (i + Z.of_nat n) k r' /\ (n <= length durations)%nat /\ i + Z.of_nat n <= maxTicks /\
    b' = b - total_cost (pricePerSecond env) (take n durations) /\ is_i64 b' /\
    (k = 1 \/ k = 0 /\ (i + Z.of_nat n = maxTicks \/ b' <= 0)).
Proof.
  induction durations as [|e durations IH]; intros i r b m h Hp Hi Hb Ht Hl; cbn [length] in Hl.
  - assert (i = maxTicks) as -> by lia. exists b, r, m, h, 0%nat, 0. cbn [runTickLoop]. rewrite Z.ltb_irrefl. cbn [negb].
    rewrite Z.add_0_r. cbn. split_and!; try done; lia.
  - cbn [runTickLoop]. destruct (Z.ltb_spec i maxTicks) as [Hlt|Hge]; cbn [negb].
    2: { exists b, r, m, h, 0%nat, 0. rewrite Z.add_0_r. cbn. split_and!; try done; lia. }
    destruct (Z.leb_spec b 0) as [Hle|Hpos].
    { exists b, r, m, h, 0%nat, 0. rewrite Z.add_0_r. cbn. split_and!; try done; lia. }
    apply Forall_cons in Hp as [He Hp].
    destruct (executeTick _ _ _ _ _ _ _ _) as [[[[b1 go] r1] m1] h1] eqn:E.
    pose proof (executeTick_accounts _ _ _ _ _ _ _ _ _ _ _ _ Ht Hb Hpos He E) as Ha.
    destruct go; destruct Ha as [-> Ht1].
    + destruct He as (He0 & Hp0 & Ho). destruct (cost_bounds (pricePerSecond env) e He0 Hp0 Ho) as [Hc0 Hc].
      destruct (IH (i + 1) r1 (b - cost (pricePerSecond env) e) m1 h1 Hp) as
        (b' & r' & m' & h' & n & k & -> & Ht' & Hn & Hm & Hb' & Hr & Hk); [lia| |done|lia|].
      { unfold is_i64 in *. lia. }
      exists b', r', m', h', (S n), k. replace (i + Z.of_nat (S n)) with (i + 1 + Z.of_nat n) by lia.
      cbn [length take total_cost foldr]. split_and!; try done; try lia.
      rewrite Hb'. unfold total_cost. lia.
    + exists b, r1, m1, h1, 0%nat, 1. rewrite Z.add_0_r. cbn. split_and!; try done; lia.
Qed.

Lemma finalize_counts r m h :
  let r' := finalize handle r m h in
  TicksExecuted r' = TicksExecuted r /\ ReplayVerified r' = ReplayVerified r /\ ReplayFailed r' = ReplayFailed r /\
  blen (Errors r) <= blen (Errors r') <= blen (Errors r) + 1.
Proof.
  assert (forall e r0, blen (Errors (add_error e r0)) = blen (Errors r0) + 1) as Ha
    by (intros; cbn [add_error Errors]; by rewrite blen_app).
  unfold finalize. destruct (CaptureState _ m h) as [[[st|e] m1] h1]; [|rewrite Ha; split_and!; try done; lia].
  destruct (verifyCheckpointRoundTrip _ _ _ _) as [[[st'|e] ?] ?]; [case_bool_decide|];
    try rewrite Ha; cbn [set_size Errors]; split_and!; try done; lia.
Qed.

(** C30: A simulation ends and its report adds up. For measured durations
    and a price that are not negative, whose products and their sum fit in
    an int64, one duration per tick allowed, [run_host] returns; unless the
    setup failed, the budget consumed is exactly the price of the ticks that
    ran and with the final budget makes the initial one, no more ticks ran
    than asked for, every verified or failed replay belongs to a tick that
    ran, and a report without errors comes from a run that used all its
    ticks or all its budget. *)
Theorem simulation_accounts names cfg wasm caps durations h :
  let budget := Budget.FromFloat (cfg_Budget cfg) in
  let price := let p := Budget.FromFloat (cfg_Price cfg) in if p =? 0 then 1000 else p in
  let maxTicks := if Ticks cfg =? 0 then 2 ^ 31 - 1 else Ticks cfg in
  priced price durations -> 0 <= maxTicks -> (Z.to_nat maxTicks <= length durations)%nat ->
  total_cost price durations < 2 ^ 63 ->
  (exists e, run_host handle names cfg wasm caps durations h = Some (Err e)) \/
  exists r n, run_host handle names cfg wasm caps durations h = Some (Ok r) /\
    TicksExecuted r = Z.of_nat n /\ TicksExecuted r <= maxTicks /\
    BudgetConsumed r = total_cost price (take n durations) /\ FinalBudget r + BudgetConsumed r = budget /\
    0 <= ReplayVerified r /\ 0 <= ReplayFailed r /\ ReplayVerified r + ReplayFailed r <= TicksExecuted r /\
    ReplayFailed r <= blen (Errors r) /\
    (Errors r = [] -> TicksExecuted r = maxTicks \/ FinalBudget r <= 0).
Proof.
  intros budget price maxTicks Hp Hmax Hl Htot. unfold run_host, setup_env, setup_budget, setup_price. fold budget. fold price. fold maxTicks.
  destruct (setup_module _ _ _ _) as [[m h0]|e]; [right|by left; exists e].
  assert (is_i64 budget) as Hb by apply i64_of_f64_range.
  destruct (runTickLoop_accounts (mkEnv wasm caps (Verify cfg) price) maxTicks durations 0 no_result budget m h0 Hp) as
    (b' & r' & m' & h' & n & k & -> & (Ht & Hv & Hf & Hs & He) & Hn & Hm & Hb' & Hr & Hk); [lia|done|done|lia|].
  cbn [pricePerSecond] in Hb'.
  destruct (finalize_counts r' m' h') as (F1 & F2 & F3 & F4).
  assert (0 <= total_cost price (take n durations)) as Htc.
  { by apply total_cost_nonneg, Forall_take. }
  pose proof (total_cost_take price n durations Hp).
  assert (is_i64 (budget - b')) as Hd by (unfold is_i64 in *; lia).
  eexists _, n. split; [done|]. cbn [set_budget TicksExecuted BudgetConsumed FinalBudget ReplayVerified ReplayFailed Errors].
  rewrite (i64_id _ Hd), F1, F2, F3. split_and!; try lia.
  intros Hnil. rewrite Hnil, blen_nil in F4. pose proof (blen_nonneg (Errors r')).
  destruct Hk as [-> |[-> ?]]; lia.
Qed.
End Accounting.

(** ** Simulations of the toy guest *)
Definition sim_config (budget ticks : Z) (verify det : bool) : Config :=
  mkConfig "agent.wasm" "agent.json" (f64_of_Z budget) (f64_div f64_one (f64_of_Z 1024)) ticks verify det 42 0 0.
Definition sim_files (ops : list Z) (path : string) : option bytes :=
  if bool_decide (path = "agent.wasm") then Some (byte_of_Z <$> ops)
  else if bool_decide (path = "agent.json") then Some (bytes_of "{}") else None.
Definition sim_env : LiveEnv := mkLiveEnv (fun _ => 0) (fun _ n => Some (zeros (Z.to_nat n))) (fun _ _ => HError) (fun _ => None).
Definition simulate (ops : list Z) (ticks : Z) (durations : list Z) (cfg : Config) : option (result setup_error Result) :=
  Run (sim_files ops) sim_env durations cfg.
Definition summary (r : option (result setup_error Result)) : option (Z * Z * Z * list sim_error) :=
  match r with Some (Ok r) => Some (TicksExecuted r, ReplayVerified r, BudgetConsumed r, Errors r) | _ => None end.

(** Three ticks of two seconds at 976 microcents a second, verified. *)
Example verified_simulation :
  summary (simulate [1; 2; 3; 4; 5; 7] 3 [2000000000; 2000000000; 2000000000] (sim_config 1 3 true true)) = Some (3, 3, 5856, []).
Proof. vm_compute. reflexivity. Qed.
(** An agent that reads a receipt is told [-1]; the replay of that record
    writes no bytes and returns 0, and the guest's state diverges. *)
Example receipt_reader_diverges :
  summary (simulate [6] 1 [1000000000] (sim_config 1 1 true true)) = Some (1, 0, 976, [ErrDivergence 1]).
Proof. vm_compute. reflexivity. Qed.
(** The balance an agent is shown is 0, whatever its budget: [registerWallet]
    reads a field that is never set. *)
Example simulated_balance_is_zero budget h :
  fst (fst (det_handle (W := toy_wasm) HWalletBalance (demo_module demo_wasm)
    (newDeterministicHostcalls 0 0 0 (Budget.FromFloat budget) (NewEventLog h)))) = 0.
Proof. reflexivity. Qed.
(** A live simulation cannot link an agent that uses its wallet. *)
Example live_wallet_unlinked : simulate [4] 1 [1000000000] (sim_config 1 1 true false) = Some (Err ErrSimLink).
Proof. vm_compute. reflexivity. Qed.
(** A tick so long that its price wraps gives budget back. *)
Example price_wraps :
  let '(b, go, _, _, _) := executeTick det_handle (mkEnv [] (mkCapManifest None) false (2 ^ 40)) no_result 1 10 (2 ^ 23 + 2 ^ 22)
    (demo_module (byte_of_Z <$> [1])) (newDeterministicHostcalls 0 0 0 0 (NewEventLog 8)) in
  (go, 10 <? b) = (true, true).
Proof. vm_compute. reflexivity. Qed.

Definition sim_wasm : bytes := byte_of_Z <$> [1; 2; 3; 4; 5; 7].
Definition sim_demo_env : simEnv := mkEnv sim_wasm (mkCapManifest (Some toy_caps)) true 1000.
Definition sim_det : deterministicHostcalls := newDeterministicHostcalls 1000000000 1000000000 42 1000 (NewEventLog DefaultMaxTicks).
Lemma simulated_tick_verifies_witness :
  let '(_, _, result', _, _) := executeTick det_handle sim_demo_env no_result 1 1000000 1000 (demo_module sim_wasm) sim_det in
  result' = count_verified (count_tick no_result).
Proof.
  assert (snd (fst (fst (fst (executeTick det_handle sim_demo_env no_result 1 1000000 1000 (demo_module sim_wasm) sim_det)))) = true) as Hgo
    by (vm_compute; reflexivity).
  destruct (executeTick det_handle sim_demo_env no_result 1 1000000 1000 (demo_module sim_wasm) sim_det) as [[[[b go] r'] m'] d'] eqn:E.
  cbn in Hgo. subst go.
  apply (simulated_tick_verifies (W := toy_wasm) (R := eq) (Q := toy_state sim_wasm)
    sim_demo_env no_result 1 1000000 1000 (demo_module sim_wasm) sim_det b r' m' d' (toy_contract sim_wasm)).
  - split; [reflexivity|]. exists (zeros 8). split; reflexivity.
  - intros c [= <-]. vm_compute. reflexivity.
  - reflexivity.
  - unfold det_ok, is_i64. cbn. lia.
  - by split; [intros ? [=]|constructor].
  - reflexivity.
  - exact E.
  - vm_compute. reflexivity.
Defined.

Lemma simulation_accounts_witness :
  let durations := [2000000000; 2000000000; 2000000000] in
  let h := sim_det in
  let run := run_host (W := toy_wasm) det_handle (det_functions (Some (mkCapManifest (Some toy_caps)))) (sim_config 1 3 true true)
    sim_wasm (mkCapManifest (Some toy_caps)) durations h in
  (exists e, run = Some (Err e)) \/
  exists r n, run = Some (Ok r) /\
    TicksExecuted r = Z.of_nat n /\ TicksExecuted r <= 3 /\
    BudgetConsumed r = total_cost 976 (take n durations) /\ FinalBudget r + BudgetConsumed r = 1000000 /\
    0 <= ReplayVerified r /\ 0 <= ReplayFailed r /\ ReplayVerified r + ReplayFailed r <= TicksExecuted r /\
    ReplayFailed r <= blen (Errors r) /\
    (Errors r = [] -> TicksExecuted r = 3 \/ FinalBudget r <= 0).
Proof.
  intros durations h run.
  apply (simulation_accounts (W := toy_wasm) det_handle (det_functions (Some (mkCapManifest (Some toy_caps)))) (sim_config 1 3 true true)
    sim_wasm (mkCapManifest (Some toy_caps)) durations h).
  - unfold priced. repeat (apply Forall_cons_2; [split; [lia|vm_compute; split; done]|]). apply Forall_nil_2.
  - cbn. lia.
  - cbn. lia.
  - vm_compute. reflexivity.
Defined.
