(* ===== verification/Cli.v ===== *)
(** * The command lines of Igor (cmd/igord, cmd/igord-lab)

    The two [main] functions from [os.Args] to the exit code: flag parsing,
    dispatch to the commands, what they print and what they leave on the disk.
    Log records are not part of the output here. *)
From S2P Require Import Prelude GoFloat Strconv Flags Crypto EventLog Manifest Wasm Hostcall ToyGuest Storage Instance TickReplay Runner Igord.
From S2P Require Authority Identity Checkpoint Budget Inspector Report Migration Simulator.
From stdpp Require Import gmap strings pretty.
Open Scope Z_scope.

(** ** How a process ends *)
(** [Running]: the listed events leave it in its loop; [Killed]: it died while
    writing to its disk. *)
Inductive exit_status := Exit (code : Z) | Killed | Running.
(** Lines of the standard error: text, the complaint of the flag package, or
    "Failed to load config". *)
Inductive complaint := Say (s : string) | FlagComplaint (e : flag_error) | BadConfig (e : config_field).
Record ending := mkEnding { status : exit_status; stdout : string; stderr : list complaint; store : FSProvider }.

(** The machine a command runs on: what it reads, its directories, the words of
    its errors and the events its loop receives. *)
Record Shell := mkShell {
  machine : Machine; read_dir : string -> option (list (string * bool)); os_error : string -> string; received : list event }.

Abbreviation cat := Report.cat.
Abbreviation newline := Report.newline.
Definition line (l : list string) : string := Report.line l.
Definition say (l : list string) : complaint := Say (cat l).

(** The declared flags of one command, and its usage text. *)
Record Command := mkCommand { formal : list Flag; usage : string }.
Definition usage_text (c : Command) : complaint := Say (usage c +:+ PrintDefaults (formal c)).
(** [fs.Parse(args)] with [flag.ExitOnError]; the error return is never
    reached. *)
Definition with_flags (c : Command) (args : list string) (fs : FSProvider) (run : values -> list string -> ending) : ending :=
  match Parse (defaults (formal c)) args with
  | Err e =>
      mkEnding (Exit (flag_exit e)) "" (match e with ErrHelp => [] | _ => [FlagComplaint e] end ++ [usage_text c]) fs
  | Ok (v, rest) => run v rest
  end.
(** [fs.Usage(); os.Exit(1)]. *)
Definition misused (c : Command) (fs : FSProvider) : ending := mkEnding (Exit 1) "" [usage_text c] fs.
Definition fails (out : string) (l : list string) (fs : FSProvider) : ending := mkEnding (Exit 1) out [say l] fs.

Definition string_flag (name default use : string) : Flag := mkFlag name (VString default) default use.
Definition manifest_flag : Flag := string_flag "manifest" "" "Path to capability manifest JSON".
Definition dir_flag : Flag := string_flag "checkpoint-dir" "checkpoints" "Directory for checkpoint storage".
Definition id_flag : Flag := string_flag "agent-id" "" "Agent ID (default: derived from WASM filename)".

Definition run_command : Command := {|
  formal := [mkFlag "budget" (VFloat64 f64_one) "1" "Initial budget for agent execution"; manifest_flag; dir_flag; id_flag];
  usage := cat [line ["Usage: igord run <agent.wasm> [flags]"]; newline; line ["Run a WASM agent locally. The agent gets a DID identity,"];
                line ["checkpoints periodically, and can be resumed from checkpoint."]; newline] |}.
Definition resume_command : Command := {|
  formal := [string_flag "checkpoint" "" "Path to checkpoint file"; string_flag "wasm" "" "Path to WASM binary";
             mkFlag "budget" (VFloat64 f64_zero) "" "Override budget (0 = use checkpoint budget)"; manifest_flag; dir_flag; id_flag];
  usage := cat [line ["Usage: igord resume --checkpoint <path> --wasm <path> [flags]"]; newline;
                line ["Resume an agent from a checkpoint file. The agent continues"];
                line ["from exactly where it left off with the same DID identity."]; newline] |}.
Definition verify_command : Command := {|
  formal := [];
  usage := cat [line ["Usage: igord verify <history-dir>"]; newline;
                line ["Verify the cryptographic lineage of an agent's checkpoint history."];
                line ["The history directory contains numbered .ckpt files."]; newline] |}.
Definition inspect_command : Command := {|
  formal := [string_flag "wasm" "" "Optional WASM binary to verify against checkpoint hash"];
  usage := cat [line ["Usage: igord inspect <checkpoint-file> [--wasm path]"]; newline;
                line ["Parse and display a checkpoint file, including DID identity."]; newline] |}.

Section Cli.
Context {W : Wasm} `{Crypto} `{JSON} `{Migration.ErrorText}.

(** Every failure after the flags exits with 1; a loop that ends, for whatever
    reason, returns from [main]. *)
Definition ended (r : result start_error (option (option stop))) : exit_status :=
  match r with
  | Err Died | Ok None => Killed
  | Err _ => Exit 1
  | Ok (Some None) => Running
  | Ok (Some (Some _)) => Exit 0
  end.

(** ** igord run *)
Definition run_banner (mc : Machine) (agentID : string) (budgetVal : float64) (checkpointDir : string) (fs : FSProvider) : string :=
  match Identity.LoadOrGenerate (NewFSProvider checkpointDir (disk fs) (bad_reads fs) (scripts fs)) agentID (rnd mc) with
  | (Err _, _) => ""
  | (Ok ident, _) =>
      cat [newline; line ["  Agent:    "; agentID]; line ["  DID:      "; string_of (Identity.DID (Identity.PublicKey ident))];
           line ["  Budget:   "; Budget.Format (Budget.FromFloat budgetVal)]; newline]
  end.
Definition agent_id_or (wasmPath agentID : string) : string :=
  if bool_decide (agentID = ""%string) then agentIDFromPath wasmPath else agentID.
Definition subcmdRun (sh : Shell) (args : list string) (fs : FSProvider) : ending :=
  with_flags run_command args fs (fun v rest =>
    match rest with
    | [] => misused run_command fs
    | wasmPath :: _ =>
        let aid := get_string "agent-id" v in
        let budgetVal := get_float64 "budget" v in
        let dir := get_string "checkpoint-dir" v in
        let '(r, fs') := Igord.subcmdRun (machine sh) (received sh) wasmPath aid budgetVal (get_string "manifest" v) dir fs in
        mkEnding (ended r) (run_banner (machine sh) (agent_id_or wasmPath aid) budgetVal dir fs) [] fs'
    end).

(** ** igord resume *)
Definition resume_banner (mc : Machine) (checkpointPath agentID : string) (budgetVal : float64) (checkpointDir : string)
    (fs : FSProvider) : string :=
  match stageResume mc checkpointPath agentID checkpointDir fs with
  | (Err _, _) => ""
  | (Ok (hdr, ident), _) =>
      cat [newline; line ["  Resuming: "; agentID]; line ["  DID:      "; string_of (Identity.DID (Identity.PublicKey ident))];
           line ["  From:     tick "; pretty (Checkpoint.TickNumber hdr)];
           line ["  Budget:   "; Budget.Format (resumeBudget budgetVal hdr)]; newline]
  end.
Definition subcmdResume (sh : Shell) (args : list string) (fs : FSProvider) : ending :=
  with_flags resume_command args fs (fun v _ =>
    let checkpointPath := get_string "checkpoint" v in
    let wasmPath := get_string "wasm" v in
    if bool_decide (checkpointPath = ""%string) || bool_decide (wasmPath = ""%string) then misused resume_command fs
    else
      let aid := get_string "agent-id" v in
      let budgetVal := get_float64 "budget" v in
      let dir := get_string "checkpoint-dir" v in
      let '(r, fs') := Igord.subcmdResume (machine sh) (received sh) checkpointPath wasmPath aid budgetVal (get_string "manifest" v) dir fs in
      mkEnding (ended r) (resume_banner (machine sh) checkpointPath (agent_id_or wasmPath aid) budgetVal dir fs) [] fs').

(** ** igord verify *)
Definition subcmdVerify (sh : Shell) (args : list string) (fs : FSProvider) : ending :=
  with_flags verify_command args fs (fun _ rest =>
    match rest with
    | [] => misused verify_command fs
    | historyDir :: _ =>
        match Inspector.VerifyChain (read_dir sh) (files (machine sh)) historyDir with
        | Err e => fails "" ["Error: "; Report.chain_fail_text (os_error sh) historyDir e; newline] fs
        | Ok r => mkEnding (Exit (if Inspector.ChainValid r then 0 else 1)) (Report.PrintChain (os_error sh) Base r) [] fs
        end
    end).

(** ** igord inspect *)
Definition inspect_error_text (sh : Shell) (path : string) (e : Inspector.inspect_error) : string :=
  match e with
  | Inspector.ErrReadFile => cat ["read checkpoint: "; os_error sh path]
  | Inspector.ErrParse e => cat ["parse checkpoint: "; Report.parse_error_text e]
  | Inspector.ErrWASMMismatch => ""
  end.
(** The warning of [VerifyWASM]: both hashes, when they differ. *)
Definition wasm_warning (sh : Shell) (wasmPath : string) (r : Inspector.Result) (e : Inspector.inspect_error) : complaint :=
  match e with
  | Inspector.ErrReadFile => say ["Warning: read WASM: "; os_error sh wasmPath; newline]
  | _ => say ["Warning: WASM hash mismatch: checkpoint="; Inspector.WASMHashHex r; " binary=";
              match files (machine sh) wasmPath with Some w => Inspector.EncodeToString (sha256 w) | None => "" end; newline]
  end.
Definition check_wasm (sh : Shell) (wasmPath : string) (r : Inspector.Result) : list complaint * Inspector.Result :=
  if bool_decide (wasmPath = ""%string) then ([], r)
  else match Inspector.VerifyWASM (files (machine sh)) wasmPath r with
       | (Err e, r) => ([wasm_warning sh wasmPath r e], r)
       | (Ok _, r) => ([], r)
       end.
(** [runInspector] of the lab; [igord inspect] adds the agent's DID. *)
Definition runInspector (sh : Shell) (checkpointPath wasmPath : string) (more : Inspector.Result -> string) (fs : FSProvider) : ending :=
  match Inspector.InspectFile (files (machine sh)) checkpointPath with
  | Err e => fails "" ["Error: "; inspect_error_text sh checkpointPath e; newline] fs
  | Ok r => let '(warnings, r) := check_wasm sh wasmPath r in mkEnding (Exit 0) (Report.Print r +:+ more r) warnings fs
  end.
Definition did_line (r : Inspector.Result) : string :=
  let h := Inspector.header r in
  if Checkpoint.HasLineage h && (blen (Checkpoint.AgentPubKey h) =? 32)
  then line ["Agent DID:        "; string_of (Identity.DID (Checkpoint.AgentPubKey h))] else "".
Definition subcmdInspect (sh : Shell) (args : list string) (fs : FSProvider) : ending :=
  with_flags inspect_command args fs (fun v rest =>
    match rest with
    | [] => misused inspect_command fs
    | path :: _ => runInspector sh path (get_string "wasm" v) did_line fs
    end).

(** ** igord *)
Definition printUsage : complaint :=
  say [line ["Usage: igord <command> [flags]"]; newline; line ["Commands:"];
       line ["  run       Run a WASM agent with a new identity"]; line ["  resume    Resume an agent from a checkpoint file"];
       line ["  verify    Verify checkpoint lineage chain"]; line ["  inspect   Display checkpoint details"]; newline;
       line ["Run 'igord <command> -h' for help on a specific command."]].
(** [main]: the arguments after the program's name. *)
Definition igord_main (sh : Shell) (args : list string) (fs : FSProvider) : ending :=
  match args with
  | [] => mkEnding (Exit 1) "" [printUsage] fs
  | cmd :: args =>
      if bool_decide (cmd = "run"%string) then subcmdRun sh args fs
      else if bool_decide (cmd = "resume"%string) then subcmdResume sh args fs
      else if bool_decide (cmd = "verify"%string) then subcmdVerify sh args fs
      else if bool_decide (cmd = "inspect"%string) then subcmdInspect sh args fs
      else mkEnding (Exit 1) "" [say ["Unknown command: "; cmd; newline; newline]; printUsage] fs
  end.

(** ** igord-lab *)
(** What the lab's process meets: its name, the node ID it draws, the libp2p
    host it gets (its private key and peer ID), the time, the durations of
    simulated ticks, the peers it can reach and what the network does. *)
Record Lab := mkLab {
  shell : Shell; program : string; uuid : string; host : option (option bytes * string); now : Authority.time;
  sim_env : Simulator.LiveEnv; durations : list Z;
  lab_peers : gmap string (Migration.Service (St := FSProvider)); lab_net : list Migration.attempt }.

Definition int_flag (name use : string) : Flag := mkFlag name (VInt 0) "" use.
Definition bool_flag (name use : string) : Flag := mkFlag name (VBool false) "" use.
Definition lab_command (lab : Lab) : Command := {|
  formal := [
    string_flag "run-agent" "" "Path to WASM agent to run locally";
    mkFlag "budget" (VFloat64 f64_one) "1" "Initial budget for agent execution";
    string_flag "manifest" "" "Path to capability manifest JSON (default: <agent>.manifest.json)";
    string_flag "migrate-agent" "" "Agent ID to migrate";
    string_flag "to" "" "Target peer multiaddr for migration";
    string_flag "wasm" "" "WASM binary path for migration";
    int_flag "replay-window" "Number of recent tick snapshots to retain for verification (0 = use config default)";
    int_flag "verify-interval" "Ticks between self-verification passes (0 = use config default)";
    string_flag "replay-mode" "" "Replay verification mode: off, periodic, on-migrate, full (default: full)";
    bool_flag "replay-cost-log" "Log replay compute duration for economic observability";
    string_flag "replay-on-divergence" "" "Escalation policy on replay divergence: log, pause, intensify, migrate (default: log)";
    string_flag "inspect-checkpoint" "" "Path to checkpoint file to inspect";
    string_flag "inspect-wasm" "" "Optional WASM binary to verify against checkpoint hash";
    bool_flag "simulate" "Run agent in local simulator mode (no P2P)";
    int_flag "ticks" "Number of ticks to simulate (0 = until budget exhausted)";
    bool_flag "verify" "Per-tick replay verification during simulation";
    bool_flag "deterministic" "Use fixed clock and seeded rand for reproducible simulation";
    mkFlag "seed" (VUint64 0) "" "Random seed for deterministic simulation";
    mkFlag "lease-duration" (VDuration (60 * second)) "1m0s" "Lease validity period (0 = disabled)";
    mkFlag "lease-grace" (VDuration (10 * second)) "10s" "Grace period after lease expiry";
    int_flag "migration-retries" "Max retries per migration target (0 = use config default)";
    mkFlag "migration-retry-delay" (VDuration 0) "" "Initial backoff delay between migration retries (0 = use config default)"];
  usage := line ["Usage of "; program lab; ":"] |}.

Definition runSimulator (lab : Lab) (wasmPath manifestPath : string) (budgetVal : float64) (ticks : Z) (verify deterministic : bool)
    (seed : Z) (fs : FSProvider) : ending :=
  let cfg := Simulator.mkConfig wasmPath manifestPath budgetVal f64_zero ticks verify deterministic seed 0 0 in
  let code := match Simulator.Run (files (machine (shell lab))) (sim_env lab) (durations lab) cfg with
              | None => Running
              | Some (Err _) => Exit 1
              | Some (Ok r) => Exit (if (0 <? blen (Simulator.Errors r)) then 1 else 0)
              end in
  mkEnding code "" [] fs.
(** [research.ExtractSigningKey]: without a usable key there is no node ID. *)
Definition ExtractSigningKey (node : option bytes * string) : option bytes * string :=
  match Migration.signingKey (fst node) with Some key => (Some key, snd node) | None => (None, ""%string) end.
(** An error of the local run exits with 1; a signal and a divergence stop it
    with 0. *)
Definition lab_ended (r : result start_error (option (option stop))) : exit_status :=
  match r with
  | Err Died | Ok None => Killed
  | Err _ => Exit 1
  | Ok (Some None) => Running
  | Ok (Some (Some (StopError _ | StopCancelled))) => Exit 1
  | Ok (Some (Some (StopSignal | StopDiverged))) => Exit 0
  end.
(** The flags over the loaded configuration. *)
Definition lab_config (v : values) (cfg : Config) : Config :=
  applyCLIOverrides cfg (get_int "replay-window" v) (get_int "verify-interval" v) (get_string "replay-mode" v)
    (get_bool "replay-cost-log" v) (get_string "replay-on-divergence" v) (get_duration "lease-duration" v)
    (get_duration "lease-grace" v) (get_int "migration-retries" v) (get_duration "migration-retry-delay" v).
Definition is_signal (e : event) : bool := match e with EvSignal => true | _ => false end.

(** The node after its services are up; the peers come back as the migration
    leaves them. *)
Definition lab_node (lab : Lab) (cfg : Config) (node : option bytes * string) (v : values) (fs : FSProvider)
    : ending * gmap string (Migration.Service (St := FSProvider)) :=
  let sh := shell lab in
  let st := NewFSProvider (CheckpointDir cfg) (disk fs) (bad_reads fs) (scripts fs) in
  let leaseCfg := Authority.mkLeaseConfig (LeaseDuration cfg) (LeaseRenewalWindow cfg) (LeaseGracePeriod cfg) in
  let svc := Migration.NewService (fst node) (snd node) (menv (machine sh)) st (ReplayMode cfg) (cfg_Price cfg) leaseCfg in
  let migrateAgent := get_string "migrate-agent" v in
  let runAgent := get_string "run-agent" v in
  if negb (bool_decide (migrateAgent = ""%string)) then
    if bool_decide (get_string "to" v = ""%string) || bool_decide (get_string "wasm" v = ""%string)
    then (mkEnding (Exit 1) "" [] st, lab_peers lab)
    else
      let '(r, w) := Migration.MigrateAgent (files (machine sh)) migrateAgent (get_string "wasm" v) (get_string "to" v)
                       (Migration.mkWorld svc (lab_peers lab) (lab_net lab)) in
      (mkEnding (Exit (match r with Ok _ => 0 | Err _ => 1 end)) "" [] (Migration.storage (Migration.me w)), Migration.peers w)
  else if negb (bool_decide (runAgent = ""%string)) then
    let '(r, st) := runLocalAgent (machine sh) cfg (now lab) (ExtractSigningKey node) (received sh) runAgent
                      (Budget.FromFloat (get_float64 "budget" v)) (get_string "manifest" v) st in
    (mkEnding (lab_ended r) "" [] st, lab_peers lab)
  else (mkEnding (if existsb is_signal (received sh) then Exit 0 else Running) "" [] st, lab_peers lab).

Definition lab_run (lab : Lab) (v : values) (fs : FSProvider) : ending * gmap string (Migration.Service (St := FSProvider)) :=
  let sh := shell lab in
  let inspectCheckpoint := get_string "inspect-checkpoint" v in
  let runAgent := get_string "run-agent" v in
  if negb (bool_decide (inspectCheckpoint = ""%string))
  then (runInspector sh inspectCheckpoint (get_string "inspect-wasm" v) (fun _ => "") fs, lab_peers lab)
  else if get_bool "simulate" v && negb (bool_decide (runAgent = ""%string))
  then (runSimulator lab runAgent (get_string "manifest" v) (get_float64 "budget" v) (get_int "ticks" v) (get_bool "verify" v)
          (get_bool "deterministic" v) (get_uint64 "seed" v) fs, lab_peers lab)
  else
    match Load (uuid lab) with
    | Err e => (mkEnding (Exit 1) "" [BadConfig e] fs, lab_peers lab)
    | Ok cfg =>
        match host lab with
        | None => (mkEnding (Exit 1) "" [] fs, lab_peers lab)
        | Some node => lab_node lab (lab_config v cfg) node v fs
        end
    end.
Definition lab_main (lab : Lab) (args : list string) (fs : FSProvider) : ending * gmap string (Migration.Service (St := FSProvider)) :=
  let c := lab_command lab in
  match Parse (defaults (formal c)) args with
  | Err _ => (with_flags c args fs (fun _ _ => misused c fs), lab_peers lab)
  | Ok (v, _) => lab_run lab v fs
  end.
End Cli.

(** ** What the command lines do *)
Section Facts.
Context {W : Wasm} `{Crypto} `{JSON} `{Migration.ErrorText}.

(** The value of a flag given as [--name=value], and of those given before. *)
Lemma get_string_here name s v : get_string name (<[name := VString s]> v) = s.
Proof. unfold get_string. by rewrite lookup_insert_eq. Qed.
Lemma get_float64_here name f v : get_float64 name (<[name := VFloat64 f]> v) = f.
Proof. unfold get_float64. by rewrite lookup_insert_eq. Qed.
Lemma get_string_past name n x v : name <> n -> get_string name (<[n := x]> v) = get_string name v.
Proof. intros Hn. unfold get_string. by rewrite lookup_insert_ne by congruence. Qed.
Lemma get_float64_past name n x v : name <> n -> get_float64 name (<[n := x]> v) = get_float64 name v.
Proof. intros Hn. unfold get_float64. by rewrite lookup_insert_ne by congruence. Qed.

(** Parse one assignment to a declared flag. *)
Ltac assigned :=
  erewrite parse_assignment;
  [|reflexivity|rewrite ?lookup_insert_ne by discriminate; reflexivity|cbn [set_value fst snd fl_value fl_name]; try reflexivity].

(** C25: Every option of [igord run] reaches the program. Given before the
    WASM path (a text the flag package takes for no flag), with whatever
    texts for the manifest, the checkpoint directory and the agent ID, and
    whatever budget text [ParseFloat] accepts, these four options and the
    path make [igord run] exactly a standalone run of that binary with that
    budget, manifest and directory, under the agent ID given, or the one
    derived from the path when the text is empty, and it exits as that run
    ends. Whatever follows the path on the command line is ignored, flags
    included, where the usage text puts them ([flags_after_path_ignored]). *)
Theorem igord_run_command_line sh fs b f man dir id path rest :
  ParseFloat b = Ok f -> arg_kind_of path = Positional ->
  let args := ["run"; assignment "budget" b; assignment "manifest" man; assignment "checkpoint-dir" dir; assignment "agent-id" id]%string in
  let agentID := if bool_decide (id = ""%string) then agentIDFromPath path else id in
  let '(r, fs') := runStandalone (machine sh) (received sh) path agentID f man dir fs in
  let e := igord_main sh (args ++ path :: rest) fs in
  store e = fs' /\ status e = ended r /\ stderr e = [].
Proof.
  intros Hb Hp args agentID. destruct (runStandalone _ _ _ _ _ _ _ _) as [r fs'] eqn:Er.
  unfold args. cbn [app igord_main]. rewrite bool_decide_true by done. unfold subcmdRun, with_flags.
  assigned; [|by rewrite Hb]. assigned. assigned. assigned. rewrite parse_positional by done.
  unfold Igord.subcmdRun.
  rewrite !get_string_here, !get_string_past, !get_string_here, !get_string_past, !get_string_here by discriminate.
  rewrite !get_float64_past, get_float64_here by discriminate.
  fold agentID. by rewrite Er.
Qed.

(** the exit code of [igord verify] is the verdict on the history.  It is
    0 exactly when the directory lists checkpoint files, all of them read and
    parse, and they form an intact signed lineage in file order; in every
    other case, a missing directory included, it is 1.  The command writes
    nothing. *)
Theorem igord_verify_exit_code sh fs dir rest : arg_kind_of dir = Positional ->
  let e := igord_main sh ("verify"%string :: dir :: rest) fs in
  store e = fs /\ (status e = Exit 0 \/ status e = Exit 1) /\
  (status e = Exit 0 <-> exists names l, Inspector.listCheckpointFiles (read_dir sh) dir = Ok names /\
     mapM (Inspector.examine (files (machine sh))) names = Some l /\ Inspector.chain_ok l).
Proof.
  intros Hp. cbn [igord_main]. rewrite !(bool_decide_false (_ = _)), bool_decide_true by done.
  unfold subcmdVerify, with_flags. rewrite parse_positional by done.
  destruct (Inspector.listCheckpointFiles (read_dir sh) dir) as [names|err] eqn:El.
  - destruct (Inspector.verify_chain_correct (read_dir sh) (files (machine sh)) dir names El) as (r & Er & Hiff).
    rewrite Er. cbn [store status]. split; [done|]. destruct (Inspector.ChainValid r) eqn:Ev.
    + split; [by left|]. split; [|done]. intros _. destruct (proj1 Hiff eq_refl) as (l & Hl & Hok). by exists names, l.
    + split; [by right|]. split; [done|]. intros (names' & l & [= <-] & Hl & Hok).
      by discriminate (proj2 Hiff (ex_intro _ l (conj Hl Hok))).
  - unfold Inspector.VerifyChain. rewrite El. cbn. split; [done|]. split; [by right|].
    split; [done|]. by intros (? & ? & ? & _).
Qed.

(** Flags after the WASM path are not parsed, although the usage text puts them
    there. *)
Lemma flags_after_path_ignored sh path rest fs : arg_kind_of path = Positional ->
  igord_main sh ("run"%string :: path :: rest) fs = igord_main sh ["run"%string; path] fs.
Proof.
  intros Hp. cbn [igord_main]. rewrite bool_decide_true by done. unfold subcmdRun, with_flags. by rewrite !parse_positional.
Qed.
(** Nothing but [run] and [resume], with flags that parse, touches the disk. *)
Lemma igord_reads sh cmd args fs : cmd <> "run"%string -> cmd <> "resume"%string -> store (igord_main sh (cmd :: args) fs) = fs.
Proof.
  intros Hr Hs. cbn [igord_main]. rewrite !(bool_decide_false (_ = _)) by done.
  unfold subcmdVerify, subcmdInspect, runInspector, with_flags. repeat case_match; done.
Qed.
Lemma refused_flags_write_nothing c args fs run : is_ok (Parse (defaults (formal c)) args) = false -> store (with_flags c args fs run) = fs.
Proof. unfold with_flags. by destruct (Parse _ _) as [[v rest]|e]. Qed.
End Facts.

(** ** Command lines on the demo guest *)
#[local] Existing Instance Migration.demo_texts.
Definition demo_shell (events : list event) : Shell :=
  mkShell (demo_machine 5) (Inspector.ls (disk empty_fs)) (fun path => "open "%string +:+ path +:+ ": no such file or directory"%string) events.
Definition at_prompt (args : list string) : exit_status * list complaint := let e := igord_main (demo_shell busy) args empty_fs in (status e, stderr e).
Definition printed (args : list string) : exit_status * string := let e := igord_main (demo_shell busy) args empty_fs in (status e, stdout e).

Example usage_errors :
  fst <$> (at_prompt <$> [[]; ["start"]; ["run"]; ["run"; "-h"]; ["run"; "--fuel=1"]; ["run"; "--budget"; "much"; "a.wasm"]; ["run"; "--budget"];
                          ["resume"; "--wasm"; "a.wasm"]; ["verify"; "none"]; ["inspect"; "none"]]%string) =
  [Exit 1; Exit 1; Exit 1; Exit 0; Exit 2; Exit 2; Exit 2; Exit 1; Exit 1; Exit 1].
Proof. vm_compute. reflexivity. Qed.
Example run_prints :
  printed ["run"; "--budget=2.5"; "agent.wasm"]%string =
    (Exit 0, cat [newline; line ["  Agent:    agent"]; line ["  DID:      did:key:z6Mkenn5pisroiy39xSaE6J5KjH97d6hwdktcMTNMFWzXF67"];
                  line ["  Budget:   2.500000"]; newline]).
Proof. vm_compute. reflexivity. Qed.
(** A tick that fails ends the run with exit code 0: here the budget of one
    microcent is spent by the first tick. *)
Example failed_tick_exits_0 :
  status (igord_main (demo_shell [EvTick (at_ 0); EvTick (at_ 0)]) ["run"; "--budget=0.000001"; "agent.wasm"]%string empty_fs) = Exit 0.
Proof. vm_compute. reflexivity. Qed.
(** The history of an agent that was saved twice at one tick: exit code 1. *)
Definition history_shell (ops : list agent_op) : Shell :=
  let d := Inspector.history ops in mkShell (mkMachine (fun f => d !! f) None (demo_env 0)) (Inspector.ls d) (fun path => path) [].
Example verify_codes :
  (fun ops => status (igord_main (history_shell ops) ["verify"; Inspector.demo_dir]%string empty_fs)) <$>
    [[OTick; OSave; OTick; OSave]; [OTick; OSave; OSave; OTick; OSave]] = [Exit 0; Exit 1].
Proof. vm_compute. reflexivity. Qed.

(** The lab: its commands need their flags, the overrides are not validated,
    and a simulation without time left is still running. *)
Definition lab_files (f : string) : option bytes :=
  if bool_decide (f = "sim.wasm"%string) then Some Simulator.sim_wasm else files (demo_machine 5) f.
Definition demo_lab (events : list event) : Lab :=
  mkLab (mkShell (mkMachine lab_files (rnd (demo_machine 5)) (demo_env 1000000)) (fun _ => None) (fun path => path) events) "igord-lab" "node" (Some (None, "peer"%string)) 0 Simulator.sim_env (repeat 1000 5) ∅ [].
Definition lab_status (args : list string) : exit_status := status (fst (lab_main (demo_lab busy) args empty_fs)).
Example lab_codes :
  lab_status <$> [["--migrate-agent"; "a"]; ["--migrate-agent=a"; "--to=p"; "--wasm=agent.wasm"]; ["--inspect-checkpoint"; "none"];
                  ["--run-agent=none.wasm"]; ["--run-agent=sim.wasm"; "--replay-mode=bogus"; "--lease-grace=-5s"]; [];
                  ["--simulate"; "--run-agent=sim.wasm"; "--ticks=2"; "--deterministic"; "--seed=0x7"]; ["--seed=-1"]; ["--help"]]%string =
  [Exit 1; Exit 1; Exit 1; Exit 1; Exit 0; Exit 0; Exit 0; Exit 2; Exit 0].
Proof. vm_compute. reflexivity. Qed.

Lemma igord_run_command_line_witness :
  let args := ["run"; assignment "budget" "1e1"; assignment "manifest" ""; assignment "checkpoint-dir" "ckpt"; assignment "agent-id" "a"]%string in
  let '(r, fs') := runStandalone (machine (demo_shell busy)) (received (demo_shell busy)) "agent.wasm" "a" (f64_of_Z 10) "" "ckpt" empty_fs in
  let e := igord_main (demo_shell busy) (args ++ ["agent.wasm"; "--budget=5"]%string) empty_fs in
  store e = fs' /\ status e = ended r /\ stderr e = [].
Proof.
  intros args. pose proof (igord_run_command_line (demo_shell busy) empty_fs "1e1" (f64_of_Z 10) "" "ckpt" "a" "agent.wasm" ["--budget=5"%string]
    ltac:(vm_compute; reflexivity) ltac:(reflexivity)) as Ht.
  cbv zeta in Ht. rewrite (bool_decide_false ("a"%string = ""%string)) in Ht by discriminate. exact Ht.
Defined.
Lemma igord_verify_exit_code_witness :
  let sh := history_shell [OTick; OSave] in
  let e := igord_main sh ["verify"; Inspector.demo_dir]%string empty_fs in
  store e = empty_fs /\ (status e = Exit 0 \/ status e = Exit 1) /\
  (status e = Exit 0 <-> exists names l, Inspector.listCheckpointFiles (read_dir sh) Inspector.demo_dir = Ok names /\
     mapM (Inspector.examine (files (machine sh))) names = Some l /\ Inspector.chain_ok l).
Proof. apply (igord_verify_exit_code (history_shell [OTick; OSave]) empty_fs Inspector.demo_dir []). vm_compute. reflexivity. Defined.
(** Where [igord run agents/liquidation/agent.wasm] keeps its agent: not in the
    directories the README resumes from and verifies. *)
Example readme_paths :
  let fs := NewFSProvider "checkpoints" ∅ ∅ [] in
  let id := agentIDFromPath "agents/liquidation/agent.wasm" in
  Storage.checkpointPath fs id = Ok "checkpoints/liquidation.checkpoint"%string /\ HistoryDir fs id = "checkpoints/history/liquidation"%string.
Proof. vm_compute. done. Qed.
