(* ===== verification/Sdk.v ===== *)
(** * The agent SDK (sdk/igor) as a WASM guest

    An agent is written against the SDK's functions.  Here its code is a tree
    of SDK operations over the agent's own state ([Sdk]); the wrappers of
    hostcalls_*_wasm.go turn every operation into raw hostcalls with buffers
    ([sys]), and lifecycle_wasm.go turns the agent into a module with its
    exports ([sdk_wasm], an instance of [Wasm]).  The allocator and the
    compiler are not part of the sources: during a hostcall the guest's linear
    memory is a page of zeros followed by the buffers the SDK passes, and [int]
    is 64 bits wide. *)
From S2P Require Import Prelude Wasm TickReplay.
From stdpp Require Import relations.
Open Scope Z_scope.

(** ** The SDK's operations and programs *)
(** A negative result code, a response that does not fit its buffer, or the
    text of an error of a mock backend. *)
Inductive sdk_error := ErrCode (rc : Z) | ErrTruncated | ErrText (text : bytes).
Inductive sdk_op : Type -> Type :=
| OpClockNow : sdk_op Z
| OpRandBytes (buf : bytes) : sdk_op (result sdk_error unit * bytes)
| OpLog (msg : bytes) : sdk_op unit
| OpWalletBalance : sdk_op Z
| OpWalletReceiptCount : sdk_op Z
| OpWalletReceipt (index : Z) : sdk_op (result sdk_error bytes)
| OpNodePrice : sdk_op Z
| OpHTTPRequest (method url : string) (headers : list (string * string)) (body : bytes) : sdk_op (Z * bytes * option sdk_error)
| OpWalletPay (amount : Z) (recipient memo : bytes) : sdk_op (result sdk_error bytes).

(** A run of agent code: it ends, panics, or performs an operation.  Every
    node carries the agent's state, which outlives a panic. *)
Inductive act (S A : Type) : Type :=
| Done (a : A) (s : S)
| Panic (s : S)
| Vis {X} (o : sdk_op X) (s : S) (k : X -> act S A).
Arguments Done {S A}.
Arguments Panic {S A}.
Arguments Vis {S A X}.

Definition Sdk (S A : Type) : Type := S -> act S A.
Fixpoint act_bind {S A B} (t : act S A) (f : A -> Sdk S B) : act S B :=
  match t with
  | Done a s => f a s
  | Panic s => Panic s
  | Vis o s k => Vis o s (fun x => act_bind (k x) f)
  end.
#[export] Instance Sdk_ret {S} : MRet (Sdk S) := fun _ a s => Done a s.
#[export] Instance Sdk_bind {S} : MBind (Sdk S) := fun _ _ f m s => act_bind (m s) f.
Definition perform {S X} (o : sdk_op X) : Sdk S X := fun s => Vis o s (fun x => Done x s).
Definition get {S} : Sdk S S := fun s => Done s s.
Definition modify {S} (f : S -> S) : Sdk S unit := fun s => Done tt (f s).
Definition panic {S A} : Sdk S A := fun s => Panic s.

(** ** Raw hostcalls, buffers by value *)
Inductive syscall :=
| SClockNow
| SRandBytes (buf : bytes)
| SLogEmit (msg : bytes)
| SWalletBalance
| SWalletReceiptCount
| SWalletReceipt (index : Z) (buf : bytes)
| SNodePrice
| SHTTPRequest (method url headers body resp : bytes)
| SWalletPay (amount : Z) (recipient memo receipt : bytes).

(** A wrapper: it returns, panics, or makes a hostcall and goes on with the
    result code and what the call left in the output buffer. *)
Inductive sys (A : Type) : Type :=
| SRet (a : A)
| SPanic
| Sys (c : syscall) (k : Z -> bytes -> sys A).
Arguments SRet {A}.
Arguments SPanic {A}.
Arguments Sys {A}.

(** *** hostcalls_wrappers_wasm.go, hostcalls_wallet_wasm.go, hostcalls_pricing_wasm.go *)
Definition ClockNow : sys Z := Sys SClockNow (fun v _ => SRet (i64 v)).
Definition RandBytes (buf : bytes) : sys (result sdk_error unit * bytes) :=
  if blen buf =? 0 then SRet (Ok tt, buf)
  else Sys (SRandBytes buf) (fun rc out => SRet (if i32 rc =? 0 then Ok tt else Err (ErrCode (i32 rc)), out)).
Definition Log (msg : bytes) : sys unit :=
  if blen msg =? 0 then SRet tt else Sys (SLogEmit msg) (fun _ _ => SRet tt).
Definition WalletBalance : sys Z := Sys SWalletBalance (fun v _ => SRet (i64 v)).
Definition WalletReceiptCount : sys Z := Sys SWalletReceiptCount (fun v _ => SRet (i32 v)).
Definition WalletReceipt (index : Z) : sys (result sdk_error bytes) :=
  Sys (SWalletReceipt (i32 index) (zeros 1024)) (fun rc out =>
    let rc := i32 rc in
    if rc <? 0 then SRet (Err (ErrCode rc))
    else if blen out <? rc then SPanic
    else SRet (Ok (slice 0 rc out))).
Definition NodePrice : sys Z := Sys SNodePrice (fun v _ => SRet (i64 v)).

(** *** hostcalls_payment_wasm.go *)
Definition parse_receipt (rc : Z) (receiptBuf : bytes) : result sdk_error bytes :=
  if rc <? 0 then Err (ErrCode rc)
  else if blen receiptBuf <? 4 then Ok []
  else
    let receiptLen := get_u32 receiptBuf in
    if blen receiptBuf <? receiptLen + 4 then Err ErrTruncated
    else Ok (slice 4 (4 + receiptLen) receiptBuf).
Definition WalletPay (amount : Z) (recipient memo : bytes) : sys (result sdk_error bytes) :=
  if blen recipient =? 0 then SPanic
  else
    Sys (SWalletPay amount recipient memo (zeros 1024)) (fun rc receiptBuf =>
      let rc := i32 rc in
      if (rc =? -5) && (4 <=? blen receiptBuf) then
        let needed := get_u32 receiptBuf in
        if (0 <? needed) && (needed <=? 64 * 1024) then
          Sys (SWalletPay amount recipient memo (zeros (Z.to_nat (needed + 4)))) (fun rc receiptBuf =>
            SRet (parse_receipt (i32 rc) receiptBuf))
        else SRet (parse_receipt rc receiptBuf)
      else SRet (parse_receipt rc receiptBuf)).

(** *** hostcalls_http_wasm.go *)
(** The header lines, in the order the iteration of the map gives. *)
Definition encode_headers (headers : list (string * string)) : bytes :=
  concat ((fun '(k, v) => bytes_of k ++ bytes_of ": " ++ bytes_of v ++ [byte_of_Z 10]) <$> headers).
Definition parse_response (rc : Z) (respBuf : bytes) : Z * bytes * option sdk_error :=
  if rc <? 0 then (0, [], Some (ErrCode rc))
  else if blen respBuf <? 4 then (rc, [], None)
  else
    let bodyLen := get_u32 respBuf in
    if blen respBuf <? bodyLen + 4 then (rc, [], Some ErrTruncated)
    else (rc, slice 4 (4 + bodyLen) respBuf, None).
Definition HTTPRequest (method url : string) (headers : list (string * string)) (body : bytes)
    : sys (Z * bytes * option sdk_error) :=
  let methodBuf := bytes_of method in
  let urlBuf := bytes_of url in
  let headersBuf := encode_headers headers in
  if (blen methodBuf =? 0) || (blen urlBuf =? 0) then SPanic
  else
    Sys (SHTTPRequest methodBuf urlBuf headersBuf body (zeros (Z.to_nat 8192))) (fun rc respBuf =>
      let rc := i32 rc in
      if (rc =? -5) && (4 <=? blen respBuf) then
        let needed := get_u32 respBuf in
        if (0 <? needed) && (needed <=? 4 * 1024 * 1024) then
          Sys (SHTTPRequest methodBuf urlBuf headersBuf body (zeros (Z.to_nat (needed + 4)))) (fun rc respBuf =>
            SRet (parse_response (i32 rc) respBuf))
        else SRet (parse_response rc respBuf)
      else SRet (parse_response rc respBuf)).

Definition wrap {X} (o : sdk_op X) : sys X :=
  match o in sdk_op X return sys X with
  | OpClockNow => ClockNow
  | OpRandBytes buf => RandBytes buf
  | OpLog msg => Log msg
  | OpWalletBalance => WalletBalance
  | OpWalletReceiptCount => WalletReceiptCount
  | OpWalletReceipt index => WalletReceipt index
  | OpNodePrice => NodePrice
  | OpHTTPRequest m u h b => HTTPRequest m u h b
  | OpWalletPay a r m => WalletPay a r m
  end.

(** ** Buffers in linear memory *)
(** Where the buffers start: address 0 is no buffer's. *)
Definition page : bytes := zeros 16.
Definition base : Z := 16.
(** The address of a buffer, or the null pointer of an optional empty one. *)
Definition ptr_or_null (p : Z) (buf : bytes) : Z := if blen buf =? 0 then 0 else p.

Record frame := mkFrame { f_call : hostcall; f_mem : bytes; f_out : Z; f_cap : Z }.
Definition place (c : syscall) : frame :=
  match c with
  | SClockNow => mkFrame HClockNow page base 0
  | SRandBytes buf => mkFrame (HRandBytes base (u32 (blen buf))) (page ++ buf) base (blen buf)
  | SLogEmit msg => mkFrame (HLogEmit base (u32 (blen msg))) (page ++ msg) base 0
  | SWalletBalance => mkFrame HWalletBalance page base 0
  | SWalletReceiptCount => mkFrame HWalletReceiptCount page base 0
  | SWalletReceipt index buf => mkFrame (HWalletReceipt index base (u32 (blen buf))) (page ++ buf) base (blen buf)
  | SNodePrice => mkFrame HNodePrice page base 0
  | SHTTPRequest method url headers body resp =>
      let urlPtr := base + blen method in
      let headersPtr := urlPtr + blen url in
      let bodyPtr := headersPtr + blen headers in
      let respPtr := bodyPtr + blen body in
      mkFrame (HHTTPRequest base (u32 (blen method)) urlPtr (u32 (blen url))
                 (ptr_or_null headersPtr headers) (u32 (blen headers)) (ptr_or_null bodyPtr body) (u32 (blen body))
                 respPtr (u32 (blen resp)))
        (page ++ method ++ url ++ headers ++ body ++ resp) respPtr (blen resp)
  | SWalletPay amount recipient memo receipt =>
      let memoPtr := base + blen recipient in
      let receiptPtr := memoPtr + blen memo in
      mkFrame (HWalletPay amount base (u32 (blen recipient)) (ptr_or_null memoPtr memo) (u32 (blen memo))
                 receiptPtr (u32 (blen receipt)))
        (page ++ recipient ++ memo ++ receipt) receiptPtr (blen receipt)
  end.

(** ** lifecycle.go and lifecycle_wasm.go *)
(** What an agent author implements.  [AUnmarshal] says whether it returned
    (it panics on a short read) with the state it left. *)
Record Agent := mkAgent {
  AState : Type;
  new : AState;
  Init : Sdk AState unit;
  Tick : Sdk AState bool;
  Marshal : AState -> bytes;
  AUnmarshal : bytes -> AState -> AState * bool;
  Imports : list string }.

Section Guest.
Context (A : Agent).
(** [registeredAgent] (nil until [Run]), the linear memory and [ckptBuf]. *)
Record guest := mkGuest { g_agent : option (AState A); g_mem : bytes; ckptBuf : bytes }.
Definition set_agent (s : AState A) (g : guest) : guest := mkGuest (Some s) (g_mem g) (ckptBuf g).
Definition set_mem (m : bytes) (g : guest) : guest := mkGuest (g_agent g) m (ckptBuf g).

Fixpoint lower_sys {X} (t : sys X) (k : X -> guest -> run guest) (g : guest) : run guest :=
  match t with
  | SRet x => k x g
  | SPanic => Trap g
  | Sys c k' =>
      let f := place c in
      Host (f_call f) (set_mem (f_mem f) g) (fun v g => lower_sys (k' v (slice (f_out f) (f_out f + f_cap f) (g_mem g))) k g)
  end.
Fixpoint lower {X} (t : act (AState A) X) (ret : X -> list Z) (g : guest) : run guest :=
  match t with
  | Done x s => Ret (ret x) (set_agent s g)
  | Panic s => Trap (set_agent s g)
  | Vis o s k => lower_sys (wrap o) (fun x => lower (k x) ret) (set_agent s g)
  end.

Definition agent_init (g : guest) : run guest :=
  match g_agent g with
  | None => Ret [] g
  | Some s => lower (Init A s) (fun _ => []) g
  end.
Definition agent_tick (g : guest) : run guest :=
  match g_agent g with
  | None => Ret [0] g
  | Some s => lower (Tick A s) (fun more : bool => [if more then 1 else 0]) g
  end.
Definition agent_checkpoint (g : guest) : run guest :=
  match g_agent g with
  | None => Ret [0] g
  | Some s => let b := Marshal A s in Ret [u32 (blen b)] (mkGuest (Some s) (g_mem g) b)
  end.
Definition agent_checkpoint_ptr (g : guest) : run guest :=
  if blen (ckptBuf g) =? 0 then Ret [0] g else Ret [base] (set_mem (page ++ ckptBuf g) g).
Definition agent_resume (ptr size : Z) (g : guest) : run guest :=
  match g_agent g with
  | None => Ret [] g
  | Some s =>
      if size =? 0 then Ret [] g
      else
        let '(s, ok) := AUnmarshal A (slice ptr (ptr + size) (g_mem g)) s in
        if ok then Ret [] (set_agent s g) else Trap (set_agent s g)
  end.
Definition malloc (n : Z) (g : guest) : run guest := Ret [base] (set_mem (page ++ zeros (Z.to_nat n)) g).
(** The runtime's [_initialize] runs the agent's [init], which calls [Run]. *)
Definition Run (g : guest) : run guest := Ret [] (set_agent (new A) g).

Definition guest_exports : list string :=
  ["_initialize"; "agent_init"; "agent_tick"; "agent_checkpoint"; "agent_checkpoint_ptr"; "agent_resume"; "malloc"].
Definition guest_invoke (g : guest) (f : string) (args : list Z) : run guest :=
  if bool_decide (f = "agent_tick") then agent_tick g
  else if bool_decide (f = "agent_checkpoint") then agent_checkpoint g
  else if bool_decide (f = "agent_checkpoint_ptr") then agent_checkpoint_ptr g
  else if bool_decide (f = "agent_resume") then match args with [p; n] => agent_resume p n g | _ => Trap g end
  else if bool_decide (f = "agent_init") then agent_init g
  else if bool_decide (f = "malloc") then match args with [n] => malloc n g | _ => Trap g end
  else if bool_decide (f = "_initialize") then Run g
  else Trap g.

(** The module every binary compiles to; which bytes those are is up to the
    compiler. *)
Definition sdk_wasm : Wasm := {|
  Compiled := unit;
  Inst := guest;
  CompileModule _ := Some tt;
  imports _ := Imports A;
  InstantiateModule _ := Some (mkGuest None [] []);
  ExportedFunction _ n := bool_decide (n ∈ guest_exports);
  invoke := guest_invoke;
  mem_read g p n := read_at p n (g_mem g);
  mem_write g p d := (fun m => set_mem m g) <$> write_at p d (g_mem g) |}.

#[export] Instance sdk_wasm_laws : WasmLaws sdk_wasm.
Proof. split. intros g p n d. apply read_at_size. Qed.
End Guest.
Arguments g_agent {A}.
Arguments g_mem {A}.
Arguments ckptBuf {A}.

(** ** What the SDK's functions can answer *)
Definition is_i32 (x : Z) : Prop := - 2 ^ 31 <= x < 2 ^ 31.
Lemma i32_range x : is_i32 (i32 x).
Proof. unfold is_i32, i32. pose proof (Z.mod_pos_bound (x + 2 ^ 31) (2 ^ 32) ltac:(lia)). lia. Qed.

Definition op_answer {X} (o : sdk_op X) : X -> Prop :=
  match o in sdk_op X return X -> Prop with
  | OpClockNow | OpWalletBalance | OpNodePrice => is_i64
  | OpRandBytes buf => fun r => blen (snd r) = blen buf
  | OpLog _ => fun _ => True
  | OpWalletReceiptCount => is_i32
  | OpWalletReceipt _ => fun r => forall b, r = Ok b -> blen b <= 1024
  | OpHTTPRequest _ _ _ _ => fun r => is_i32 (fst (fst r)) /\ blen (snd (fst r)) <= 4 * 1024 * 1024
  | OpWalletPay _ _ _ => fun r => forall b, r = Ok b -> blen b <= 64 * 1024
  end.

(** [P] of the result of a wrapper, whatever the host answers: a result code
    and an output buffer of the size given. *)
Inductive sys_post {X} (P : X -> Prop) : sys X -> Prop :=
| sp_ret x : P x -> sys_post P (SRet x)
| sp_panic : sys_post P SPanic
| sp_sys c k : (forall rc out, blen out = f_cap (place c) -> sys_post P (k rc out)) -> sys_post P (Sys c k).

Lemma blen_sub {A} lo hi (l : list A) : blen (slice lo hi l) <= Z.max 0 (hi - lo).
Proof. unfold blen, slice. rewrite length_take. lia. Qed.
Lemma parse_receipt_size rc out b : parse_receipt rc out = Ok b -> blen b <= Z.max 0 (blen out - 4).
Proof.
  unfold parse_receipt. destruct (rc <? 0); [done|]. destruct (blen out <? 4); [intros [= <-]; change (blen (@nil byte)) with 0; lia|].
  destruct (Z.ltb_spec (blen out) (get_u32 out + 4)); [done|]. intros [= <-].
  pose proof (blen_sub 4 (4 + get_u32 out) out). pose proof (get_u32_range out). unfold is_u32 in *. lia.
Qed.
Lemma parse_response_size rc out : is_i32 rc ->
  is_i32 (fst (fst (parse_response rc out))) /\ blen (snd (fst (parse_response rc out))) <= Z.max 0 (blen out - 4).
Proof.
  intros Hrc. unfold parse_response. destruct (rc <? 0); [cbn [fst snd]; change (blen (@nil byte)) with 0; unfold is_i32; lia|].
  destruct (blen out <? 4); [cbn [fst snd]; change (blen (@nil byte)) with 0; split; [done|lia]|].
  destruct (Z.ltb_spec (blen out) (get_u32 out + 4)); cbn [fst snd]; [change (blen (@nil byte)) with 0; split; [done|lia]|]. split; [done|].
  pose proof (blen_sub 4 (4 + get_u32 out) out). pose proof (get_u32_range out). unfold is_u32 in *. lia.
Qed.

Lemma wrap_answers {X} (o : sdk_op X) : sys_post (op_answer o) (wrap o).
Proof.
  destruct o; cbn [wrap op_answer].
  - constructor. intros rc out _. constructor. apply i64_range.
  - unfold RandBytes. destruct (Z.eqb_spec (blen buf) 0); constructor; [done|]. intros rc out Ho. by constructor.
  - unfold Log. destruct (blen msg =? 0); constructor; [done|]. intros. by constructor.
  - constructor. intros rc out _. constructor. apply i64_range.
  - constructor. intros rc out _. constructor. apply i32_range.
  - constructor. intros rc out Ho. cbn [f_cap place] in Ho. rewrite blen_zeros in Ho. cbv zeta. destruct (i32 rc <? 0); [by constructor|].
    destruct (Z.ltb_spec (blen out) (i32 rc)); constructor. intros b [= <-].
    pose proof (blen_sub 0 (i32 rc) out). lia.
  - constructor. intros rc out _. constructor. apply i64_range.
  - unfold HTTPRequest. destruct (_ || _); [constructor|]. constructor. intros rc out Ho. cbv zeta. cbn [f_cap place] in Ho.
    assert (blen out <= 8192) as Ho1 by (rewrite Ho, blen_zeros; lia).
    assert (sys_post (fun r => is_i32 (fst (fst r)) /\ blen (snd (fst r)) <= 4 * 1024 * 1024) (SRet (parse_response (i32 rc) out))).
    { constructor. destruct (parse_response_size (i32 rc) out (i32_range rc)). split; [done|lia]. }
    destruct (_ && _); [|done]. destruct ((0 <? _) && _) eqn:En; [|done]. apply andb_true_iff in En as [??]. zb.
    constructor. intros rc' out' Ho'. constructor. destruct (parse_response_size (i32 rc') out' (i32_range rc')).
    split; [done|]. cbn [f_cap place] in Ho'. rewrite Ho', blen_zeros in *. lia.
  - unfold WalletPay. destruct (_ =? 0); [constructor|]. constructor. intros rc out Ho. cbv zeta. cbn [f_cap place] in Ho.
    assert (blen out <= 1024) as Ho1 by (rewrite Ho, blen_zeros; lia).
    assert (sys_post (fun r => forall b, r = Ok b -> blen b <= 64 * 1024) (SRet (parse_receipt (i32 rc) out))).
    { constructor. intros b Hb%parse_receipt_size. lia. }
    destruct (_ && _); [|done]. destruct ((0 <? _) && _) eqn:En; [|done]. apply andb_true_iff in En as [??]. zb.
    constructor. intros rc' out' Ho'. constructor. intros b Hb%parse_receipt_size.
    cbn [f_cap place] in Ho'. rewrite Ho', blen_zeros in *. lia.
Qed.

(** [P] of what a run of agent code returns and of the state it leaves, for
    every answer of the SDK. *)
Fixpoint act_post {S A} (P : A -> S -> Prop) (t : act S A) : Prop :=
  match t with
  | Done a s => P a s
  | Panic _ => True
  | Vis o _ k => forall x, op_answer o x -> act_post P (k x)
  end.

(** The results a run can have, over all answers of the SDK. *)
Fixpoint act_can {S A} (t : act S A) (a : A) (s : S) : Prop :=
  match t with
  | Done a' s' => a' = a /\ s' = s
  | Panic _ => False
  | Vis o _ k => exists x, op_answer o x /\ act_can (k x) a s
  end.
Lemma act_post_can {S A} (P : A -> S -> Prop) t a s : act_post P t -> act_can t a s -> P a s.
Proof. induction t; cbn; [by intros ? [<- <-]|done|intros Hp (x & Hx & Hc); eauto]. Qed.

Lemma act_post_bind {S A B} (P : A -> S -> Prop) (Q : B -> S -> Prop) t (f : A -> Sdk S B) :
  act_post P t -> (forall a s, P a s -> act_post Q (f a s)) -> act_post Q (act_bind t f).
Proof. intros Ht Hf. induction t; cbn in *; auto. Qed.
Lemma act_post_weaken {S A} (P Q : A -> S -> Prop) t : (forall a s, P a s -> Q a s) -> act_post P t -> act_post Q t.
Proof. intros HPQ Ht. induction t; cbn in *; auto. Qed.
Lemma post_bind {S A B} (P : A -> S -> Prop) (Q : B -> S -> Prop) (m : Sdk S A) (f : A -> Sdk S B) s :
  act_post P (m s) -> (forall a s, P a s -> act_post Q (f a s)) -> act_post Q ((m ≫= f) s).
Proof. apply act_post_bind. Qed.
Lemma post_perform {S X B} (Q : B -> S -> Prop) (o : sdk_op X) (f : X -> Sdk S B) s :
  (forall x, op_answer o x -> act_post Q (f x s)) -> act_post Q ((perform o ≫= f) s).
Proof. done. Qed.
Lemma post_modify {S B} (Q : B -> S -> Prop) (g : S -> S) (f : unit -> Sdk S B) s :
  act_post Q (f tt (g s)) -> act_post Q ((modify g ≫= f) s).
Proof. done. Qed.
Lemma post_ret {S A} (Q : A -> S -> Prop) a s : Q a s -> act_post Q ((mret a : Sdk S A) s).
Proof. done. Qed.
Lemma post_last {S X} (Q : X -> S -> Prop) (o : sdk_op X) s : (forall x, op_answer o x -> Q x s) -> act_post Q (perform o s).
Proof. done. Qed.
Lemma post_get {S B} (Q : B -> S -> Prop) (f : S -> Sdk S B) s : act_post Q (f s s) -> act_post Q ((get ≫= f) s).
Proof. done. Qed.
Lemma post_ret_bind {S A B} (Q : B -> S -> Prop) (a : A) (f : A -> Sdk S B) s :
  act_post Q (f a s) -> act_post Q (((mret a : Sdk S A) ≫= f) s).
Proof. done. Qed.
Lemma post_panic {S A} (Q : A -> S -> Prop) s : act_post Q ((panic : Sdk S A) s).
Proof. done. Qed.
Lemma post_panic_bind {S A B} (Q : B -> S -> Prop) (f : A -> Sdk S B) s : act_post Q ((panic ≫= f) s).
Proof. done. Qed.
Lemma post_assoc {S A B C} (Q : C -> S -> Prop) (m : Sdk S A) (g : A -> Sdk S B) (f : B -> Sdk S C) s :
  act_post Q ((m ≫= (fun a => g a ≫= f)) s) -> act_post Q (((m ≫= g) ≫= f) s).
Proof.
  unfold mbind, Sdk_bind. generalize (m s) as t. induction t; cbn in *; auto.
Qed.

(** ** An SDK agent keeps the agent contract *)
(** What the SDK asks of an agent: between ticks its state is one that
    [Marshal] writes out completely, and ticks preserve that. *)
Class Checkpointable (A : Agent) (I : AState A -> Prop) : Prop := {
  marshal_size s : I s -> 0 < blen (Marshal A s) < 2 ^ 32;
  marshal_roundtrip s : I s -> AUnmarshal A (Marshal A s) (new A) = (s, true);
  tick_keeps s : I s -> act_post (fun _ s' => I s') (Tick A s) }.

(** A step in the life of an agent: a tick that returns, or a restart from its
    checkpoint. *)
Inductive life (A : Agent) : AState A -> AState A -> Prop :=
| life_tick s more s' : act_can (Tick A s) more s' -> life A s s'
| life_restart s s' : AUnmarshal A (Marshal A s) (new A) = (s', true) -> life A s s'.
Lemma life_keeps A I `{!Checkpointable A I} s s' : I s -> rtc (life A) s s' -> I s'.
Proof.
  intros HI Hr. induction Hr as [|s s1 s2 Hs Hr IH]; [done|]. apply IH. destruct Hs as [s m s1 Hc|s s1 E].
  - exact (act_post_can _ _ _ _ (tick_keeps s HI) Hc).
  - rewrite (marshal_roundtrip s HI) in E. by injection E as <-.
Qed.
(** Invariants: what ticks preserve, restarts preserve. *)
Lemma life_invariant A I `{!Checkpointable A I} (P : AState A -> AState A -> Prop) s s' : I s ->
  (forall s, P s s) -> (forall s1 s2 s3, P s1 s2 -> P s2 s3 -> P s1 s3) ->
  (forall s1, I s1 -> act_post (fun _ s2 => P s1 s2) (Tick A s1)) ->
  rtc (life A) s s' -> P s s'.
Proof.
  intros HI Hrefl Htrans Htick Hr. induction Hr as [|s s1 s2 Hs Hr IH]; [done|]. destruct Hs as [s m s1 Hc|s s1 E].
  - eapply Htrans; [exact (act_post_can _ _ _ _ (Htick s HI) Hc)|]. apply IH.
    exact (act_post_can _ _ _ _ (tick_keeps s HI) Hc).
  - rewrite (marshal_roundtrip s HI) in E. injection E as <-. by apply IH.
Qed.

Section Contract.
Context (A : Agent).

Lemma page_app b : read_at base (blen b) (page ++ b) = Some b.
Proof. rewrite <- (app_nil_r (page ++ b)), <- app_assoc. by apply read_at_mid. Qed.

(** Two guests in the same agent state; in a hostcall, with the same memory. *)
Definition same_agent (g g' : guest A) : Prop := exists s, g_agent g = Some s /\ g_agent g' = Some s.
Definition same_mem (g g' : guest A) : Prop := g_mem g = g_mem g'.
Definition in_state (I : AState A -> Prop) (g : guest A) : Prop := exists s, g_agent g = Some s /\ I s.

Lemma same_mem_sim : mem_sim (W := sdk_wasm A) same_mem.
Proof.
  split; unfold same_mem; cbn [mem_read mem_write sdk_wasm].
  - by intros g g' p n ->.
  - intros g g' p d ->. by destruct (write_at p d (g_mem g')).
Qed.
Lemma lower_sys_sim {X} (t : sys X) k1 k2 :
  (forall x g g', run_sim (W := sdk_wasm A) same_mem same_agent (k1 x g) (k2 x g')) ->
  forall g g', run_sim (W := sdk_wasm A) same_mem same_agent (lower_sys A t k1 g) (lower_sys A t k2 g').
Proof.
  intros Hk. induction t as [x| |c k IH]; intros g g'; cbn [lower_sys]; [apply Hk|constructor|].
  constructor; [done|]. intros v j1 j2 Hj. rewrite Hj. apply IH.
Qed.
Lemma lower_sim {X} (t : act (AState A) X) ret :
  forall g g', run_sim (W := sdk_wasm A) same_mem same_agent (lower A t ret g) (lower A t ret g').
Proof.
  induction t as [x s|s|Y o s k IH]; intros g g'; cbn [lower]; [constructor; by exists s|constructor|].
  apply lower_sys_sim. intros x j j'. apply IH.
Qed.

(** Agent code under a host that only writes memory. *)
Lemma written_size (g g' : guest A) : written (W := sdk_wasm A) g g' -> blen (g_mem g') = blen (g_mem g).
Proof.
  induction 1 as [g|g p d j k Hw _ IH]; [done|]. cbn [mem_write sdk_wasm] in Hw.
  destruct (write_at p d (g_mem g)) as [m|] eqn:E; [|done]. injection Hw as <-. rewrite IH.
  apply write_at_size in E. unfold blen. cbn. by rewrite E.
Qed.
Lemma place_out c : 0 <= f_out (place c) /\ 0 <= f_cap (place c) /\ f_out (place c) + f_cap (place c) <= blen (f_mem (place c)).
Proof.
  assert (blen page = base) as Hp by done.
  destruct c; cbn [place f_out f_cap f_mem]; rewrite ?blen_app, ?Hp; unfold base;
    repeat match goal with |- context [blen ?l] => lazymatch goal with H : 0 <= blen l |- _ => fail | _ => pose proof (blen_nonneg l) end end; lia.
Qed.

Section Host.
Context {HS : Type} (h : hostcall -> guest A -> HS -> Z * guest A * HS) (Hh : writes_only (W := sdk_wasm A) h).
Lemma exec_lower_sys {X} (P : X -> Prop) (t : sys X) (k : X -> guest A -> run (guest A)) (Post : guest A -> Prop) :
  sys_post P t -> (forall x g s rs g' s', P x -> exec (W := sdk_wasm A) h (k x g) s = (Some rs, g', s') -> Post g') ->
  forall g s rs g' s', exec (W := sdk_wasm A) h (lower_sys A t k g) s = (Some rs, g', s') -> Post g'.
Proof.
  intros Ht Hk. induction Ht as [x Hx| |c k' Hk' IH]; intros g s rs g' s' E; cbn [lower_sys exec] in E; [by eapply Hk|done|].
  destruct (h (f_call (place c)) (set_mem A (f_mem (place c)) g) s) as [[v j] s1] eqn:Eh.
  apply Hh in Eh. apply written_size in Eh. cbn [set_mem g_mem] in Eh.
  eapply IH; [|exact E]. destruct (place_out c) as (H1 & H2 & H3). rewrite blen_slice; lia.
Qed.
Lemma exec_lower {X} (P : X -> AState A -> Prop) (t : act (AState A) X) ret :
  act_post P t -> forall g s rs g' s', exec (W := sdk_wasm A) h (lower A t ret g) s = (Some rs, g', s') ->
  exists x st, P x st /\ g_agent g' = Some st.
Proof.
  induction t as [x st|st|Y o st k IH]; intros Ht g s rs g' s' E; cbn [lower exec] in E.
  - injection E as <- <- <-. by exists x, st.
  - done.
  - refine (exec_lower_sys (op_answer o) (wrap o) _ (fun g' => exists x st0, P x st0 /\ g_agent g' = Some st0)
      (wrap_answers o) _ _ _ _ _ _ E).
    intros y j s1 rs1 j' s1' Hy Ey. eapply IH; [|exact Ey]. by apply Ht.
Qed.
End Host.

Context (I : AState A -> Prop) `{!Checkpointable A I}.

(** The checkpoint exports of two guests in the same state. *)
Lemma sdk_checkpoints s m c m' c' :
  checkpoints_alike (W := sdk_wasm A) same_agent (mkGuest A (Some s) m c) (mkGuest A (Some s) m' c').
Proof.
  set (b := Marshal A s). set (ptr := if blen b =? 0 then 0 else base).
  set (after := fun m => if blen b =? 0 then mkGuest A (Some s) m b else mkGuest A (Some s) (page ++ b) b).
  assert (forall m, agent_checkpoint_ptr A (mkGuest A (Some s) m b) = Ret [ptr] (after m)) as Hptr.
  { intros m0. unfold agent_checkpoint_ptr, ptr, after. cbn [ckptBuf]. by destruct (blen b =? 0). }
  assert (forall m m0 c0, same_agent (mkGuest A (Some s) m0 c0) (after m)) as Hafter
    by (intros; exists s; unfold after; by destruct (blen b =? 0)).
  exists [u32 (blen b)], (mkGuest A (Some s) m b), (mkGuest A (Some s) m' b), [ptr], (after m), (after m').
  split_and!; try done; try exact (Hptr _); try (by exists s).
  intros Hv%Exists_cons. destruct Hv as [Hv|Hv%Exists_nil]; [|done]. intros p n. unfold after.
  destruct (Z.eqb_spec (blen b) 0) as [Hb|_]; [|done]. by rewrite Hb in Hv.
Qed.
Lemma sdk_checkpoint_live s (g g' : guest A) vs : g_agent g = Some s ->
  invoke (Wasm := sdk_wasm A) g "agent_checkpoint" [] = Ret vs g' \/ invoke (Wasm := sdk_wasm A) g "agent_checkpoint_ptr" [] = Ret vs g' ->
  g_agent g' = Some s.
Proof.
  change (invoke (Wasm := sdk_wasm A) g "agent_checkpoint" []) with (agent_checkpoint A g).
  change (invoke (Wasm := sdk_wasm A) g "agent_checkpoint_ptr" []) with (agent_checkpoint_ptr A g).
  unfold agent_checkpoint, agent_checkpoint_ptr. intros Hg. rewrite Hg.
  intros [[= _ <-]|E]; [done|]. destruct (blen (ckptBuf g) =? 0); by injection E as _ <-.
Qed.
(** What a capture reads. *)
Lemma sdk_capture {HS} (h : hostcall -> guest A -> HS -> Z * guest A * HS) s (g : guest A) hs :
  g_agent g = Some s -> 0 < blen (Marshal A s) < 2 ^ 32 ->
  CaptureState (W := sdk_wasm A) h g hs = (Ok (Marshal A s), mkGuest A (Some s) (page ++ Marshal A s) (Marshal A s), hs).
Proof.
  intros Hg Hs. set (b := Marshal A s) in *.
  assert (invoke (Wasm := sdk_wasm A) g "agent_checkpoint" [] = Ret [u32 (blen b)] (mkGuest A (Some s) (g_mem g) b)) as E1.
  { change (agent_checkpoint A g = Ret [u32 (blen b)] (mkGuest A (Some s) (g_mem g) b)). unfold agent_checkpoint. by rewrite Hg. }
  assert (invoke (Wasm := sdk_wasm A) (mkGuest A (Some s) (g_mem g) b) "agent_checkpoint_ptr" [] =
    Ret [base] (mkGuest A (Some s) (page ++ b) b)) as E2.
  { change (agent_checkpoint_ptr A (mkGuest A (Some s) (g_mem g) b) = Ret [base] (mkGuest A (Some s) (page ++ b) b)).
    unfold agent_checkpoint_ptr. cbn [ckptBuf]. destruct (Z.eqb_spec (blen b) 0); [lia|done]. }
  unfold CaptureState, require, mbind, M_bind. change (ExportedFunction (Wasm := sdk_wasm A) ?g "agent_checkpoint") with true.
  unfold Call. rewrite E1. cbn [exec result0]. unfold mret, M_ret. rewrite !(u32_id (blen b)) by (unfold is_u32; lia).
  destruct (Z.eqb_spec (blen b) 0); [lia|]. change (ExportedFunction (Wasm := sdk_wasm A) ?g "agent_checkpoint_ptr") with true.
  cbv beta iota.
  rewrite E2. cbn [exec result0]. unfold mret, M_ret, MemRead. change (u32 base) with base. cbn [mem_read sdk_wasm g_mem]. by rewrite page_app.
Qed.
Lemma sdk_resumes wasm s (g g' : guest A) st : g_agent g = Some s -> I s ->
  CaptureState (W := sdk_wasm A) null_handle g tt = (Ok st, g', tt) ->
    exists compiled m0 j, CompileModule (Wasm := sdk_wasm A) wasm = Some compiled /\
      InstantiateModule (Wasm := sdk_wasm A) compiled = Some m0 /\ same_agent g' j /\
      forall (HS : Type) (handle : hostcall -> guest A -> HS -> Z * guest A * HS) (h : HS),
        exists m1, initialize (W := sdk_wasm A) handle m0 h = (Ok tt, m1, h) /\
          ResumeAgent (W := sdk_wasm A) handle st m1 h = (Ok tt, j, h).
Proof.
  intros Hg HI E. pose proof (marshal_size s HI) as Hs. rewrite (sdk_capture (null_handle (W := sdk_wasm A)) s g tt Hg Hs) in E.
  injection E as <- <-. set (b := Marshal A s) in *.
  exists tt, (mkGuest A None [] []), (mkGuest A (Some s) (page ++ b) []). split_and!; [done|done|by exists s|].
  intros HS handle h. exists (mkGuest A (Some (new A)) [] []). split; [done|].
  unfold ResumeAgent, require, mbind, M_bind.
  change (ExportedFunction (Wasm := sdk_wasm A) ?g "agent_resume") with true.
  destruct (Z.eqb_spec (blen b) 0); [lia|]. change (ExportedFunction (Wasm := sdk_wasm A) ?g "malloc") with true. cbv beta iota.
  unfold Call. change (invoke (Wasm := sdk_wasm A) ?g "malloc" [?n]) with (malloc A n g). unfold malloc. cbn [exec result0 set_mem g_agent ckptBuf].
  unfold mret, M_ret, MemWrite. change (u32 base) with base. cbv beta iota. cbn [mem_write sdk_wasm g_mem set_mem].
  assert (write_at base b (page ++ zeros (Z.to_nat (blen b))) = Some (page ++ b)) as ->.
  { pose proof (write_at_mid page (zeros (Z.to_nat (blen b))) [] b base eq_refl) as Hw. rewrite !app_nil_r in Hw.
    apply Hw. rewrite blen_zeros. pose proof (blen_nonneg b). lia. }
  cbn [fmap option_fmap option_map]. unfold set_mem. cbn [g_agent ckptBuf g_mem].
  change (invoke (Wasm := sdk_wasm A) ?g "agent_resume" [?p; ?n]) with (agent_resume A p n g).
  unfold agent_resume. cbn [g_agent g_mem]. destruct (Z.eqb_spec (blen b) 0); [lia|].
  assert (slice base (base + blen b) (page ++ b) = b) as ->.
  { rewrite <- (app_nil_r b) at 2. by apply slice_app_mid. }
  pose proof (marshal_roundtrip s HI) as Hr. fold b in Hr. by rewrite Hr.
Qed.

(** Every agent built on the SDK keeps the contract the runtime's replay,
    migration and simulation theorems ask for.  If its [Marshal] can be read
    back by [Unmarshal] in every state its ticks can leave it in, the module
    the SDK makes of it behaves the same in two instances with the same agent
    state, checkpoints without hostcalls, and a fresh instance resumed from a
    checkpoint is in the checkpointed state. *)
Lemma sdk_agent_contract (wasm : bytes) :
  agent_contract (W := sdk_wasm A) wasm same_agent (in_state I).
Proof.
  split.
  - done.
  - exists same_mem. split; [apply same_mem_sim|]. intros g g' (s & Hg & Hg').
    change (run_sim (W := sdk_wasm A) same_mem same_agent (agent_tick A g) (agent_tick A g')).
    unfold agent_tick. rewrite Hg, Hg'. apply lower_sim.
  - intros [st m c] [st' m' c'] (s & Hg & Hg'). cbn in Hg, Hg'. subst st st'. apply sdk_checkpoints.
  - intros g (s & Hg & _). by exists s.
  - intros g g' (s & ? & ?). by exists s.
  - intros i j k (s & ? & Hj) (s' & Hj' & ?). rewrite Hj in Hj'. injection Hj' as <-. by exists s.
  - intros HS h g s rs g' s' Hh (st & Hg & HI) E.
    change (invoke g "agent_tick" []) with (agent_tick A g) in E. unfold agent_tick in E. rewrite Hg in E.
    apply (exec_lower h Hh _ _ _ (tick_keeps st HI)) in E. destruct E as (_ & st' & HI' & Hg'). by exists st'.
  - intros g vs g' (s & Hg & HI) E. exists s. split; [|done]. exact (sdk_checkpoint_live s g g' vs Hg E).
  - intros g st g' (s & Hg & HI) E. by eapply sdk_resumes.
Qed.
End Contract.
