(* ===== verification/SdkLogic.v ===== *)
(** * Reasoning about agent code

    More readings of a run next to [act_post]: that all its operations are of
    a kind ([act_all]: their buffers fit a 32-bit memory, or the event log
    records them), what its payments add up to ([act_paid]), what it does and
    pays under answers of a kind ([act_books]) and that it does not panic
    ([act_returns]), each with a rule per construct and a tactic that
    takes one step. *)
From S2P Require Import Prelude Wasm Hostcall TickReplay Sdk.
Open Scope Z_scope.

(** ** Operations of a kind *)
(** Buffers a 32-bit memory could hold. *)
Definition op_fits {X} (o : sdk_op X) : Prop :=
  match o with
  | OpRandBytes buf => is_u32 (blen buf)
  | OpHTTPRequest m u h b => is_u32 (blen (bytes_of m)) /\ is_u32 (blen (bytes_of u)) /\ is_u32 (blen (encode_headers h)) /\ is_u32 (blen b)
  | OpWalletPay _ r m => is_u32 (blen r) /\ is_u32 (blen m)
  | _ => True
  end.

(** Operations a live tick records, on a node whose random source works:
    those that read the clock, the wallet or the price, and random reads and
    log lines neither empty nor too long. *)
Definition op_recorded {X} (o : sdk_op X) : Prop :=
  match o with
  | OpClockNow | OpWalletBalance | OpWalletReceiptCount | OpNodePrice => True
  | OpRandBytes buf => 0 < blen buf <= maxRandBytes
  | OpLog msg => 0 < blen msg <= maxLogBytes
  | _ => False
  end.

(** [P] of every operation of a run, whatever the answers were. *)
Fixpoint act_all (P : forall X, sdk_op X -> Prop) {St X} (t : act St X) : Prop :=
  match t with
  | Vis o _ k => P _ o /\ forall y, op_answer o y -> act_all P (k y)
  | _ => True
  end.
Abbreviation act_fits := (act_all (@op_fits)).
Abbreviation act_recorded := (act_all (@op_recorded)).

(** One step at a time. *)
Section All.
Context {S : Type} {P : forall X, sdk_op X -> Prop}.
Implicit Types (s : S).
Lemma all_perform {X B} (o : sdk_op X) (f : X -> Sdk S B) s :
  P _ o -> (forall x, op_answer o x -> act_all P (f x s)) -> act_all P ((perform o ≫= f) s).
Proof. done. Qed.
Lemma all_modify {B} (g : S -> S) (f : unit -> Sdk S B) s : act_all P (f tt (g s)) -> act_all P ((modify g ≫= f) s).
Proof. done. Qed.
Lemma all_get {B} (f : S -> Sdk S B) s : act_all P (f s s) -> act_all P ((get ≫= f) s).
Proof. done. Qed.
Lemma all_ret_bind {A B} (a : A) (f : A -> Sdk S B) s : act_all P (f a s) -> act_all P (((mret a : Sdk S A) ≫= f) s).
Proof. done. Qed.
Lemma all_assoc {A B C} (m : Sdk S A) (g : A -> Sdk S B) (f : B -> Sdk S C) s :
  act_all P ((m ≫= (fun a => g a ≫= f)) s) -> act_all P (((m ≫= g) ≫= f) s).
Proof. unfold mbind, Sdk_bind. generalize (m s) as t. induction t as [| |X o s0 k IH]; cbn in *; [done|done|]. intros [Ho Hk]. split; auto. Qed.
Lemma all_bind {A B} (Q : A -> S -> Prop) (m : Sdk S A) (f : A -> Sdk S B) s :
  act_all P (m s) -> act_post Q (m s) -> (forall a s, Q a s -> act_all P (f a s)) -> act_all P ((m ≫= f) s).
Proof.
  unfold mbind, Sdk_bind. generalize (m s) as t. intros t Ht Hp Hf.
  induction t as [| |X o s0 k IH]; cbn in *; [auto|done|]. destruct Ht as [Ho Hk]. split; [done|]. intros y Hy. apply IH; auto.
Qed.
End All.
Ltac all_step :=
  lazymatch goal with
  | |- act_all _ ((modify _ ≫= _) _) => apply all_modify; cbv beta
  | |- act_all _ ((get ≫= _) _) => apply all_get; cbv beta
  | |- act_all _ ((mret _ ≫= _) _) => apply all_ret_bind; cbv beta
  | |- act_all _ ((panic ≫= _) _) => exact I
  | |- act_all _ ((perform _ ≫= _) _) => apply all_perform; [cbn [op_fits op_recorded]|cbn [op_answer]; intros; cbv beta]
  | |- act_all _ (((_ ≫= _) ≫= _) _) => apply all_assoc; cbv beta
  | |- act_all _ ((match ?x with _ => _ end ≫= _) _) => destruct x eqn:?
  | |- act_all _ ((let '_ := ?x in _) _) => destruct x eqn:?
  | |- act_all _ ((match ?x with _ => _ end) _) => destruct x eqn:?
  | |- act_all _ (mret _ _) => exact I
  | |- act_all _ (perform _ _) => split; [cbn [op_fits op_recorded]|done]
  end.

(** ** Payments *)
(** What the answers of a run paid for. *)
Definition paid_by {X} (o : sdk_op X) : X -> Z :=
  match o in sdk_op X return X -> Z with
  | OpWalletPay amount _ _ => fun r => match r with Ok _ => amount | Err _ => 0 end
  | _ => fun _ => 0
  end.
(** [Q] of the sum of the payments, the result and the state left. *)
Fixpoint act_paid {St X} (Q : Z -> X -> St -> Prop) (sum : Z) (t : act St X) : Prop :=
  match t with
  | Done x st => Q sum x st
  | Panic _ => True
  | Vis o _ k => forall y, op_answer o y -> act_paid Q (sum + paid_by o y) (k y)
  end.
Section Paid.
Context {S : Type}.
Implicit Types (s : S) (sum : Z).
Lemma paid_perform {X B} (Q : Z -> B -> S -> Prop) sum (o : sdk_op X) (f : X -> Sdk S B) s :
  (forall x, op_answer o x -> act_paid Q (sum + paid_by o x) (f x s)) -> act_paid Q sum ((perform o ≫= f) s).
Proof. done. Qed.
Lemma paid_modify {B} (Q : Z -> B -> S -> Prop) sum (g : S -> S) (f : unit -> Sdk S B) s :
  act_paid Q sum (f tt (g s)) -> act_paid Q sum ((modify g ≫= f) s).
Proof. done. Qed.
Lemma paid_get {B} (Q : Z -> B -> S -> Prop) sum (f : S -> Sdk S B) s : act_paid Q sum (f s s) -> act_paid Q sum ((get ≫= f) s).
Proof. done. Qed.
Lemma paid_ret_bind {A B} (Q : Z -> B -> S -> Prop) sum (a : A) (f : A -> Sdk S B) s :
  act_paid Q sum (f a s) -> act_paid Q sum (((mret a : Sdk S A) ≫= f) s).
Proof. done. Qed.
Lemma paid_ret {A} (Q : Z -> A -> S -> Prop) sum a s : Q sum a s -> act_paid Q sum ((mret a : Sdk S A) s).
Proof. done. Qed.
Lemma paid_panic_bind {A B} (Q : Z -> B -> S -> Prop) sum (f : A -> Sdk S B) s : act_paid Q sum ((panic ≫= f) s).
Proof. done. Qed.
Lemma paid_assoc {A B C} (Q : Z -> C -> S -> Prop) sum (m : Sdk S A) (g : A -> Sdk S B) (f : B -> Sdk S C) s :
  act_paid Q sum ((m ≫= (fun a => g a ≫= f)) s) -> act_paid Q sum (((m ≫= g) ≫= f) s).
Proof. unfold mbind, Sdk_bind. revert sum. generalize (m s) as t. induction t; cbn in *; auto. Qed.
Lemma paid_weaken {A} (P Q : Z -> A -> S -> Prop) t : (forall n a s, P n a s -> Q n a s) -> forall sum, act_paid P sum t -> act_paid Q sum t.
Proof. intros HPQ. induction t; cbn in *; auto. Qed.
(** Payments aside, [act_paid] is [act_post]. *)
Lemma paid_post {A} (P : A -> S -> Prop) t sum : act_paid (fun _ => P) sum t -> act_post P t.
Proof. revert sum. induction t as [| |X o s k IH]; intros sum; cbn; [done|done|]. intros Hp x Hx. exact (IH x _ (Hp x Hx)). Qed.
End Paid.
Ltac paid_step :=
  lazymatch goal with
  | |- act_paid _ _ ((modify _ ≫= _) _) => apply paid_modify; cbv beta
  | |- act_paid _ _ ((get ≫= _) _) => apply paid_get; cbv beta
  | |- act_paid _ _ ((mret _ ≫= _) _) => apply paid_ret_bind; cbv beta
  | |- act_paid _ _ ((panic ≫= _) _) => apply paid_panic_bind
  | |- act_paid _ _ ((perform _ ≫= _) _) => apply paid_perform; cbn [op_answer paid_by]; intros; rewrite ?Z.add_0_r; cbv beta
  | |- act_paid _ _ (((_ ≫= _) ≫= _) _) => apply paid_assoc; cbv beta
  | |- act_paid _ _ ((match ?x with _ => _ end ≫= _) _) => destruct x eqn:?
  | |- act_paid _ _ ((let '_ := ?x in _) _) => destruct x eqn:?
  | |- act_paid _ _ ((match ?x with _ => _ end) _) => destruct x eqn:?
  | |- act_paid _ _ (mret _ _) => apply paid_ret
  end.

(** ** Answers of a kind, and the payments they make *)
(** What may be answered, besides [op_answer]. *)
Definition telling := forall X, sdk_op X -> X -> Prop.
Definition any_answer : telling := fun _ _ _ => True.
(** The payments an answer stands for: one per [wallet_pay] that succeeded. *)
Definition payments {X} (o : sdk_op X) : X -> list Z :=
  match o in sdk_op X return X -> list Z with
  | OpWalletPay amount _ _ => fun r => match r with Ok _ => [amount] | Err _ => [] end
  | _ => fun _ => []
  end.
(** A run under answers of [E]: what it returns, the state it leaves, and the
    payments made before it ([l]) and until its end ([l']). *)
Fixpoint act_told (E : telling) {St X} (t : act St X) (l : list Z) (x : X) (s : St) (l' : list Z) : Prop :=
  match t with
  | Done x' s' => x' = x /\ s' = s /\ l = l'
  | Panic _ => False
  | Vis o _ k => exists y, op_answer o y /\ E _ o y /\ act_told E (k y) (l ++ payments o y) x s l'
  end.
(** [Q] of every such run. *)
Fixpoint act_books (E : telling) {St X} (Q : list Z -> X -> St -> Prop) (l : list Z) (t : act St X) : Prop :=
  match t with
  | Done x s => Q l x s
  | Panic _ => True
  | Vis o _ k => forall y, op_answer o y -> E _ o y -> act_books E Q (l ++ payments o y) (k y)
  end.
Section Books.
Context {S : Type} {E : telling}.
Implicit Types (s : S) (l : list Z).
Lemma books_told {A} (Q : list Z -> A -> S -> Prop) t l a s l' : act_books E Q l t -> act_told E t l a s l' -> Q l' a s.
Proof. revert l. induction t as [| |X o s0 k IH]; intros l; cbn; [by intros ? (<- & <- & <-)|done|]. intros Hb (y & Hy & HE & Ht). eauto. Qed.
Lemma told_can {A} (t : act S A) l a s l' : act_told E t l a s l' -> act_can t a s.
Proof. revert l. induction t as [| |X o s0 k IH]; intros l; cbn; [by intros (? & ? & _)|done|]. intros (y & Hy & _ & Ht). eauto. Qed.
Lemma books_weaken {A} (P Q : list Z -> A -> S -> Prop) t : (forall l a s, P l a s -> Q l a s) -> forall l, act_books E P l t -> act_books E Q l t.
Proof. intros HPQ. induction t; cbn in *; auto. Qed.
(** Payments made before only come first. *)
Lemma books_shift {A} (Q : list Z -> A -> S -> Prop) l0 t : forall l,
  act_books E Q l t -> act_books E (fun l' a s => exists l1, l' = l0 ++ l1 /\ Q l1 a s) (l0 ++ l) t.
Proof. induction t as [| |X o s0 k IH]; intros l; cbn; [eauto|done|]. intros Hb y Hy HE. rewrite <- app_assoc. auto. Qed.
(** Under any answers, payments aside, [act_books] is [act_post]. *)
Lemma post_books {A} (Q : A -> S -> Prop) t : act_post Q t -> forall l, act_books E (fun _ => Q) l t.
Proof. induction t; cbn in *; auto. Qed.
Lemma books_perform {X B} (Q : list Z -> B -> S -> Prop) l (o : sdk_op X) (f : X -> Sdk S B) s :
  (forall x, op_answer o x -> E _ o x -> act_books E Q (l ++ payments o x) (f x s)) -> act_books E Q l ((perform o ≫= f) s).
Proof. done. Qed.
Lemma books_modify {B} (Q : list Z -> B -> S -> Prop) l (g : S -> S) (f : unit -> Sdk S B) s :
  act_books E Q l (f tt (g s)) -> act_books E Q l ((modify g ≫= f) s).
Proof. done. Qed.
Lemma books_get {B} (Q : list Z -> B -> S -> Prop) l (f : S -> Sdk S B) s : act_books E Q l (f s s) -> act_books E Q l ((get ≫= f) s).
Proof. done. Qed.
Lemma books_ret_bind {A B} (Q : list Z -> B -> S -> Prop) l (a : A) (f : A -> Sdk S B) s :
  act_books E Q l (f a s) -> act_books E Q l (((mret a : Sdk S A) ≫= f) s).
Proof. done. Qed.
Lemma books_ret {A} (Q : list Z -> A -> S -> Prop) l a s : Q l a s -> act_books E Q l ((mret a : Sdk S A) s).
Proof. done. Qed.
Lemma books_panic_bind {A B} (Q : list Z -> B -> S -> Prop) l (f : A -> Sdk S B) s : act_books E Q l ((panic ≫= f) s).
Proof. done. Qed.
Lemma books_last_modify (Q : list Z -> unit -> S -> Prop) l (g : S -> S) s : Q l tt (g s) -> act_books E Q l (modify g s).
Proof. done. Qed.
Lemma books_assoc {A B C} (Q : list Z -> C -> S -> Prop) l (m : Sdk S A) (g : A -> Sdk S B) (f : B -> Sdk S C) s :
  act_books E Q l ((m ≫= (fun a => g a ≫= f)) s) -> act_books E Q l (((m ≫= g) ≫= f) s).
Proof. unfold mbind, Sdk_bind. revert l. generalize (m s) as t. induction t; cbn in *; auto. Qed.
End Books.
Lemma books_post {S A} (Q : A -> S -> Prop) l (t : act S A) : act_books any_answer (fun _ => Q) l t -> act_post Q t.
Proof. revert l. induction t as [| |X o s k IH]; intros l; cbn; [done|done|]. intros Hb y Hy. eapply IH, Hb; done. Qed.
Ltac books_step :=
  lazymatch goal with
  | |- act_books _ _ _ ((modify _ ≫= _) _) => apply books_modify; cbv beta
  | |- act_books _ _ _ ((get ≫= _) _) => apply books_get; cbv beta
  | |- act_books _ _ _ ((mret _ ≫= _) _) => apply books_ret_bind; cbv beta
  | |- act_books _ _ _ ((panic ≫= _) _) => apply books_panic_bind
  | |- act_books _ _ _ ((perform _ ≫= _) _) => apply books_perform; cbn [op_answer payments]; intros; rewrite ?app_nil_r; cbv beta
  | |- act_books _ _ _ (((_ ≫= _) ≫= _) _) => apply books_assoc; cbv beta
  | |- act_books _ _ _ ((match ?x with _ => _ end ≫= _) _) => destruct x eqn:?
  | |- act_books _ _ _ ((let '_ := ?x in _) _) => destruct x eqn:?
  | |- act_books _ _ _ ((match ?x with _ => _ end) _) => destruct x eqn:?
  | |- act_books _ _ _ (mret _ _) => apply books_ret
  | |- act_books _ _ _ (modify _ _) => apply books_last_modify
  | |- act_books _ _ _ (perform _ _) => intros ? ? ?; cbn [payments]; rewrite ?app_nil_r
  end.

(** ** No panics *)
(** The SDK functions that take the address of a string's first byte panic on
    an empty one. *)
Definition op_calm {X} (o : sdk_op X) : Prop :=
  match o with
  | OpHTTPRequest m u _ _ => blen (bytes_of m) <> 0 /\ blen (bytes_of u) <> 0
  | OpWalletPay _ r _ => blen r <> 0
  | _ => True
  end.
(** Agent code that does not panic, whatever it is told. *)
Fixpoint act_returns {S A} (t : act S A) : Prop :=
  match t with
  | Done _ _ => True
  | Panic _ => False
  | Vis o _ k => op_calm o /\ forall x, op_answer o x -> act_returns (k x)
  end.
Lemma returns_perform {S X B} (o : sdk_op X) (f : X -> Sdk S B) s :
  op_calm o -> (forall x, op_answer o x -> act_returns (f x s)) -> act_returns ((perform o ≫= f) s).
Proof. done. Qed.
Lemma returns_modify {S B} (g : S -> S) (f : unit -> Sdk S B) s : act_returns (f tt (g s)) -> act_returns ((modify g ≫= f) s).
Proof. done. Qed.
Lemma returns_get {S B} (f : S -> Sdk S B) s : act_returns (f s s) -> act_returns ((get ≫= f) s).
Proof. done. Qed.
Lemma returns_ret_bind {S A B} (a : A) (f : A -> Sdk S B) s : act_returns (f a s) -> act_returns (((mret a : Sdk S A) ≫= f) s).
Proof. done. Qed.
Lemma returns_ret {S A} (a : A) s : act_returns ((mret a : Sdk S A) s).
Proof. done. Qed.
Lemma returns_last {S X} (o : sdk_op X) (s : S) : op_calm o -> act_returns (perform o s).
Proof. done. Qed.
Lemma returns_assoc {S A B C} (m : Sdk S A) (g : A -> Sdk S B) (f : B -> Sdk S C) s :
  act_returns ((m ≫= (fun a => g a ≫= f)) s) -> act_returns (((m ≫= g) ≫= f) s).
Proof. unfold mbind, Sdk_bind. generalize (m s) as t. induction t; cbn in *; intuition auto. Qed.
Lemma returns_bind {S A B} (P : A -> S -> Prop) (m : Sdk S A) (f : A -> Sdk S B) s :
  act_returns (m s) -> act_post P (m s) -> (forall a s, P a s -> act_returns (f a s)) -> act_returns ((m ≫= f) s).
Proof.
  unfold mbind, Sdk_bind. generalize (m s) as t. intros t Ht Hp Hf.
  induction t as [| |X o s0 k IH]; cbn in *; [auto|done|]. destruct Ht as [Ho Hk]. split; [done|]. intros y Hy. apply IH; auto.
Qed.
(** [op_calm] of an operation on constants. *)
Ltac calm := first [done | split; discriminate | discriminate].
Ltac returns_step :=
  lazymatch goal with
  | |- act_returns ((modify _ ≫= _) _) => apply returns_modify; cbv beta
  | |- act_returns ((get ≫= _) _) => apply returns_get; cbv beta
  | |- act_returns ((mret _ ≫= _) _) => apply returns_ret_bind; cbv beta
  | |- act_returns ((perform _ ≫= _) _) => apply returns_perform; [calm|cbn [op_answer]; intros; cbv beta]
  | |- act_returns (((_ ≫= _) ≫= _) _) => apply returns_assoc; cbv beta
  | |- act_returns ((match ?x with _ => _ end ≫= _) _) => destruct x eqn:?
  | |- act_returns ((let '_ := ?x in _) _) => destruct x eqn:?
  | |- act_returns ((match ?x with _ => _ end) _) => destruct x eqn:?
  | |- act_returns (mret _ _) => apply returns_ret
  | |- act_returns (perform _ _) => by apply returns_last
  | |- act_returns (modify _ _) => exact I
  end.
