(* ===== verification/SdkLive.v ===== *)
(** * SDK agents on a live node

    What every SDK function does to the node it runs on, by value
    ([live_op]), and that the wrappers, the buffers and the host functions of
    Hostcall.v together do exactly that ([sdk_refines_host]). *)
From S2P Require Import Prelude Crypto Wasm TickReplay Sdk SdkLogic EventLog Hostcall.
From stdpp Require Import gmap strings.
Open Scope Z_scope.

(** ** Buffers *)
Lemma read_at_skip p n a l : blen a <= p -> read_at p n (a ++ l) = read_at (p - blen a) n l.
Proof.
  intros Hp. pose proof (blen_nonneg a). unfold read_at. rewrite blen_app.
  rewrite (proj2 (Z.leb_le 0 p)), (proj2 (Z.leb_le 0 (p - blen a))) by lia.
  replace (p + n <=? blen a + blen l) with (p - blen a + n <=? blen l) by
    (destruct (Z.leb_spec (p - blen a + n) (blen l)), (Z.leb_spec (p + n) (blen a + blen l)); lia || done).
  destruct (_ && _); [|done]. rewrite slice_skip by lia. do 2 f_equal. lia.
Qed.
Lemma read_at_head n x l : n = blen x -> read_at 0 n (x ++ l) = Some x.
Proof. intros ->. apply (read_at_mid [] x l); done. Qed.
Lemma write_at_out pre out d : blen d <= blen out ->
  write_at (blen pre) d (pre ++ out) = Some (pre ++ d ++ drop (length d) out).
Proof.
  intros Hd. pose proof (write_at_mid pre (take (length d) out) (drop (length d) out) d (blen pre) eq_refl) as Hw.
  rewrite take_drop in Hw. apply Hw. unfold blen in *. rewrite length_take. lia.
Qed.
Lemma slice_out (pre out : bytes) : slice (blen pre) (blen pre + blen out) (pre ++ out) = out.
Proof. rewrite <- (app_nil_r out) at 2. by apply slice_app_mid. Qed.

(** ** What the SDK's functions do to the node *)
Section Live.
Context {S : Type} {host_ok : S -> Prop} `{HL : HostLaws S host_ok}.

Definition live_rand (buf : bytes) (s : S) : result sdk_error unit * bytes * S :=
  if blen buf =? 0 then (Ok tt, buf, s)
  else if maxRandBytes <? blen buf then (Err (ErrCode (-2)), buf, s)
  else match crypto_rand (blen buf) s with
       | (None, s) => (Err (ErrCode (-1)), buf, s)
       | (Some b, s) => (Ok tt, b, record RandBytes b s)
       end.
(** The wrapper passes the length as a [uint32]. *)
Definition live_log (msg : bytes) (s : S) : S :=
  let n := u32 (blen msg) in
  if (n =? 0) || (maxLogBytes <? n) then s else record LogEmit (take (Z.to_nat n) msg) s.
Definition live_receipt (index : Z) (s : S) : result sdk_error bytes * S :=
  match GetReceiptBytes s (i32 index) with
  | None => (Err (ErrCode (-1)), s)
  | Some d => if 1024 <? blen d then (Err (ErrCode (-4)), s) else (Ok d, record WalletReceipt d s)
  end.

(** A payment; the receipt always fits the SDK's first buffer. *)
Definition live_pay (cfg : PayConfig) (amount : Z) (recipient memo : bytes) (s : S) : result sdk_error bytes * S :=
  if (maxRecipientBytes <? blen recipient) || (maxMemoBytes <? blen memo) then (Err (ErrCode payErrInputTooLong), s)
  else if amount <=? 0 then (Err (ErrCode payErrProcessing), s)
  else if (0 <? maxPayment cfg) && (maxPayment cfg <? amount) then (Err (ErrCode payErrAmountExceeded), s)
  else if negb (bool_decide (allowedRecipients cfg = [])) && negb (bool_decide (string_of recipient ∈ allowedRecipients cfg))
  then (Err (ErrCode payErrRecipientBlocked), s)
  else if pay_GetBudget s <? amount then (Err (ErrCode payErrInsufficientBudget), s)
  else
    let pubKey := GetAgentPubKey s in
    match DeductBudget amount s with
    | None => (Err (ErrCode payErrProcessing), s)
    | Some s =>
        let '(ts, s) := now_unix_nano s in
        let data := payment_data amount ts recipient memo pubKey in
        let receipt := data ++ SignPayment s data in
        (Ok receipt, record WalletPay (put_u64 (u64 amount) ++ receipt) s)
    end.

(** One HTTP exchange for a response buffer of [cap] bytes. *)
Inductive reply := RError (code : Z) | RTooLarge (needed : Z) | RBody (status : Z) (body : bytes).
Definition live_http_once (cfg : HTTPConfig) (req : http_request) (cap : Z) (s : S) : reply * S :=
  if negb (checkAllowedHost s (r_url req) (allowedHosts cfg)) then (RError httpErrHostBlocked, s)
  else
    match http_do req s with
    | (HBadRequest, s) => (RError httpErrNetwork, s)
    | (HTimeout, s) => (RError httpErrTimeout, s)
    | (HError, s) => (RError httpErrNetwork, s)
    | (HResponse _ None, s) => (RError httpErrNetwork, s)
    | (HResponse status (Some body), s) =>
        let respBody := take (Z.to_nat (maxRespBytes cfg + 1)) body in
        if (maxRespBytes cfg <? blen respBody) || (cap <? 4 + blen respBody) then (RTooLarge (blen respBody), s)
        else (RBody status respBody, record HTTPRequest (put_u32 (u32 status) ++ respBody) s)
    end.
Definition http_params (cfg : HTTPConfig) (method url : string) (headers : list (string * string)) (body : bytes) : http_request :=
  let headersBuf := encode_headers headers in
  mkRequest method url (if 0 <? blen headersBuf then parseHeaders (string_of headersBuf) else ∅)
    (if 0 <? blen body then Some body else None) (i64 (timeoutMs cfg * 1000000)).
Definition answer (r : reply) : Z * bytes * option sdk_error :=
  match r with
  | RError code => (0, [], Some (ErrCode code))
  | RTooLarge _ => (0, [], Some (ErrCode httpErrRespTooLarge))
  | RBody status body => (status, body, None)
  end.
(** A response too large for 8 KiB is asked for again: the request is sent a
    second time. *)
Definition live_http (cfg : HTTPConfig) (method url : string) (headers : list (string * string)) (body : bytes) (s : S)
    : Z * bytes * option sdk_error * S :=
  if (maxMethodBytes <? blen (bytes_of method)) || (maxURLBytes <? blen (bytes_of url)) ||
     (maxHeadersBytes <? blen (encode_headers headers)) || (maxRequestBodyBytes <? blen body)
  then (0, [], Some (ErrCode httpErrInputTooLong), s)
  else
    let req := http_params cfg method url headers body in
    match live_http_once cfg req 8192 s with
    | (RTooLarge needed, s) =>
        if (0 <? needed) && (needed <=? 4 * 1024 * 1024)
        then let '(r, s) := live_http_once cfg req (needed + 4) s in (answer r, s)
        else (answer (RTooLarge needed), s)
    | (r, s) => (answer r, s)
    end.

(** [None]: the SDK function panics. *)
Definition live_op (cfg : HostConfig) {X} (o : sdk_op X) : S -> option X * S :=
  match o in sdk_op X return S -> option X * S with
  | OpClockNow => fun s => let '(now, s) := now_unix_nano s in (Some now, record ClockNow (put_u64 (u64 now)) s)
  | OpRandBytes buf => fun s => let '(r, b, s) := live_rand buf s in (Some (r, b), s)
  | OpLog msg => fun s => (Some tt, live_log msg s)
  | OpWalletBalance => fun s => (Some (GetBudget s), record WalletBalance (put_u64 (u64 (GetBudget s))) s)
  | OpWalletReceiptCount => fun s =>
      let count := i32 (GetReceiptCount s) in (Some count, record WalletReceiptCount (put_u32 (u32 count)) s)
  | OpWalletReceipt index => fun s => let '(r, s) := live_receipt index s in (Some r, s)
  | OpNodePrice => fun s => (Some (GetNodePrice s), record NodePrice (put_u64 (u64 (GetNodePrice s))) s)
  | OpHTTPRequest m u h b => fun s =>
      if (blen (bytes_of m) =? 0) || (blen (bytes_of u) =? 0) then (None, s)
      else let '(r, s) := live_http (http_cfg cfg) m u h b s in (Some r, s)
  | OpWalletPay a r m => fun s =>
      if blen r =? 0 then (None, s) else let '(x, s) := live_pay (pay_cfg cfg) a r m s in (Some x, s)
  end.

(** A whole run of agent code on the node. *)
Fixpoint live_act (cfg : HostConfig) {St X} (t : act St X) (s : S) : option X * St * S :=
  match t with
  | Done x st => (Some x, st, s)
  | Panic st => (None, st, s)
  | Vis o st k =>
      match live_op cfg o s with
      | (Some x, s) => live_act cfg (k x) s
      | (None, s) => (None, st, s)
      end
  end.
End Live.

(** ** The wrappers over the live host functions *)
(** Documented behaviour of [net/http] (three-digit status codes), bodies and
    receipts a WASM memory could hold, and a host whose network and random
    source do not touch the wallet. *)
Class HostSizes (S : Type) `{WalletState S, HostEnv S} (host_ok : S -> Prop) : Prop := {
  http_sizes r s status b s' : host_ok s -> http_do r s = (HResponse status b, s') ->
    0 <= status < 1000 /\ forall body, b = Some body -> blen body < 2 ^ 31;
  receipt_sizes s i d : host_ok s -> GetReceiptBytes s i = Some d -> blen d < 2 ^ 31;
  rand_budget n s : GetBudget (snd (crypto_rand n s)) = GetBudget s;
  http_budget r s : GetBudget (snd (http_do r s)) = GetBudget s }.

Section Refines.
Context (A : Agent) {S : Type} {host_ok : S -> Prop} `{HL : HostLaws S host_ok} `{!HostSizes S host_ok}.
Context (cfg : HostConfig).
Local Abbreviation host := (live_handle (W := sdk_wasm A) cfg).
Local Abbreviation exec := (exec (W := sdk_wasm A)).
Implicit Types (g : guest A) (s : S).

Lemma i32_id x : is_i32 x -> i32 x = x.
Proof. unfold is_i32, i32. intros. rewrite Z.mod_small; lia. Qed.
Lemma blen_page : blen page = base.
Proof. done. Qed.
Lemma mem_read_page b g : mem_read (Wasm := sdk_wasm A) (set_mem A (page ++ b) g) base (blen b) = Some b.
Proof. apply page_app. Qed.
Lemma mem_write_page b d g : blen d = blen b ->
  mem_write (Wasm := sdk_wasm A) (set_mem A (page ++ b) g) base d = Some (set_mem A (page ++ d) g).
Proof.
  intros Hd. cbn [mem_write sdk_wasm]. change (g_mem (set_mem A (page ++ b) g)) with (page ++ b). change base with (blen page).
  rewrite write_at_out by lia. cbn. rewrite drop_ge by (unfold blen in Hd; lia). by rewrite app_nil_r.
Qed.
Lemma slice_page b : slice base (base + blen b) (page ++ b) = b.
Proof. change base with (blen page). apply slice_out. Qed.

(** A wrapper step on the host. *)
Definition op_runs {X} (o : sdk_op X) (s : S) : Prop :=
  forall k g,
  match live_op cfg o s with
  | (Some x, s') => exists g', g_agent g' = g_agent g /\ exec host (lower_sys A (wrap o) k g) s = exec host (k x g') s'
  | (None, s') => s' = s /\ exists g', g_agent g' = g_agent g /\ exec host (lower_sys A (wrap o) k g) s = (None, g', s)
  end.

Lemma runs_clock s : host_ok s -> op_runs OpClockNow s.
Proof.
  intros Hok k g. cbn [live_op wrap]. unfold Sdk.ClockNow. cbn [lower_sys exec place f_call f_mem].
  cbn [live_handle]. unfold clock_now. pose proof (now_range s) as Hn. destruct (now_unix_nano s) as [now s1]. cbn [fst] in Hn.
  exists (set_mem A page g). split; [done|]. by rewrite (i64_id _ Hn).
Qed.
Lemma runs_balance s : host_ok s -> op_runs OpWalletBalance s.
Proof.
  intros Hok k g. cbn [live_op wrap]. exists (set_mem A page g). split; [done|]. unfold Sdk.WalletBalance.
  cbn [lower_sys exec place f_call f_mem live_handle]. unfold wallet_balance. by rewrite (i64_id _ (budget_range s Hok)).
Qed.
Lemma runs_price s : host_ok s -> op_runs OpNodePrice s.
Proof.
  intros Hok k g. cbn [live_op wrap]. exists (set_mem A page g). split; [done|]. unfold Sdk.NodePrice.
  cbn [lower_sys exec place f_call f_mem live_handle]. unfold node_price. by rewrite (i64_id _ (price_range s Hok)).
Qed.
Lemma runs_count s : op_runs OpWalletReceiptCount s.
Proof.
  intros k g. cbn [live_op wrap]. exists (set_mem A page g). split; [done|]. unfold Sdk.WalletReceiptCount.
  cbn [lower_sys exec place f_call f_mem live_handle]. unfold wallet_receipt_count. by rewrite (i32_id _ (i32_range _)).
Qed.
Lemma runs_rand buf s : host_ok s -> is_u32 (blen buf) -> op_runs (OpRandBytes buf) s.
Proof.
  intros Hok Hb k g. cbn [live_op wrap]. unfold Sdk.RandBytes, live_rand.
  destruct (Z.eqb_spec (blen buf) 0) as [_|Hne]; [by exists g|].
  cbn [lower_sys exec place f_call f_mem f_out f_cap live_handle]. unfold rand_bytes. rewrite (u32_id _ Hb).
  destruct (Z.eqb_spec (blen buf) 0); [done|].
  destruct (maxRandBytes <? blen buf).
  { exists (set_mem A (page ++ buf) g). split; [done|]. cbn [set_mem g_mem]. by rewrite slice_page. }
  pose proof (rand_size (blen buf) s) as Hsz. destruct (crypto_rand (blen buf) s) as [[b|] s1].
  - specialize (Hsz b ltac:(unfold is_u32 in *; lia) eq_refl). rewrite (mem_write_page buf b g Hsz).
    exists (set_mem A (page ++ b) g). split; [done|]. cbn [set_mem g_mem]. by rewrite <- Hsz, slice_page.
  - exists (set_mem A (page ++ buf) g). split; [done|]. cbn [set_mem g_mem]. by rewrite slice_page.
Qed.
Lemma read_at_prefix b n : 0 <= n <= blen b -> read_at base n (page ++ b) = Some (take (Z.to_nat n) b).
Proof.
  intros Hn. rewrite <- (take_drop (Z.to_nat n) b) at 1. apply read_at_mid; [done|].
  unfold blen in *. rewrite length_take. lia.
Qed.
Lemma u32_le n : 0 <= n -> u32 n <= n.
Proof. intros. unfold u32. apply Z.mod_le; lia. Qed.
Lemma runs_log msg s : op_runs (OpLog msg) s.
Proof.
  intros k g. cbn [live_op wrap]. unfold Sdk.Log, live_log.
  destruct (Z.eqb_spec (blen msg) 0) as [He|Hne]; [exists g; by rewrite He|].
  exists (set_mem A (page ++ msg) g). split; [done|].
  cbn [lower_sys exec place f_call f_mem live_handle]. unfold log_emit.
  destruct (u32 (blen msg) =? 0); [done|]. cbn [orb]. destruct (maxLogBytes <? u32 (blen msg)); [done|].
  pose proof (u32_range (blen msg)). pose proof (u32_le (blen msg) (blen_nonneg msg)).
  change (mem_read (Wasm := sdk_wasm A) (set_mem A (page ++ msg) g) base (u32 (blen msg))) with (read_at base (u32 (blen msg)) (page ++ msg)).
  rewrite read_at_prefix by (unfold is_u32 in *; lia). done.
Qed.

(** Writing into an output buffer that ends the memory. *)
Definition filled (d out : bytes) : bytes := d ++ drop (length d) out.
Lemma blen_filled d out : blen d <= blen out -> blen (filled d out) = blen out.
Proof. unfold filled, blen. rewrite length_app, length_drop. lia. Qed.
Lemma mem_write_out pre out d p g : p = blen pre -> blen d <= blen out ->
  mem_write (Wasm := sdk_wasm A) (set_mem A (pre ++ out) g) p d = Some (set_mem A (pre ++ filled d out) g).
Proof.
  intros -> Hd. cbn [mem_write sdk_wasm]. change (g_mem (set_mem A (pre ++ out) g)) with (pre ++ out).
  by rewrite write_at_out.
Qed.
Lemma slice_filled pre d out n : n = blen out -> blen d <= blen out ->
  slice (blen pre) (blen pre + n) (pre ++ filled d out) = filled d out.
Proof. intros -> Hd. rewrite <- (blen_filled d out Hd). apply slice_out. Qed.

Lemma runs_receipt index s : host_ok s -> op_runs (OpWalletReceipt index) s.
Proof.
  intros Hok k g. cbn [live_op wrap]. unfold Sdk.WalletReceipt, live_receipt.
  cbn [lower_sys exec place f_call f_mem f_out f_cap live_handle]. unfold wallet_receipt.
  destruct (GetReceiptBytes s (i32 index)) as [d|] eqn:Ed.
  2: { cbv beta iota. exists (set_mem A (page ++ zeros 1024) g). by split. }
  pose proof (receipt_sizes s _ d Hok Ed) as Hd. pose proof (blen_nonneg d).
  rewrite (u32_id (blen d)) by (unfold is_u32; lia). rewrite (u32_id (blen (zeros 1024))) by (rewrite blen_zeros; unfold is_u32; lia).
  rewrite blen_zeros. change (Z.of_nat 1024) with 1024.
  destruct (Z.ltb_spec 1024 (blen d)); cbv beta iota; [exists (set_mem A (page ++ zeros 1024) g); by split|].
  assert (blen d <= blen (zeros 1024)) as Hle by (rewrite blen_zeros; lia).
  rewrite (mem_write_out page (zeros 1024) d base g eq_refl Hle).
  exists (set_mem A (page ++ filled d (zeros 1024)) g). split; [done|].
  rewrite !(i32_id (blen d)) by (unfold is_i32; lia). change base with (blen page). cbn [set_mem g_mem].
  rewrite (slice_filled page d (zeros 1024) 1024) by (rewrite ?blen_zeros; lia || done).
  destruct (Z.ltb_spec (blen d) 0); [lia|]. rewrite (blen_filled _ _ Hle), blen_zeros.
  destruct (Z.ltb_spec (Z.of_nat 1024) (blen d)); [lia|]. unfold filled. by rewrite slice_head.
Qed.

(** *** Payments *)
Lemma get_u32_head n body : is_u32 n -> get_u32 (put_u32 n ++ body) = n.
Proof. intros Hn. by rewrite get_put_u32, u32_id. Qed.
(** A length-prefixed answer in a buffer is read back. *)
Lemma parse_framed rc body out : 0 <= rc -> blen body < 2 ^ 31 -> 4 + blen body <= blen out ->
  let buf := filled (put_u32 (blen body) ++ body) out in
  parse_receipt rc buf = Ok body /\ parse_response rc buf = (rc, body, None).
Proof.
  intros Hrc Hb Ho buf. pose proof (blen_nonneg body).
  assert (get_u32 buf = blen body) as Hn.
  { unfold buf, filled. rewrite <- app_assoc. apply get_u32_head. unfold is_u32. lia. }
  assert (blen buf = blen out) as Hl by (apply blen_filled; rewrite blen_app, blen_put_u32; lia).
  assert (slice 4 (4 + blen body) buf = body) as Hs.
  { unfold buf, filled. rewrite <- app_assoc. apply slice_app_mid; rewrite blen_put_u32; lia. }
  unfold parse_receipt, parse_response. destruct (Z.ltb_spec rc 0); [lia|]. rewrite Hn, Hl.
  destruct (Z.ltb_spec (blen out) 4); [lia|]. destruct (Z.ltb_spec (blen out) (blen body + 4)); [lia|].
  by rewrite Hs.
Qed.

(** The host call of [WalletPay] with the SDK's first buffer. *)
Lemma pay_frame amount recipient memo s g : host_ok s -> blen recipient <> 0 -> is_u32 (blen recipient) -> is_u32 (blen memo) ->
  let f := place (SWalletPay amount recipient memo (zeros 1024)) in
  let pre := page ++ recipient ++ memo in
  host (f_call f) (set_mem A (f_mem f) g) s =
    match live_pay (pay_cfg cfg) amount recipient memo s with
    | (Err (ErrCode c), s') => (c, set_mem A (pre ++ zeros 1024) g, s')
    | (Err _, s') => (0, set_mem A (pre ++ zeros 1024) g, s')
    | (Ok receipt, s') => (4 + blen receipt, set_mem A (pre ++ filled (put_u32 (blen receipt) ++ receipt) (zeros 1024)) g, s')
    end.
Proof.
  intros Hok Hne Hr Hm f pre. unfold f. cbn [place f_call f_mem live_handle].
  assert (page ++ recipient ++ memo ++ zeros 1024 = pre ++ zeros 1024) as Emem by (unfold pre; by rewrite <- !app_assoc).
  pose proof (blen_nonneg recipient). pose proof (blen_nonneg memo). unfold maxRecipientBytes, maxMemoBytes.
  unfold wallet_pay, live_pay. rewrite (u32_id (blen recipient)), (u32_id (blen memo)), Emem by done.
  destruct (_ || _) eqn:Esize; [done|]. apply orb_false_iff in Esize as [Er Em]. zb. unfold maxRecipientBytes, maxMemoBytes in *.
  assert (mem_read (Wasm := sdk_wasm A) (set_mem A (pre ++ zeros 1024) g) base (blen recipient) = Some recipient) as ->.
  { change (read_at base (blen recipient) (pre ++ zeros 1024) = Some recipient). unfold pre. rewrite <- !app_assoc.
    rewrite read_at_skip, blen_page by (rewrite blen_page; lia). by apply read_at_head. }
  assert ((if 0 <? blen memo then mem_read (Wasm := sdk_wasm A) (set_mem A (pre ++ zeros 1024) g)
             (ptr_or_null (base + blen recipient) memo) (blen memo) else Some []) = Some memo) as ->.
  { destruct (Z.ltb_spec 0 (blen memo)).
    - change (read_at (ptr_or_null (base + blen recipient) memo) (blen memo) (pre ++ zeros 1024) = Some memo).
      unfold ptr_or_null. destruct (Z.eqb_spec (blen memo) 0); [lia|]. unfold pre. rewrite <- !app_assoc.
      rewrite read_at_skip, blen_page by (rewrite blen_page; lia). rewrite read_at_skip by lia.
      replace (base + blen recipient - base - blen recipient) with 0 by lia. by apply read_at_head.
    - destruct memo; [done|]. rewrite blen_cons in *. pose proof (blen_nonneg memo). lia. }
  destruct (Z.leb_spec amount 0); [done|]. destruct (_ && _); [done|]. destruct (negb _ && negb _); [done|].
  pose proof (pub_key_size s Hok) as Lpk. rewrite Lpk. unfold PublicKeySize, SignatureSize in *.
  set (full := 8 + 8 + 4 + blen recipient + 4 + blen memo + 32 + 64).
  assert (0 <= full <= 1020) as Hf by (unfold full; lia).
  rewrite (u32_id (4 + full)) by (unfold is_u32; lia).
  rewrite (u32_id (blen (zeros 1024))) by (rewrite blen_zeros; unfold is_u32; lia). rewrite blen_zeros. change (Z.of_nat 1024) with 1024.
  destruct (Z.ltb_spec 1024 (4 + full)); [lia|]. rewrite same_budget.
  destruct (Z.ltb_spec (GetBudget s) amount); [done|].
  destruct (deduct_some amount s) as (s1 & -> & _ & _ & Hok1); [lia|done|].
  pose proof (now_keeps s1 Hok1) as (_ & _ & Hok2). destruct (now_unix_nano s1) as [ts s2]. cbn [snd] in Hok2.
  set (receipt := payment_data amount ts recipient memo (GetAgentPubKey s) ++ SignPayment s2 (payment_data amount ts recipient memo (GetAgentPubKey s))).
  assert (blen receipt = full) as Lfull.
  { unfold receipt, payment_data, full. autorewrite with igor_len. rewrite Lpk, (payment_sig_size _ _ Hok2). unfold SignatureSize. lia. }
  rewrite copy_array_id by (rewrite Lfull; lia). rewrite Lfull, (u32_id full) by (unfold is_u32; lia).
  rewrite (mem_write_out pre (zeros 1024)); [by rewrite i32_id by (unfold is_i32; lia)| |].
  - unfold pre. rewrite !blen_app, blen_page. lia.
  - rewrite blen_app, blen_put_u32, blen_zeros, Lfull. lia.
Qed.

Lemma pay_code amount recipient memo s e s' :
  live_pay (pay_cfg cfg) amount recipient memo s = (Err e, s') -> exists c, e = ErrCode c /\ -6 <= c < 0 /\ c <> -5.
Proof.
  unfold live_pay, payErrInputTooLong, payErrProcessing, payErrAmountExceeded, payErrRecipientBlocked, payErrInsufficientBudget.
  intros E. repeat case_match; simplify_eq; eexists; split_and!; (done || lia).
Qed.
Lemma live_pay_ok amount recipient memo s receipt s' : host_ok s ->
  live_pay (pay_cfg cfg) amount recipient memo s = (Ok receipt, s') ->
  paid (pay_cfg cfg) amount s s' /\ host_ok s' /\ blen receipt <= 1020.
Proof.
  intros Hok. unfold live_pay, maxRecipientBytes, maxMemoBytes.
  destruct (_ || _) eqn:Esize; [done|]. apply orb_false_iff in Esize as [Er Em]. zb.
  destruct (Z.leb_spec amount 0); [done|]. destruct (_ && _) eqn:Ecap; [done|]. destruct (negb _ && negb _); [done|].
  rewrite same_budget. destruct (Z.ltb_spec (GetBudget s) amount); [done|].
  destruct (deduct_some amount s) as (s1 & -> & Hb1 & _ & Hok1); [lia|done|].
  pose proof (now_keeps s1 Hok1) as (_ & Hb2 & Hok2). destruct (now_unix_nano s1) as [ts s2]. cbn [snd] in Hok2, Hb2.
  intros [= <- <-]. split; [|split; [by apply ok_set_log|]].
  - split; [lia| |lia|]. { intros. apply andb_false_iff in Ecap as [Ecap|Ecap]; zb; lia. }
    unfold record. rewrite budget_set_log. lia.
  - unfold payment_data. autorewrite with igor_len. rewrite (pub_key_size s Hok), (payment_sig_size _ _ Hok2).
    unfold PublicKeySize, SignatureSize. lia.
Qed.
Lemma runs_pay amount recipient memo s : host_ok s -> op_fits (OpWalletPay amount recipient memo) -> op_runs (OpWalletPay amount recipient memo) s.
Proof.
  intros Hok [Hr Hm] k g. cbn [live_op wrap]. unfold Sdk.WalletPay.
  destruct (Z.eqb_spec (blen recipient) 0) as [_|Hne]; [split; [done|by exists g]|].
  cbn [lower_sys exec]. rewrite (pay_frame amount recipient memo s g Hok Hne Hr Hm).
  assert (blen (page ++ recipient ++ memo) = f_out (place (SWalletPay amount recipient memo (zeros 1024)))) as Hout
    by (cbn [place f_out]; rewrite !blen_app, blen_page; lia).
  cbn [lower_sys]. destruct (live_pay _ _ _ _ s) as [[receipt|e] s'] eqn:E; cbv beta iota.
  - destruct (live_pay_ok _ _ _ _ _ _ Hok E) as (_ & _ & Hlen). pose proof (blen_nonneg receipt).
    set (pre := page ++ recipient ++ memo) in *. rewrite <- Hout. cbn [set_mem g_mem].
    set (framed := put_u32 (blen receipt) ++ receipt).
    assert (blen framed <= blen (zeros 1024)) as Hle by (unfold framed; rewrite blen_app, blen_put_u32, blen_zeros; lia).
    change (f_cap (place (SWalletPay amount recipient memo (zeros 1024)))) with (blen (zeros 1024)).
    rewrite (slice_filled pre framed (zeros 1024) (blen (zeros 1024)) eq_refl Hle).
    rewrite (i32_id (4 + blen receipt)) by (unfold is_i32; lia).
    destruct (Z.eqb_spec (4 + blen receipt) (-5)); [lia|]. cbn [andb lower_sys].
    destruct (parse_framed (4 + blen receipt) receipt (zeros 1024)) as [Hp _]; [lia|lia|rewrite blen_zeros; lia|].
    fold framed in Hp. rewrite Hp.
    eexists. split; [|reflexivity]. done.
  - destruct (pay_code _ _ _ _ _ _ E) as (c & -> & Hc & Hc5).
    rewrite (i32_id c) by (unfold is_i32; lia). destruct (Z.eqb_spec c (-5)); [lia|]. cbn [andb lower_sys].
    unfold parse_receipt. destruct (Z.ltb_spec c 0); [|lia]. eexists. split; [|reflexivity]. done.
Qed.

(** *** HTTP *)
Definition too_long (method url : string) (headers : list (string * string)) (body : bytes) : bool :=
  (maxMethodBytes <? blen (bytes_of method)) || (maxURLBytes <? blen (bytes_of url)) ||
  (maxHeadersBytes <? blen (encode_headers headers)) || (maxRequestBodyBytes <? blen body).

(** A buffer is read back from where [place] put it, whatever precedes it. *)
Lemma read_placed a x l p n : p = blen a -> n = blen x -> read_at p n (a ++ x ++ l) = Some x.
Proof. intros. by apply read_at_mid. Qed.
Lemma read_optional a x l p : p = blen a ->
  (if 0 <? blen x then Some <$> read_at (ptr_or_null p x) (blen x) (a ++ x ++ l) else Some None) =
  Some (if 0 <? blen x then Some x else None).
Proof.
  intros Hp. destruct (Z.ltb_spec 0 (blen x)); [|done]. unfold ptr_or_null.
  destruct (Z.eqb_spec (blen x) 0); [lia|]. by rewrite (read_placed a x l p).
Qed.

Lemma params_frame method url headers body resp g : op_fits (OpHTTPRequest method url headers body) ->
  let f := place (SHTTPRequest (bytes_of method) (bytes_of url) (encode_headers headers) body resp) in
  match f_call f with
  | HHTTPRequest mp ml up ul hp hl bp bl _ _ =>
      readHTTPParams (W := sdk_wasm A) (set_mem A (f_mem f) g) mp ml up ul hp hl bp bl (i64 (timeoutMs (http_cfg cfg) * 1000000)) =
        if too_long method url headers body then Err httpErrInputTooLong else Ok (http_params (http_cfg cfg) method url headers body)
  | _ => False
  end.
Proof.
  intros (Hm & Hu & Hh & Hb) f. unfold f. cbn [place f_call f_mem].
  set (mb := bytes_of method) in *. set (ub := bytes_of url) in *. set (hb := encode_headers headers) in *.
  rewrite (u32_id _ Hm), (u32_id _ Hu), (u32_id _ Hh), (u32_id _ Hb). unfold readHTTPParams, too_long. fold mb ub hb.
  destruct (_ || _); [done|]. set (m := page ++ mb ++ ub ++ hb ++ body ++ resp).
  change (mem_read (Wasm := sdk_wasm A) (set_mem A m g) ?p ?n) with (read_at p n m).
  assert (read_at base (blen mb) m = Some mb) as -> by by apply (read_placed page mb (ub ++ hb ++ body ++ resp)).
  assert (read_at (base + blen mb) (blen ub) m = Some ub) as ->.
  { unfold m. rewrite (app_assoc page). apply read_placed; [|done]. rewrite blen_app, blen_page. lia. }
  assert ((if 0 <? blen hb then read_at (ptr_or_null (base + blen mb + blen ub) hb) (blen hb) m else Some []) = Some hb) as ->.
  { destruct (Z.ltb_spec 0 (blen hb)).
    - unfold ptr_or_null. destruct (Z.eqb_spec (blen hb) 0); [lia|]. unfold m. rewrite (app_assoc page), (app_assoc (page ++ mb)).
      apply read_placed; [|done]. rewrite !blen_app, blen_page. lia.
    - destruct hb; [done|]. rewrite blen_cons in *. pose proof (blen_nonneg hb). lia. }
  assert ((if 0 <? blen body then Some <$> read_at (ptr_or_null (base + blen mb + blen ub + blen hb) body) (blen body) m else Some None) =
    Some (if 0 <? blen body then Some body else None)) as ->.
  { unfold m. rewrite (app_assoc page), (app_assoc (page ++ mb)), (app_assoc ((page ++ mb) ++ ub)).
    apply read_optional. rewrite !blen_app, blen_page. lia. }
  unfold http_params, mb, ub, hb. by rewrite !string_of_bytes_of.
Qed.

(** What one exchange leaves in the output buffer. *)
Definition reply_buffer (r : reply) (out : bytes) : bytes :=
  match r with
  | RError _ => out
  | RTooLarge needed => filled (put_u32 needed) out
  | RBody _ body => filled (put_u32 (blen body) ++ body) out
  end.
Definition reply_code (r : reply) : Z :=
  match r with RError c => c | RTooLarge _ => httpErrRespTooLarge | RBody status _ => status end.
Definition reply_ok (cap : Z) (r : reply) : Prop :=
  match r with
  | RError c => -4 <= c < 0
  | RTooLarge needed => 0 <= needed < 2 ^ 31
  | RBody status body => 0 <= status < 1000 /\ blen body < 2 ^ 31 /\ 4 + blen body <= cap
  end.

Lemma once_ok req cap s r s' : host_ok s -> live_http_once (http_cfg cfg) req cap s = (r, s') -> reply_ok cap r /\ host_ok s'.
Proof.
  intros Hok. unfold live_http_once, httpErrHostBlocked, httpErrNetwork, httpErrTimeout.
  destruct (negb _); [intros [= <- <-]; split; [cbn; lia|done]|].
  pose proof (http_keeps req s Hok) as Hk. destruct (http_do req s) as [h s1] eqn:E. cbn [snd] in Hk.
  destruct h as [| | |status [body|]]; try (intros [= <- <-]; split; [cbn; lia|done]).
  destruct (http_sizes req s status (Some body) s1 Hok E) as [Hst Hb]. specialize (Hb body eq_refl).
  set (b := take _ _). assert (blen b <= blen body) as Hle by (unfold b, blen; rewrite length_take; lia). pose proof (blen_nonneg b).
  destruct (_ || _) eqn:Eo; intros [= <- <-]; (split; [|done || by apply ok_set_log]); cbn; [lia|].
  apply orb_false_iff in Eo as [_ Eo]. zb. lia.
Qed.

Lemma http_frame method url headers body out s g :
  host_ok s -> op_fits (OpHTTPRequest method url headers body) -> 4 <= blen out < 2 ^ 32 ->
  let f := place (SHTTPRequest (bytes_of method) (bytes_of url) (encode_headers headers) body out) in
  let pre := page ++ bytes_of method ++ bytes_of url ++ encode_headers headers ++ body in
  f_out f = blen pre /\ f_cap f = blen out /\
  host (f_call f) (set_mem A (f_mem f) g) s =
    if too_long method url headers body then (httpErrInputTooLong, set_mem A (pre ++ out) g, s)
    else let '(r, s') := live_http_once (http_cfg cfg) (http_params (http_cfg cfg) method url headers body) (blen out) s in
         (reply_code r, set_mem A (pre ++ reply_buffer r out) g, s').
Proof.
  intros Hok Hfit Hout f pre. pose proof (params_frame method url headers body out g Hfit) as Hp.
  assert (f_mem f = pre ++ out) as Emem by (unfold f, pre; cbn [place f_mem]; by rewrite <- !app_assoc).
  assert (f_out f = blen pre) as Eout by (unfold f, pre; cbn [place f_out]; rewrite !blen_app, blen_page; lia).
  split; [done|]. split; [done|]. cbv zeta in Hp. fold f in Hp. rewrite Emem in *.
  change (f_call f) with (HHTTPRequest base (u32 (blen (bytes_of method))) (base + blen (bytes_of method)) (u32 (blen (bytes_of url)))
    (ptr_or_null (base + blen (bytes_of method) + blen (bytes_of url)) (encode_headers headers)) (u32 (blen (encode_headers headers)))
    (ptr_or_null (base + blen (bytes_of method) + blen (bytes_of url) + blen (encode_headers headers)) body) (u32 (blen body))
    (f_out f) (u32 (blen out))) in *.
  cbv beta iota in Hp. cbn [live_handle]. unfold http_request_. rewrite Hp, Eout, (u32_id (blen out)) by (unfold is_u32; lia).
  destruct (too_long _ _ _ _); [done|]. set (req := http_params _ _ _ _ _). unfold live_http_once.
  destruct (negb _); [done|]. destruct (http_do req s) as [h s1] eqn:E. destruct h as [| | |status [b0|]]; try done.
  destruct (http_sizes req s status (Some b0) s1 Hok E) as [Hst Hb]. specialize (Hb b0 eq_refl).
  set (b := take _ _). assert (blen b <= blen b0) as Hle by (unfold b, blen; rewrite length_take; lia). pose proof (blen_nonneg b).
  assert (write_u32_hint (W := sdk_wasm A) (set_mem A (pre ++ out) g) (blen pre) (blen out) (blen b) =
    set_mem A (pre ++ filled (put_u32 (blen b)) out) g) as Hhint.
  { unfold write_u32_hint. destruct (Z.leb_spec 4 (blen out)); [|lia]. rewrite (u32_id (blen b)) by (unfold is_u32; lia).
    rewrite (mem_write_out pre out) by (rewrite ?blen_put_u32; lia || done). done. }
  rewrite (u32_id (4 + blen b)) by (unfold is_u32; lia).
  destruct (maxRespBytes (http_cfg cfg) <? blen b); cbn [orb]; [by rewrite Hhint|].
  destruct (Z.ltb_spec (blen out) (4 + blen b)); [by rewrite Hhint|].
  rewrite (u32_id (blen b)) by (unfold is_u32; lia).
  rewrite (mem_write_out pre out) by (rewrite ?blen_app, ?blen_put_u32; lia || done).
  by rewrite i32_id by (unfold is_i32; lia).
Qed.

(** What the SDK makes of a reply. *)
Lemma parse_reply r out : 4 <= blen out -> reply_ok (blen out) r ->
  (forall n, r <> RTooLarge n) -> i32 (reply_code r) = reply_code r /\ reply_code r <> -5 /\
  parse_response (reply_code r) (reply_buffer r out) = answer r.
Proof.
  intros Ho Hok Hn. destruct r as [c|needed|status body]; cbn [reply_ok reply_code reply_buffer answer] in *.
  - split_and!; [apply i32_id; unfold is_i32; lia|lia|]. unfold parse_response. destruct (Z.ltb_spec c 0); [done|lia].
  - by destruct (Hn needed).
  - destruct Hok as (Hs & Hb & Hc). split_and!; [apply i32_id; unfold is_i32; lia|lia|].
    by destruct (parse_framed status body out) as [_ ->]; [lia|lia|lia|].
Qed.
Lemma parse_too_large n out : parse_response httpErrRespTooLarge (reply_buffer (RTooLarge n) out) = answer (RTooLarge n).
Proof. done. Qed.

Lemma reply_size r out : 4 <= blen out -> reply_ok (blen out) r -> blen (reply_buffer r out) = blen out.
Proof.
  intros Ho Hok. destruct r as [c|needed|status body]; cbn [reply_ok reply_buffer] in *; [done| |];
    apply blen_filled; rewrite ?blen_app, blen_put_u32; lia.
Qed.
Lemma parse_any r out : 4 <= blen out -> reply_ok (blen out) r -> parse_response (i32 (reply_code r)) (reply_buffer r out) = answer r.
Proof.
  intros Ho Hok. destruct r as [c|n|st b]; [|done|];
    (edestruct (parse_reply _ out Ho Hok) as (-> & _ & ->); done).
Qed.

Lemma runs_http method url headers body s : host_ok s -> op_fits (OpHTTPRequest method url headers body) ->
  op_runs (OpHTTPRequest method url headers body) s.
Proof.
  intros Hok Hfit k g. cbn [live_op wrap]. unfold Sdk.HTTPRequest.
  destruct ((blen (bytes_of method) =? 0) || (blen (bytes_of url) =? 0)); [split; [done|by exists g]|].
  set (out := zeros (Z.to_nat 8192)). assert (blen out = 8192) as Lo by (unfold out; by rewrite blen_zeros).
  destruct (http_frame method url headers body out s g Hok Hfit) as (Eo & Ec & Eh); [lia|].
  cbn [lower_sys exec]. unfold live_http. fold (too_long method url headers body).
  match goal with |- context [live_handle (W := ?w) cfg ?c ?m s] => change (live_handle (W := w) cfg c m s) with
    (host (f_call (place (SHTTPRequest (bytes_of method) (bytes_of url) (encode_headers headers) body out)))
       (set_mem A (f_mem (place (SHTTPRequest (bytes_of method) (bytes_of url) (encode_headers headers) body out))) g) s) end.
  rewrite Eh, Eo, Ec, Lo. set (pre := page ++ _). set (req := http_params _ _ _ _ _).
  destruct (too_long method url headers body) eqn:Etl.
  { cbv beta iota zeta. exists (set_mem A (pre ++ out) g). split; [done|]. cbn. done. }
  destruct (live_http_once (http_cfg cfg) req 8192 s) as [r s1] eqn:E1. destruct (once_ok req 8192 s r s1 Hok E1) as [Hr Hok1].
  rewrite <- Lo in Hr. pose proof (reply_size r out ltac:(lia) Hr) as Lr. cbn [set_mem g_mem].
  assert (slice (blen pre) (blen pre + 8192) (pre ++ reply_buffer r out) = reply_buffer r out) as ->.
  { rewrite <- Lo, <- Lr. apply slice_out. }
  rewrite Lr, Lo. change (4 <=? 8192) with true. rewrite andb_true_r.
  destruct r as [c|needed|status b].
  1,3: destruct (parse_reply _ out ltac:(lia) Hr) as (-> & H5 & Hp); [done|];
    rewrite (proj2 (Z.eqb_neq _ _) H5), Hp; cbv beta iota zeta;
    eexists; (split; [|reflexivity]); done.
  change (i32 (reply_code (RTooLarge needed)) =? -5) with true. cbv iota. cbn [reply_ok] in Hr.
  assert (get_u32 (reply_buffer (RTooLarge needed) out) = needed) as -> by (apply get_u32_head; unfold is_u32; lia).
  change (parse_response (i32 (reply_code (RTooLarge needed))) (reply_buffer (RTooLarge needed) out)) with (answer (RTooLarge needed)).
  destruct ((0 <? needed) && (needed <=? 4 * 1024 * 1024)) eqn:En.
  2: { cbv beta iota zeta. exists (set_mem A (pre ++ reply_buffer (RTooLarge needed) out) g). by split. }
  apply andb_true_iff in En as [En0 En]. zb. cbn [lower_sys exec].
  set (out2 := zeros (Z.to_nat (needed + 4))). assert (blen out2 = needed + 4) as Lo2 by (unfold out2; rewrite blen_zeros; lia).
  destruct (http_frame method url headers body out2 s1 (set_mem A (pre ++ reply_buffer (RTooLarge needed) out) g) Hok1 Hfit) as (Eo2 & Ec2 & Eh2); [lia|].
  fold pre in Eo2, Eh2. cbv zeta in Eh2. fold req in Eh2.
  match goal with |- context [live_handle (W := ?w) cfg ?c ?m s1] => change (live_handle (W := w) cfg c m s1) with
    (host (f_call (place (SHTTPRequest (bytes_of method) (bytes_of url) (encode_headers headers) body out2)))
       (set_mem A (f_mem (place (SHTTPRequest (bytes_of method) (bytes_of url) (encode_headers headers) body out2)))
          (set_mem A (pre ++ reply_buffer (RTooLarge needed) out) g)) s1) end.
  rewrite Eh2, Eo2, Ec2, Lo2, Etl.
  destruct (live_http_once (http_cfg cfg) req (needed + 4) s1) as [r2 s2] eqn:E2.
  destruct (once_ok req (needed + 4) s1 r2 s2 Hok1 E2) as [Hr2 _]. rewrite <- Lo2 in Hr2. cbv beta iota zeta. cbn [set_mem g_mem].
  assert (slice (blen pre) (blen pre + (needed + 4)) (pre ++ reply_buffer r2 out2) = reply_buffer r2 out2) as ->.
  { rewrite <- Lo2, <- (reply_size r2 out2 ltac:(lia) Hr2). apply slice_out. }
  rewrite (parse_any r2 out2 ltac:(lia) Hr2). eexists. split; [|reflexivity]. done.
Qed.

(** *** All of them *)
Lemma op_runs_all {X} (o : sdk_op X) s : host_ok s -> op_fits o -> op_runs o s.
Proof.
  intros Hok Hfit. destruct o.
  - by apply runs_clock.
  - by apply runs_rand.
  - by apply runs_log.
  - by apply runs_balance.
  - apply runs_count.
  - by apply runs_receipt.
  - by apply runs_price.
  - by apply runs_http.
  - by apply runs_pay.
Qed.

Lemma live_op_ok {X} (o : sdk_op X) s : host_ok s -> host_ok (snd (live_op cfg o s)).
Proof.
  intros Hok. assert (forall id p s0, host_ok s0 -> host_ok (record id p s0)) as Hrec by (intros; by apply ok_set_log).
  destruct o; cbn [live_op].
  - pose proof (now_keeps s Hok) as (_ & _ & Hk). destruct (now_unix_nano s). by apply Hrec.
  - unfold live_rand. destruct (_ =? 0); [done|]. destruct (_ <? _); [done|].
    pose proof (rand_keeps (blen buf) s Hok) as [_ Hk]. destruct (crypto_rand _ s) as [[b|] s1]; [by apply Hrec|done].
  - unfold live_log. destruct (_ || _); [done|by apply Hrec].
  - by apply Hrec.
  - by apply Hrec.
  - unfold live_receipt. destruct (GetReceiptBytes _ _); [|done]. destruct (_ <? _); [done|by apply Hrec].
  - by apply Hrec.
  - destruct (_ || _); [done|]. unfold live_http. destruct (_ || _); [done|].
    destruct (live_http_once _ _ 8192 s) as [r s1] eqn:E. apply once_ok in E as [_ Hok1]; [|done].
    destruct r as [|n|]; [done| |done]. destruct (_ && _); [|done].
    destruct (live_http_once _ _ (n + 4) s1) as [r2 s2] eqn:E. by apply once_ok in E as [_ ?].
  - destruct (_ =? 0); [done|]. destruct (live_pay _ _ _ _ s) as [[b|e] s1] eqn:E.
    + by apply live_pay_ok in E as (_ & ? & _).
    + cbn [snd]. revert E. unfold live_pay. repeat (case_match; try by intros [= _ <-]).
Qed.

Lemma live_op_answer {X} (o : sdk_op X) s x s' : host_ok s -> op_fits o -> live_op cfg o s = (Some x, s') -> op_answer o x.
Proof.
  intros Hok Hfit. destruct o; cbn [live_op op_answer].
  - pose proof (now_range s) as Hn. destruct (now_unix_nano s). by intros [= <- _].
  - unfold live_rand. destruct (_ =? 0); [by intros [= <- _]|]. destruct (_ <? _); [by intros [= <- _]|].
    pose proof (rand_size (blen buf) s) as Hs. destruct (crypto_rand _ s) as [[b|] s1]; intros [= <- _]; [|done].
    apply Hs; [apply blen_nonneg|done].
  - done.
  - intros [= <- _]. by apply budget_range.
  - intros [= <- _]. apply i32_range.
  - unfold live_receipt. destruct (GetReceiptBytes _ _) as [d|]; [|by intros [= <- _] b].
    destruct (Z.ltb_spec 1024 (blen d)); intros [= <- _] b; [done|]. by intros [= <-].
  - intros [= <- _]. by apply price_range.
  - destruct ((_ =? 0) || _); [done|]. unfold live_http. destruct (_ || _); [by intros [= <- _]|].
    assert (forall c r, c <= 4 * 1024 * 1024 + 4 -> reply_ok c r -> is_i32 (fst (fst (answer r))) /\ blen (snd (fst (answer r))) <= 4 * 1024 * 1024) as Ha.
    { intros c r Hc Hr. destruct r; cbn [answer fst snd reply_ok] in *; (split; [unfold is_i32; lia|]); try done. lia. }
    destruct (live_http_once _ _ 8192 s) as [r s1] eqn:E. destruct (once_ok _ _ _ _ _ Hok E) as [Hr Hok1].
    destruct r as [c|n|st b].
    1,3: intros [= <- _]; exact (Ha 8192 _ ltac:(lia) Hr).
    destruct (_ && _) eqn:En; [|by intros [= <- _]]. apply andb_true_iff in En as [En0 En]. zb.
    destruct (live_http_once _ _ (n + 4) s1) as [r2 s2] eqn:E2. destruct (once_ok _ _ _ _ _ Hok1 E2) as [Hr2 _].
    intros [= <- _]. apply (Ha (n + 4) r2); [lia|done].
  - destruct (_ =? 0); [done|]. destruct (live_pay _ _ _ _ s) as [[b|e] s1] eqn:E; intros [= <- _] b'; [|done].
    intros [= <-]. apply live_pay_ok in E as (_ & _ & ?); [lia|done].
Qed.

(** A postcondition of the agent's code holds of its runs on the node. *)
Lemma live_act_post {St X} (P : X -> St -> Prop) (t : act St X) : act_post P t -> act_fits t ->
  forall s x st s', host_ok s -> live_act cfg t s = (Some x, st, s') -> P x st /\ host_ok s'.
Proof.
  induction t as [x0 st0|st0|Y o st0 k IH]; intros Ht Hf s x st s' Hok E; cbn [live_act act_post act_all] in *.
  - by injection E as <- <- <-.
  - done.
  - destruct Hf as [Ho Hf]. pose proof (live_op_ok o s Hok) as Hok'. pose proof (live_op_answer o s) as Ha.
    destruct (live_op cfg o s) as [[y|] s1]; [|done]. specialize (Ha y s1 Hok Ho eq_refl). eapply IH; eauto.
Qed.

(** What a run on the node returns is one of its results, and a run that does
    not panic returns. *)
Lemma live_act_can {St X} (t : act St X) : act_fits t -> forall s x st s', host_ok s ->
  live_act cfg t s = (Some x, st, s') -> act_can t x st.
Proof.
  induction t as [x0 st0|st0|Y o st0 k IH]; intros Hf s x st s' Hok E; cbn [live_act act_can act_all] in *.
  - by injection E as <- <- _.
  - done.
  - destruct Hf as [Ho Hf]. pose proof (live_op_ok o s Hok) as Hok'. pose proof (live_op_answer o s) as Ha.
    destruct (live_op cfg o s) as [[y|] s1]; [|done]. specialize (Ha y s1 Hok Ho eq_refl). exists y. split; [done|]. eapply IH; eauto.
Qed.
Lemma live_op_calm {X} (o : sdk_op X) s : op_calm o -> exists x s', live_op cfg o s = (Some x, s').
Proof.
  destruct o; cbn [live_op op_calm]; intros Ho; eauto; try (by destruct (now_unix_nano s); eauto).
  - by destruct (live_rand buf s) as [[? ?] ?]; eauto.
  - by destruct (live_receipt index s); eauto.
  - destruct (Z.eqb_spec (blen (bytes_of method)) 0), (Z.eqb_spec (blen (bytes_of url)) 0); cbn [orb]; try tauto.
    by destruct (live_http _ _ _ _ _ s); eauto.
  - destruct (Z.eqb_spec (blen recipient) 0); [done|]. by destruct (live_pay _ _ _ _ s); eauto.
Qed.
Lemma live_act_returns {St X} (t : act St X) : act_returns t -> act_fits t -> forall s, host_ok s ->
  exists x st s', live_act cfg t s = (Some x, st, s').
Proof.
  induction t as [x0 st0|st0|Y o st0 k IH]; intros Hr Hf s Hok; cbn [live_act act_returns act_all] in *; [eauto|done|].
  destruct Hf as [Ho Hf], Hr as [Hc Hr]. destruct (live_op_calm o s Hc) as (y & s1 & E). rewrite E.
  pose proof (live_op_answer o s y s1 Hok Ho E) as Ha. pose proof (live_op_ok o s Hok) as Hok'. rewrite E in Hok'.
  exact (IH y (Hr y Ha) (Hf y Ha) s1 Hok').
Qed.

(** The wrappers, the buffers and the host functions against the by-value
    specification. *)
Lemma lowered_runs {X} (t : act (AState A) X) (ret : X -> list Z) s g :
  host_ok s -> act_fits t ->
  exists g', exec host (lower A t ret g) s = (ret <$> fst (fst (live_act cfg t s)), g', snd (live_act cfg t s)) /\
    g_agent g' = Some (snd (fst (live_act cfg t s))).
Proof.
  intros Hok Hfit. revert s g Hok. induction t as [x st|st|Y o st k IH]; intros s g Hok; cbn [live_act lower].
  - by exists (set_agent A st g).
  - by exists (set_agent A st g).
  - destruct Hfit as [Hf Hk]. pose proof (op_runs_all o s Hok Hf (fun x => lower A (k x) ret) (set_agent A st g)) as Hr.
    pose proof (live_op_ok o s Hok) as Hok'. pose proof (live_op_answer o s) as Ha.
    destruct (live_op cfg o s) as [[y|] s'].
    + destruct Hr as (g1 & Hg1 & ->). apply IH; [by apply Hk, (Ha y s')|done].
    + destruct Hr as (-> & g1 & Hg1 & ->). exists g1. split; [done|]. by rewrite Hg1.
Qed.

Lemma once_budget req cap s : GetBudget (snd (live_http_once (http_cfg cfg) req cap s)) = GetBudget s.
Proof.
  unfold live_http_once. destruct (negb _); [done|]. pose proof (http_budget req s) as Hb.
  destruct (http_do req s) as [h s1]. cbn [snd] in Hb.
  destruct h as [| | |status [b|]]; try done. destruct (_ || _); [done|]. cbn [snd]. unfold record. by rewrite budget_set_log.
Qed.
Lemma live_op_budget {X} (o : sdk_op X) s y s' : host_ok s -> live_op cfg o s = (Some y, s') ->
  GetBudget s' = GetBudget s - paid_by o y /\ 0 <= paid_by o y.
Proof.
  intros Hok. destruct o; cbn [live_op paid_by]; unfold record.
  - pose proof (now_keeps s Hok) as (_ & Hb & _). destruct (now_unix_nano s) as [n s1]. cbn [snd] in Hb. intros [= _ <-]. rewrite budget_set_log. lia.
  - unfold live_rand. pose proof (rand_budget (blen buf) s) as Hb. destruct (_ =? 0); [intros [= _ <-]; lia|]. destruct (_ <? _); [intros [= _ <-]; lia|].
    destruct (crypto_rand _ s) as [[b|] s1]; cbn [snd] in Hb; intros [= _ <-]; unfold record; rewrite ?budget_set_log; lia.
  - unfold live_log, record. destruct (_ || _); intros [= _ <-]; rewrite ?budget_set_log; lia.
  - intros [= _ <-]. rewrite budget_set_log. lia.
  - intros [= _ <-]. rewrite budget_set_log. lia.
  - unfold live_receipt, record. destruct (GetReceiptBytes _ _); [|intros [= _ <-]; lia]. destruct (_ <? _); intros [= _ <-]; rewrite ?budget_set_log; lia.
  - intros [= _ <-]. rewrite budget_set_log. lia.
  - destruct (_ || _); [done|]. unfold live_http. destruct (_ || _); [intros [= _ <-]; lia|].
    pose proof (once_budget (http_params (http_cfg cfg) method url headers body) 8192 s) as Hb.
    destruct (live_http_once _ _ 8192 s) as [r s1]. cbn [snd] in Hb. destruct r as [c|n|st b]; try (intros [= _ <-]; lia).
    destruct (_ && _); [|intros [= _ <-]; lia].
    pose proof (once_budget (http_params (http_cfg cfg) method url headers body) (n + 4) s1) as Hb2.
    destruct (live_http_once _ _ (n + 4) s1) as [r2 s2]. cbn [snd] in Hb2. intros [= _ <-]; lia.
  - destruct (_ =? 0); [done|]. destruct (live_pay _ _ _ _ s) as [[b|e] s1] eqn:E; intros [= <- <-].
    + apply live_pay_ok in E as ([? _ _ ?] & _); [lia|done].
    + revert E. unfold live_pay. repeat (case_match; try by intros [= _ <-]; lia). all: intros [= _ <-]; lia.
Qed.
(** The node's budget falls by what the run paid. *)
Lemma live_act_paid {St X} (Q : Z -> X -> St -> Prop) (t : act St X) : act_fits t -> forall sum s x st s', act_paid Q sum t ->
  host_ok s -> live_act cfg t s = (Some x, st, s') ->
  exists sum', Q sum' x st /\ GetBudget s' = GetBudget s - (sum' - sum) /\ sum <= sum'.
Proof.
  induction t as [x0 st0|st0|Y o st0 k IH]; intros Hf sum s x st s' Ht Hok E; cbn [live_act act_paid act_all] in *.
  - injection E as <- <- <-. exists sum. split; [done|]. lia.
  - done.
  - destruct Hf as [Ho Hf]. pose proof (live_op_ok o s Hok) as Hok'. pose proof (live_op_answer o s) as Ha. pose proof (live_op_budget o s) as Hb.
    destruct (live_op cfg o s) as [[y|] s1]; [|done]. specialize (Ha y s1 Hok Ho eq_refl). destruct (Hb y s1 Hok eq_refl) as [Hb1 Hp].
    destruct (IH y (Hf y Ha) _ s1 x st s' (Ht y Ha) Hok' E) as (sum' & HQ & Hb2 & Hle). exists sum'. split; [done|]. lia.
Qed.

(** C2: The SDK implements its functions.  A run of agent code compiled
    through the SDK wrappers - buffers in linear memory, raw hostcalls of the
    node's "igor" module, size hints and retries - does to the node and
    returns to the agent exactly what the by-value specification of every
    function says, for any agent code whose buffers fit a 32-bit memory and
    any node in a well-formed state. *)
Theorem sdk_refines_host {X} (t : act (AState A) X) (ret : X -> list Z) s g :
  host_ok s -> act_fits t ->
  exists g', exec host (lower A t ret g) s = (ret <$> fst (fst (live_act cfg t s)), g', snd (live_act cfg t s)) /\
    g_agent g' = Some (snd (fst (live_act cfg t s))).
Proof. apply lowered_runs. Qed.
End Refines.
