(* ===== verification/SdkNode.v ===== *)
(** * SDK agents as instances of a node

    The instance of instance.go as the host of Sdk.v and SdkLive.v: what a
    tick of an SDK agent on a node does to the agent and to the node. *)
From S2P Require Import Prelude Crypto Manifest Storage Replay Instance Wasm TickReplay Sdk SdkLogic EventLog Hostcall SdkLive.
From stdpp Require Import gmap strings.
Open Scope Z_scope.

Section Node.
Context `{CryptoLaws} {St : Type} `{Provider St}.
Implicit Types (i : Instance (St := St)).

(** Documented behaviour of [net/http], and receipts a guest could hold. *)
Definition env_sizes (e : Env) : Prop := forall n r status b, e_http e n r = HResponse status b ->
  0 <= status < 1000 /\ forall body, b = Some body -> blen body < 2 ^ 31.
Definition node_ok i : Prop :=
  host_fit i /\ env_sizes (env i) /\ forall k d, GetReceiptBytes_ i k = Some d -> blen d < 2 ^ 31.

#[export] Instance node_laws : HostLaws (Instance (St := St)) node_ok.
Proof.
  pose proof (instance_host_laws (St := St)) as L. split; try apply L.
  - intros i [? _]. by apply L.
  - intros i [? _]. by apply L.
  - intros i [? _]. by apply L.
  - intros i d [? _]. by apply L.
  - intros a i Ha (Hf & He & Hr). destruct (deduct_some (HostLaws := L) a i Ha Hf) as (i' & Hd & Hb & Hl & Hf').
    exists i'. split_and!; try done. split; [done|]. cbn in Hd. unfold DeductBudget_ in Hd.
    destruct (_ <? _); [done|]. by injection Hd as <-.
  - intros i (Hf & He & Hr). destruct (now_keeps (HostLaws := L) i Hf) as (? & ? & ?). split_and!; done.
  - intros n i (Hf & He & Hr). destruct (rand_keeps (HostLaws := L) n i Hf) as (? & ?). split_and!; done.
  - intros r i (Hf & He & Hr). pose proof (http_keeps (HostLaws := L) r i Hf). split_and!; done.
  - intros l i (Hf & He & Hr). pose proof (ok_set_log (HostLaws := L) l i Hf). split_and!; done.
Qed.
#[export] Instance node_sizes : HostSizes (Instance (St := St)) node_ok.
Proof.
  split.
  - intros r i status b i' (_ & He & _). cbn [http_do instance_env]. intros [= E _]. by eapply He.
  - intros i k d (_ & _ & Hr). apply Hr.
  - done.
  - done.
Qed.
End Node.

(** ** What a tick does not touch *)
Section Fixed.
Context {W : Wasm} `{!WasmLaws W} `{CryptoLaws} `{JSON} {St : Type} `{Provider St}.
Implicit Types (i : Instance (St := St)).
(** The view of the instance that hostcalls leave alone. *)
Definition fixed i := (AgentID i, env i, PricePerSecond i, Receipts i, signingKey i, Lease i, WASMHash i, PrevCheckpointHash i, Storage i).
Lemma fixed_inert : inert fixed.
Proof. split; [|done]. by intros i i' (b & l & n & ->). Qed.
Lemma fixed_touched i i' : touched i i' -> fixed i' = fixed i.
Proof. by intros (b & l & n & ->). Qed.
Lemma Tick_fixed m i r m' i' : Instance.Tick m i = (r, m', i') -> fixed i' = fixed i.
Proof.
  apply (Tick_respects (fun i i' => fixed i' = fixed i)); try done. split; [done|by intros ??? -> ->|].
  intros ??????? E%live_handle_touched. by apply fixed_touched.
Qed.
Lemma Tick_number m i more m' i' : Instance.Tick m i = (Ok more, m', i') -> Instance.TickNumber i' = u64 (Instance.TickNumber i + 1).
Proof.
  intros HT. destruct (Tick_steps _ _ _ _ _ HT) as (pre & m1 & i1 & rs & m2 & i2 & sealed & l & post & m3 & i3 &
    E1 & _ & E2 & _ & E3 & _ & _ & ->).
  apply captureState_touched in E1 as (b1 & l1 & n1 & ->). apply exec_touched in E2 as (b2 & l2 & n2 & ->).
  by apply captureState_touched in E3 as (b3 & l3 & n3 & ->).
Qed.
End Fixed.

(** ** A tick of an SDK agent *)
Section Ticks.
Context (A : Agent) `{CryptoLaws} `{JSON} {St : Type} `{Provider St}.
Context (I : AState A -> Prop) `{!Checkpointable A I}.
Implicit Types (i : Instance (St := St)) (m : guest A).

Lemma capture_sdk wrap m i st : g_agent m = Some st -> I st -> exists m', g_agent m' = Some st /\
  captureState (W := sdk_wasm A) wrap m i = (Ok (Marshal A st), m', i).
Proof.
  intros Hm HI. unfold captureState, on_module.
  rewrite (sdk_capture A (handle (W := sdk_wasm A) i) st m i Hm (marshal_size st HI)).
  eexists. split; [|reflexivity]. done.
Qed.

Lemma entering_ok i : node_ok i -> node_ok (entering i).
Proof. done. Qed.

Lemma node_ok_charge w l i : node_ok i -> node_ok (charge (set_ReplayWindow w (set_EvLog l i))).
Proof. intros ((Hb & Hp & Hi) & He & Hr). split_and!; [split_and!; [apply i64_range|done|done]|done|done]. Qed.
(** A successful tick of the node is one run of the agent's [Tick] on it,
    charged for its time. *)
Lemma Tick_runs m i more m' i' st :
  Instance.Tick (W := sdk_wasm A) m i = (Ok more, m', i') ->
  g_agent m = Some st -> I st -> node_ok i -> act_fits (Tick A st) ->
  exists st' i2 w l, live_act (hostCfg i) (Tick A st) (entering i) = (Some more, st', i2) /\
    I st' /\ g_agent m' = Some st' /\ node_ok i2 /\ i' = charge (set_ReplayWindow w (set_EvLog l i2)).
Proof.
  intros HT Hm HI Hok Hfit.
  destruct (Tick_steps (W := sdk_wasm A) _ _ _ _ _ HT) as (pre & m1 & i1 & rs & m2 & i2 & sealed & l & post & m3 & i3 &
    E1 & _ & E2 & _ & E3 & -> & -> & ->).
  destruct (capture_sdk ErrWasm m i st Hm HI) as (m1' & Hm1 & E1'). rewrite E1' in E1. injection E1 as _ -> ->.
  change (invoke m1 "agent_tick" []) with (agent_tick A m1) in E2. unfold agent_tick in E2. rewrite Hm1 in E2.
  destruct (lowered_runs A (host_ok := node_ok) (hostCfg i1) (Tick A st) (fun b : bool => [if b then 1 else 0]) (entering i1) m1)
    as (g' & Eg & Hg'); [done|done|].
  unfold handle in E2. change (hostCfg (entering i1)) with (hostCfg i1) in E2. rewrite Eg in E2. clear Eg.
  destruct (live_act (hostCfg i1) (Tick A st) (entering i1)) as [[r st'] i2'] eqn:EL. cbn [fst snd] in *.
  injection E2 as Er -> ->. destruct r as [b|]; [|done]. injection Er as <-.
  destruct (live_act_post (host_ok := node_ok) (hostCfg i1) (fun _ => I) (Tick A st) (tick_keeps st HI) Hfit _ _ _ _ (entering_ok i1 Hok) EL)
    as [HI' Hok2].
  destruct (capture_sdk ErrPostState m2 (set_EvLog l i2) st' Hg' HI') as (m3' & Hm3 & E3'). rewrite E3' in E3. injection E3 as _ <- <-.
  eexists st', i2, _, l. split_and!; [by destruct b|done|done|done|reflexivity].
Qed.
End Ticks.
