(* ===== verification/AgentKit.v ===== *)
(** * What the shipped agents share

    The SDK functions as programs, [Logf], the shape of every agent's
    [Unmarshal], and the tactics that prove its round trip and the invariants
    of its ticks. *)
From S2P Require Import Prelude Budget Codec Effects Wasm TickReplay Sdk SdkLogic.
From stdpp Require Import pretty.
Open Scope Z_scope.

(** ** The SDK's functions *)
Section Functions.
Context {S : Type}.
Definition ClockNow : Sdk S Z := perform OpClockNow.
(** [_ = RandBytes(buf)]: the buffer afterwards. *)
Definition RandBytes (buf : bytes) : Sdk S bytes := r ← perform (OpRandBytes buf); mret (snd r).
Definition WalletBalance : Sdk S Z := perform OpWalletBalance.
Definition WalletPay (amount : Z) (recipient memo : bytes) : Sdk S (result sdk_error bytes) := perform (OpWalletPay amount recipient memo).
Definition HTTPRequest (method url : string) (headers : list (string * string)) (body : bytes) : Sdk S (Z * bytes * option sdk_error) :=
  perform (OpHTTPRequest method url headers body).
Definition HTTPGet (url : string) : Sdk S (Z * bytes * option sdk_error) := HTTPRequest "GET" url [] [].
Definition HTTPPost (url contentType : string) (body : bytes) : Sdk S (Z * bytes * option sdk_error) :=
  HTTPRequest "POST" url [("Content-Type"%string, contentType)] body.

(** The verbs of the agents' log lines: text, [%d], [%02d], [%s] of bytes,
    [%x] of bytes and [%08x]. *)
Inductive verb := T (s : string) | D (z : Z) | D2 (z : Z) | V (b : bytes) | X (b : bytes) | X8 (z : Z).
Definition hex_digit (n : Z) : Byte.byte := byte_of_Z (if n <? 10 then 48 + n else 87 + n).
Definition hex (b : bytes) : bytes := flat_map (fun c => [hex_digit (Z_of_byte c / 16); hex_digit (Z_of_byte c mod 16)]) b.
Definition format_verb (v : verb) : bytes :=
  match v with
  | T s => bytes_of s
  | D z => bytes_of (pretty z)
  | D2 z => bytes_of (pad0 2 z)
  | V b => b
  | X b => hex b
  | X8 z => hex (rev (put_u32 z))
  end.
Definition Logf (l : list verb) : Sdk S unit := perform (OpLog (flat_map format_verb l)).
End Functions.
(** [id[:4]] panics on a shorter slice. *)
Definition first4 {S} (b : bytes) : Sdk S bytes := if blen b <? 4 then panic else mret (take 4 b).
(** [err.Error()] of the SDK's errors. *)
Definition http_error_text (e : sdk_error) : bytes :=
  match e with
  | ErrCode c => bytes_of "http_request failed: code " ++ bytes_of (pretty c)
  | ErrTruncated => bytes_of "http_request: response body truncated"
  | ErrText text => text
  end.
Definition pay_error_text (e : sdk_error) : bytes :=
  match e with
  | ErrCode c =>
      if c =? -1 then bytes_of "wallet_pay: insufficient budget"
      else if c =? -2 then bytes_of "wallet_pay: input too long"
      else if c =? -3 then bytes_of "wallet_pay: recipient not allowed"
      else if c =? -4 then bytes_of "wallet_pay: amount exceeds cap"
      else bytes_of "wallet_pay failed: code " ++ bytes_of (pretty c)
  | ErrTruncated => bytes_of "wallet_pay: receipt truncated"
  | ErrText text => text
  end.

Example format_line : flat_map format_verb [T "tick="; D 7; T " $"; D 12; T "."; D2 5; T " 0x"; X8 48879; T " "; X (bytes_of "AZ")]
  = bytes_of "tick=7 $12.05 0x0000beef 415a".
Proof. vm_compute. reflexivity. Qed.

Lemma blen_hex b : blen (hex b) = 2 * blen b.
Proof. induction b as [|c b IH]; [done|]. unfold hex in *. cbn [flat_map]. rewrite blen_app, IH, !blen_cons, blen_nil. lia. Qed.

(** The length of a number's digits. *)
Lemma length_pretty_N_go k : forall x s, (x < 10 ^ N.of_nat k)%N -> (String.length (pretty_N_go x s) <= k + String.length s)%nat.
Proof.
  induction k as [|k IH]; intros x s Hx; [replace x with 0%N by (cbn in Hx; lia); done|].
  destruct (N.eq_dec x 0%N) as [->|Hn]; [rewrite pretty_N_go_0; lia|]. rewrite pretty_N_go_step by lia.
  etransitivity; [apply IH|cbn; lia]. apply N.Div0.div_lt_upper_bound.
  replace (10 * 10 ^ N.of_nat k)%N with (10 ^ N.of_nat (S k))%N by by rewrite Nat2N.inj_succ, N.pow_succ_r'. done.
Qed.
Lemma blen_bytes_of s : blen (bytes_of s) = Z.of_nat (String.length s).
Proof. unfold blen, bytes_of. f_equal. induction s as [|c s IH]; [done|]. cbn. by rewrite <- IH. Qed.
Lemma blen_pretty_N x : (x < 10 ^ 19)%N -> (String.length (pretty x) <= 19)%nat.
Proof. intros Hx. unfold pretty, pretty_N. destruct (decide _); [cbn; lia|]. exact (length_pretty_N_go 19 x "" Hx). Qed.
Lemma blen_pretty z : is_i64 z -> blen (bytes_of (pretty z)) <= 20.
Proof.
  unfold is_i64. intros Hz. rewrite blen_bytes_of.
  assert (forall p, Z.pos p <= 2 ^ 63 -> (String.length (pretty (N.pos p)) <= 19)%nat) as Hp.
  { intros p Hp. apply blen_pretty_N. apply N2Z.inj_lt.
    change (Z.pos p < 10000000000000000000). lia. }
  destruct z as [|p|p]; [done|..]; specialize (Hp p ltac:(lia)).
  - change (Z.of_nat (String.length (pretty (N.pos p))) <= 20). lia.
  - change (Z.of_nat (S (String.length (pretty (N.pos p)))) <= 20). lia.
Qed.
(** A log line of texts, numbers and short byte strings is recorded. *)
Ltac line_recorded :=
  cbn [flat_map format_verb app]; rewrite ?blen_app; change (blen (@nil Byte.byte)) with 0;
  repeat match goal with |- context [blen (bytes_of (pretty ?z))] =>
    let H := fresh in assert (0 <= blen (bytes_of (pretty z)) <= 20) as H; [split; [apply blen_nonneg|apply blen_pretty]|];
    [..|revert H; generalize (blen (bytes_of (pretty z))); intros]
  end;
  repeat match goal with |- context [blen (bytes_of ?s)] =>
    let n := eval vm_compute in (blen (bytes_of s)) in change (blen (bytes_of s)) with n end.

(** ** Unmarshalling *)
(** Read the fields, then panic if a read came short. *)
Definition unmarshal_with {S} (m : Dec S) (data : bytes) : S * bool :=
  let '(s, d) := m (NewDecoder data) in (s, negb (Err_ d)).
Lemma unmarshal_reads {S} (m : Dec S) enc s : reads m enc s -> unmarshal_with m enc = (s, true).
Proof.
  intros Hm. destruct (reads_run m enc s [] Hm) as (d & E & Hd & _). rewrite app_nil_r in E.
  unfold unmarshal_with, Err_. by rewrite E, Hd.
Qed.

Lemma is_u64_S x : is_u64 (u64 x).
Proof. apply u64_range. Qed.
#[export] Hint Resolve is_u64_S : igor.

Lemma Enc_Bool_app v e : Enc_Bool v e = e ++ [byte_of_Z (if v then 1 else 0)].
Proof. by destruct v. Qed.
Lemma blen_zero {A} (l : list A) : blen l = 0 -> l = [].
Proof. by destruct l. Qed.
Lemma blen_one {A} (x : A) : blen [x] = 1.
Proof. done. Qed.
#[export] Hint Rewrite @blen_one : igor_len.
(** Unfold the encoder chain into a concatenation and read it back. *)
Ltac encoder_unfold :=
  rewrite ?Enc_Bool_app; unfold Finish, Enc_Int64, Enc_Int32, Enc_Uint64, Enc_Uint32, Enc_Bytes, Enc_Raw, Enc_Uint32, NewEncoder;
  rewrite ?app_nil_l.
Ltac read_back :=
  apply unmarshal_reads;
  match goal with |- reads _ ?e _ => rewrite <- (app_nil_r e) end;
  encoder_unfold; rewrite <- ?app_assoc;
  repeat first [reads_step | rewrite (app_assoc (put_u32 _)); reads_step].

(** A postcondition of a tick, one SDK answer or branch at a time. *)
Ltac tick_step :=
  lazymatch goal with
  | |- act_post _ ((modify _ ≫= _) _) => apply post_modify; cbv beta
  | |- act_post _ ((get ≫= _) _) => apply post_get; cbv beta
  | |- act_post _ ((mret _ ≫= _) _) => apply post_ret_bind; cbv beta
  | |- act_post _ ((panic ≫= _) _) => apply post_panic_bind
  | |- act_post _ ((perform _ ≫= _) _) => apply post_perform; cbn [op_answer]; intros; cbv beta
  | |- act_post _ (((_ ≫= _) ≫= _) _) => apply post_assoc; cbv beta
  | |- act_post _ ((match ?x with _ => _ end ≫= _) _) => destruct x eqn:?
  | |- act_post _ ((let '_ := ?x in _) _) => destruct x eqn:?
  | |- act_post _ ((match ?x with _ => _ end) _) => destruct x eqn:?
  | |- act_post _ (mret _ _) => apply post_ret
  | |- act_post _ (panic _) => apply post_panic
  | |- act_post _ (perform _ _) => apply post_last; cbn [op_answer]; intros
  end.
Ltac tick_fold :=
  unfold Logf, ClockNow, RandBytes, WalletBalance, WalletPay, HTTPGet, HTTPPost, HTTPRequest, first4.
Ltac tick_post := tick_fold; repeat tick_step.

(** The fields of the state a tick leaves. *)
Ltac field_ok := cbn; repeat case_match_goal; auto with igor.

(** ** Searching text *)
Definition quote : bytes := [byte_of_Z 34].
Definition quoted (s : string) : bytes := quote ++ bytes_of s ++ quote.
(** [indexOf]: the first occurrence. *)
Fixpoint indexOf (s needle : bytes) : option nat :=
  if bool_decide (take (length needle) s = needle) then Some O
  else match s with [] => None | _ :: s => S <$> indexOf s needle end.

(** ** Effect logs in agents *)
Definition effect_error_text (e : effect_error) : bytes :=
  match e with
  | errIntentExists => bytes_of "igor: intent ID already exists"
  | errIntentNotFound => bytes_of "igor: intent not found"
  | errInvalidTransition => bytes_of "igor: invalid intent state transition"
  end.
Fixpoint for_each {S X} (l : list X) (f : X -> Sdk S unit) : Sdk S unit :=
  match l with [] => mret tt | x :: l => _ ← f x; for_each l f end.
(** The first of the pending intents that is only recorded. *)
Definition first_recorded (e : EffectLog) : option Intent := List.find (fun i => IState i =? Recorded) (Pending e).

(** The log of an agent that settles an intent in the tick that begins it: at
    most one intent, and not begun. *)
Inductive waiting (limit : Z) : EffectLog -> Prop :=
| w_none : waiting limit []
| w_one id d : blen id = 16 -> blen d <= limit -> waiting limit [mkIntent id Recorded d].
Lemma waiting_ok limit e : limit < 2 ^ 32 -> waiting limit e -> log_ok e.
Proof.
  intros Hl Hw. destruct Hw as [|id d Hid Hd]; (split; [|vm_compute; split; congruence]); [constructor|].
  repeat constructor; cbn [IState ID Data]; unfold is_u32, Recorded; try lia. apply blen_nonneg.
Qed.
Lemma waiting_size limit e : 0 <= limit -> waiting limit e -> blen (Effects.Marshal e) <= 29 + limit.
Proof.
  intros Hl Hw. rewrite Marshal_eq. destruct Hw as [|id d Hid Hd]; cbn [fmap list_fmap concat]; [change (blen _) with 4; lia|].
  unfold intent_bytes. cbn [IState ID Data]. autorewrite with igor_len. lia.
Qed.
Lemma waiting_resumes limit e : limit < 2 ^ 32 -> waiting limit e -> Effects.Unmarshal (Effects.Marshal e) = e.
Proof. intros Hl Hw. rewrite Unmarshal_Marshal by (by apply (waiting_ok limit)). by destruct Hw. Qed.
Lemma waiting_unresolved limit e : waiting limit e -> Unresolved_ e = [].
Proof. by intros []. Qed.
Lemma waiting_first limit e : waiting limit e -> first_recorded e = head e.
Proof. by intros []. Qed.
(** Begun, settled and pruned, the one intent is gone. *)
Section Settle.
Context (id d : bytes).
Local Abbreviation one s := [mkIntent id s d].
Lemma has_own_id s : has_id id (mkIntent id s d) = true.
Proof. unfold has_id. cbn [ID]. by rewrite bool_decide_true. Qed.
Lemma begin_one : Begin id (one Recorded) = (Ok tt, one InFlight).
Proof. unfold Begin. cbn [Effects.find set_state]. by rewrite has_own_id. Qed.
Lemma confirm_one : Confirm id (one InFlight) = (Ok tt, one Confirmed).
Proof. unfold Confirm. cbn [Effects.find set_state]. by rewrite has_own_id. Qed.
Lemma compensate_one : Compensate id (one InFlight) = (Ok tt, one Compensated).
Proof. unfold Compensate. cbn [Effects.find set_state]. by rewrite has_own_id. Qed.
Lemma compensate_recorded : Compensate id (one Recorded) = (Err errInvalidTransition, one Recorded).
Proof. unfold Compensate. cbn [Effects.find set_state]. by rewrite has_own_id. Qed.
Lemma prune_confirmed : Prune (one Confirmed) = (1, []).
Proof. done. Qed.
Lemma prune_compensated : Prune (one Compensated) = (1, []).
Proof. done. Qed.
Lemma record_first : Record_ id d [] = (Ok tt, one Recorded).
Proof. done. Qed.
End Settle.

(** ** Lives of [n] ticks *)
(** The states after [n] ticks that returned and any number of restarts, in a
    world where every tick left a state in [P]. *)
Inductive lived (A : Agent) (P : AState A -> Prop) : nat -> AState A -> Prop :=
| lived_born : lived A P 0 (new A)
| lived_tick n s more s' : lived A P n s -> act_can (Tick A s) more s' -> P s' -> lived A P (S n) s'
| lived_restart n s s' : lived A P n s -> AUnmarshal A (Marshal A s) (new A) = (s', true) -> lived A P n s'.
(** An invariant indexed by the number of ticks; restarts keep it for free. *)
Lemma lived_invariant A I `{!Checkpointable A I} P (J : nat -> AState A -> Prop) :
  I (new A) -> J 0%nat (new A) ->
  (forall n s, I s -> J n s -> act_post (fun _ s' => P s' -> J (S n) s') (Tick A s)) ->
  forall n s, lived A P n s -> I s /\ J n s.
Proof.
  intros HI0 HJ0 Hstep n s Hl. induction Hl as [|n s more s' Hl [HI HJ] Hc HP|n s s' Hl [HI HJ] E]; [done|..].
  - split; [exact (act_post_can _ _ _ _ (tick_keeps s HI) Hc)|]. exact (act_post_can _ _ _ _ (Hstep n s HI HJ) Hc HP).
  - rewrite (marshal_roundtrip s HI) in E. by injection E as <-.
Qed.
(** Lives under answers of [E], with the payments made in them so far: [n]
    ticks that returned, and restarts from the checkpoint of the state left. *)
Inductive told_life (A : Agent) (E : telling) : nat -> AState A -> list Z -> Prop :=
| tl_born : told_life A E 0 (new A) []
| tl_tick n s l more s' l' : told_life A E n s l -> act_told E (Tick A s) l more s' l' -> told_life A E (S n) s' l'
| tl_restart n s l s' : told_life A E n s l -> AUnmarshal A (Marshal A s) (new A) = (s', true) -> told_life A E n s' l.
Lemma told_life_invariant A I `{!Checkpointable A I} E (J : nat -> AState A -> list Z -> Prop) :
  I (new A) -> J 0%nat (new A) [] ->
  (forall n s l, I s -> J n s l -> act_books E (fun l' _ s' => J (S n) s' l') l (Tick A s)) ->
  forall n s l, told_life A E n s l -> I s /\ J n s l.
Proof.
  intros HI0 HJ0 Hstep n s l Hl. induction Hl as [|n s l more s' l' Hl [HI HJ] Ht|n s l s' Hl [HI HJ] Eu]; [done|..].
  - split; [exact (act_post_can _ _ _ _ (tick_keeps s HI) (told_can _ _ _ _ _ Ht))|]. exact (books_told _ _ _ _ _ _ (Hstep n s l HI HJ) Ht).
  - rewrite (marshal_roundtrip s HI) in Eu. by injection Eu as <-.
Qed.
(** What the answers guarantee of the states, the ticks of such a life do. *)
Lemma told_lived A I `{!Checkpointable A I} E (P : AState A -> Prop) : I (new A) ->
  (forall s l, I s -> act_books E (fun _ _ s' => P s') l (Tick A s)) ->
  forall n s l, told_life A E n s l -> lived A P n s.
Proof.
  intros HI0 Hstep. assert (forall n s l, told_life A E n s l -> I s /\ lived A P n s) as Hl; [|intros n s l H; exact (proj2 (Hl n s l H))].
  intros n s l Hl. induction Hl as [|n s l more s' l' Hl [HI IH] Ht|n s l s' Hl [HI IH] Eu].
  - split; [done|constructor].
  - pose proof (told_can _ _ _ _ _ Ht) as Hc. split; [exact (act_post_can _ _ _ _ (tick_keeps s HI) Hc)|].
    exact (lived_tick A P n s more s' IH Hc (books_told _ _ _ _ _ _ (Hstep s l HI) Ht)).
  - split; [rewrite (marshal_roundtrip s HI) in Eu; by injection Eu as <-|]. by apply (lived_restart A P n s).
Qed.
(** ** Running a tick on given answers *)
(** What one tick is told: the clock, the balance, and the answers to its HTTP
    requests and payments, in order. *)
Record answers := mkAnswers { a_clock : Z; a_balance : Z; a_http : list (Z * bytes * option sdk_error); a_pay : list (result sdk_error bytes) }.
(** The clock and nothing else. *)
Definition told (now : Z) : answers := mkAnswers now 0 [] [].
Definition answer {X} (o : sdk_op X) (w : answers) : option (X * answers) :=
  match o in sdk_op X return option (X * answers) with
  | OpClockNow => Some (a_clock w, w)
  | OpRandBytes buf => Some ((Ok tt, buf), w)
  | OpLog _ => Some (tt, w)
  | OpWalletBalance => Some (a_balance w, w)
  | OpNodePrice => Some (0, w)
  | OpHTTPRequest _ _ _ _ =>
      match a_http w with r :: l => Some (r, mkAnswers (a_clock w) (a_balance w) l (a_pay w)) | [] => None end
  | OpWalletPay _ _ _ =>
      match a_pay w with r :: l => Some (r, mkAnswers (a_clock w) (a_balance w) (a_http w) l) | [] => None end
  | _ => None
  end.
Fixpoint act_run {S A} (t : act S A) (w : answers) : option (A * S) :=
  match t with
  | Done a s => Some (a, s)
  | Panic _ => None
  | Vis o _ k => match answer o w with Some (x, w) => act_run (k x) w | None => None end
  end.
Definition answers_ok (w : answers) : Prop :=
  is_i64 (a_clock w) /\ is_i64 (a_balance w) /\ Forall (fun r => is_i32 (fst (fst r)) /\ blen (snd (fst r)) <= 4 * 1024 * 1024) (a_http w) /\
  Forall (fun r => forall b, r = Ok b -> blen b <= 64 * 1024) (a_pay w).
Definition answers_okb (w : answers) : bool :=
  let i64b x := (- 2 ^ 63 <=? x) && (x <? 2 ^ 63) in
  i64b (a_clock w) && i64b (a_balance w) &&
  forallb (fun r => (- 2 ^ 31 <=? fst (fst r)) && (fst (fst r) <? 2 ^ 31) && (blen (snd (fst r)) <=? 4 * 1024 * 1024)) (a_http w) &&
  forallb (fun r => match r with Ok b => blen b <=? 64 * 1024 | Err _ => true end) (a_pay w).
Lemma answers_okb_ok ws : forallb answers_okb ws = true -> Forall answers_ok ws.
Proof.
  rewrite forallb_forall, Forall_forall. intros Hw w Hin. specialize (Hw w (proj1 (list_elem_of_In _ _) Hin)). unfold answers_okb in Hw.
  rewrite !andb_true_iff, !forallb_forall in Hw. destruct Hw as [[[[? ?] [? ?]] Hh] Hp]. zb.
  split; [unfold is_i64; lia|]. split; [unfold is_i64; lia|]. split; apply Forall_forall; intros r Hr%list_elem_of_In.
  - specialize (Hh r Hr). cbn beta in Hh. rewrite !andb_true_iff in Hh. destruct Hh as [[? ?] ?]. zb. unfold is_i32. lia.
  - intros b ->. specialize (Hp _ Hr). cbn in Hp. by zb.
Qed.
Lemma answer_can {X} (o : sdk_op X) w x w' : answers_ok w -> answer o w = Some (x, w') -> op_answer o x /\ answers_ok w'.
Proof.
  intros Hw. pose proof Hw as (Hc & Hb & Hh & Hp). destruct o; cbn; try done; try (intros [= <- <-]; split; [|done]; try done; try (unfold is_i64; lia)).
  - destruct w as [c bal [|r l] ps]; cbn in *; [done|]. intros [= <- <-]. apply Forall_cons in Hh as [Hr Hh]. split; [exact Hr|]. split; [exact Hc|]. split; [exact Hb|]. by split.
  - destruct w as [c bal hs [|r l]]; cbn in *; [done|]. intros [= <- <-]. apply Forall_cons in Hp as [Hr Hp]. split; [exact Hr|]. split; [exact Hc|]. split; [exact Hb|]. by split.
Qed.
Lemma act_run_can {S A} (t : act S A) : forall w a s, answers_ok w -> act_run t w = Some (a, s) -> act_can t a s.
Proof.
  induction t as [b s0|s0|X o s0 k IH]; intros w a s Hw; cbn; [by intros [= <- <-]|done|].
  destruct (answer o w) as [[x w']|] eqn:E; [|done]. destruct (answer_can o w x w' Hw E) as [Hx Hw']. eauto.
Qed.
(** A life that can be computed: ticks told [ws], with a restart before each
    of them. *)
Fixpoint run_life (A : Agent) (p : AState A -> bool) (ws : list answers) (s : AState A) : option (AState A) :=
  match ws with
  | [] => Some s
  | w :: ws =>
      match AUnmarshal A (Marshal A s) (new A) with
      | (s, true) =>
          match act_run (Tick A s) w with
          | Some (_, s) => if p s then run_life A p ws s else None
          | None => None
          end
      | (_, false) => None
      end
  end.
Lemma run_life_lived A (P : AState A -> Prop) p ws : (forall s, p s = true -> P s) -> forall n s s', Forall answers_ok ws ->
  lived A P n s -> run_life A p ws s = Some s' -> lived A P (length ws + n) s'.
Proof.
  intros Hp. induction ws as [|w ws IH]; intros n s s' Hw Hl; cbn [run_life]; [by intros [= <-]|]. apply Forall_cons in Hw as [Hw Hws].
  destruct (AUnmarshal A (Marshal A s) (new A)) as [s1 []] eqn:E1; [|done].
  destruct (act_run (Tick A s1) w) as [[more s2]|] eqn:E2; [|done]. destruct (p s2) eqn:E3; [|done].
  intros Hr. replace (length (w :: ws) + n)%nat with (length ws + S n)%nat by (cbn; lia). apply (IH _ s2); [done| |done].
  apply (lived_tick A P n s1 more s2); [by apply (lived_restart A P n s)|by apply (act_run_can _ w)|by apply Hp].
Qed.
(** The same as a life under answers of [E], which all of [ws] give. *)
Definition gives (E : telling) (w : answers) : Prop :=
  E _ OpClockNow (a_clock w) /\ (forall buf, E _ (OpRandBytes buf) (Ok tt, buf)) /\ (forall msg, E _ (OpLog msg) tt) /\
  E _ OpWalletBalance (a_balance w) /\ E _ OpNodePrice 0 /\
  (forall m u h b, Forall (E _ (OpHTTPRequest m u h b)) (a_http w)) /\ (forall a r m, Forall (E _ (OpWalletPay a r m)) (a_pay w)).
Lemma answer_gives E {X} (o : sdk_op X) w x w' : gives E w -> answer o w = Some (x, w') -> E _ o x /\ gives E w'.
Proof.
  intros Hw. pose proof Hw as (Hc & Hr & Hl & Hb & Hn & Hh & Hp). destruct o; cbn; try done; try (by intros [= <- <-]).
  - destruct w as [c bal [|r l] ps]; cbn in *; [done|]. intros [= <- <-]. split; [exact (Forall_inv (Hh _ _ _ _))|].
    split_and!; try done. intros m u h b. exact (Forall_inv_tail (Hh m u h b)).
  - destruct w as [c bal hs [|r l]]; cbn in *; [done|]. intros [= <- <-]. split; [exact (Forall_inv (Hp _ _ _))|].
    split_and!; try done. intros a r0 m. exact (Forall_inv_tail (Hp a r0 m)).
Qed.
Lemma act_run_told E {S A} (t : act S A) : forall w l a s, answers_ok w -> gives E w -> act_run t w = Some (a, s) -> exists l', act_told E t l a s l'.
Proof.
  induction t as [b s0|s0|X o s0 k IH]; intros w l a s Hw HE; cbn; [intros [= <- <-]; by exists l|done|].
  destruct (answer o w) as [[x w']|] eqn:Ea; [|done]. destruct (answer_can o w x w' Hw Ea) as [Hx Hw'].
  destruct (answer_gives E o w x w' HE Ea) as [HEx HE']. intros Hr. destruct (IH x w' (l ++ payments o x) a s Hw' HE' Hr) as (l' & Ht). exists l', x. done.
Qed.
Lemma run_life_told A E p ws : forall n s l s', Forall answers_ok ws -> Forall (gives E) ws ->
  told_life A E n s l -> run_life A p ws s = Some s' -> exists l', told_life A E (length ws + n) s' l'.
Proof.
  induction ws as [|w ws IH]; intros n s l s' Hw HE Hl; cbn [run_life]; [intros [= <-]; by exists l|].
  apply Forall_cons in Hw as [Hw Hws]. apply Forall_cons in HE as [HE HEs].
  destruct (AUnmarshal A (Marshal A s) (new A)) as [s1 []] eqn:E1; [|done].
  destruct (act_run (Tick A s1) w) as [[more s2]|] eqn:E2; [|done]. destruct (p s2); [|done].
  destruct (act_run_told E _ w l more s2 Hw HE E2) as (l2 & Ht).
  intros Hr. replace (length (w :: ws) + n)%nat with (length ws + S n)%nat by (cbn; lia). apply (IH _ s2 l2); [done|done| |done].
  apply (tl_tick A E n s1 l more s2 l2); [by apply (tl_restart A E n s)|done].
Qed.
