(* ===== verification/Watchers.v ===== *)
(** * The stateless-world agents: heartbeat, survivor, price watcher and
      liquidation watcher (agents/heartbeat, agents/research/example,
      agents/pricewatcher, agents/liquidation)

    Each agent is its state, its [Tick] over the SDK, its [Marshal] and
    [Unmarshal], and the proof that it is [Checkpointable]. *)
From S2P Require Import Prelude Codec Wasm TickReplay Sdk AgentKit.
From stdpp Require Import relations strings.
Open Scope Z_scope.

(** The agents read the age in whole seconds, [(last - birth) / 1e9] on int64. *)
Definition age (last birth : Z) : Z := Z.quot (i64 (last - birth)) 1000000000.

(** ** Heartbeat *)
Module Heartbeat.
Record State := mk { TickCount : Z; BirthNano : Z; LastNano : Z; MessageNum : Z }.

Definition Tick : Sdk State bool :=
  _ ← modify (fun h => mk (u64 (TickCount h + 1)) (BirthNano h) (LastNano h) (MessageNum h));
  now ← ClockNow;
  _ ← modify (fun h => mk (TickCount h) (if BirthNano h =? 0 then now else BirthNano h) now (MessageNum h));
  h ← get;
  let ageSec := age (LastNano h) (BirthNano h) in
  _ ← Logf [T "[heartbeat] tick="; D (TickCount h); T " age="; D ageSec; T "s"];
  _ ← (if TickCount h mod 10 =? 0 then
         _ ← modify (fun h => mk (TickCount h) (BirthNano h) (LastNano h) (u32 (MessageNum h + 1)));
         h ← get;
         Logf [T "[heartbeat] MILESTONE #"; D (MessageNum h); T ": survived "; D (TickCount h); T " ticks across "; D ageSec; T "s"]
       else mret tt);
  mret false.

Definition Marshal (h : State) : bytes :=
  Finish (Enc_Uint32 (MessageNum h) (Enc_Int64 (LastNano h) (Enc_Int64 (BirthNano h) (Enc_Uint64 (TickCount h) NewEncoder)))).
Definition Unmarshal (data : bytes) (_ : State) : State * bool :=
  unmarshal_with (
    tick ← Uint64; birth ← Int64; last ← Int64; msg ← Uint32;
    mret (mk tick birth last msg)) data.
Definition agent : Agent := {|
  AState := State; new := mk 0 0 0 0; Init := mret tt; Sdk.Tick := Tick; Sdk.Marshal := Marshal; AUnmarshal := Unmarshal;
  Imports := ["clock_now"; "log_emit"] |}.

Record ok (h : State) : Prop := {
  ok_ticks : is_u64 (TickCount h); ok_birth : is_i64 (BirthNano h); ok_last : is_i64 (LastNano h); ok_msg : is_u32 (MessageNum h) }.
#[export] Instance checkpointable : Checkpointable agent ok.
Proof.
  split; cbn [AState agent Sdk.Marshal Sdk.Tick AUnmarshal new].
  - intros h _. unfold Marshal. encoder_unfold. autorewrite with igor_len. lia.
  - intros [t b l n] []. cbn in *. unfold Unmarshal, Marshal. read_back.
    rewrite (u64_id t), (u32_id n) by done. apply reads_ret.
  - intros h []. unfold Tick. tick_post; split; field_ok.
Qed.
End Heartbeat.

(** ** Survivor (agents/research/example) *)
Module Survivor.
Record State := mk { TickCount : Z; BirthNano : Z; LastNano : Z; Luck : Z }.

Definition Tick : Sdk State bool :=
  _ ← modify (fun s => mk (u64 (TickCount s + 1)) (BirthNano s) (LastNano s) (Luck s));
  now ← ClockNow;
  _ ← modify (fun s => mk (TickCount s) (if BirthNano s =? 0 then now else BirthNano s) now (Luck s));
  randBuf ← RandBytes (zeros 4);
  _ ← modify (fun s => mk (TickCount s) (BirthNano s) (LastNano s) (Z.lxor (Luck s) (get_u32 randBuf)));
  s ← get;
  _ ← Logf [T "[survivor] tick "; D (TickCount s); T " | age "; D (age (LastNano s) (BirthNano s)); T "s | luck 0x"; X8 (Luck s)];
  _ ← (if TickCount s mod 10 =? 0 then Logf [T "[survivor] milestone: survived "; D (TickCount s); T " ticks"] else mret tt);
  mret false.

Definition Marshal (s : State) : bytes :=
  Finish (Enc_Uint32 (Luck s) (Enc_Int64 (LastNano s) (Enc_Int64 (BirthNano s) (Enc_Uint64 (TickCount s) NewEncoder)))).
Definition Unmarshal (data : bytes) (_ : State) : State * bool :=
  unmarshal_with (
    tick ← Uint64; birth ← Int64; last ← Int64; luck ← Uint32;
    mret (mk tick birth last luck)) data.
Definition agent : Agent := {|
  AState := State; new := mk 0 0 0 0; Init := mret tt; Sdk.Tick := Tick; Sdk.Marshal := Marshal; AUnmarshal := Unmarshal;
  Imports := ["clock_now"; "rand_bytes"; "log_emit"] |}.

Record ok (s : State) : Prop := {
  ok_ticks : is_u64 (TickCount s); ok_birth : is_i64 (BirthNano s); ok_last : is_i64 (LastNano s); ok_luck : is_u32 (Luck s) }.
Lemma lxor_u32 a b : is_u32 a -> is_u32 b -> is_u32 (Z.lxor a b).
Proof.
  intros Ha Hb. split; [apply Z.lxor_nonneg; unfold is_u32 in *; lia|].
  destruct (Z.eq_dec (Z.lxor a b) 0) as [->|Hne]; [lia|].
  assert (0 <= Z.lxor a b) as H0 by (apply Z.lxor_nonneg; unfold is_u32 in *; lia).
  apply Z.log2_lt_pow2; [lia|]. pose proof (Z.log2_lxor a b) as Hl. unfold is_u32 in *.
  assert (forall x, 0 <= x < 2 ^ 32 -> Z.log2 x < 32) as Hx.
  { intros x Hx. destruct (Z.eq_dec x 0) as [->|]; [cbn; lia|]. apply Z.log2_lt_pow2; lia. }
  specialize (Hl ltac:(lia) ltac:(lia)). pose proof (Hx a Ha). pose proof (Hx b Hb). lia.
Qed.
#[export] Instance checkpointable : Checkpointable agent ok.
Proof.
  split; cbn [AState agent Sdk.Marshal Sdk.Tick AUnmarshal new].
  - intros h _. unfold Marshal. encoder_unfold. autorewrite with igor_len. lia.
  - intros [t b l n] []. cbn in *. unfold Unmarshal, Marshal. read_back.
    rewrite (u64_id t), (u32_id n) by done. apply reads_ret.
  - intros s []. unfold Tick. tick_post; split; field_ok; apply lxor_u32; auto with igor.
Qed.
End Survivor.

(** ** Price watcher *)
Module PriceWatcher.
Definition apiURL : string := "https://api.coingecko.com/api/v3/simple/price?ids=bitcoin,ethereum&vs_currencies=usd".
Definition fetchInterval : Z := 10.

Definition is_digit (c : Z) : bool := (48 <=? c) && (c <=? 57).
Fixpoint skip_spaces (l : bytes) : bytes :=
  match l with c :: l' => if Z_of_byte c =? 32 then skip_spaces l' else l | [] => [] end.
(** The number loop: [whole], [frac], [fracDigits] and [inFrac]. *)
Fixpoint scan (l : bytes) (whole frac fracDigits : Z) (inFrac : bool) : Z * Z * Z :=
  match l with
  | [] => (whole, frac, fracDigits)
  | b :: l =>
      let c := Z_of_byte b in
      if is_digit c then
        if inFrac then
          if fracDigits <? 2 then scan l whole (frac * 10 + (c - 48)) (fracDigits + 1) inFrac
          else scan l whole frac fracDigits inFrac
        else scan l (u64 (whole * 10 + (c - 48))) frac fracDigits inFrac
      else if (c =? 46) && negb inFrac then scan l whole frac fracDigits true
      else (whole, frac, fracDigits)
  end.
(** Pad the fraction to two digits. *)
Definition pad (frac fracDigits : Z) : Z :=
  if fracDigits =? 0 then frac * 100 else if fracDigits =? 1 then frac * 10 else frac.
Definition price_key (coin : string) : bytes := quoted coin ++ bytes_of ":{" ++ quoted "usd" ++ bytes_of ":".
Definition extractPrice (body : bytes) (coin : string) : Z :=
  let key := price_key coin in
  match indexOf body key with
  | None => 0
  | Some idx =>
      let start := (idx + length key)%nat in
      if (length body <=? start)%nat then 0
      else
        let '(whole, frac, fracDigits) := scan (skip_spaces (drop start body)) 0 0 0 false in
        u64 (whole * 100 + pad frac fracDigits)
  end.

Record Coin := mkCoin { Latest : Z; High : Z; Low : Z }.
Record State := mk { TickCount : Z; BirthNano : Z; LastNano : Z; BTC : Coin; ETH : Coin; ObservationCount : Z; ErrorCount : Z }.
Definition observe (p : Z) (c : Coin) : Coin :=
  if 0 <? p
  then mkCoin p (if (High c =? 0) || (High c <? p) then p else High c) (if (Low c =? 0) || (p <? Low c) then p else Low c)
  else c.
Definition count_error (p : State) : State :=
  mk (TickCount p) (BirthNano p) (LastNano p) (BTC p) (ETH p) (ObservationCount p) (u32 (ErrorCount p + 1)).
Definition count_prices (btc eth : Z) (p : State) : State :=
  mk (TickCount p) (BirthNano p) (LastNano p) (observe btc (BTC p)) (observe eth (ETH p)) (u32 (ObservationCount p + 1)) (ErrorCount p).

Definition dollars (p : Z) : list verb := [T "$"; D (p / 100); T "."; D2 (p mod 100)].
Definition log_coin (name : string) (c : Coin) : list verb :=
  [T " | "; T name; T "="] ++ dollars (Latest c) ++ [T " (high="] ++ dollars (High c) ++ [T " low="] ++ dollars (Low c) ++ [T ")"].
Definition log_error (what : list verb) : Sdk State bool :=
  _ ← modify count_error;
  p ← get;
  _ ← Logf ([T "[pricewatcher] tick="; D (TickCount p); T " ERROR: "] ++ what ++ [T " (errors="; D (ErrorCount p); T ")"]);
  mret false.
Definition milestone : Sdk State bool :=
  p ← get;
  _ ← (if TickCount p mod 10 =? 0 then
         Logf [T "[pricewatcher] MILESTONE: "; D (ObservationCount p); T " observations across "; D (age (LastNano p) (BirthNano p));
               T "s — this agent remembers everything"]
       else mret tt);
  mret false.
Definition fetch : Sdk State bool :=
  r ← HTTPGet apiURL;
  let '(status, body, err) := r in
  match err with
  | Some e => log_error [T "http failed: "; V (http_error_text e)]
  | None =>
      if (status <? 200) || (300 <=? status) then log_error [T "http status "; D status]
      else
        let btc := extractPrice body "bitcoin" in
        let eth := extractPrice body "ethereum" in
        if (btc =? 0) && (eth =? 0) then log_error [T "could not parse prices"]
        else
          _ ← modify (count_prices btc eth);
          p ← get;
          _ ← Logf ([T "[pricewatcher] tick="; D (TickCount p); T " age="; D (age (LastNano p) (BirthNano p)); T "s obs="; D (ObservationCount p);
                     T " FETCH"] ++ log_coin "BTC" (BTC p) ++ log_coin "ETH" (ETH p));
          milestone
  end.
Definition Tick : Sdk State bool :=
  _ ← modify (fun p => mk (u64 (TickCount p + 1)) (BirthNano p) (LastNano p) (BTC p) (ETH p) (ObservationCount p) (ErrorCount p));
  now ← ClockNow;
  _ ← modify (fun p => mk (TickCount p) (if BirthNano p =? 0 then now else BirthNano p) now (BTC p) (ETH p) (ObservationCount p) (ErrorCount p));
  p ← get;
  if (TickCount p =? 1) || (TickCount p mod fetchInterval =? 0) then fetch
  else
    _ ← (if TickCount p mod 5 =? 0 then
           Logf ([T "[pricewatcher] tick="; D (TickCount p); T " age="; D (age (LastNano p) (BirthNano p)); T "s obs="; D (ObservationCount p);
                  T " | BTC="] ++ dollars (Latest (BTC p)) ++ [T " | ETH="] ++ dollars (Latest (ETH p)))
         else mret tt);
    milestone.

Definition Marshal (p : State) : bytes :=
  Finish (Enc_Uint32 (ErrorCount p) (Enc_Uint32 (ObservationCount p)
    (Enc_Uint64 (Low (ETH p)) (Enc_Uint64 (High (ETH p)) (Enc_Uint64 (Latest (ETH p))
    (Enc_Uint64 (Low (BTC p)) (Enc_Uint64 (High (BTC p)) (Enc_Uint64 (Latest (BTC p))
    (Enc_Int64 (LastNano p) (Enc_Int64 (BirthNano p) (Enc_Uint64 (TickCount p) NewEncoder))))))))))).
Definition Unmarshal (data : bytes) (_ : State) : State * bool :=
  unmarshal_with (
    tick ← Uint64; birth ← Int64; last ← Int64;
    bl ← Uint64; bh ← Uint64; bo ← Uint64; el ← Uint64; eh ← Uint64; eo ← Uint64;
    obs ← Uint32; errs ← Uint32;
    mret (mk tick birth last (mkCoin bl bh bo) (mkCoin el eh eo) obs errs)) data.
Definition agent : Agent := {|
  AState := State; new := mk 0 0 0 (mkCoin 0 0 0) (mkCoin 0 0 0) 0 0; Init := mret tt; Sdk.Tick := Tick; Sdk.Marshal := Marshal;
  AUnmarshal := Unmarshal; Imports := ["clock_now"; "log_emit"; "http_request"] |}.

Record coin_ok (c : Coin) : Prop := { c_latest : is_u64 (Latest c); c_high : is_u64 (High c); c_low : is_u64 (Low c) }.
Record ok (p : State) : Prop := {
  ok_ticks : is_u64 (TickCount p); ok_birth : is_i64 (BirthNano p); ok_last : is_i64 (LastNano p);
  ok_btc : coin_ok (BTC p); ok_eth : coin_ok (ETH p); ok_obs : is_u32 (ObservationCount p); ok_errs : is_u32 (ErrorCount p) }.
Lemma extractPrice_range body coin : is_u64 (extractPrice body coin).
Proof.
  unfold extractPrice. destruct (indexOf _ _); [|unfold is_u64; lia]. destruct (_ <=? _)%nat; [unfold is_u64; lia|].
  destruct (scan _ _ _ _ _) as [[w f] k]. apply u64_range.
Qed.
Lemma observe_ok p c : is_u64 p -> coin_ok c -> coin_ok (observe p c).
Proof. intros Hp []. unfold observe. destruct (0 <? p); split; field_ok. Qed.
#[export] Instance checkpointable : Checkpointable agent ok.
Proof.
  split; cbn [AState agent Sdk.Marshal Sdk.Tick AUnmarshal new].
  - intros h _. unfold Marshal. encoder_unfold. autorewrite with igor_len. lia.
  - intros [t b l [bl bh bo] [el eh eo] o e] [? ? ? [] [] ? ?]. cbn in *. unfold Unmarshal, Marshal. read_back.
    rewrite (u64_id t), (u64_id bl), (u64_id bh), (u64_id bo), (u64_id el), (u64_id eh), (u64_id eo), (u32_id o), (u32_id e) by done.
    apply reads_ret.
  - intros p []. unfold Tick, fetch, log_error, milestone.
    tick_post; split; field_ok; apply observe_ok; auto using extractPrice_range.
Qed.

(** *** Parsing *)
Definition digits (l : bytes) : Prop := Forall (fun b => is_digit (Z_of_byte b) = true) l.
Definition value_from (w : Z) (l : bytes) : Z := fold_left (fun w b => w * 10 + (Z_of_byte b - 48)) l w.
(** The first two decimals. *)
Definition cents (l : bytes) : Z :=
  match l with
  | [] => 0
  | [a] => (Z_of_byte a - 48) * 10
  | a :: b :: _ => (Z_of_byte a - 48) * 10 + (Z_of_byte b - 48)
  end.
Definition ends_number (inFrac : bool) (l : bytes) : Prop :=
  match l with
  | [] => True
  | b :: _ => is_digit (Z_of_byte b) = false /\ ((Z_of_byte b =? 46) && negb inFrac = false)
  end.
Lemma is_digit_range b : is_digit (Z_of_byte b) = true -> 0 <= Z_of_byte b - 48 <= 9.
Proof. unfold is_digit. intros. zb. lia. Qed.
Lemma value_from_mono l : forall w, digits l -> 0 <= w -> w <= value_from w l.
Proof.
  induction l as [|b l IH]; intros w Hl Hw; [done|]. apply Forall_cons in Hl as [Hb Hl]. apply is_digit_range in Hb.
  unfold value_from in *. cbn [fold_left]. specialize (IH (w * 10 + (Z_of_byte b - 48)) Hl). lia.
Qed.
Lemma scan_whole ds l : forall w f k, digits ds -> 0 <= w -> value_from w ds < 2 ^ 64 ->
  scan (ds ++ l) w f k false = scan l (value_from w ds) f k false.
Proof.
  induction ds as [|b ds IH]; intros w f k Hl Hw Hv; [done|]. apply Forall_cons in Hl as [Hb Hl]. pose proof (is_digit_range b Hb).
  cbn [app scan]. rewrite Hb. unfold value_from in *. cbn [fold_left] in *.
  pose proof (value_from_mono ds (w * 10 + (Z_of_byte b - 48)) Hl ltac:(lia)) as Hm. unfold value_from in Hm.
  rewrite u64_id by (unfold is_u64; lia). apply IH; [done|lia|done].
Qed.
Lemma scan_full l : forall w f, digits l -> scan l w f 2 true = (w, f, 2).
Proof. induction l as [|b l IH]; intros w f Hl; [done|]. apply Forall_cons in Hl as [Hb Hl]. cbn [scan]. rewrite Hb. by apply IH. Qed.
Lemma scan_stop l w f k i : ends_number i l -> scan l w f k i = (w, f, k).
Proof. destruct l as [|b l]; [done|]. cbn [scan ends_number]. by intros [-> ->]. Qed.
Lemma scan_more fs l w f : digits fs -> ends_number true l -> scan (fs ++ l) w f 2 true = (w, f, 2).
Proof.
  induction fs as [|b fs IH]; intros Hf Hl; [by apply scan_stop|]. apply Forall_cons in Hf as [Hb Hf].
  cbn [app scan]. rewrite Hb. by apply IH.
Qed.
Lemma scan_frac fs l w : digits fs -> ends_number true l ->
  exists f k, scan (fs ++ l) w 0 0 true = (w, f, k) /\ pad f k = cents fs.
Proof.
  intros Hf Hl. destruct fs as [|a [|b fs]].
  - exists 0, 0. by rewrite scan_stop.
  - apply Forall_cons in Hf as [Ha _]. cbn [app scan]. rewrite Ha. eexists _, 1. rewrite scan_stop by done. split; [done|].
    cbn [pad cents]. unfold pad. cbn. lia.
  - apply Forall_cons in Hf as [Ha Hf]. apply Forall_cons in Hf as [Hb Hf]. cbn [app scan]. rewrite Ha, Hb.
    change (0 <? 2) with true. change (0 + 1 <? 2) with true. cbv iota. change (0 + 1 + 1) with 2.
    eexists _, 2. rewrite scan_more by done. split; [done|]. unfold pad. cbn. lia.
Qed.
Lemma cents_range fs : digits fs -> 0 <= cents fs <= 99.
Proof.
  intros Hf. destruct fs as [|a [|b fs]]; cbn [cents]; [lia| |]; apply Forall_cons in Hf as [Ha Hf]; apply is_digit_range in Ha; [lia|].
  apply Forall_cons in Hf as [Hb _]. apply is_digit_range in Hb. lia.
Qed.
Lemma skip_spaces_app k l : (forall b l', l = b :: l' -> Z_of_byte b <> 32) -> skip_spaces (replicate k (byte_of_Z 32) ++ l) = l.
Proof.
  intros Hl. induction k as [|k IH]; [|cbn; exact IH]. destruct l as [|b l]; [done|]. cbn.
  destruct (Z.eqb_spec (Z_of_byte b) 32) as [E|]; [|done]. by destruct (Hl b l eq_refl).
Qed.

(** The price watcher reads prices exactly to the cent.  Where a response
    holds the coin's key followed by a decimal number, [extractPrice] returns
    the number of whole cents: the integer part times 100 plus the first two
    decimals (missing ones read as zeros, further ones dropped), as long as
    that fits 64 bits. *)
Theorem extract_price_exact pre spaces ds fs post coin :
  let body := pre ++ price_key coin ++ replicate spaces (byte_of_Z 32) ++ ds ++ [byte_of_Z 46] ++ fs ++ post in
  indexOf body (price_key coin) = Some (length pre) ->
  digits ds -> digits fs -> ends_number true post -> value_from 0 ds * 100 + 99 < 2 ^ 64 ->
  extractPrice body coin = value_from 0 ds * 100 + cents fs.
Proof.
  intros body Hidx Hds Hfs Hpost Hv. unfold extractPrice. rewrite Hidx.
  assert (drop (length pre + length (price_key coin)) body = replicate spaces (byte_of_Z 32) ++ ds ++ [byte_of_Z 46] ++ fs ++ post) as Hdrop.
  { unfold body. rewrite app_assoc, <- length_app. apply drop_app_length. }
  destruct (Nat.leb_spec (length body) (length pre + length (price_key coin))) as [Hle|_].
  { apply drop_ge in Hle. rewrite Hdrop in Hle. by destruct (replicate _ _), ds. }
  rewrite Hdrop, skip_spaces_app.
  2: { intros b l' E. destruct ds as [|d ds]; cbn in E; injection E as <- _; [done|].
       apply Forall_cons in Hds as [Hd _]. apply is_digit_range in Hd. lia. }
  pose proof (value_from_mono ds 0 Hds ltac:(lia)). pose proof (cents_range fs Hfs).
  rewrite scan_whole by (done || lia). cbn [app scan]. change (is_digit (Z_of_byte (byte_of_Z 46))) with false.
  change ((Z_of_byte (byte_of_Z 46) =? 46) && negb false) with true. cbv iota.
  destruct (scan_frac fs post (value_from 0 ds) Hfs Hpost) as (f & k & -> & ->). apply u64_id. unfold is_u64. lia.
Qed.
Definition sample_body : bytes :=
  [byte_of_Z 123] ++ quoted "bitcoin" ++ bytes_of ":{" ++ quoted "usd" ++ bytes_of ":83456.789},".
Lemma extract_price_exact_witness : extractPrice sample_body "bitcoin" = 8345678.
Proof.
  apply (extract_price_exact [byte_of_Z 123] 0 (bytes_of "83456") (bytes_of "789") (bytes_of "},") "bitcoin");
    [vm_compute; reflexivity|repeat constructor|repeat constructor|split; reflexivity|vm_compute; reflexivity].
Defined.

(** *** The records survive *)
(** The latest, highest and lowest of the positive prices. *)
Definition summary (prices : list Z) : Coin :=
  let ps := List.filter (Z.ltb 0) prices in
  mkCoin (default 0 (last ps)) (foldr Z.max 0 ps) (match ps with [] => 0 | p :: ps => fold_left Z.min ps p end).
Lemma foldr_max_snoc l x : foldr Z.max 0 (l ++ [x]) = Z.max (foldr Z.max 0 l) (Z.max x 0).
Proof. induction l as [|y l IH]; cbn; [lia|]. rewrite IH. lia. Qed.
Lemma foldr_max_nonneg l : 0 <= foldr Z.max 0 l.
Proof. induction l as [|y l IH]; cbn; lia. Qed.
Lemma fold_min_pos l : forall p, 0 < p -> Forall (Z.lt 0) l -> 0 < fold_left Z.min l p.
Proof. induction l as [|y l IH]; intros p Hp Hl; cbn; [done|]. apply Forall_cons in Hl as [Hy Hl]. apply IH; [lia|done]. Qed.
Lemma filter_pos l : Forall (Z.lt 0) (List.filter (Z.ltb 0) l).
Proof. induction l as [|y l IH]; cbn; [constructor|]. destruct (Z.ltb_spec 0 y); [by constructor|done]. Qed.

Lemma summary_snoc prices p : 0 <= p -> summary (prices ++ [p]) = observe p (summary prices).
Proof.
  intros Hp. unfold summary, observe. rewrite List.filter_app. cbn [List.filter].
  destruct (Z.ltb_spec 0 p); [|by rewrite app_nil_r].
  pose proof (filter_pos prices) as Hps. set (ps := List.filter (Z.ltb 0) prices) in *. cbv zeta. cbn [High Low].
  pose proof (foldr_max_nonneg ps). rewrite foldr_max_snoc, last_snoc. cbn [default].
  f_equal.
  - destruct (Z.eqb_spec (foldr Z.max 0 ps) 0); destruct (Z.ltb_spec (foldr Z.max 0 ps) p); cbn [orb]; lia.
  - destruct ps as [|q ps]; [done|]. cbn [app]. rewrite fold_left_app. cbn [fold_left].
    apply Forall_cons in Hps as [Hq Hps]. pose proof (fold_min_pos ps q Hq Hps).
    destruct (Z.eqb_spec (fold_left Z.min ps q) 0); [lia|].
    destruct (Z.ltb_spec p (fold_left Z.min ps q)); cbn [orb]; lia.
Qed.
Definition observed (coin : string) (bodies : list bytes) : list Z := (fun b => extractPrice b coin) <$> bodies.
(** What a stretch of life adds to the records: the prices of the responses
    [bodies], in order. *)
Definition adds (s s' : State) : Prop := exists bodies,
  BTC s' = fold_left (fun c p => observe p c) (observed "bitcoin" bodies) (BTC s) /\
  ETH s' = fold_left (fun c p => observe p c) (observed "ethereum" bodies) (ETH s).
Lemma summary_fold l prices : Forall (Z.le 0) l -> fold_left (fun c p => observe p c) l (summary prices) = summary (prices ++ l).
Proof.
  revert prices. induction l as [|p l IH]; intros prices Hl; cbn [fold_left]; [by rewrite app_nil_r|].
  apply Forall_cons in Hl as [Hp Hl]. rewrite <- summary_snoc by done. rewrite IH by done. by rewrite <- app_assoc.
Qed.
Lemma observed_nonneg coin bodies : Forall (Z.le 0) (observed coin bodies).
Proof. apply Forall_fmap, Forall_true. intros b. by apply extractPrice_range. Qed.

(** The price watcher's records are those of everything it ever saw.
    After any number of ticks, failed fetches and restarts from checkpoints,
    the latest, highest and lowest price of both coins are those of the
    positive prices in the responses it fetched since it was born. *)
Theorem records_survive s : rtc (life agent) (new agent) s -> exists bodies,
  BTC s = summary (observed "bitcoin" bodies) /\ ETH s = summary (observed "ethereum" bodies).
Proof.
  intros Hl. assert (ok (new agent)) as Hok by (do 2 (try split); done).
  assert (adds (new agent) s) as (bodies & HB & HE).
  { apply (life_invariant agent ok); [done|..|done].
    - by intros s0; exists [].
    - intros s1 s2 s3 (b1 & E1 & E2) (b2 & E3 & E4). exists (b1 ++ b2). unfold observed in *.
      by rewrite !fmap_app, !fold_left_app, E3, E4, E1, E2.
    - intros s1 _. cbn [Sdk.Tick agent]. unfold Tick, fetch, log_error, milestone.
      tick_post; first [by exists [] | by eexists [_]]. }
  exists bodies. rewrite HB, HE. change (BTC (new agent)) with (summary []). change (ETH (new agent)) with (summary []).
  by rewrite !summary_fold by apply observed_nonneg.
Qed.
(** One tick that fetches [sample_body], then a restart. *)
Definition sample_state : State := mk 1 1000 1000 (mkCoin 8345678 8345678 8345678) (mkCoin 0 0 0) 1 0.
Lemma sample_tick : act_can (Tick (new agent)) false sample_state.
Proof.
  exists 1000. split; [by vm_compute|]. exists (200, sample_body, None). split; [by vm_compute|].
  exists tt. split; [done|]. vm_compute. done.
Qed.
Lemma records_survive_witness : exists bodies,
  BTC sample_state = summary (observed "bitcoin" bodies) /\ ETH sample_state = summary (observed "ethereum" bodies).
Proof.
  apply (records_survive sample_state). eapply rtc_l; [exact (life_tick agent _ _ _ sample_tick)|].
  eapply rtc_l; [|apply rtc_refl]. apply life_restart. vm_compute. reflexivity.
Defined.
End PriceWatcher.

(** ** Liquidation watcher *)
Module Liquidation.
Definition liquidationThresholdCents : Z := 155000.
Record controlPoint := mkPoint { slot : Z; price : Z }.
Definition curve : list controlPoint :=
  [mkPoint 0 200000; mkPoint 5 205000; mkPoint 10 192000; mkPoint 15 198000; mkPoint 20 185000; mkPoint 25 178000;
   mkPoint 30 182000; mkPoint 35 165000; mkPoint 38 154000; mkPoint 40 158000; mkPoint 45 162000; mkPoint 50 170000;
   mkPoint 55 175000].
(** The loop over the control points after [prev]. *)
Fixpoint interpolate (prev : controlPoint) (rest : list controlPoint) (s : Z) : Z :=
  match rest with
  | [] => price prev
  | next :: rest =>
      if s <=? slot next then
        let span := u64 (slot next - slot prev) in
        let offset := u64 (s - slot prev) in
        if price prev <=? price next
        then u64 (price prev + u64 (u64 (price next - price prev) * offset) / span)
        else u64 (price prev - u64 (u64 (price prev - price next) * offset) / span)
      else interpolate next rest s
  end.
Definition priceAtSlot (s : Z) : Z :=
  match curve with
  | [] => 0
  | first :: rest => if s <=? slot first then price first else interpolate first rest s
  end.

(** The agent's picture of the world. *)
Record Market := mkMarket { PriceLatest : Z; PriceHigh : Z; PriceLow : Z; FirstWarningSlot : Z; WarningActive : Z }.
Record State := mk {
  TickCount : Z; BirthNano : Z; LastNano : Z; LastProcessedSlot : Z; market : Market; SlotsProcessed : Z }.
Definition see (s : Z) (m : Market) : Market :=
  let p := priceAtSlot s in
  let below := p <? liquidationThresholdCents in
  mkMarket p
    (if (PriceHigh m =? 0) || (PriceHigh m <? p) then p else PriceHigh m)
    (if (PriceLow m =? 0) || (p <? PriceLow m) then p else PriceLow m)
    (if below && (FirstWarningSlot m =? 0) then s else FirstWarningSlot m)
    (if below then 1 else 0).
Definition set_last (s : Z) (w : State) : State :=
  mk (TickCount w) (BirthNano w) (LastNano w) s (market w) (SlotsProcessed w).
Definition process (s : Z) (w : State) : State :=
  mk (TickCount w) (BirthNano w) (LastNano w) (LastProcessedSlot w) (see s (market w)) (u32 (SlotsProcessed w + 1)).

Definition dollars (p : Z) : list verb := [T "$"; D (p / 100); T "."; D2 (p mod 100)].
Definition processSlot (s : Z) (mode : string) : Sdk State unit :=
  _ ← modify (process s);
  w ← get;
  let p := priceAtSlot s in
  let below := p <? liquidationThresholdCents in
  let dist := if liquidationThresholdCents <=? p then p - liquidationThresholdCents else liquidationThresholdCents - p in
  let distSign := if liquidationThresholdCents <=? p then "+" else "-" in
  let line := [T "["; T mode; T "] slot "; D s; T ": ETH "] ++ dollars p ++ [T "  threshold "] ++ dollars liquidationThresholdCents ++
              [T "  distance "; T distSign] ++ dollars dist in
  if below then
    if s =? FirstWarningSlot (market w) then Logf (line ++ [T "  ⚠ LIQUIDATION WARNING (threshold breached)"])
    else Logf (line ++ [T "  ⚠ WARNING"])
  else Logf line.
(** [n] rounds of the catch-up loop from [s]. *)
Fixpoint catchUp (n : nat) (s : Z) : Sdk State unit :=
  match n with
  | O => mret tt
  | S n => _ ← processSlot s "catch-up"; catchUp n (u64 (s + 1))
  end.
Definition rule : list verb := [T "────────────────────────────────────────────────────"].

(** The slot the clock is in, as the unsigned number the code computes. *)
Definition slot_at (now birth : Z) : Z := u64 (Z.quot (i64 (now - birth)) 1000000000).
(** How many slots the catch-up loop runs through. *)
Definition missed (currentSlot lastSlot : Z) : Z := u64 (currentSlot - lastSlot - 1).

Definition Tick : Sdk State bool :=
  _ ← modify (fun w => mk (u64 (TickCount w + 1)) (BirthNano w) (LastNano w) (LastProcessedSlot w) (market w) (SlotsProcessed w));
  now ← ClockNow;
  _ ← modify (fun w => mk (TickCount w) (if BirthNano w =? 0 then now else BirthNano w) now (LastProcessedSlot w) (market w) (SlotsProcessed w));
  w ← get;
  let currentSlot := slot_at now (BirthNano w) in
  if TickCount w =? 1 then
    _ ← processSlot 0 "live";
    _ ← modify (set_last 0);
    mret false
  else
    _ ← (if u64 (LastProcessedSlot w + 1) <? currentSlot then
           let gap := missed currentSlot (LastProcessedSlot w) in
           _ ← Logf [T ""];
           _ ← Logf rule;
           _ ← Logf [T "  GAP DETECTED"];
           _ ← Logf [T "  Last processed:  slot "; D (LastProcessedSlot w)];
           _ ← Logf [T "  Current time:    slot "; D currentSlot];
           _ ← Logf [T "  Missed:          "; D gap; T " slots ("; D (u64 (LastProcessedSlot w + 1)); T ".."; D (u64 (currentSlot - 1)); T ")"];
           _ ← Logf [T "  Replaying missed history..."];
           _ ← Logf rule;
           let warningBefore := FirstWarningSlot (market w) in
           _ ← catchUp (Z.to_nat (currentSlot - u64 (LastProcessedSlot w + 1))) (u64 (LastProcessedSlot w + 1));
           _ ← Logf rule;
           w ← get;
           _ ← (if negb (FirstWarningSlot (market w) =? 0) && (warningBefore =? 0) then
                  _ ← Logf [T "  ⚠ THRESHOLD BREACHED AT SLOT "; D (FirstWarningSlot (market w)); T " (DURING DOWNTIME)"];
                  _ ← Logf [T "  The agent was dead. The world kept moving."];
                  Logf [T "  Catch-up reconstructed "; D gap; T " missed slots."]
                else Logf [T "  Catch-up complete: "; D gap; T " missed slots replayed."]);
           _ ← Logf rule;
           Logf [T ""]
         else mret tt);
    _ ← processSlot currentSlot "live";
    _ ← modify (set_last currentSlot);
    mret false.

Definition Marshal (w : State) : bytes :=
  let m := market w in
  Finish (Enc_Uint32 (SlotsProcessed w) (Enc_Uint32 (WarningActive m) (Enc_Uint64 (FirstWarningSlot m) (Enc_Uint64 (PriceLow m)
    (Enc_Uint64 (PriceHigh m) (Enc_Uint64 (PriceLatest m) (Enc_Uint64 (LastProcessedSlot w)
    (Enc_Int64 (LastNano w) (Enc_Int64 (BirthNano w) (Enc_Uint64 (TickCount w) NewEncoder)))))))))).
Definition Unmarshal (data : bytes) (_ : State) : State * bool :=
  unmarshal_with (
    tick ← Uint64; birth ← Int64; last ← Int64; slot ← Uint64;
    latest ← Uint64; high ← Uint64; low ← Uint64; first ← Uint64; active ← Uint32; n ← Uint32;
    mret (mk tick birth last slot (mkMarket latest high low first active) n)) data.
Definition agent : Agent := {|
  AState := State; new := mk 0 0 0 0 (mkMarket 0 0 0 0 0) 0; Init := mret tt; Sdk.Tick := Tick; Sdk.Marshal := Marshal;
  AUnmarshal := Unmarshal; Imports := ["clock_now"; "log_emit"] |}.

(** *** The price curve *)
Lemma price_bounds s : 0 <= s -> 154000 <= priceAtSlot s <= 205000.
Proof.
  intros Hs. destruct (Z.le_gt_cases s 55) as [Hle|Hgt].
  - assert (forallb (fun n => (154000 <=? priceAtSlot (Z.of_nat n)) && (priceAtSlot (Z.of_nat n) <=? 205000)) (seq 0 56) = true) as Hall
      by (vm_compute; reflexivity).
    rewrite forallb_forall in Hall. specialize (Hall (Z.to_nat s)). rewrite Z2Nat.id in Hall by done.
    assert (In (Z.to_nat s) (seq 0 56)) as Hin by (apply in_seq; lia). apply Hall in Hin. zb. lia.
  - unfold priceAtSlot, curve. cbn [slot]. destruct (Z.leb_spec s 0); [lia|]. cbn [interpolate slot].
    repeat (match goal with |- context [s <=? ?k] => destruct (Z.leb_spec s k); [lia|] end). cbn. lia.
Qed.
(** The breach of the story is at slot 38, and only there. *)
Lemma breach_slot s : 0 <= s -> (priceAtSlot s <? liquidationThresholdCents) = (s =? 38).
Proof.
  intros Hs. destruct (Z.le_gt_cases s 55) as [Hle|Hgt].
  - assert (forallb (fun n => Bool.eqb (priceAtSlot (Z.of_nat n) <? liquidationThresholdCents) (Z.of_nat n =? 38)) (seq 0 56) = true) as Hall
      by (vm_compute; reflexivity).
    rewrite forallb_forall in Hall. specialize (Hall (Z.to_nat s)). rewrite Z2Nat.id in Hall by done.
    assert (In (Z.to_nat s) (seq 0 56)) as Hin by (apply in_seq; lia). by apply Hall, eqb_prop in Hin.
  - unfold priceAtSlot, curve. cbn [slot]. destruct (Z.leb_spec s 0); [lia|]. cbn [interpolate slot].
    repeat (match goal with |- context [s <=? ?k] => destruct (Z.leb_spec s k); [lia|] end). cbn.
    symmetry. apply Z.eqb_neq. lia.
Qed.

(** *** What the loops leave *)
Fixpoint caughtUp (n : nat) (s : Z) (w : State) : State :=
  match n with O => w | S n => caughtUp n (u64 (s + 1)) (process s w) end.
Lemma processSlot_post s mode w : act_post (fun _ w' => w' = process s w) (processSlot s mode w).
Proof. unfold processSlot. tick_post; done. Qed.
Lemma catchUp_post n : forall s w, act_post (fun _ w' => w' = caughtUp n s w) (catchUp n s w).
Proof.
  induction n as [|n IH]; intros s w; [done|]. cbn [catchUp caughtUp].
  eapply post_bind; [apply processSlot_post|]. intros _ ? ->. apply IH.
Qed.
Ltac slots_post :=
  tick_fold;
  repeat first
    [ tick_step
    | eapply post_bind; [apply processSlot_post|intros ? ? ->]
    | eapply post_bind; [apply catchUp_post|intros ? ? ->] ].

Record ok (w : State) : Prop := {
  ok_ticks : is_u64 (TickCount w); ok_birth : is_i64 (BirthNano w); ok_last : is_i64 (LastNano w); ok_slot : is_u64 (LastProcessedSlot w);
  ok_latest : is_u64 (PriceLatest (market w)); ok_high : is_u64 (PriceHigh (market w)); ok_low : is_u64 (PriceLow (market w));
  ok_first : is_u64 (FirstWarningSlot (market w)); ok_active : is_u32 (WarningActive (market w)); ok_count : is_u32 (SlotsProcessed w) }.
Lemma price_u64 s : is_u64 s -> is_u64 (priceAtSlot s).
Proof. intros [Hs _]. pose proof (price_bounds s Hs). unfold is_u64. lia. Qed.
Lemma process_ok s w : is_u64 s -> ok w -> ok (process s w).
Proof.
  intros Hs []. pose proof (price_u64 s Hs). split; cbn; try done; repeat case_match_goal; try done; auto with igor;
    unfold is_u32; lia.
Qed.
Lemma caughtUp_ok n : forall s w, is_u64 s -> ok w -> ok (caughtUp n s w).
Proof. induction n as [|n IH]; intros s w Hs Hw; [done|]. apply IH; [apply u64_range|by apply process_ok]. Qed.
Lemma set_last_ok s w : is_u64 s -> ok w -> ok (set_last s w).
Proof. intros Hs []. by split. Qed.
#[export] Instance checkpointable : Checkpointable agent ok.
Proof.
  split; cbn [AState agent Sdk.Marshal Sdk.Tick AUnmarshal new].
  - intros w _. unfold Marshal. encoder_unfold. autorewrite with igor_len. lia.
  - intros [t b l s [p h lo f a] n] []. cbn in *. unfold Unmarshal, Marshal. read_back.
    rewrite (u64_id t), (u64_id s), (u64_id p), (u64_id h), (u64_id lo), (u64_id f), (u32_id a), (u32_id n) by done. apply reads_ret.
  - intros w []. unfold Tick.
    slots_post; apply set_last_ok, process_ok; try apply caughtUp_ok; try apply u64_range; try (unfold is_u64; lia); split; field_ok.
Qed.

(** *** The world does not wait *)
Definition blank : Market := mkMarket 0 0 0 0 0.
Definition sees (m : Market) (l : list Z) : Market := fold_left (fun m s => see s m) l m.
(** What an agent knows that watched every slot from 0 to [n]. *)
Definition world (n : Z) : Market := sees blank (seqZ 0 (n + 1)).
Lemma see_again s m : see s (see s m) = see s m.
Proof.
  destruct m as [l h lo f a]. unfold see. cbn [PriceHigh PriceLow FirstWarningSlot]. set (p := priceAtSlot s).
  assert (forall c : bool, (if c then p else p) = p) as Hp by (by intros []).
  f_equal.
  - destruct ((h =? 0) || (h <? p)) eqn:E; [apply Hp|by rewrite E].
  - destruct ((lo =? 0) || (p <? lo)) eqn:E; [apply Hp|by rewrite E].
  - destruct ((p <? liquidationThresholdCents) && (f =? 0)) eqn:E; [|by rewrite E]. by destruct (_ && (s =? 0)).
Qed.
Lemma sees_app m l1 l2 : sees m (l1 ++ l2) = sees (sees m l1) l2.
Proof. apply fold_left_app. Qed.
Lemma world_S n : 0 <= n -> see (n + 1) (world n) = world (n + 1).
Proof.
  intros Hn. unfold world. rewrite (seqZ_app 0 (n + 1) 1) by lia. rewrite sees_app.
  replace (0 + (n + 1)) with (n + 1) by lia. done.
Qed.
Lemma world_again n : 0 <= n -> see n (world n) = world n.
Proof.
  intros Hn. unfold world. rewrite (seqZ_app 0 n 1) by lia. rewrite sees_app. cbn. rewrite Z.add_0_l. apply see_again.
Qed.
Lemma caughtUp_fields n : forall s w, TickCount (caughtUp n s w) = TickCount w /\ BirthNano (caughtUp n s w) = BirthNano w /\
  LastNano (caughtUp n s w) = LastNano w.
Proof. induction n as [|n IH]; intros s w; [done|]. apply (IH _ (process s w)). Qed.
Lemma caughtUp_market n : forall s w, 0 <= s -> s + Z.of_nat n < 2 ^ 64 ->
  market (caughtUp n s w) = sees (market w) (seqZ s (Z.of_nat n)).
Proof.
  induction n as [|n IH]; intros s w Hs Hn; [done|]. cbn [caughtUp].
  rewrite u64_id by (unfold is_u64; lia). rewrite IH by lia. rewrite (seqZ_cons s) by lia.
  by replace (Z.pred (Z.of_nat (Datatypes.S n))) with (Z.of_nat n) by lia.
Qed.
Lemma caughtUp_world n k w : 0 <= k -> k + 1 + Z.of_nat n < 2 ^ 64 -> market w = world k ->
  market (caughtUp n (k + 1) w) = world (k + Z.of_nat n).
Proof.
  intros Hk Hn Hw. rewrite caughtUp_market by lia. rewrite Hw. unfold world. rewrite <- sees_app. f_equal.
  replace (k + Z.of_nat n + 1) with ((k + 1) + Z.of_nat n) by lia. rewrite (seqZ_app 0 (k + 1) (Z.of_nat n)) by lia. done.
Qed.

(** A life in which neither the host's clock nor the tick counter (which
    wraps after 2^64 ticks) goes back. *)
Definition forward (w w' : State) : Prop := life agent w w' /\ LastNano w <= LastNano w' /\ TickCount w <= TickCount w'.
Record informed (w : State) : Prop := {
  in_ok : ok w;
  in_born : 0 < TickCount w;
  in_time : 0 <= BirthNano w <= LastNano w;
  in_zero : BirthNano w = 0 -> LastNano w = 0;
  in_slot : LastProcessedSlot w = (LastNano w - BirthNano w) / 1000000000;
  in_market : market w = world (LastProcessedSlot w) }.

Lemma slot_at_spec now birth : 0 <= birth <= now -> is_i64 now ->
  slot_at now birth = (now - birth) / 1000000000 /\ 0 <= slot_at now birth < 2 ^ 63 - 1.
Proof.
  intros Hb Hn. unfold is_i64 in Hn.
  assert (slot_at now birth = (now - birth) / 1000000000) as E.
  { unfold slot_at. rewrite i64_id by (unfold is_i64; lia). rewrite Z.quot_div_nonneg by lia. apply u64_id. unfold is_u64.
    split; [apply Z.div_pos; lia|]. apply Z.div_lt_upper_bound; lia. }
  rewrite E. split; [done|]. split; [apply Z.div_pos; lia|]. apply Z.div_lt_upper_bound; lia.
Qed.
(** What the two ways through a tick leave the market as. *)
Lemma next_market m k cs : 0 <= k <= cs -> cs <= k + 1 -> m = world k -> see cs m = world cs.
Proof.
  intros Hk Hc ->. destruct (Z.eq_dec cs k) as [->|]; [apply world_again; lia|].
  replace cs with (k + 1) by lia. apply world_S; lia.
Qed.
Lemma gap_market w k cs : 0 <= k -> k + 1 < cs -> cs < 2 ^ 63 -> market w = world k ->
  see cs (market (caughtUp (Z.to_nat (cs - (k + 1))) (k + 1) w)) = world cs.
Proof.
  intros Hk Hc Hlt Hw. rewrite (caughtUp_world _ k) by (lia || done).
  replace cs with ((k + Z.of_nat (Z.to_nat (cs - (k + 1)))) + 1) at 1 by lia. rewrite world_S by lia. f_equal. lia.
Qed.
(** The clock reading of a tick against the state before it. *)
Lemma informed_now w now : informed w -> LastNano w <= now -> is_i64 now ->
  let birth := if BirthNano w =? 0 then now else BirthNano w in
  0 <= birth <= now /\ (birth = 0 -> now = 0) /\ 0 <= LastProcessedSlot w <= slot_at now birth /\
  slot_at now birth = (now - birth) / 1000000000 /\ slot_at now birth < 2 ^ 63 - 1.
Proof.
  intros [_ _ Ht Hz Hs _] Hle Hn birth.
  assert (0 <= birth <= now) as Hb by (unfold birth; destruct (_ =? 0); lia).
  destruct (slot_at_spec now birth Hb Hn) as [E Hr]. split_and!; try lia.
  - unfold birth. destruct (Z.eqb_spec (BirthNano w) 0); lia.
  - rewrite Hs. apply Z.div_pos; lia.
  - rewrite Hs, E. unfold birth. destruct (Z.eqb_spec (BirthNano w) 0) as [Hb0|].
    + rewrite (Hz Hb0), Hb0, !Z.sub_diag. lia.
    + apply Z.div_le_mono; lia.
Qed.
(** The state a tick leaves, as a function of its one clock reading. *)
Definition clocked (now : Z) (w : State) : State :=
  mk (u64 (TickCount w + 1)) (if BirthNano w =? 0 then now else BirthNano w) now (LastProcessedSlot w) (market w) (SlotsProcessed w).
Definition caught (now : Z) (w : State) : State :=
  let cs := slot_at now (BirthNano w) in
  let next := u64 (LastProcessedSlot w + 1) in
  if next <? cs then caughtUp (Z.to_nat (cs - next)) next w else w.
Definition after (now : Z) (w : State) : State :=
  let w := clocked now w in
  if TickCount w =? 1 then set_last 0 (process 0 w)
  else let cs := slot_at now (BirthNano w) in set_last cs (process cs (caught now w)).
Lemma Tick_after w : act_post (fun _ w' => exists now, is_i64 now /\ w' = after now w) (Tick w).
Proof.
  unfold Tick. slots_post; match goal with H : is_i64 ?now |- _ => exists now end; (split; [done|]);
    unfold after, caught, clocked; cbn [TickCount BirthNano LastNano LastProcessedSlot market SlotsProcessed] in *;
    repeat match goal with E : ?c = _ |- context [if ?c then _ else _] => rewrite E end; done.
Qed.
Lemma u64_wraps_past_one x : is_u64 x -> 0 < x -> u64 (x + 1) = 1 -> False.
Proof.
  unfold is_u64. intros Hx Hpos. destruct (Z.eq_dec x (2 ^ 64 - 1)) as [->|]; [done|]. rewrite u64_id by (unfold is_u64; lia). lia.
Qed.
Lemma caught_fields now w : TickCount (caught now w) = TickCount w /\ BirthNano (caught now w) = BirthNano w /\ LastNano (caught now w) = LastNano w.
Proof. unfold caught. destruct (_ <? _); [apply caughtUp_fields|done]. Qed.
Lemma caught_market now w k cs : cs = slot_at now (BirthNano w) -> k = LastProcessedSlot w -> 0 <= k <= cs -> cs < 2 ^ 63 - 1 ->
  market w = world k -> see cs (market (caught now w)) = world cs.
Proof.
  intros Hcs Hk Hle Hlt Hm. unfold caught. rewrite <- Hcs, <- Hk, u64_id by (unfold is_u64; lia).
  destruct (Z.ltb_spec (k + 1) cs); [apply gap_market|apply (next_market _ k)]; lia || done.
Qed.
Lemma after_fields now w : TickCount (after now w) = u64 (TickCount w + 1) /\ LastNano (after now w) = now.
Proof.
  unfold after. cbv zeta. destruct (_ =? 1); [done|]. unfold set_last, process. cbn [TickCount LastNano].
  by destruct (caught_fields now (clocked now w)) as (-> & _ & ->).
Qed.
Lemma after_informs now w : ok w -> ok (after now w) -> informed w \/ w = new agent -> is_i64 now ->
  LastNano w <= LastNano (after now w) -> TickCount w <= TickCount (after now w) -> informed (after now w).
Proof.
  intros Hok Hok' Hw Hnow. destruct (after_fields now w) as [-> ->]. intros Hle Htc. revert Hok'. unfold after. cbv zeta.
  change (TickCount (clocked now w)) with (u64 (TickCount w + 1)). destruct (Z.eqb_spec (u64 (TickCount w + 1)) 1) as [E1|E1]; intros Hok'.
  - destruct Hw as [Hw| ->].
    { pose proof (in_born w Hw). exfalso. by apply (u64_wraps_past_one (TickCount w)) in E1; [|apply ok_ticks|]. }
    split; cbn in *; try done; try lia. by rewrite Z.sub_diag.
  - destruct Hw as [Hw| ->]; [|done]. pose proof (in_born w Hw).
    destruct (informed_now w now Hw Hle Hnow) as (Hb & Hz & Hk & Hcs & Hlt).
    change (BirthNano (clocked now w)) with (if BirthNano w =? 0 then now else BirthNano w) in *.
    set (cs := slot_at now _) in *. destruct (caught_fields now (clocked now w)) as (E & EB & EL).
    split; [exact Hok'|..]; unfold set_last, process; cbn [TickCount BirthNano LastNano LastProcessedSlot market]; rewrite ?E, ?EB, ?EL;
      cbn [clocked TickCount BirthNano LastNano]; try done; try lia.
    apply (caught_market now _ (LastProcessedSlot w)); try done; apply (in_market w Hw).
Qed.

Lemma life_informs w w' : forward w w' -> ok w -> informed w \/ w = new agent -> ok w' /\ (informed w' \/ w' = new agent).
Proof.
  intros (Hs & Hl & Ht) Hok Hw. assert (ok w') as Hok' by (exact (life_keeps agent ok w w' Hok (rtc_once _ _ Hs))).
  split; [done|]. destruct Hs as [w more w' Hc|w w' E].
  - left. destruct (act_post_can _ _ _ _ (Tick_after w) Hc) as (now & Hn & ->). by apply after_informs.
  - rewrite (marshal_roundtrip (A := agent) w Hok) in E. by injection E as <-.
Qed.
Lemma lives_informed w w' : rtc forward w w' -> ok w -> informed w \/ w = new agent -> informed w' \/ w' = new agent.
Proof.
  intros Hr. induction Hr as [|w1 w2 w3 Hs _ IH]; [done|]. intros Hok Hw. destruct (life_informs w1 w2 Hs Hok Hw). by apply IH.
Qed.

(** C26: Downtime is invisible to the liquidation watcher. As long as the
    clock does not run backwards and the 64-bit tick counter does not wrap,
    whatever ticks ran, whenever they ran and however often the agent was
    stopped and restarted, it knows about the price of every slot since its
    birth what an agent knows that watched them all: latest, highest and
    lowest price, first breach and open warning are a function of the
    elapsed time alone. *)
Theorem downtime_is_invisible w : rtc forward (new agent) w -> 0 < TickCount w ->
  market w = world ((LastNano w - BirthNano w) / 1000000000).
Proof.
  intros Hr Ht. destruct (lives_informed _ w Hr) as [Hw| ->]; [by split|by right| |done].
  by rewrite <- (in_slot w Hw), (in_market w Hw).
Qed.
(** Born at 5 s; stopped; the next tick is 40 s later. *)
Definition woken : State := after 45000000000 (after 5000000000 (new agent)).
Lemma downtime_is_invisible_witness : market woken = world 40 /\ FirstWarningSlot (market woken) = 38 /\ PriceLow (market woken) = 154000.
Proof.
  split; [|split; vm_compute; reflexivity].
  assert (forall w now, is_i64 now -> act_run (Tick w) (told now) = Some (false, after now w) -> life agent w (after now w)) as Hlife.
  { intros w now Hn Hr. apply (life_tick agent w false). by apply (act_run_can _ (told now)). }
  assert (40 = (LastNano woken - BirthNano woken) / 1000000000) as -> by (vm_compute; reflexivity).
  refine (downtime_is_invisible woken _ _); [|vm_compute; reflexivity]. unfold woken. set (first := after 5000000000 (new agent)).
  assert (is_i64 5000000000 /\ is_i64 45000000000) as [H1 H2] by (unfold is_i64; lia).
  apply (rtc_l _ _ first); [split; [apply Hlife; [exact H1|vm_compute; reflexivity]|split; vm_compute; congruence]|].
  apply (rtc_l _ _ first); [split; [apply life_restart; vm_compute; reflexivity|split; vm_compute; congruence]|].
  apply (rtc_l _ _ (after 45000000000 first)); [split; [apply Hlife; [exact H2|vm_compute; reflexivity]|split; vm_compute; congruence]|].
  apply rtc_refl.
Defined.

(** A clock that reads more than a second before the birth makes the unsigned
    slot number wrap: the catch-up loop then sets out to replay 2^64 slots. *)
Example clock_before_birth : slot_at 5000000000 7000000000 = 2 ^ 64 - 2 /\ missed (slot_at 5000000000 7000000000) 3 = 2 ^ 64 - 6.
Proof. split; vm_compute; reflexivity. Qed.
End Liquidation.
