(* ===== verification/Reconciler.v ===== *)
(** * The bridge reconciliation agent (agents/research/reconciliation)

    The state machine of the agent, that it is [Checkpointable], and that it
    finalizes its case exactly once, on a fixed schedule, whatever the host
    answers and however often it is restarted. *)
From S2P Require Import Prelude Codec Wasm TickReplay Sdk SdkLogic AgentKit.
From stdpp Require Import relations strings.
Open Scope Z_scope.

Definition StateDetectedPendingTransfer : Z := 0.
Definition StateWaitingConfirmations : Z := 1.
Definition StateReadyToFinalize : Z := 2.
Definition StateFinalized : Z := 3.
Definition StateCompleted : Z := 4.
Definition requiredConfirmations : Z := 6.

Record Reconciler := mk {
  State : Z; TickCount : Z; CaseID : bytes; Confirmations : Z; RequiredConfs : Z; IdempotencyKey : bytes;
  IntentRecorded : bool; FinalizeExecuted : bool; AckReceived : bool; DupChecked : bool;
  DetectNano : Z; FinalizeNano : Z; CompleteNano : Z }.
Definition set_State x r := mk x (TickCount r) (CaseID r) (Confirmations r) (RequiredConfs r) (IdempotencyKey r)
  (IntentRecorded r) (FinalizeExecuted r) (AckReceived r) (DupChecked r) (DetectNano r) (FinalizeNano r) (CompleteNano r).
Definition set_TickCount x r := mk (State r) x (CaseID r) (Confirmations r) (RequiredConfs r) (IdempotencyKey r)
  (IntentRecorded r) (FinalizeExecuted r) (AckReceived r) (DupChecked r) (DetectNano r) (FinalizeNano r) (CompleteNano r).
Definition set_CaseID x r := mk (State r) (TickCount r) x (Confirmations r) (RequiredConfs r) (IdempotencyKey r)
  (IntentRecorded r) (FinalizeExecuted r) (AckReceived r) (DupChecked r) (DetectNano r) (FinalizeNano r) (CompleteNano r).
Definition set_Confirmations x r := mk (State r) (TickCount r) (CaseID r) x (RequiredConfs r) (IdempotencyKey r)
  (IntentRecorded r) (FinalizeExecuted r) (AckReceived r) (DupChecked r) (DetectNano r) (FinalizeNano r) (CompleteNano r).
Definition set_RequiredConfs x r := mk (State r) (TickCount r) (CaseID r) (Confirmations r) x (IdempotencyKey r)
  (IntentRecorded r) (FinalizeExecuted r) (AckReceived r) (DupChecked r) (DetectNano r) (FinalizeNano r) (CompleteNano r).
Definition set_IdempotencyKey x r := mk (State r) (TickCount r) (CaseID r) (Confirmations r) (RequiredConfs r) x
  (IntentRecorded r) (FinalizeExecuted r) (AckReceived r) (DupChecked r) (DetectNano r) (FinalizeNano r) (CompleteNano r).
Definition set_flags i f a d r := mk (State r) (TickCount r) (CaseID r) (Confirmations r) (RequiredConfs r) (IdempotencyKey r)
  i f a d (DetectNano r) (FinalizeNano r) (CompleteNano r).
Definition set_DetectNano x r := mk (State r) (TickCount r) (CaseID r) (Confirmations r) (RequiredConfs r) (IdempotencyKey r)
  (IntentRecorded r) (FinalizeExecuted r) (AckReceived r) (DupChecked r) x (FinalizeNano r) (CompleteNano r).
Definition set_FinalizeNano x r := mk (State r) (TickCount r) (CaseID r) (Confirmations r) (RequiredConfs r) (IdempotencyKey r)
  (IntentRecorded r) (FinalizeExecuted r) (AckReceived r) (DupChecked r) (DetectNano r) x (CompleteNano r).
Definition set_CompleteNano x r := mk (State r) (TickCount r) (CaseID r) (Confirmations r) (RequiredConfs r) (IdempotencyKey r)
  (IntentRecorded r) (FinalizeExecuted r) (AckReceived r) (DupChecked r) (DetectNano r) (FinalizeNano r) x.
Definition recorded r := set_flags true (FinalizeExecuted r) (AckReceived r) (DupChecked r) r.
Definition executed r := set_flags (IntentRecorded r) true (AckReceived r) (DupChecked r) r.
Definition acked r := set_flags (IntentRecorded r) (FinalizeExecuted r) true (DupChecked r) r.
Definition dup_checked r := set_flags (IntentRecorded r) (FinalizeExecuted r) (AckReceived r) true r.

Definition shortHex (b : bytes) : bytes := if blen b <? 4 then hex b else hex (take 4 b).
Definition say (l : list verb) : Sdk Reconciler unit := Logf (T "[reconciler] " :: l).

Definition tickDetected (now : Z) : Sdk Reconciler bool :=
  _ ← modify (set_DetectNano now);
  r ← get;
  id ← RandBytes (CaseID r);
  _ ← modify (set_CaseID id);
  _ ← modify (set_RequiredConfs requiredConfirmations);
  _ ← say [T "Case "; V (shortHex id); T " detected (source: chain-A, dest: chain-B)"];
  _ ← say [T "State: DetectedPendingTransfer"];
  _ ← modify (set_State StateWaitingConfirmations);
  mret true.
Definition tickWaitingConfirmations : Sdk Reconciler bool :=
  _ ← modify (fun r => set_Confirmations (u32 (Confirmations r + 1)) r);
  r ← get;
  _ ← say [T "Confirmation "; D (Confirmations r); T "/"; D (RequiredConfs r); T " for case "; V (shortHex (CaseID r))];
  _ ← (if RequiredConfs r <=? Confirmations r then
         key ← RandBytes (IdempotencyKey r);
         _ ← modify (set_IdempotencyKey key);
         _ ← say [T "Confirmation threshold met ("; D (RequiredConfs r); T "/"; D (RequiredConfs r); T " blocks)"];
         _ ← say [T "State: WaitingConfirmations -> ReadyToFinalize"];
         _ ← say [T "Idempotency key generated: "; V (shortHex key)];
         modify (set_State StateReadyToFinalize)
       else mret tt);
  mret true.
Definition tickReadyToFinalize (now : Z) : Sdk Reconciler bool :=
  r ← get;
  let caseHex := shortHex (CaseID r) in
  let keyHex := shortHex (IdempotencyKey r) in
  if negb (IntentRecorded r) then
    _ ← modify recorded;
    _ ← say [T "Finalize intent recorded"];
    _ ← say [T "Idempotency key: "; V keyHex];
    mret true
  else if negb (FinalizeExecuted r) then
    _ ← modify executed;
    _ ← modify (set_FinalizeNano now);
    _ ← say [T "Finalize EXECUTED for case "; V caseHex; T " (key: "; V keyHex; T ")"];
    _ ← say [T "State: ReadyToFinalize -> Finalized"];
    _ ← modify (set_State StateFinalized);
    mret true
  else mret true.
Definition tickFinalized : Sdk Reconciler bool :=
  r ← get;
  let keyHex := shortHex (IdempotencyKey r) in
  if negb (DupChecked r) then
    _ ← modify dup_checked;
    _ ← (if FinalizeExecuted r then
           _ ← say [T "Finalize action SKIPPED"];
           _ ← say [T "Reason: intent "; V keyHex; T " already committed"];
           say [T "No duplicate execution"]
         else mret tt);
    mret true
  else if negb (AckReceived r) then
    _ ← modify acked;
    _ ← say [T "Acknowledgment received from chain-B"];
    _ ← say [T "State: Finalized -> Completed"];
    _ ← modify (set_State StateCompleted);
    mret true
  else mret true.
Definition tickCompleted (now : Z) : Sdk Reconciler bool :=
  _ ← modify (set_CompleteNano now);
  r ← get;
  let totalDowntime :=
    if (0 <? FinalizeNano r) && (FinalizeNano r <? CompleteNano r)
    then Z.quot (i64 (CompleteNano r - FinalizeNano r)) 1000000000 else 0 in
  _ ← say [T "Case "; V (shortHex (CaseID r)); T " completed"];
  _ ← say [T "Side effects executed: 1 (exactly once)"];
  _ ← say [T "Total processing time: "; D totalDowntime; T "s"];
  _ ← say [T "State: Completed"];
  mret false.
Definition Tick : Sdk Reconciler bool :=
  _ ← modify (fun r => set_TickCount (u64 (TickCount r + 1)) r);
  now ← ClockNow;
  r ← get;
  if State r =? StateDetectedPendingTransfer then tickDetected now
  else if State r =? StateWaitingConfirmations then tickWaitingConfirmations
  else if State r =? StateReadyToFinalize then tickReadyToFinalize now
  else if State r =? StateFinalized then tickFinalized
  else if State r =? StateCompleted then tickCompleted now
  else mret false.

Definition Marshal (r : Reconciler) : bytes :=
  Finish (Enc_Int64 (CompleteNano r) (Enc_Int64 (FinalizeNano r) (Enc_Int64 (DetectNano r)
    (Enc_Bool (DupChecked r) (Enc_Bool (AckReceived r) (Enc_Bool (FinalizeExecuted r) (Enc_Bool (IntentRecorded r)
    (Enc_Bytes (IdempotencyKey r) (Enc_Uint32 (RequiredConfs r) (Enc_Uint32 (Confirmations r)
    (Enc_Bytes (CaseID r) (Enc_Uint64 (TickCount r) (Enc_Uint32 (State r) NewEncoder))))))))))))).
(** Go's [copy] into an array. *)
Definition copy_into (dst src : bytes) : bytes := take (length dst) src ++ drop (length src) dst.
Definition Unmarshal (data : bytes) (r : Reconciler) : Reconciler * bool :=
  unmarshal_with (
    state ← Uint32; tick ← Uint64; id ← Bytes; confs ← Uint32; req ← Uint32; key ← Bytes;
    intent ← Bool_; exec ← Bool_; ack ← Bool_; dup ← Bool_;
    detect ← Int64; final ← Int64; complete ← Int64;
    mret (mk state tick (copy_into (CaseID r) id) confs req (copy_into (IdempotencyKey r) key) intent exec ack dup detect final complete)) data.
Definition agent : Agent := {|
  AState := Reconciler; new := mk 0 0 (zeros 16) 0 0 (zeros 16) false false false false 0 0 0; Init := mret tt; Sdk.Tick := Tick;
  Sdk.Marshal := Marshal; AUnmarshal := Unmarshal; Imports := ["clock_now"; "rand_bytes"; "log_emit"] |}.

Record ok (r : Reconciler) : Prop := {
  ok_state : is_u32 (State r); ok_ticks : is_u64 (TickCount r); ok_case : blen (CaseID r) = 16; ok_confs : is_u32 (Confirmations r);
  ok_req : is_u32 (RequiredConfs r); ok_key : blen (IdempotencyKey r) = 16;
  ok_detect : is_i64 (DetectNano r); ok_final : is_i64 (FinalizeNano r); ok_complete : is_i64 (CompleteNano r) }.
Lemma copy_whole dst src : length src = length dst -> copy_into dst src = src.
Proof. intros Hl. unfold copy_into. by rewrite <- Hl, firstn_all, drop_ge, app_nil_r by lia. Qed.
Ltac unfold_handlers :=
  unfold Tick, tickDetected, tickWaitingConfirmations, tickReadyToFinalize, tickFinalized, tickCompleted, say.
#[export] Instance checkpointable : Checkpointable agent ok.
Proof.
  split; cbn [AState agent Sdk.Marshal Sdk.Tick AUnmarshal new].
  - intros r []. unfold Marshal. encoder_unfold. autorewrite with igor_len. lia.
  - intros [st t id c rq key i f a d dn fn cn] []. unfold Unmarshal, Marshal. cbn in ok_state0, ok_ticks0, ok_case0, ok_confs0, ok_req0,
      ok_key0, ok_detect0, ok_final0, ok_complete0.
    cbn [State TickCount CaseID Confirmations RequiredConfs IdempotencyKey IntentRecorded FinalizeExecuted AckReceived DupChecked DetectNano
      FinalizeNano CompleteNano].
    assert (is_u32 (blen id) /\ is_u32 (blen key)) as [Hid Hkey] by (unfold is_u32; lia). read_back.
    rewrite !copy_whole by (unfold zeros; rewrite length_replicate; unfold blen in *; lia).
    rewrite (u32_id st), (u64_id t), (u32_id c), (u32_id rq) by done. apply reads_ret.
  - intros r []. unfold_handlers. tick_post; split; field_ok; cbn in *; first [congruence | by vm_compute].
Qed.

(** *** The schedule *)
Definition stage (n : nat) : Z :=
  if (n =? 0)%nat then StateDetectedPendingTransfer else if (n <=? 6)%nat then StateWaitingConfirmations
  else if (n <=? 8)%nat then StateReadyToFinalize else if (n <=? 10)%nat then StateFinalized else StateCompleted.
Record on_schedule (n : nat) (r : Reconciler) : Prop := {
  at_state : State r = stage n;
  at_confs : Confirmations r = Z.of_nat (Nat.min (n - 1) 6);
  at_req : (0 < n)%nat -> RequiredConfs r = requiredConfirmations;
  at_intent : IntentRecorded r = (8 <=? n)%nat;
  at_exec : FinalizeExecuted r = (9 <=? n)%nat;
  at_dup : DupChecked r = (10 <=? n)%nat;
  at_ack : AckReceived r = (11 <=? n)%nat }.
Lemma tick_on_schedule n r : on_schedule n r -> act_post (fun more r' => on_schedule (S n) r' /\ more = (n <? 11)%nat) (Tick r).
Proof.
  intros [Hst Hc Hq Hi He Hd Ha]. 
  assert (n ∈ seq 0 11 \/ exists k, n = (11 + k)%nat) as Hn.
  { destruct (decide (n < 11)%nat); [left; apply elem_of_seq; lia|right; exists (n - 11)%nat; lia]. }
  destruct r as [st t id c rq key i f a d dn fn cn]. cbn in Hst, Hc, Hq, Hi, He, Hd, Ha.
  destruct Hn as [Hn|[k ->]]; [cbn in Hn; repeat apply elem_of_cons in Hn as [->|Hn]; [..|by apply not_elem_of_nil in Hn]|];
    try specialize (Hq ltac:(lia)); cbn in Hst, Hc, Hi, He, Hd, Ha; subst;
    unfold_handlers; tick_post; try discriminate; (split; [split; try (intros _); reflexivity|reflexivity]).
Qed.
Lemma tick_returns r : act_returns (Tick r).
Proof. unfold_handlers. tick_fold. repeat returns_step. Qed.
Lemma lived_on_schedule n r : lived agent (fun _ => True) n r -> ok r /\ on_schedule n r.
Proof.
  revert n r. apply (lived_invariant agent ok).
  - by split.
  - split; try done. cbn. lia.
  - intros k s _ Hs. eapply act_post_weaken; [|apply (tick_on_schedule k s Hs)]. by intros more r [? _].
Qed.
(** What the finalize action left, later ticks leave alone. *)
Lemma finalized_kept n r : on_schedule n r -> (9 <= n)%nat ->
  act_post (fun _ r' => FinalizeNano r' = FinalizeNano r /\ IdempotencyKey r' = IdempotencyKey r) (Tick r).
Proof.
  intros Hs Hn. assert (FinalizeExecuted r = true /\ IntentRecorded r = true) as [Hf Hi].
  { rewrite (at_exec _ _ Hs), (at_intent _ _ Hs). split; apply Nat.leb_le; lia. }
  assert (State r = StateFinalized \/ State r = StateCompleted) as Hst.
  { rewrite (at_state _ _ Hs). unfold stage. destruct (Nat.eqb_spec n 0), (Nat.leb_spec n 6), (Nat.leb_spec n 8); try lia.
    destruct (n <=? 10)%nat; auto. }
  destruct r as [st t id c rq key i f a d dn fn cn]. cbn in Hf, Hi, Hst. subst.
  unfold_handlers; destruct Hst as [-> | ->]; tick_post; try discriminate; done.
Qed.
(** C21: The reconciliation agent finalizes exactly once and completes.
    Whatever the host's clock and randomness are and however often the agent
    is stopped and restarted, its ticks never panic and its n-th tick puts it
    in a state that depends on n alone: six confirmations, then the intent
    (tick 8, so that a checkpoint holds it), then the finalize action (tick 9
    and no other tick), the duplicate check (tick 10) and completion
    (tick 11). *)
Theorem reconciler_completes n r : lived agent (fun _ => True) n r ->
  act_returns (Tick r) /\ State r = stage n /\ IntentRecorded r = (8 <=? n)%nat /\ FinalizeExecuted r = (9 <=? n)%nat /\
  ((9 <= n)%nat -> act_post (fun _ r' => FinalizeNano r' = FinalizeNano r /\ IdempotencyKey r' = IdempotencyKey r) (Tick r)).
Proof.
  intros [_ Hs]%lived_on_schedule. split; [apply tick_returns|]. split_and!; try apply Hs. by apply finalized_kept.
Qed.
(** Nine ticks, each after a restart. *)
Definition always (_ : AState agent) : bool := true.
Definition nine : AState agent := default (new agent) (run_life agent always (replicate 9 (told 1000)) (new agent)).
Lemma reconciler_completes_witness : FinalizeExecuted nine = true /\ State nine = StateFinalized /\
  act_post (fun _ r' => FinalizeNano r' = FinalizeNano nine /\ IdempotencyKey r' = IdempotencyKey nine) (Tick nine).
Proof.
  destruct (reconciler_completes 9 nine) as (_ & Hs & _ & Hf & Hk).
  - apply (run_life_lived agent _ always (replicate 9 (told 1000)) (fun _ _ => I) 0 (new agent) nine).
    + apply Forall_replicate. split; [by vm_compute|by split].
    + constructor.
    + vm_compute. reflexivity.
  - split; [exact Hf|]. split; [exact Hs|]. apply Hk. lia.
Defined.
