(* ===== verification/Sentinel.v ===== *)
(** * The treasury sentinel (agents/sentinel)

    The agent, that it is [Checkpointable], and its books: no refill is lost
    or counted twice, and money is only created by counted refills. *)
From S2P Require Import Prelude Budget Codec Effects Wasm TickReplay Sdk SdkLogic AgentKit.
From stdpp Require Import relations strings.
Open Scope Z_scope.

Definition initialBalance : Z := 1000000.
Definition refillThreshold : Z := 300000.
Definition refillAmount : Z := 500000.
Definition spendMin : Z := 5000.
Definition spendRange : Z := 20000.
Definition phaseMonitoring : Z := 0.
Definition phaseReconciling : Z := 1.

Record Sentinel := mk {
  TickCount : Z; BirthNano : Z; LastNano : Z; Balance : Z; RefillCount : Z; SpendTotal : Z; Log : EffectLog; Phase : Z; rngState : Z }.
Definition count_tick s := mk (u64 (TickCount s + 1)) (BirthNano s) (LastNano s) (Balance s) (RefillCount s) (SpendTotal s) (Log s) (Phase s) (rngState s).
Definition birth now s := mk (TickCount s) now (LastNano s) initialBalance (RefillCount s) (SpendTotal s) (Log s) (Phase s) (rngState s).
Definition set_LastNano x s := mk (TickCount s) (BirthNano s) x (Balance s) (RefillCount s) (SpendTotal s) (Log s) (Phase s) (rngState s).
Definition set_Log e s := mk (TickCount s) (BirthNano s) (LastNano s) (Balance s) (RefillCount s) (SpendTotal s) e (Phase s) (rngState s).
Definition set_Phase x s := mk (TickCount s) (BirthNano s) (LastNano s) (Balance s) (RefillCount s) (SpendTotal s) (Log s) x (rngState s).
Definition set_rngState x s := mk (TickCount s) (BirthNano s) (LastNano s) (Balance s) (RefillCount s) (SpendTotal s) (Log s) (Phase s) x.
Definition credit s := mk (TickCount s) (BirthNano s) (LastNano s) (u64 (Balance s + refillAmount)) (u32 (RefillCount s + 1)) (SpendTotal s) (Log s) (Phase s) (rngState s).
Definition spend x s := mk (TickCount s) (BirthNano s) (LastNano s) (u64 (Balance s - x)) (RefillCount s) (u64 (SpendTotal s + x)) (Log s) (Phase s) (rngState s).

Definition say (l : list verb) : Sdk Sentinel unit := Logf (T "[sentinel] " :: l).
Definition dollars (p : Z) : list verb := [T "$"; D (p / 100); T "."; D2 (p mod 100)].
(** A method of the effect log. *)
Definition effects (op : EffectLog -> result effect_error unit * EffectLog) : Sdk Sentinel (result effect_error unit) :=
  s ← get; let '(r, e) := op (Log s) in _ ← modify (set_Log e); mret r.
Definition prune : Sdk Sentinel unit := modify (fun s => set_Log (snd (Prune (Log s))) s).

(** xorshift64. *)
Definition xorshift (x : Z) : Z :=
  let x := Z.lxor x (u64 (Z.shiftl x 13)) in
  let x := Z.lxor x (Z.shiftr x 7) in
  Z.lxor x (u64 (Z.shiftl x 17)).
Definition rng : Sdk Sentinel Z :=
  _ ← modify (fun s => set_rngState (xorshift (rngState s)) s);
  s ← get; mret (rngState s).

Definition refill_data (balance ageSec : Z) : bytes :=
  Finish (Enc_Int64 ageSec (Enc_Uint64 balance (Enc_Uint64 refillAmount NewEncoder))).
Definition recordRefillIntent (ageSec : Z) : Sdk Sentinel bool :=
  key ← RandBytes (zeros 16);
  s ← get;
  r ← effects (Record_ key (refill_data (Balance s) ageSec));
  match r with
  | Err e => _ ← say [T "ERROR: failed to record intent: "; V (effect_error_text e)]; mret false
  | Ok _ =>
      k4 ← first4 key;
      _ ← say ([T "Intent RECORDED: refill "] ++ dollars refillAmount ++ [T " (key="; X k4; T "...)"]);
      _ ← say [T "Waiting for checkpoint before execution..."];
      mret false
  end.
Definition executeRefill (intent : Intent) : Sdk Sentinel bool :=
  r ← effects (Begin (ID intent));
  match r with
  | Err e => _ ← say [T "ERROR: failed to begin intent: "; V (effect_error_text e)]; mret false
  | Ok _ =>
      k4 ← first4 (ID intent);
      _ ← say [T "Refill IN-FLIGHT: executing bridge transfer (key="; X k4; T "...)"];
      _ ← say ([T "Bridge: source=chain-A dest=chain-B amount="] ++ dollars refillAmount);
      _ ← modify credit;
      r ← effects (Confirm (ID intent));
      match r with
      | Err e => _ ← say [T "ERROR: failed to confirm intent: "; V (effect_error_text e)]; mret false
      | Ok _ =>
          s ← get;
          k4 ← first4 (ID intent);
          _ ← say ([T "Refill CONFIRMED: balance now "] ++ dollars (Balance s) ++ [T " (key="; X k4; T "...)"]);
          _ ← prune;
          mret true
      end
  end.
(** [intent.ID[0] % 2 == 0]. *)
Definition even_key (id : bytes) : Sdk Sentinel bool :=
  match id with b :: _ => mret (Z_of_byte b mod 2 =? 0) | [] => panic end.
Definition reconcile (intent : Intent) : Sdk Sentinel unit :=
  k4 ← first4 (ID intent);
  _ ← say [T "RECONCILING: found unresolved intent (key="; X k4; T "...)"];
  _ ← say [T "Checking bridge status for in-flight transfer..."];
  bridgeCompleted ← even_key (ID intent);
  if (bridgeCompleted : bool) then
    _ ← modify credit;
    r ← effects (Confirm (ID intent));
    match r with
    | Err e => say [T "ERROR: reconcile confirm failed: "; V (effect_error_text e)]
    | Ok _ =>
        _ ← say [T "Reconciled: transfer COMPLETED before crash"];
        s ← get;
        say ([T "Balance credited: "] ++ dollars (Balance s) ++ [T " (no duplicate execution)"])
    end
  else
    r ← effects (Compensate (ID intent));
    match r with
    | Err e => say [T "ERROR: reconcile compensate failed: "; V (effect_error_text e)]
    | Ok _ =>
        _ ← say [T "Reconciled: transfer DID NOT complete before crash"];
        say [T "Compensated — will retry in next cycle"]
    end.

Definition operate (ageSec : Z) : Sdk Sentinel bool :=
  x ← rng;
  s ← get;
  let amount := u64 (spendMin + x mod spendRange) in
  let amount := if Balance s <? amount then Balance s else amount in
  _ ← modify (spend amount);
  s ← get;
  _ ← (if TickCount s mod 5 =? 0 then
         say ([T "tick="; D (TickCount s); T " age="; D ageSec; T "s balance="] ++ dollars (Balance s) ++ [T " spent="] ++ dollars (SpendTotal s)
              ++ [T " refills="; D (RefillCount s)])
       else mret tt);
  if Balance s <? refillThreshold then
    _ ← say ([T "ALERT: balance "] ++ dollars (Balance s) ++ [T " below threshold "] ++ dollars refillThreshold ++ [T " — initiating refill"]);
    recordRefillIntent ageSec
  else mret false.
(** The second half of [Tick]: unresolved intents, then a recorded one, then
    normal operation. *)
Definition act_on (ageSec : Z) : Sdk Sentinel bool :=
  s ← get;
  match Unresolved_ (Log s) with
  | i :: l =>
      _ ← modify (set_Phase phaseReconciling);
      _ ← for_each (i :: l) reconcile;
      _ ← prune;
      _ ← modify (set_Phase phaseMonitoring);
      mret true
  | [] =>
      match first_recorded (Log s) with
      | Some intent => executeRefill intent
      | None => operate ageSec
      end
  end.
Definition Tick : Sdk Sentinel bool :=
  _ ← modify count_tick;
  now ← ClockNow;
  s ← get;
  _ ← (if BirthNano s =? 0 then
         _ ← modify (birth now);
         seed ← RandBytes (zeros 8);
         _ ← modify (set_rngState (get_u64 seed));
         say ([T "Treasury initialized: "] ++ dollars initialBalance)
       else mret tt);
  _ ← modify (set_LastNano now);
  s ← get;
  act_on (Z.quot (i64 (LastNano s - BirthNano s)) 1000000000).

Definition Marshal (s : Sentinel) : bytes :=
  Finish (Enc_Uint64 (rngState s) (Enc_Bool (negb (Phase s =? 0)) (Enc_Bytes (Effects.Marshal (Log s)) (Enc_Uint64 (SpendTotal s)
    (Enc_Uint32 (RefillCount s) (Enc_Uint64 (Balance s) (Enc_Int64 (LastNano s) (Enc_Int64 (BirthNano s) (Enc_Uint64 (TickCount s) NewEncoder))))))))).
Definition Unmarshal (data : bytes) (s : Sentinel) : Sentinel * bool :=
  unmarshal_with (
    tick ← Uint64; birth ← Int64; last ← Int64; bal ← Uint64; refills ← Uint32; spent ← Uint64;
    log ← Bytes; reconciling ← Bool_; rng ← Uint64;
    mret (mk tick birth last bal refills spent (Effects.Unmarshal log) (if reconciling : bool then phaseReconciling else Phase s) rng)) data.
Definition agent : Agent := {|
  AState := Sentinel; new := mk 0 0 0 0 0 0 [] 0 0; Init := mret tt; Sdk.Tick := Tick; Sdk.Marshal := Marshal; AUnmarshal := Unmarshal;
  Imports := ["clock_now"; "rand_bytes"; "log_emit"] |}.

(** ** Between ticks *)
Definition limit : Z := 24.
Record ok (s : Sentinel) : Prop := {
  ok_ticks : is_u64 (TickCount s); ok_birth : is_i64 (BirthNano s); ok_last : is_i64 (LastNano s); ok_balance : is_u64 (Balance s);
  ok_refills : is_u32 (RefillCount s); ok_spent : is_u64 (SpendTotal s); ok_log : waiting limit (Log s); ok_phase : Phase s = phaseMonitoring;
  ok_rng : is_u64 (rngState s) }.
Lemma lxor_u64 a b : is_u64 a -> is_u64 b -> is_u64 (Z.lxor a b).
Proof.
  unfold is_u64. intros Ha Hb. assert (0 <= Z.lxor a b) as H0 by (apply Z.lxor_nonneg; lia). split; [done|].
  destruct (Z.eq_dec (Z.lxor a b) 0) as [->|Hne]; [lia|]. apply Z.log2_lt_pow2; [lia|].
  assert (forall x, 0 <= x < 2 ^ 64 -> Z.log2 x < 64) as Hx.
  { intros x Hx. destruct (Z.eq_dec x 0) as [->|]; [cbn; lia|]. apply Z.log2_lt_pow2; lia. }
  pose proof (Z.log2_lxor a b ltac:(lia) ltac:(lia)). pose proof (Hx a Ha). pose proof (Hx b Hb). lia.
Qed.
Lemma shiftr_u64 x n : 0 <= n -> is_u64 x -> is_u64 (Z.shiftr x n).
Proof.
  unfold is_u64. intros Hn Hx. rewrite Z.shiftr_div_pow2 by done. pose proof (Z.pow_pos_nonneg 2 n ltac:(lia) Hn).
  split; [apply Z.div_pos; lia|]. apply Z.div_lt_upper_bound; nia.
Qed.
Lemma xorshift_u64 x : is_u64 x -> is_u64 (xorshift x).
Proof.
  intros Hx. unfold xorshift. assert (is_u64 (Z.lxor x (u64 (Z.shiftl x 13)))) as H1 by (apply lxor_u64; [done|apply u64_range]).
  assert (is_u64 (Z.lxor (Z.lxor x (u64 (Z.shiftl x 13))) (Z.shiftr (Z.lxor x (u64 (Z.shiftl x 13))) 7))) as H2
    by (apply lxor_u64; [done|by apply shiftr_u64]).
  apply lxor_u64; [done|apply u64_range].
Qed.
Lemma refill_data_size b a : blen (refill_data b a) <= limit.
Proof. unfold refill_data. encoder_unfold. autorewrite with igor_len. unfold limit. lia. Qed.

(** A tick on a log with at most one, unbegun intent: it either executes it,
    and then the log is empty, or operates. *)
Definition refilled (s s' : Sentinel) : Prop := s' = set_Log [] (credit s).
Lemma effects_post {B} (Q : B -> Sentinel -> Prop) op (f : result effect_error unit -> Sdk Sentinel B) s r e :
  op (Log s) = (r, e) -> act_post Q (f r (set_Log e s)) -> act_post Q ((effects op ≫= f) s).
Proof. intros E H. unfold effects. apply post_assoc, post_get. cbv beta. by rewrite E. Qed.
Lemma executeRefill_post id d s : Log s = [mkIntent id Recorded d] ->
  act_post (fun _ s' => refilled s s') (executeRefill (mkIntent id Recorded d) s).
Proof.
  intros Hl. unfold executeRefill, prune, say, refilled. tick_fold. cbn [ID].
  eapply effects_post; [rewrite Hl; apply begin_one|]. cbv beta iota. repeat tick_step.
  eapply effects_post; [apply confirm_one|]. cbv beta iota. repeat tick_step. done.
Qed.
(** Operating leaves the log empty, or one new intent below the threshold. *)
Definition spending (x : Z) (s : Sentinel) : Z :=
  let amount := u64 (spendMin + x mod spendRange) in if Balance s <? amount then Balance s else amount.
Definition operated (s s' : Sentinel) : Prop :=
  let x := xorshift (rngState s) in
  let s1 := spend (spending x s) (set_rngState x s) in
  (refillThreshold <= Balance s1 /\ s' = s1) \/
  (Balance s1 < refillThreshold /\ exists key d, blen key = 16 /\ blen d <= limit /\ s' = set_Log [mkIntent key Recorded d] s1).
Lemma operate_post age s : Log s = [] -> act_post (fun _ s' => operated s s') (operate age s).
Proof.
  intros Hl. unfold operate, recordRefillIntent, rng, say, operated. tick_fold.
  repeat first
    [ tick_step
    | eapply effects_post; [etransitivity; [exact (f_equal (Record_ _ _) Hl)|reflexivity]|cbv beta iota; cbn [op_answer] in *] ].
  all: zb; first [left; split; [assumption|reflexivity] | right; split; [assumption|]; do 2 eexists; split; [|split; [apply refill_data_size|reflexivity]]; done].
Qed.
(** What a tick does between ticks. *)
Definition awake (now seed : Z) (s : Sentinel) : Sentinel :=
  let s := count_tick s in
  set_LastNano now (if BirthNano s =? 0 then set_rngState seed (birth now s) else s).
Definition settled (s s' : Sentinel) : Prop := match Log s with [] => operated s s' | _ => refilled s s' end.
Lemma act_on_post age s : waiting limit (Log s) -> act_post (fun _ s' => settled s s') (act_on age s).
Proof.
  intros Hw. unfold act_on, settled. apply post_get. cbv beta. rewrite (waiting_unresolved _ _ Hw), (waiting_first _ _ Hw).
  remember (Log s) as e eqn:E. symmetry in E. destruct Hw as [|id d Hid Hd]; cbn [head]; [by apply operate_post|by apply executeRefill_post].
Qed.
Lemma Tick_post s : waiting limit (Log s) ->
  act_post (fun _ s' => exists now seed, is_i64 now /\ is_u64 seed /\ settled (awake now seed s) s') (Tick s).
Proof.
  intros Hw. unfold Tick, say. tick_fold.
  repeat tick_step.
  - match goal with |- context [set_rngState ?x (birth ?now _)] => assert (awake now x s = set_LastNano now (set_rngState x (birth now (count_tick s)))) as Ha
      by (unfold awake; by match goal with E : _ = true |- _ => rewrite E end);
      eapply act_post_weaken; [|apply act_on_post; exact Hw]; intros ? s' Hs; exists now, x end.
    split; [done|]. split; [apply get_u64_range|]. by rewrite Ha.
  - match goal with |- context [set_LastNano ?now _] => assert (awake now 0 s = set_LastNano now (count_tick s)) as Ha
      by (unfold awake; by match goal with E : _ = false |- _ => rewrite E end);
      eapply act_post_weaken; [|apply act_on_post; exact Hw]; intros ? s' Hs; exists now, 0 end.
    split; [done|]. split; [unfold is_u64; lia|]. by rewrite Ha.
Qed.
Lemma awake_ok now seed s : is_i64 now -> is_u64 seed -> ok s -> ok (awake now seed s).
Proof.
  intros Hn Hs []. unfold awake. cbv zeta. destruct (_ =? 0); split; try done; try apply u64_range; unfold is_u64, initialBalance; cbn; lia.
Qed.
Lemma settled_ok s s' : ok s -> settled s s' -> ok s'.
Proof.
  intros []. unfold settled. assert (forall x, ok (spend x (set_rngState (xorshift (rngState s)) s))) as Hspend.
  { intros x. split; try done; try apply u64_range. by apply xorshift_u64. }
  destruct (Log s) as [|i l].
  - intros [[_ ->]|[_ (key & d & Hk & Hd & ->)]]; [apply Hspend|]. destruct (Hspend (spending (xorshift (rngState s)) s)).
    split; try done. by apply w_one.
  - intros ->. split; try done; try apply u64_range; try apply u32_range. constructor.
Qed.
#[export] Instance checkpointable : Checkpointable agent ok.
Proof.
  split; cbn [AState agent Sdk.Marshal Sdk.Tick AUnmarshal new].
  - intros s []. pose proof (waiting_size limit (Log s) ltac:(done) ok_log0). unfold Marshal. encoder_unfold. autorewrite with igor_len.
    pose proof (blen_nonneg (Effects.Marshal (Log s))). unfold limit in *. lia.
  - intros [t b l bal rc sp e p r] []. unfold Unmarshal, Marshal. cbn [TickCount BirthNano LastNano Balance RefillCount SpendTotal Log Phase rngState] in *.
    pose proof (waiting_size limit e ltac:(done) ok_log0). pose proof (blen_nonneg (Effects.Marshal e)).
    assert (is_u32 (blen (Effects.Marshal e))) as He by (unfold is_u32, limit in *; lia). subst p. read_back.
    rewrite (u64_id t), (u64_id bal), (u32_id rc), (u64_id sp), (u64_id r), (waiting_resumes limit e) by done. apply reads_ret.
  - intros s Hok. eapply act_post_weaken; [|apply Tick_post, ok_log, Hok]. intros ? s' (now & seed & Hn & Hs & Hst).
    eapply settled_ok; [|exact Hst]. by apply awake_ok.
Qed.

(** ** The books *)
Record books (n : Z) (s : Sentinel) : Prop := {
  bk_sum : Balance s + SpendTotal s = initialBalance + refillAmount * RefillCount s;
  bk_refills : 0 <= RefillCount s <= n;
  bk_spent : 0 <= SpendTotal s <= 25000 * n;
  bk_balance : 0 <= Balance s <= initialBalance;
  bk_due : Log s <> [] -> Balance s < refillThreshold }.
Lemma spending_range x s : 0 <= Balance s -> 0 <= spending x s <= Balance s /\ spending x s < 25000.
Proof.
  intros Hb. unfold spending. pose proof (Z.mod_pos_bound x spendRange ltac:(done)) as Hm. unfold spendMin, spendRange in *.
  rewrite u64_id by (unfold is_u64; lia). destruct (Z.ltb_spec (Balance s) (5000 + x mod 20000)); lia.
Qed.
Lemma spend_books n x s : 0 <= n < 2 ^ 32 - 1 -> books n s -> Log s = [] ->
  let s' := spend (spending x s) (set_rngState x s) in
  books (n + 1) s' /\ Log s' = [].
Proof.
  intros Hn [Hs Hr Hsp Hb _] Hl s'. pose proof (spending_range x s (proj1 Hb)) as Ha. unfold initialBalance, refillAmount in *.
  assert (u64 (Balance s - spending x s) = Balance s - spending x s) as E1 by (apply u64_id; unfold is_u64; lia).
  assert (u64 (SpendTotal s + spending x s) = SpendTotal s + spending x s) as E2 by (apply u64_id; unfold is_u64; lia).
  unfold s', spend, set_rngState. split; [|done]. split; cbn [Balance SpendTotal RefillCount Log]; rewrite ?E1, ?E2; unfold initialBalance, refillAmount; try lia. by rewrite Hl.
Qed.
Lemma settled_books n s s' : 0 <= n < 2 ^ 32 - 1 -> books n s -> settled s s' -> books (n + 1) s'.
Proof.
  intros Hn Hb. unfold settled. destruct (Log s) as [|i l] eqn:Hl.
  - destruct (spend_books n (xorshift (rngState s)) s Hn Hb Hl) as [[H1 H2 H3 H4 H5] Hl'].
    intros [[_ ->]|[Hlt (key & d & _ & _ & ->)]]; by split.
  - intros ->. destruct Hb as [Hs Hr Hsp Hb Hd]. rewrite Hl in Hd. specialize (Hd ltac:(done)). unfold initialBalance, refillAmount, refillThreshold in *.
    assert (u64 (Balance s + 500000) = Balance s + 500000) as E1 by (apply u64_id; unfold is_u64; lia).
    assert (u32 (RefillCount s + 1) = RefillCount s + 1) as E2 by (apply u32_id; unfold is_u32; lia).
    unfold set_Log, credit. split; cbn [Balance SpendTotal RefillCount Log]; unfold refillAmount, initialBalance; rewrite ?E1, ?E2; try lia. done.
Qed.
Definition born (s : AState agent) : Prop := BirthNano s <> 0.
Definition kept (n : nat) (s : AState agent) : Prop :=
  Z.of_nat n < 2 ^ 32 -> (n = 0%nat /\ s = new agent) \/ (born s /\ books (Z.of_nat n) s).
Lemma tick_kept n s : ok s -> kept n s -> act_post (fun _ s' => born s' -> kept (S n) s') (Tick s).
Proof.
  intros Hok Hk. eapply act_post_weaken; [|apply Tick_post, ok_log, Hok]. intros ? s' (now & seed & Hn & Hs & Hst) Hb Hlt. right. split; [done|].
  replace (Z.of_nat (S n)) with (Z.of_nat n + 1) by lia. apply (settled_books _ (awake now seed s)); [lia| |done].
  destruct (Hk ltac:(lia)) as [[-> ->]|[Hborn Hbk]].
  - split; cbn; try lia; done.
  - unfold awake. cbv zeta. change (BirthNano (count_tick s)) with (BirthNano s). unfold born in Hborn.
    destruct (Z.eqb_spec (BirthNano s) 0) as [|_]; [done|]. by destruct Hbk.
Qed.

(** Some ticks into a life whose every tick left a birth time. *)
Lemma lived_kept n s : lived agent born n s -> ok s /\ kept n s.
Proof.
  revert n s. apply (lived_invariant agent ok born kept).
  - split; try done; vm_compute; try (split; congruence). constructor.
  - intros _. by left.
  - exact tick_kept.
Qed.
Definition balanced (s : AState agent) : Prop :=
  Balance s + SpendTotal s = initialBalance + refillAmount * RefillCount s /\
  0 <= Balance s <= initialBalance /\
  (Log s = [] \/ exists key data, Log s = [mkIntent key Recorded data] /\ Balance s < refillThreshold).
Lemma treasury_books n s : lived agent born n s -> Z.of_nat n < 2 ^ 32 -> n = 0%nat /\ s = new agent \/ balanced s.
Proof.
  intros Hl Hlt. destruct (lived_kept n s Hl) as [Hok Hk]. destruct (Hk Hlt) as [?|[_ [H1 H2 H3 H4 H5]]]; [by left|right]. split_and!; try lia.
  destruct (ok_log s Hok) as [|id d]; [by left|right]. exists id, d. split; [done|]. by apply H5.
Qed.
Lemma lived_zero s : lived agent born 0 s -> s = new agent.
Proof.
  remember 0%nat as n eqn:En. intros Hl. revert En. induction Hl as [|n s more s' _ _ _ _|n s s' Hl IH E]; intros En; [done|done|].
  rewrite (IH En) in E. by injection E as <-.
Qed.
(** The tick after an intent was recorded carries it out. *)
Lemma treasury_refills n s more s' : lived agent born n s -> Z.of_nat n + 1 < 2 ^ 32 -> Log s <> [] -> act_can (Tick s) more s' ->
  Log s' = [] /\ RefillCount s' = RefillCount s + 1 /\ Balance s' = Balance s + refillAmount /\ SpendTotal s' = SpendTotal s.
Proof.
  intros Hl Hlt Hlog Hc. destruct (lived_kept n s Hl) as [Hok Hk].
  destruct (act_post_can _ _ _ _ (Tick_post s (ok_log s Hok)) Hc) as (now & seed & _ & _ & Hst).
  destruct (Hk ltac:(lia)) as [[_ ->]|[Hborn [_ Hrf _ Hb Hd]]]; [done|]. specialize (Hd Hlog).
  assert (awake now seed s = set_LastNano now (count_tick s)) as Ha.
  { unfold awake. cbv zeta. change (BirthNano (count_tick s)) with (BirthNano s). unfold born in Hborn. by destruct (Z.eqb_spec (BirthNano s) 0). }
  rewrite Ha in Hst. unfold settled in Hst. cbn [Log set_LastNano count_tick] in Hst. destruct (Log s) as [|i e]; [done|]. rewrite Hst.
  unfold initialBalance, refillAmount, refillThreshold in *. cbn. unfold refillAmount. rewrite u32_id, u64_id by (unfold is_u32, is_u64; lia). done.
Qed.

(** A clock that never reads zero. *)
Definition clock_runs : telling := fun X o => match o in sdk_op X return X -> Prop with OpClockNow => fun now => now <> 0 | _ => fun _ => True end.
(** It gives the sentinel a birth time, in its first tick and for good. *)
Lemma settled_birth s s' : settled s s' -> BirthNano s' = BirthNano s.
Proof. unfold settled. destruct (Log s); [intros [[_ ->]|[_ (? & ? & _ & _ & ->)]]|intros ->]; done. Qed.
Lemma act_on_birth age s : waiting limit (Log s) -> born s -> act_post (fun _ s' => born s') (act_on age s).
Proof.
  intros Hw Hb. eapply act_post_weaken; [|by apply act_on_post]. intros a s' Hs. cbv beta in Hs. unfold born in *. by rewrite (settled_birth _ _ Hs).
Qed.
Lemma awake_born s l : ok s -> act_books clock_runs (fun _ _ s' => born s') l (Tick s).
Proof.
  intros Hok%ok_log. unfold Tick, say. tick_fold. repeat books_step; apply post_books, act_on_birth; try exact Hok.
  - match goal with H : clock_runs _ OpClockNow _ |- _ => exact H end.
  - unfold born. zb. done.
Qed.

(** C15: The treasury's books balance, exactly.  In any life of fewer than
    2^32 ticks that return, with any number of restarts from the state left
    and whatever the host answers, except that the clock never reads zero:
    after the first tick, what is in the treasury plus what was spent is the
    initial balance plus one refill amount for every refill counted; the
    balance never goes negative or above its initial value; and at every
    checkpoint at most one refill intent is outstanding, recorded but not
    begun, and only while the balance is below the threshold.  No recorded
    refill is lost or made twice: when an intent is outstanding, the next tick
    that returns settles it, counts one refill and credits one refill
    amount.  (Before its first tick the treasury is empty.) *)
Theorem treasury_is_conserved n s l : told_life agent clock_runs n s l -> Z.of_nat n < 2 ^ 32 ->
  (n = 0%nat /\ s = new agent \/
   Balance s + SpendTotal s = initialBalance + refillAmount * RefillCount s /\
   0 <= Balance s <= initialBalance /\
   (Log s = [] \/ exists key data, Log s = [mkIntent key Recorded data] /\ Balance s < refillThreshold)) /\
  (forall more s', Log s <> [] -> Z.of_nat n + 1 < 2 ^ 32 -> act_can (Tick s) more s' ->
   Log s' = [] /\ RefillCount s' = RefillCount s + 1 /\ Balance s' = Balance s + refillAmount /\ SpendTotal s' = SpendTotal s).
Proof.
  intros Hl Hlt. assert (lived agent born n s) as Hb.
  { revert Hl. apply (told_lived agent ok clock_runs born); [|exact awake_born]. split; try done; vm_compute; try (split; congruence). constructor. }
  split; [by apply treasury_books|]. intros more s' Hlog Hlt' Hc. by apply (treasury_refills n s more s').
Qed.
(** 150 ticks, a second apart and each after a restart. *)
Definition seconds (n : nat) : list answers := (fun k => told (Z.of_nat (S k) * 1000000000)) <$> seq 0 n.
Lemma seconds_ok n : (n <= 150)%nat -> Forall answers_ok (seconds n) /\ Forall (gives clock_runs) (seconds n).
Proof.
  intros Hn. split; apply Forall_fmap, Forall_seq; intros k Hk; cbn.
  - split; [cbn [a_clock told]; unfold is_i64; lia|]. split; [done|by split].
  - split_and!; done.
Qed.
Definition worked (n : nat) : AState agent := default (new agent) (run_life agent (fun _ => true) (seconds n) (new agent)).
Lemma worked_told n : (n <= 150)%nat -> is_Some (run_life agent (fun _ => true) (seconds n) (new agent)) ->
  exists l, told_life agent clock_runs n (worked n) l.
Proof.
  intros Hn [s Hs]. destruct (seconds_ok n Hn) as [H1 H2].
  destruct (run_life_told agent clock_runs _ (seconds n) 0 (new agent) [] s H1 H2 (tl_born _ _) Hs) as (l & Hl). exists l.
  unfold worked. rewrite Hs. unfold seconds in Hl. by rewrite length_fmap, length_seq, Nat.add_0_r in Hl.
Qed.
(** When the first refill was recorded, and the tick after. *)
Definition waiting_tick : nat := Eval vm_compute in default 0%nat (head (filter (fun n => bool_decide (Log (worked n) <> [])) (seq 0 150))).
Definition refilled_tick : bool * AState agent := default (false, new agent) (act_run (Tick (worked waiting_tick)) (told 1000000000000)).
Lemma treasury_is_conserved_witness :
  Balance (worked 150) + SpendTotal (worked 150) = initialBalance + refillAmount * RefillCount (worked 150) /\ RefillCount (worked 150) = 1 /\
  RefillCount (worked waiting_tick) = 0 /\ RefillCount (snd refilled_tick) = 1 /\ Log (snd refilled_tick) = [].
Proof.
  split; [|split; [vm_compute; reflexivity|split; [vm_compute; reflexivity|]]].
  - destruct (worked_told 150 ltac:(lia) ltac:(vm_compute; eauto)) as (l & Hl).
    destruct (treasury_is_conserved 150 (worked 150) l Hl ltac:(lia)) as [[[Hn _]|[Hb _]] _]; [discriminate Hn|exact Hb].
  - destruct (worked_told waiting_tick ltac:(vm_compute; lia) ltac:(vm_compute; eauto)) as (l & Hl).
    destruct (treasury_is_conserved waiting_tick (worked waiting_tick) l Hl ltac:(vm_compute; reflexivity)) as [_ Hr].
    destruct (Hr (fst refilled_tick) (snd refilled_tick)) as (Hlog & Hrc & _).
    + vm_compute. discriminate.
    + vm_compute. reflexivity.
    + apply (act_run_can _ (told 1000000000000)); [apply (Forall_singleton answers_ok), answers_okb_ok; vm_compute; reflexivity|vm_compute; reflexivity].
    + split; [rewrite Hrc; vm_compute; reflexivity|exact Hlog].
Defined.
(** A clock that reads zero at birth is taken for unborn: the treasury is
    filled a second time. *)
Example zero_clock_refills : exists s, run_life agent (fun _ => true) [told 0; told 0] (new agent) = Some s /\
  Balance s + SpendTotal s = initialBalance + spendMin /\ RefillCount s = 0.
Proof. eexists. split; [vm_compute; reflexivity|]. split; reflexivity. Qed.
