(* ===== verification/X402.v ===== *)
(** * Paying for data: the x402 buyer and its paywall (agents/x402buyer,
      cmd/paywall)

    The agent, the payment terms both sides exchange, that the agent is
    [Checkpointable], and what a tick pays (X402Node.v: on a node). *)
From S2P Require Import Prelude Budget Codec Effects Wasm TickReplay Sdk SdkLogic AgentKit.
From stdpp Require Import relations strings.
Open Scope Z_scope.

(** ** Payment terms *)
(** cmd/paywall. *)
Definition encodePaymentTerms (amount : Z) (recipient memo : bytes) : bytes :=
  put_u64 (u64 amount) ++ put_u32 (u32 (blen recipient)) ++ recipient ++ put_u32 (u32 (blen memo)) ++ memo.
(** The buyer's side. *)
Definition parsePaymentTerms (body : bytes) : Z * bytes * bytes :=
  if blen body <? 12 then (0, [], [])
  else
    let amount := i64 (get_u64 body) in
    let recipientLen := get_u32 (drop 8 body) in
    let off := 12 in
    if blen body <? off + recipientLen then (0, [], [])
    else
      let recipient := slice off (off + recipientLen) body in
      let off := off + recipientLen in
      if blen body <? off + 4 then (amount, recipient, [])
      else
        let memoLen := get_u32 (drop (Z.to_nat off) body) in
        let off := off + 4 in
        if blen body <? off + memoLen then (amount, recipient, [])
        else (amount, recipient, slice off (off + memoLen) body).

(** The answer of [handlePremiumData]; the insight it picks and the time it
    prints are the server's. *)
Definition paymentAmount : Z := 100000.
Definition paymentRecipient : bytes := bytes_of "paywall-provider".
Definition paymentMemo : bytes := bytes_of "premium-data-access".
Definition handlePremiumData (payment : bytes) (insight : bytes) (now : Z) : Z * bytes :=
  if blen payment =? 0 then (402, encodePaymentTerms paymentAmount paymentRecipient paymentMemo)
  else
    let q := [byte_of_Z 34] in
    (200, bytes_of "{" ++ q ++ bytes_of "insight" ++ q ++ bytes_of ":" ++ q ++ insight ++ q ++ bytes_of "," ++ q ++ bytes_of "timestamp" ++ q ++
          bytes_of ":" ++ format_verb (D now) ++ bytes_of "," ++ q ++ bytes_of "tier" ++ q ++ bytes_of ":" ++ q ++ bytes_of "premium" ++ q ++ bytes_of "}").

(** ** net/http's [ServeMux]

    A pattern that ends in a slash matches the paths it is a prefix of, any
    other pattern only itself; the longest match is taken. *)
Fixpoint ends_in_slash (s : string) : bool :=
  match s with
  | EmptyString => false
  | String _ EmptyString => bool_decide (s = "/"%string)
  | String _ s => ends_in_slash s
  end.
Definition pattern_matches (pattern path : string) : bool :=
  if ends_in_slash pattern then String.prefix pattern path else bool_decide (path = pattern).
Fixpoint mux_match {A} (routes : list (string * A)) (path : string) (best : option (string * A)) : option (string * A) :=
  match routes with
  | [] => best
  | (pattern, h) :: routes =>
      let longer := match best with Some (p, _) => (String.length p <? String.length pattern)%nat | None => true end in
      mux_match routes path (if pattern_matches pattern path && longer then Some (pattern, h) else best)
  end.
Definition mux_handler {A} (routes : list (string * A)) (path : string) : option A := snd <$> mux_match routes path None.

(** ** cmd/paywall: [main] *)
Definition listen_addr (envAddr dflt : string) : string := if bool_decide (envAddr = ""%string) then dflt else envAddr.
Definition paywall_address (envAddr : string) : string := listen_addr envAddr ":8402".
Inductive paywall_route := PremiumData | Health.
Definition paywall_mux : list (string * paywall_route) := [("/api/premium-data", PremiumData); ("/health", Health)]%string.
Definition paywall (path : string) (payment insight : bytes) (now : Z) : Z * bytes :=
  match mux_handler paywall_mux path with
  | Some PremiumData => handlePremiumData payment insight now
  | Some Health => (200, bytes_of "ok")
  | None => (404, bytes_of "404 page not found" ++ [byte_of_Z 10])
  end.

(** ** The agent *)
Definition paywallURL : string := "http://localhost:8402/api/premium-data".
Definition phasePolling : Z := 0.
Definition phaseReconciling : Z := 1.
Record X402Buyer := mk {
  TickCount : Z; BirthNano : Z; LastNano : Z; Phase : Z; PaidCount : Z; DataCount : Z; TotalPaid : Z; LastReceipt : bytes; Log : EffectLog }.
Definition clock now b := mk (TickCount b) (if BirthNano b =? 0 then now else BirthNano b) now (Phase b) (PaidCount b) (DataCount b) (TotalPaid b) (LastReceipt b) (Log b).
Definition count_tick b := mk (u64 (TickCount b + 1)) (BirthNano b) (LastNano b) (Phase b) (PaidCount b) (DataCount b) (TotalPaid b) (LastReceipt b) (Log b).
Definition set_Phase x b := mk (TickCount b) (BirthNano b) (LastNano b) x (PaidCount b) (DataCount b) (TotalPaid b) (LastReceipt b) (Log b).
Definition set_Log e b := mk (TickCount b) (BirthNano b) (LastNano b) (Phase b) (PaidCount b) (DataCount b) (TotalPaid b) (LastReceipt b) e.
Definition set_LastReceipt r b := mk (TickCount b) (BirthNano b) (LastNano b) (Phase b) (PaidCount b) (DataCount b) (TotalPaid b) r (Log b).
Definition count_paid amount b := mk (TickCount b) (BirthNano b) (LastNano b) (Phase b) (u32 (PaidCount b + 1)) (DataCount b) (i64 (TotalPaid b + amount)) (LastReceipt b) (Log b).
Definition count_data b := mk (TickCount b) (BirthNano b) (LastNano b) (Phase b) (PaidCount b) (u32 (DataCount b + 1)) (TotalPaid b) [] (Log b).

Definition say (l : list verb) : Sdk X402Buyer unit := Logf (T "[x402buyer] " :: l).
Definition effects (op : EffectLog -> result effect_error unit * EffectLog) : Sdk X402Buyer (result effect_error unit) :=
  b ← get; let '(r, e) := op (Log b) in _ ← modify (set_Log e); mret r.
Definition prune : Sdk X402Buyer unit := modify (fun b => set_Log (snd (Prune (Log b))) b).

Definition intent_data (amount : Z) (recipient memo : bytes) : bytes :=
  Finish (Enc_Bytes memo (Enc_Bytes recipient (Enc_Int64 amount NewEncoder))).
(** [d.Int64()], [d.Bytes()], [d.Bytes()], [d.Err()]. *)
Definition read_intent (data : bytes) : Z * bytes * bytes * bool :=
  let '(r, d) := (amount ← Int64; recipient ← Bytes; memo ← Bytes; mret (amount, recipient, memo)) (NewDecoder data) in (r, Err_ d).

Definition recordPaymentIntent (amount : Z) (recipient memo : bytes) : Sdk X402Buyer bool :=
  key ← RandBytes (zeros 16);
  r ← effects (Record_ key (intent_data amount recipient memo));
  match r with
  | Err e => _ ← say [T "ERROR: failed to record intent: "; V (effect_error_text e)]; mret false
  | Ok _ =>
      k4 ← first4 key;
      _ ← say [T "Payment intent RECORDED (key="; X k4; T "...). Waiting for checkpoint..."];
      mret false
  end.
Definition executePayment (intent : Intent) : Sdk X402Buyer bool :=
  let '(amount, recipient, memo, err) := read_intent (Data intent) in
  if (err : bool) then
    _ ← say [T "ERROR: corrupt intent data: "; V (bytes_of "igor: short read during decode")];
    _ ← effects (Compensate (ID intent));
    mret false
  else
    r ← effects (Begin (ID intent));
    match r with
    | Err e => _ ← say [T "ERROR: failed to begin intent: "; V (effect_error_text e)]; mret false
    | Ok _ =>
        k4 ← first4 (ID intent);
        _ ← say [T "Payment IN-FLIGHT: "; D amount; T " microcents to "; V recipient; T " (key="; X k4; T "...)"];
        p ← WalletPay amount recipient memo;
        match p with
        | Err e =>
            _ ← say [T "Payment FAILED: "; V (pay_error_text e)];
            _ ← effects (Compensate (ID intent));
            _ ← prune;
            mret false
        | Ok receipt =>
            _ ← modify (fun b => set_LastReceipt receipt (count_paid amount b));
            r ← effects (Confirm (ID intent));
            match r with
            | Err e => _ ← say [T "ERROR: failed to confirm intent: "; V (effect_error_text e)]; mret false
            | Ok _ =>
                k4 ← first4 (ID intent);
                _ ← say [T "Payment CONFIRMED: "; D amount; T " microcents (key="; X k4; T "..., receipt="; D (blen receipt); T " bytes)"];
                _ ← prune;
                mret true
            end
        end
    end.
Definition even_key (id : bytes) : Sdk X402Buyer bool :=
  match id with b :: _ => mret (Z_of_byte b mod 2 =? 0) | [] => panic end.
Definition reconcile (intent : Intent) : Sdk X402Buyer unit :=
  k4 ← first4 (ID intent);
  _ ← say [T "RECONCILING: unresolved payment (key="; X k4; T "...)"];
  let '(amount, recipient, _, _) := read_intent (Data intent) in
  paymentCompleted ← even_key (ID intent);
  if (paymentCompleted : bool) then
    _ ← modify (count_paid amount);
    r ← effects (Confirm (ID intent));
    match r with
    | Err e => say [T "ERROR: reconcile confirm failed: "; V (effect_error_text e)]
    | Ok _ => say [T "Reconciled: payment of "; D amount; T " to "; V recipient; T " COMPLETED before crash"]
    end
  else
    r ← effects (Compensate (ID intent));
    match r with
    | Err e => say [T "ERROR: reconcile compensate failed: "; V (effect_error_text e)]
    | Ok _ => say [T "Reconciled: payment of "; D amount; T " to "; V recipient; T " DID NOT complete — will retry"]
    end.

(** Normal operation: fetch, and pay on 402. *)
Definition fetch : Sdk X402Buyer bool :=
  b ← get;
  _ ← say [T "Fetching premium data (tick="; D (TickCount b); T ")..."];
  r ← (if 0 <? blen (LastReceipt b)
       then HTTPRequest "GET" paywallURL [("X-Payment"%string, string_of (hex (LastReceipt b)))] []
       else HTTPGet paywallURL);
  let '(status, body, err) := r in
  match err with
  | Some e => _ ← say [T "HTTP error: "; V (http_error_text e)]; mret false
  | None =>
      if status =? 200 then
        _ ← modify count_data;
        _ ← say [T "PREMIUM DATA RECEIVED: "; V body];
        mret false
      else if status =? 402 then
        let '(amount, recipient, memo) := parsePaymentTerms body in
        if amount <=? 0 then _ ← say [T "Invalid payment terms in 402 response"]; mret false
        else
          _ ← say [T "402 PAYMENT REQUIRED: "; D amount; T " microcents to "; V recipient; T " ("; V memo; T ")"];
          recordPaymentIntent amount recipient memo
      else
        _ ← say [T "Unexpected status "; D status; T ": "; V body];
        mret false
  end.
Definition operate (ageSec : Z) : Sdk X402Buyer bool :=
  b ← get;
  if negb (TickCount b mod 3 =? 1) then
    _ ← (if TickCount b mod 5 =? 0 then
           say [T "tick="; D (TickCount b); T " age="; D ageSec; T "s payments="; D (PaidCount b); T " data="; D (DataCount b); T " total_paid="; D (TotalPaid b)]
         else mret tt);
    mret false
  else fetch.
(** The second half of [Tick]. *)
Definition act_on (ageSec : Z) : Sdk X402Buyer bool :=
  b ← get;
  match Unresolved_ (Log b) with
  | i :: l =>
      _ ← modify (set_Phase phaseReconciling);
      _ ← for_each (i :: l) reconcile;
      _ ← prune;
      _ ← modify (set_Phase phasePolling);
      mret true
  | [] =>
      match first_recorded (Log b) with
      | Some intent => executePayment intent
      | None => operate ageSec
      end
  end.
Definition Tick : Sdk X402Buyer bool :=
  _ ← modify count_tick;
  now ← ClockNow;
  b ← get;
  _ ← (if BirthNano b =? 0 then say [T "Agent initialized. Fetching premium data from paywall."] else mret tt);
  _ ← modify (clock now);
  b ← get;
  act_on (Z.quot (i64 (LastNano b - BirthNano b)) 1000000000).

Definition Marshal (b : X402Buyer) : bytes :=
  Finish (Enc_Bytes (Effects.Marshal (Log b)) (Enc_Bytes (LastReceipt b) (Enc_Int64 (TotalPaid b) (Enc_Uint32 (DataCount b) (Enc_Uint32 (PaidCount b)
    (Enc_Bool (negb (Phase b =? 0)) (Enc_Int64 (LastNano b) (Enc_Int64 (BirthNano b) (Enc_Uint64 (TickCount b) NewEncoder))))))))).
Definition Unmarshal (data : bytes) (b : X402Buyer) : X402Buyer * bool :=
  unmarshal_with (
    tick ← Uint64; birth ← Int64; last ← Int64; reconciling ← Bool_; paid ← Uint32; got ← Uint32; total ← Int64;
    receipt ← Bytes; log ← Bytes;
    mret (mk tick birth last (if reconciling : bool then phaseReconciling else Phase b) paid got total receipt (Effects.Unmarshal log))) data.
Definition agent : Agent := {|
  AState := X402Buyer; new := mk 0 0 0 0 0 0 0 [] []; Init := mret tt; Sdk.Tick := Tick; Sdk.Marshal := Marshal; AUnmarshal := Unmarshal;
  Imports := ["clock_now"; "rand_bytes"; "log_emit"; "http_request"; "wallet_pay"] |}.

(** ** The terms survive the wire *)
Lemma drop_to (l pre post : bytes) n : l = pre ++ post -> blen pre = n -> drop (Z.to_nat n) l = post.
Proof. intros -> <-. apply drop_app_length'. unfold blen. lia. Qed.
Lemma parse_terms amount recipient memo : is_i64 amount -> is_u32 (blen recipient) -> is_u32 (blen memo) ->
  parsePaymentTerms (encodePaymentTerms amount recipient memo) = (amount, recipient, memo).
Proof.
  intros Ha Hr Hm. set (body := encodePaymentTerms amount recipient memo).
  set (r4 := put_u32 (u32 (blen recipient))). set (m4 := put_u32 (u32 (blen memo))).
  assert (body = put_u64 (u64 amount) ++ r4 ++ recipient ++ m4 ++ memo) as Eb by done.
  assert (blen body = 16 + blen recipient + blen memo) as Hl.
  { rewrite Eb. unfold r4, m4. autorewrite with igor_len. lia. }
  pose proof (blen_nonneg recipient). pose proof (blen_nonneg memo).
  assert (get_u64 body = u64 amount) as E1 by (rewrite Eb; rewrite get_put_u64; apply u64_id, u64_range).
  assert (get_u32 (drop 8 body) = blen recipient) as E2.
  { change 8%nat with (Z.to_nat 8). rewrite (drop_to body (put_u64 (u64 amount)) (r4 ++ recipient ++ m4 ++ memo) 8 Eb ltac:(by rewrite blen_put_u64)). unfold r4.
    rewrite get_put_u32, !u32_id by (done || apply u32_range). done. }
  assert (body = (put_u64 (u64 amount) ++ r4) ++ recipient ++ (m4 ++ memo)) as Eb1 by (by rewrite Eb, <- !app_assoc).
  assert (body = (put_u64 (u64 amount) ++ r4 ++ recipient) ++ (m4 ++ memo)) as Eb2 by (by rewrite Eb, <- !app_assoc).
  assert (body = (put_u64 (u64 amount) ++ r4 ++ recipient ++ m4) ++ memo ++ []) as Eb3 by (by rewrite Eb, app_nil_r, <- !app_assoc).
  assert (get_u32 (drop (Z.to_nat (12 + blen recipient)) body) = blen memo) as E3.
  { rewrite (drop_to body _ _ _ Eb2) by (unfold r4; autorewrite with igor_len; lia). unfold m4.
    rewrite get_put_u32, !u32_id by (done || apply u32_range). done. }
  unfold parsePaymentTerms. rewrite E1, E2, Hl. cbv zeta. rewrite E3, i64_of_u64 by done.
  repeat match goal with |- context [?x <? ?y] => destruct (Z.ltb_spec x y); [lia|] end.
  do 2 f_equal.
  - rewrite Eb1. apply slice_app_mid; unfold r4; autorewrite with igor_len; lia.
  - rewrite Eb3. apply slice_app_mid; unfold r4, m4; autorewrite with igor_len; lia.
Qed.
Lemma parse_sizes body amount recipient memo : parsePaymentTerms body = (amount, recipient, memo) ->
  blen recipient + blen memo <= blen body.
Proof.
  pose proof (blen_nonneg body). change (blen (@nil byte)) with 0.
  unfold parsePaymentTerms. destruct (_ <? 12) eqn:E0; [intros [= _ <- <-]; change (blen (@nil byte)) with 0; lia|]. pose proof (get_u32_range (drop 8 body)) as R1.
  cbv zeta. destruct (blen body <? 12 + get_u32 (drop 8 body)) eqn:E1; [intros [= _ <- <-]; change (blen (@nil byte)) with 0; lia|].
  set (n := get_u32 (drop 8 body)) in *. unfold is_u32 in R1. zb.
  assert (blen (slice 12 (12 + n) body) = n) as L1 by (rewrite blen_slice; lia).
  destruct (blen body <? 12 + n + 4) eqn:E2; [intros [= _ <- <-]; change (blen (@nil byte)) with 0; lia|].
  set (off := drop _ body). pose proof (get_u32_range off) as R2. set (k := get_u32 off) in *. unfold is_u32 in R2.
  destruct (blen body <? 12 + n + 4 + k) eqn:E3; intros [= _ <- <-]; [change (blen (@nil byte)) with 0; lia|]. zb.
  rewrite L1, blen_slice; lia.
Qed.
Lemma read_intent_data amount recipient memo : is_i64 amount -> is_u32 (blen recipient) -> is_u32 (blen memo) ->
  read_intent (intent_data amount recipient memo) = (amount, recipient, memo, false).
Proof.
  intros Ha Hr Hm. unfold read_intent.
  assert (reads (amount ← Int64; recipient ← Bytes; memo ← Bytes; mret (amount, recipient, memo)) (intent_data amount recipient memo) (amount, recipient, memo)) as H.
  { unfold intent_data. match goal with |- reads _ ?e _ => rewrite <- (app_nil_r e) end. encoder_unfold. rewrite <- ?app_assoc.
    repeat first [reads_step | rewrite (app_assoc (put_u32 _)); reads_step]. }
  destruct (reads_run _ _ _ [] H) as (d & E & Hd & _). rewrite app_nil_r in E. unfold Err_. by rewrite E, Hd.
Qed.
Lemma intent_data_size amount recipient memo : blen (intent_data amount recipient memo) = 16 + blen recipient + blen memo.
Proof. unfold intent_data. encoder_unfold. autorewrite with igor_len. lia. Qed.

(** The buyer understands the paywall.  The terms the paywall writes into
    a 402 response are the terms the agent reads, whatever the amount, the
    recipient and the memo, and an intent made of them is read back the same
    when it is executed, ticks and restarts later. *)
Theorem payment_terms_roundtrip amount recipient memo : is_i64 amount -> is_u32 (blen recipient) -> is_u32 (blen memo) ->
  parsePaymentTerms (encodePaymentTerms amount recipient memo) = (amount, recipient, memo) /\
  read_intent (intent_data amount recipient memo) = (amount, recipient, memo, false).
Proof. intros Ha Hr Hm. split; [by apply parse_terms|by apply read_intent_data]. Qed.
Lemma payment_terms_roundtrip_witness :
  parsePaymentTerms (snd (handlePremiumData [] [] 0)) = (paymentAmount, paymentRecipient, paymentMemo).
Proof.
  apply (payment_terms_roundtrip paymentAmount paymentRecipient paymentMemo); vm_compute; split; congruence.
Defined.

(** ** What a tick does *)
Definition limit : Z := 4 * 1024 * 1024 + 16.
(** The outcome of a tick, with what it paid. *)
Inductive outcome (b : X402Buyer) : Z -> X402Buyer -> Prop :=
| o_paid i amount recipient memo receipt : Log b = [i] -> read_intent (Data i) = (amount, recipient, memo, false) ->
    blen receipt <= 64 * 1024 -> outcome b amount (set_Log [] (set_LastReceipt receipt (count_paid amount b)))
| o_refused i : Log b = [i] -> outcome b 0 (set_Log [] b)
| o_corrupt i r : Log b = [i] -> read_intent (Data i) = (r, true) -> outcome b 0 b
| o_idle : Log b = [] -> outcome b 0 b
| o_data : Log b = [] -> outcome b 0 (count_data b)
| o_recorded key d : Log b = [] -> blen key = 16 -> blen d <= limit -> outcome b 0 (set_Log [mkIntent key Recorded d] b).

Lemma same_log b : set_Log (Log b) b = b.
Proof. by destruct b. Qed.
Lemma effects_paid {B} (Q : Z -> B -> X402Buyer -> Prop) sum op (f : result effect_error unit -> Sdk X402Buyer B) b r e :
  op (Log b) = (r, e) -> act_paid Q sum (f r (set_Log e b)) -> act_paid Q sum ((effects op ≫= f) b).
Proof. intros E H. unfold effects. apply paid_assoc, paid_get. cbv beta. by rewrite E. Qed.
Lemma executePayment_paid id d b : Log b = [mkIntent id Recorded d] ->
  act_paid (fun sum _ b' => outcome b sum b') 0 (executePayment (mkIntent id Recorded d) b).
Proof.
  intros Hl. unfold executePayment, prune, say. tick_fold. cbn [ID Data].
  destruct (read_intent d) as [[[amount recipient] memo] err] eqn:Er. destruct err; cbv beta iota.
  - repeat paid_step. eapply effects_paid; [rewrite Hl; apply compensate_recorded|]. cbv beta. paid_step. rewrite <- Hl, same_log.
    by eapply o_corrupt.
  - eapply effects_paid; [rewrite Hl; apply begin_one|]. cbv beta iota. repeat paid_step.
    + eapply effects_paid; [apply confirm_one|]. cbv beta iota. repeat paid_step. rewrite Z.add_0_l.
      match goal with H : forall b, Ok ?r = Ok b -> _ |- _ => pose proof (H r eq_refl) end. by eapply (o_paid b).
    + eapply effects_paid; [apply compensate_one|]. cbv beta. repeat paid_step. by eapply (o_refused b).
Qed.
Lemma recordPaymentIntent_paid amount recipient memo b : Log b = [] -> blen recipient + blen memo <= 4 * 1024 * 1024 ->
  act_paid (fun sum _ b' => outcome b sum b') 0 (recordPaymentIntent amount recipient memo b).
Proof.
  intros Hl Hs. unfold recordPaymentIntent, say. tick_fold. repeat paid_step.
  eapply effects_paid; [rewrite Hl; reflexivity|]. cbv beta iota. repeat paid_step.
  apply (o_recorded b); [done|done|]. rewrite intent_data_size. unfold limit. lia.
Qed.
Lemma operate_paid age b : Log b = [] -> act_paid (fun sum _ b' => outcome b sum b') 0 (operate age b).
Proof.
  intros Hl. unfold operate, fetch, say. tick_fold.
  repeat first [paid_step | apply recordPaymentIntent_paid]; first [by apply o_idle | by apply o_data | done | idtac].
  all: match goal with E : parsePaymentTerms _ = _ |- _ => apply parse_sizes in E end; cbn [fst snd] in *; lia.
Qed.
Definition turn (now : Z) (b : X402Buyer) : X402Buyer := clock now (count_tick b).
Lemma act_on_paid age b : waiting limit (Log b) -> act_paid (fun sum _ b' => outcome b sum b') 0 (act_on age b).
Proof.
  intros Hw. unfold act_on. apply paid_get. cbv beta. rewrite (waiting_unresolved _ _ Hw), (waiting_first _ _ Hw).
  remember (Log b) as e eqn:E. symmetry in E. destruct Hw as [|id d Hid Hd]; cbn [head]; [by apply operate_paid|by apply executePayment_paid].
Qed.
Lemma Tick_paid b : waiting limit (Log b) ->
  act_paid (fun sum _ b' => exists now, is_i64 now /\ outcome (turn now b) sum b') 0 (Tick b).
Proof.
  intros Hw. unfold Tick, say. tick_fold. repeat paid_step.
  all: match goal with H : is_i64 ?now |- _ => eapply paid_weaken; [|apply (act_on_paid _ (turn now b)); exact Hw]; intros; by exists now end.
Qed.

Record ok (b : X402Buyer) : Prop := {
  ok_ticks : is_u64 (TickCount b); ok_birth : is_i64 (BirthNano b); ok_last : is_i64 (LastNano b); ok_phase : Phase b = phasePolling;
  ok_paid : is_u32 (PaidCount b); ok_data : is_u32 (DataCount b); ok_total : is_i64 (TotalPaid b); ok_receipt : blen (LastReceipt b) <= 64 * 1024;
  ok_log : waiting limit (Log b) }.
Lemma turn_ok now b : is_i64 now -> ok b -> ok (turn now b).
Proof. intros Hn []. split; try done; [apply u64_range|]. cbn. by destruct (_ =? 0). Qed.
Lemma outcome_ok b sum b' : ok b -> outcome b sum b' -> ok b'.
Proof.
  intros Hb Ho. pose proof Hb as []. destruct Ho; try done; split; try done; try apply u32_range; try apply i64_range; cbn; try (unfold blen; cbn; lia);
    by constructor.
Qed.
#[export] Instance checkpointable : Checkpointable agent ok.
Proof.
  split; cbn [AState agent Sdk.Marshal Sdk.Tick AUnmarshal new].
  - intros b []. pose proof (waiting_size limit (Log b) ltac:(done) ok_log0). unfold Marshal. encoder_unfold. autorewrite with igor_len.
    pose proof (blen_nonneg (Effects.Marshal (Log b))). pose proof (blen_nonneg (LastReceipt b)). unfold limit in *. lia.
  - intros [t b l p pc dc tp lr e] []. unfold Unmarshal, Marshal. cbn [TickCount BirthNano LastNano Phase PaidCount DataCount TotalPaid LastReceipt Log] in *.
    pose proof (waiting_size limit e ltac:(done) ok_log0). pose proof (blen_nonneg (Effects.Marshal e)). pose proof (blen_nonneg lr).
    assert (is_u32 (blen (Effects.Marshal e)) /\ is_u32 (blen lr)) as [He Hr] by (unfold is_u32, limit in *; lia). subst p. read_back.
    rewrite (u64_id t), (u32_id pc), (u32_id dc), (waiting_resumes limit e) by done. apply reads_ret.
  - intros b Hok. apply (paid_post (fun _ => ok) _ 0). eapply paid_weaken; [|apply Tick_paid, ok_log, Hok].
    intros sum more b' (now & Hn & Ho). eapply outcome_ok; [by apply (turn_ok now)|exact Ho].
Qed.

(** Every buffer the agent passes fits. *)
Lemma Bytes_size d b d' : Bytes d = (b, d') -> blen b <= blen (data d).
Proof.
  unfold Bytes. destruct (Uint32 d) as [n d1] eqn:E. apply Uint32_mono in E as (Ed & _ & _). pose proof (blen_nonneg (data d)).
  repeat case_match_goal; intros [= <- _]; rewrite <- ?Ed; unfold blen, slice in *; cbn; rewrite ?length_take, ?length_drop; lia.
Qed.
Lemma read_intent_sizes d amount recipient memo err : read_intent d = (amount, recipient, memo, err) ->
  blen recipient <= blen d /\ blen memo <= blen d.
Proof.
  unfold read_intent, mbind, dec_bind. destruct (Int64 (NewDecoder d)) as [a d1] eqn:E1. destruct (Bytes d1) as [r d2] eqn:E2.
  destruct (Bytes d2) as [m d3] eqn:E3. intros [= _ <- <- _].
  assert (data d1 = d) as Ed.
  { revert E1. unfold Int64, Uint64, mbind, dec_bind, mret, dec_ret. case_match_goal; by intros [= _ <-]. }
  pose proof (Bytes_size _ _ _ E2). pose proof (Bytes_size _ _ _ E3). apply Bytes_mono in E2 as [E2 _]. rewrite E2, Ed in *. done.
Qed.
Lemma blen_encode_header k v : blen (encode_headers [(k, v)]) = blen (bytes_of k) + blen (bytes_of v) + 3.
Proof. unfold encode_headers. cbn [fmap list_fmap concat]. rewrite app_nil_r, !blen_app. change (blen (bytes_of ": ")) with 2. rewrite blen_one. lia. Qed.
Lemma executePayment_fits i b : blen (Data i) <= limit -> act_fits (executePayment i b).
Proof.
  intros Hd. unfold executePayment, effects, prune, say. tick_fold. destruct (read_intent (Data i)) as [[[amount recipient] memo] err] eqn:E.
  apply read_intent_sizes in E as [Hr Hm]. pose proof (blen_nonneg recipient). pose proof (blen_nonneg memo).
  repeat all_step; cbn [op_fits]; try done. unfold is_u32, limit in *. lia.
Qed.
Lemma operate_fits age b : blen (LastReceipt b) <= 64 * 1024 -> act_fits (operate age b).
Proof.
  intros Hr. unfold operate, fetch, recordPaymentIntent, effects, say. tick_fold. pose proof (blen_nonneg (LastReceipt b)).
  assert (is_u32 (blen (bytes_of "GET")) /\ is_u32 (blen (bytes_of paywallURL)) /\ is_u32 (blen (@nil byte)) /\
    is_u32 (blen (encode_headers [])) /\ is_u32 (blen (zeros 16))) as (H1 & H2 & H3 & H4 & H5) by (split_and!; vm_compute; split; congruence).
  assert (is_u32 (blen (encode_headers [("X-Payment"%string, string_of (hex (LastReceipt b)))]))) as H6.
  { rewrite blen_encode_header, bytes_of_string_of, blen_hex. change (blen (bytes_of "X-Payment")) with 9. unfold is_u32. lia. }
  repeat all_step; cbn [op_fits]; first [exact I | exact H5 | split_and!; assumption].
Qed.
Lemma Tick_fits b : ok b -> act_fits (Tick b).
Proof.
  intros Hok. assert (forall age now, act_fits (act_on age (turn now b))) as Hact.
  { intros age now. pose proof (ok_log b Hok) as Hw. change (Log b) with (Log (turn now b)) in Hw. unfold act_on. apply all_get. cbv beta.
    rewrite (waiting_unresolved _ _ Hw), (waiting_first _ _ Hw). destruct Hw as [|id d Hid Hd]; cbn [head].
    - apply operate_fits, Hok.
    - by apply executePayment_fits. }
  unfold Tick, say. tick_fold. repeat all_step; try done; apply Hact.
Qed.
