(* ===== verification/X402Node.v ===== *)
(** * The x402 buyer on a node

    What the buyer books as paid is what leaves the budget of the instance it
    runs in. *)
From S2P Require Import Prelude Crypto Manifest Storage Wasm TickReplay Replay Instance Sdk SdkLogic EventLog Hostcall SdkLive SdkNode.
From S2P Require X402.
From stdpp Require Import relations strings.
Open Scope Z_scope.

#[local] Existing Instance X402.checkpointable.
Section Node.
Context `{CryptoLaws} `{JSON} {St : Type} `{Provider St}.
Implicit Types (i : Instance (St := St)) (m : guest X402.agent) (b : X402.X402Buyer).

Lemma outcome_total b sum b' : X402.ok b -> X402.outcome b sum b' -> X402.TotalPaid b' = i64 (X402.TotalPaid b + sum).
Proof. intros [] Ho. destruct Ho; cbn; rewrite ?Z.add_0_r, ?i64_id by done; done. Qed.

(** Agent and node agree on a tick that paid [paid]: the amount is added to the
    agent's total and gone from the node's budget. *)
Definition booked (paid : Z) b b' i i' : Prop :=
  0 <= paid /\ X402.TotalPaid b' = i64 (X402.TotalPaid b + paid) /\ Budget i' = Budget i - paid.

(** C11: The x402 buyer's books are the node's. Whenever a tick of the
    agent, in a well-formed state, succeeds on a well-formed node, whatever
    the network, the paywall and the clock do, the node's budget falls -
    besides the charge for the tick's time - by exactly the amount the agent
    adds to what it has paid; that amount is zero, or the amount of the one
    intent recorded at an earlier tick, which is then gone from the log and
    cannot be paid again from the state left. (An agent that crashes back to
    an older checkpoint holds the intent again.) *)
Theorem x402_books_what_it_pays m i more m' i' b :
  Instance.Tick (W := sdk_wasm X402.agent) m i = (Ok more, m', i') -> g_agent m = Some b -> X402.ok b -> node_ok i ->
  exists now b' paid i2 w l, g_agent m' = Some b' /\
    X402.outcome (X402.turn now b) paid b' /\ booked paid b b' i i2 /\
    i' = charge (set_ReplayWindow w (set_EvLog l i2)).
Proof.
  intros HT Hm Hb Hok. pose proof (X402.Tick_fits b Hb) as Hfit.
  destruct (Tick_runs X402.agent X402.ok m i more m' i' b HT Hm Hb Hok Hfit) as (b' & i2 & w & l & HL & _ & Hm' & _ & ->).
  destruct (live_act_paid (host_ok := node_ok) (hostCfg i) _ _ Hfit 0 (entering i) more b' i2 (X402.Tick_paid b (X402.ok_log b Hb)) (entering_ok i Hok) HL)
    as (paid & (now & Hn & Ho) & Hbud & Hle).
  exists now, b', paid, i2, w, l. unfold booked. split_and!; try done.
  - exact (outcome_total _ _ _ (X402.turn_ok now b Hn Hb) Ho).
  - rewrite Z.sub_0_r in Hbud. exact Hbud.
Qed.
End Node.

(** A buyer with a recorded intent, on a node with a budget. *)
Definition buyer : X402.X402Buyer :=
  X402.mk 4 1000 5000 0 0 0 0 []
    [Effects.mkIntent (bytes_of "0123456789abcdef") Effects.Recorded
       (X402.intent_data X402.paymentAmount X402.paymentRecipient X402.paymentMemo)].
Definition shop_guest : guest X402.agent := mkGuest X402.agent (Some buyer) [] [].
Definition shop : Instance (St := FSProvider) := demo_instance [] 1000000 1000 2000000000.
Definition shop_tick := Instance.Tick (W := sdk_wasm X402.agent) shop_guest shop.
Example shop_pays : fst (fst shop_tick) = Ok true /\ Budget (snd shop_tick) = 1000000 - 100000 - 2000 /\
  (X402.TotalPaid <$> g_agent (snd (fst shop_tick))) = Some 100000 /\ (X402.Log <$> g_agent (snd (fst shop_tick))) = Some [].
Proof. vm_compute. done. Qed.
Lemma shop_ok : X402.ok buyer /\ node_ok shop.
Proof.
  split.
  - split; try (vm_compute; split; congruence); try done. apply AgentKit.w_one; [done|]. vm_compute. congruence.
  - split; [|split].
    + split_and!; [vm_compute; split; congruence|vm_compute; split; congruence|].
      intros id [= <-]. split; vm_compute; reflexivity.
    + by intros n r status body.
    + intros k d. unfold GetReceiptBytes_. cbn. destruct (_ || _); [done|]. by rewrite lookup_nil.
Qed.
Lemma x402_books_what_it_pays_witness :
  exists now b' paid i2 w l, g_agent (snd (fst shop_tick)) = Some b' /\
    X402.outcome (X402.turn now buyer) paid b' /\ booked paid buyer b' shop i2 /\
    snd shop_tick = charge (set_ReplayWindow w (set_EvLog l i2)).
Proof.
  destruct shop_ok as [Hb Hi].
  apply (x402_books_what_it_pays shop_guest shop true (snd (fst shop_tick)) (snd shop_tick) buyer); [|reflexivity|exact Hb|exact Hi].
  assert (fst (fst shop_tick) = Ok true) as E by apply shop_pays. change (shop_tick = (Ok true, snd (fst shop_tick), snd shop_tick)).
  rewrite <- E. by destruct shop_tick as [[r m] i].
Defined.
(** The raw hostcalls of the same tick, by value. *)
Lemma sdk_refines_host_witness :
  exists g', exec (W := sdk_wasm X402.agent) (live_handle (W := sdk_wasm X402.agent) (hostCfg shop))
      (lower X402.agent (X402.Tick buyer) (fun more : bool => [if more then 1 else 0]) shop_guest) shop =
    (Some [1], g', snd (live_act (hostCfg shop) (X402.Tick buyer) shop)).
Proof.
  destruct shop_ok as [Hb Hi].
  assert (fst (fst (live_act (hostCfg shop) (X402.Tick buyer) shop)) = Some true) as Er by (vm_compute; reflexivity).
  destruct (sdk_refines_host X402.agent (host_ok := node_ok) (hostCfg shop) (X402.Tick buyer) (fun more : bool => [if more then 1 else 0]) shop shop_guest)
    as (g' & E & _); [exact Hi|exact (X402.Tick_fits buyer Hb)|].
  exists g'. etransitivity; [exact E|]. by do 2 f_equal.
Defined.

(** ** A tick that panics *)
(** A paywall may ask for a payment to nobody.  [WalletPay] then panics after
    the intent was begun; [HandleTickFailure] saves the agent as it is, and
    the agent restored from that checkpoint finds the intent unresolved. *)
Definition nobody : X402.X402Buyer :=
  X402.mk 4 1000 5000 0 0 0 0 []
    [Effects.mkIntent (bytes_of "0123456789abcdef") Effects.Recorded (X402.intent_data X402.paymentAmount [] X402.paymentMemo)].
Definition failed_tick := Instance.Tick (W := sdk_wasm X402.agent) (mkGuest X402.agent (Some nobody) [] []) shop.
Definition resumed_tick :=
  match Instance.Checkpoint (W := sdk_wasm X402.agent) (snd (fst failed_tick)) (snd failed_tick) with
  | (Ok state, _, i) =>
      let '(_, m, i) := Instance.Resume (W := sdk_wasm X402.agent) state (mkGuest X402.agent (Some (new X402.agent)) [] []) i in
      Instance.Tick (W := sdk_wasm X402.agent) m i
  | _ => (Err ErrTickFailed, snd (fst failed_tick), snd failed_tick)
  end.
(** The key is even, so the next tick books a payment that was never made. *)
Example panicked_payment_is_booked :
  fst (fst failed_tick) = Err ErrTickFailed /\ Budget (snd failed_tick) = 1000000 /\
  fst (fst resumed_tick) = Ok true /\ (X402.TotalPaid <$> g_agent (snd (fst resumed_tick))) = Some 100000 /\
  Budget (snd resumed_tick) = 1000000 - 2000.
Proof. vm_compute. done. Qed.
