(* ===== verification/SdkReplay.v ===== *)
(** * Replay of SDK agents

    An agent whose ticks only make hostcalls the event log records
    ([recorded_agent]) replays: every tick it makes on a node whose random
    source works leaves a snapshot that verifies. *)
From S2P Require Import Prelude Crypto EventLog Manifest Wasm Hostcall Storage Instance Replay TickReplay Runner.
From S2P Require Import Sdk SdkLogic SdkLive SdkNode.
Open Scope Z_scope.

(** Documented behaviour of [crypto/rand] since Go 1.24. *)
Definition rand_works (e : Env) : Prop := forall n k, 0 < k -> is_Some (e_rand e n k).

(** A tick of any agent adds a snapshot to a window that is not full. *)
Lemma Tick_window {W : Wasm} `{!WasmLaws W} `{CryptoLaws} `{JSON} {St} `{Provider St} m (i : Instance (St := St)) more m' i' :
  Instance.Tick m i = (Ok more, m', i') -> blen (ReplayWindow i) < max_snaps i ->
  blen (ReplayWindow i') = blen (ReplayWindow i) + 1 /\ replayWindowMax i' = replayWindowMax i.
Proof.
  intros HT Hw. destruct (Tick_steps _ _ _ _ _ HT) as (pre & m1 & i1 & rs & m2 & i2 & sealed & l & post & m3 & i3 &
    E1 & _ & E2 & _ & E3 & _ & _ & ->).
  apply captureState_touched, touched_window in E1 as (Hw1 & Hm1 & _). apply exec_touched, touched_window in E2 as (Hw2 & Hm2 & _).
  apply captureState_touched, touched_window in E3 as (Hw3 & Hm3 & _).
  assert (ReplayWindow i3 = ReplayWindow i) as Ew by (etransitivity; [exact Hw3|]; etransitivity; [exact Hw2|exact Hw1]).
  assert (replayWindowMax i3 = replayWindowMax i) as Em by (etransitivity; [exact Hm3|]; etransitivity; [exact Hm2|exact Hm1]).
  unfold charge. cbn [ReplayWindow replayWindowMax set_env_step set_epochCost set_Budget set_ReplayWindow tick_env]. split; [|exact Em].
  unfold max_snaps in *. rewrite Ew, Em. generalize (mkSnapshot (TickNumber i3) pre (sha256 post) sealed). intros snap.
  assert (blen (ReplayWindow i ++ [snap]) = blen (ReplayWindow i) + 1) as El by by rewrite blen_app.
  unfold push_snapshot. rewrite El.
  destruct (Z.ltb_spec (if replayWindowMax i <=? 0 then DefaultReplayWindowSize else replayWindowMax i) (blen (ReplayWindow i) + 1)); [lia|exact El].
Qed.

Section Recorded.
Context (A : Agent) `{CryptoLaws} `{JSON} {St : Type} `{Provider St}.
Implicit Types (i : Instance (St := St)) (m g : guest A).
Section Calls.
Context (cfg : HostConfig).
Local Abbreviation calls_recorded := (all_recorded (W := sdk_wasm A) (S := Instance (St := St)) cfg).

(** One operation: a hostcall that is recorded, then the rest. *)
Lemma op_step {X} (o : sdk_op X) i k g : node_ok i -> rand_works (env i) -> op_fits o -> op_recorded o ->
  exists x g' i', live_op cfg o i = (Some x, i') /\ env i' = env i /\
    calls_recorded (lower_sys A (wrap o) k g) i = calls_recorded (k x g') i'.
Proof.
  intros Hok Hr Hfit Hrec. destruct o; cbn [op_fits op_recorded] in *; try done; cbn [live_op wrap].
  - do 3 eexists. split_and!; [done..|]. unfold Sdk.ClockNow. cbn [lower_sys all_recorded place f_call f_mem live_handle]. unfold recorded.
    cbn [live_handle]. unfold clock_now. cbn [now_unix_nano instance_env andb]. by rewrite (i64_id _ (i64_range _)).
  - destruct Hrec as [Hpos Hmax]. unfold Sdk.RandBytes, live_rand. destruct (Z.eqb_spec (blen buf) 0); [lia|].
    destruct (Z.ltb_spec maxRandBytes (blen buf)); [lia|]. destruct (Hr (env_step i) (blen buf) Hpos) as [b Eb].
    cbn [crypto_rand instance_env]. rewrite Eb. cbn [fmap option_fmap option_map].
    set (d := copy_array (Z.to_nat (blen buf)) b). assert (blen d = blen buf) as Hd by (unfold d; rewrite blen_copy_array; lia).
    exists (Ok tt, d), (set_mem A (page ++ d) g). eexists. split_and!; [done..|].
    cbn [lower_sys all_recorded place f_call f_mem f_out f_cap]. unfold recorded. cbn [live_handle]. unfold rand_bytes.
    rewrite (u32_id _ Hfit). destruct (Z.eqb_spec (blen buf) 0); [lia|]. destruct (Z.ltb_spec maxRandBytes (blen buf)); [lia|].
    cbn [crypto_rand instance_env]. rewrite Eb. cbn [fmap option_fmap option_map]. fold d. rewrite (mem_write_page A buf d g Hd).
    destruct (Z.ltb_spec 0 (blen buf)); [|lia]. cbn [andb Z.eqb set_mem g_mem]. by rewrite <- Hd, slice_page.
  - destruct Hrec as [Hpos Hmax]. assert (u32 (blen msg) = blen msg) as Hn by (apply u32_id; unfold is_u32, maxLogBytes in *; lia).
    exists tt, (set_mem A (page ++ msg) g). eexists. split; [done|]. unfold live_log, Sdk.Log. rewrite Hn.
    destruct (Z.eqb_spec (blen msg) 0); [lia|]. destruct (Z.ltb_spec maxLogBytes (blen msg)); [lia|]. cbn [orb]. split; [done|].
    assert (mem_read (Wasm := sdk_wasm A) (set_mem A (page ++ msg) g) base (blen msg) = Some msg) as Em by apply mem_read_page.
    cbn [lower_sys all_recorded place f_call f_mem]. unfold recorded. cbn [live_handle]. unfold log_emit. rewrite Hn, Em.
    destruct (Z.eqb_spec (blen msg) 0); [lia|]. destruct (Z.ltb_spec maxLogBytes (blen msg)); [lia|].
    destruct (Z.ltb_spec 0 (blen msg)); [|lia]. destruct (Z.leb_spec (blen msg) maxLogBytes); [|lia].
    rewrite bool_decide_true by done. cbn [andb]. unfold blen. by rewrite Nat2Z.id, firstn_all.
  - do 3 eexists. split_and!; [done..|]. unfold Sdk.WalletBalance. cbn [lower_sys all_recorded place f_call f_mem]. unfold recorded.
    cbn [live_handle]. unfold wallet_balance. cbn [andb]. by rewrite (i64_id _ (budget_range (HostLaws := node_laws) i Hok)).
  - do 3 eexists. split_and!; [done..|]. unfold Sdk.WalletReceiptCount. cbn [lower_sys all_recorded place f_call f_mem]. unfold recorded.
    cbn [live_handle]. unfold wallet_receipt_count. cbn [andb]. by rewrite (i32_id _ (i32_range _)).
  - do 3 eexists. split_and!; [done..|]. unfold Sdk.NodePrice. cbn [lower_sys all_recorded place f_call f_mem]. unfold recorded.
    cbn [live_handle]. unfold node_price. cbn [andb]. by rewrite (i64_id _ (price_range (HostLaws := node_laws) i Hok)).
Qed.
(** A whole run. *)
Lemma lowered_recorded {X} (t : act (AState A) X) ret : act_fits t -> act_recorded t ->
  forall i g, node_ok i -> rand_works (env i) -> calls_recorded (lower A t ret g) i = true.
Proof.
  induction t as [x s|s|Y o s k IH]; intros Hfit Hrec i g Hok Hr; [done..|]. destruct Hfit as [Ho Hk], Hrec as [Hro Hrk].
  cbn [lower]. destruct (op_step o i (fun x => lower A (k x) ret) (set_agent A s g) Hok Hr Ho Hro) as (x & g' & i' & EL & Ee & ->).
  pose proof (live_op_ok (host_ok := node_ok) cfg o i Hok) as Hok'. pose proof (live_op_answer (host_ok := node_ok) cfg o i x i' Hok Ho EL) as Ha.
  rewrite EL in Hok'. apply IH; [by apply Hk|by apply Hrk|done|by rewrite Ee].
Qed.
End Calls.

(** What an agent must do for its ticks to replay. *)
Record recorded_agent (I : AState A -> Prop) : Prop := {
  ra_fits s : I s -> act_fits (Tick A s);
  ra_recorded s : I s -> act_recorded (Tick A s);
  ra_imports : "http_request"%string ∉ Imports A }.
Context (I : AState A -> Prop) `{!Checkpointable A I} (RA : recorded_agent I).
Local Abbreviation tick := (Instance.Tick (W := sdk_wasm A)).

Lemma Tick_recorded m i s : g_agent m = Some s -> I s -> node_ok i -> rand_works (env i) -> tick_recorded (W := sdk_wasm A) m i = true.
Proof.
  intros Hm HI Hok Hr. unfold tick_recorded. destruct (capture_sdk A I ErrWasm m i s Hm HI) as (m1 & Hm1 & ->).
  change (invoke (Wasm := sdk_wasm A) m1 "agent_tick" []) with (agent_tick A m1). unfold agent_tick. rewrite Hm1.
  apply lowered_recorded; [by apply RA|by apply RA|done|done].
Qed.

(** The replay host offers all functions of the live one but HTTP. *)
Lemma links_replay caps ws ps wps compiled :
  links (H := sdk_wasm A) (functions (RegisterHostModule (Some caps) ws ps wps)) compiled = true ->
  links (H := sdk_wasm A) (replay_functions (Some caps)) compiled = true.
Proof.
  unfold links. rewrite !forallb_forall. intros Hl n Hn. specialize (Hl n Hn). apply bool_decide_eq_true in Hl. apply bool_decide_eq_true.
  assert (n <> "http_request"%string) as Hne by (intros ->; apply (ra_imports I RA); by apply list_elem_of_In).
  assert (forall (b b' : bool) (l : list string), n ∈ (if b && b' then l else []) -> n ∈ (if b then l else [])) as Hand
    by (intros [] [] l; cbn; try done; by intros Hin%not_elem_of_nil).
  cbn [functions RegisterHostModule] in Hl. unfold registered_functions, replay_functions in *. rewrite !elem_of_app in *.
  destruct Hl as [|[|[|[?%Hand|[?%Hand|[Hh|?%Hand]]]]]]; try tauto.
  destruct (Has _ "http"); [by apply list_elem_of_singleton in Hh|by apply not_elem_of_nil in Hh].
Qed.

(** A live instance all whose snapshots verify and keep verifying. *)
Record verifiable m i : Prop := {
  v_live : live_inv (W := sdk_wasm A) (same_agent A) (in_state A I) m i;
  v_ok : node_ok i;
  v_rand : rand_works (env i) }.
(** An instance before its first tick. *)
Definition unticked i : Prop := EvLog i = NewEventLog DefaultMaxTicks /\ ReplayWindow i = [] /\ replayWindowMax i = 0 /\
  links (H := sdk_wasm A) (functions (RegisterHostModule (Some (CapManifest i)) true true true)) tt = true.
Lemma verifiable_born m i s : g_agent m = Some s -> I s -> node_ok i -> rand_works (env i) -> unticked i -> verifiable m i.
Proof.
  intros Hm HI Hok Hr (Hl & Hw & _ & Hlk). pose proof Hok as ((Hb & Hp & Hi) & _). split; [|done..].
  split; [apply sdk_agent_contract; apply _|by exists s| | |unfold window_replays; by rewrite Hw].
  - split; [split; [done|done|rewrite Hl; by split|done]|].
    rewrite Hw. unfold max_snaps, DefaultReplayWindowSize. rewrite blen_nil. destruct (Z.leb_spec (replayWindowMax i) 0); lia.
  - intros [] _. exact (links_replay _ _ _ _ _ Hlk).
Qed.
Lemma verifiable_tick m i more m' i' : verifiable m i -> tick m i = (Ok more, m', i') -> verifiable m' i'.
Proof.
  intros [Hl Hok Hr] HT. pose proof (li_live _ _ _ _ Hl) as (s & Hm & HI). pose proof (Tick_fixed _ _ _ _ _ HT) as Hf.
  destruct (Tick_runs A I m i more m' i' s HT Hm HI Hok (ra_fits I RA s HI)) as (s' & i2 & w & l & _ & _ & _ & Hok2 & Ei').
  split; [|subst i'; by apply node_ok_charge|by replace (env i') with (env i) by (unfold fixed in Hf; congruence)].
  eapply Tick_live; [done|done|by eapply Tick_recorded].
Qed.
End Recorded.
