(* ===== verification/NodeLife.v ===== *)
(** * Agents under igord: node runs are agent lives

    An SDK agent run with [igord run] (Igord.v), stopped, killed or crashed at
    any point and started again from the same directory any number of times:
    what its tick loop holds and what its checkpoint file holds are states of
    the agent's lives (AgentKit.v), and the tick number counts them. *)
From S2P Require Import Prelude GoFloat Crypto EventLog Manifest Wasm Hostcall Storage Instance Replay TickReplay Runner Igord.
From S2P Require Import Sdk SdkLogic SdkLive SdkNode SdkReplay AgentKit.
From S2P Require Authority Identity Checkpoint Budget.
From stdpp Require Import gmap strings.
Open Scope Z_scope.

(** What an agent must satisfy beyond [Checkpointable]: its [Init] does
    nothing, its ticks fit and never panic, and in the environments [Q] they
    leave states in [P]. *)
Record hosted (A : Agent) (I P : AState A -> Prop) (Q : Env -> Prop) `{Crypto} : Prop := {
  ho_born : I (new A);
  ho_init s : Init A s = Done tt s;
  ho_fits s : I s -> act_fits (Tick A s);
  ho_returns s : I s -> act_returns (Tick A s);
  ho_leaves (i : Instance (St := FSProvider)) s more s' i' : node_ok i -> Q (env i) -> I s ->
    live_act (hostCfg i) (Tick A s) (entering i) = (Some more, s', i') -> P s' }.

Lemma hosted_in A I P (Q Q' : Env -> Prop) `{Crypto} : hosted A I P Q -> (forall e, Q' e -> Q e) -> hosted A I P Q'.
Proof. intros [] HQ. split; [done..|]. intros. by eapply ho_leaves0; [..|apply HQ| |]. Qed.

Section Node.
Context (A : Agent) `{CryptoLaws} `{JSON} (I P : AState A -> Prop) (Q : Env -> Prop).
Context `{!Checkpointable A I} (HO : hosted A I P Q) (dir : string).
Abbreviation node := (Instance (St := FSProvider)).
Implicit Types (i : node).
Local Abbreviation tick := (Instance.Tick (W := sdk_wasm A)).
Local Abbreviation save := (SaveCheckpointToStorage (W := sdk_wasm A)).
Local Abbreviation load := (LoadCheckpointFromStorage (W := sdk_wasm A)).

(** ** The live instance *)
(** What a node sets up and its loop keeps; [sk] is its signing key. *)
Record kept (id : string) (e : Env) (sk : option bytes) i : Prop := {
  k_id : AgentID i = id;
  k_env : env i = e;
  k_ok : node_ok i;
  k_price : 0 <= PricePerSecond i;
  k_receipts : Receipts i = [];
  k_key : signingKey i = sk;
  k_lease : let l := Checkpoint.lease_values (lease_info i) in
    is_u64 (Checkpoint.li_major l) /\ is_u64 (Checkpoint.li_generation l) /\ is_i64 (Checkpoint.li_expiry l);
  k_hash : blen (WASMHash i) = 32;
  k_prev : blen (PrevCheckpointHash i) = 32 }.
(** In state [s], [n] ticks into a life. *)
Record living (n : nat) (s : AState A) m i : Prop := {
  lv_agent : g_agent m = Some s;
  lv_inv : I s;
  lv_lived : lived A P n s;
  lv_tick : TickNumber i = u64 (Z.of_nat n) }.

Definition sized i : Prop := host_fit i /\ env_sizes (env i).
Lemma node_ok_of i : sized i -> Receipts i = [] -> node_ok i.
Proof.
  intros [Hf He] Hr. split_and!; [done|done|]. intros k d. unfold GetReceiptBytes_. rewrite Hr. destruct (_ || _); [done|]. by rewrite lookup_nil.
Qed.
Lemma kept_sized id e sk i : kept id e sk i -> sized i.
Proof. intros []. by destruct k_ok0 as (? & ? & _). Qed.
Lemma kept_fixed id e sk i i' : kept id e sk i -> fixed i' = fixed i -> host_fit i' -> kept id e sk i'.
Proof.
  intros [] Hf Hfit. unfold fixed in Hf. injection Hf as ? ? ? ? ? ? ? ? ?.
  split; try congruence; [|unfold lease_info in *; by replace (Lease i') with (Lease i)]. apply node_ok_of; [|congruence]. split; [done|]. destruct k_ok0 as (_ & He & _). by replace (env i') with (env i).
Qed.

(** A tick that is not refused for want of budget succeeds. *)
Lemma tick_result m i s r m' i' : tick m i = (r, m', i') -> g_agent m = Some s -> I s -> node_ok i ->
  match r with Ok _ => True | Err _ => m' = m /\ i' = i end.
Proof.
  intros E Hm HI Hok. revert E. unfold Instance.Tick. destruct (Budget i <=? 0); [by intros [= <- <- <-]|].
  destruct (match BudgetAdapter i with Some a => negb (ValidateBudget a (AgentID i) (Budget i)) | None => false end); [by intros [= <- <- <-]|].
  destruct (capture_sdk A I ErrWasm m i s Hm HI) as (m1 & Hm1 & ->).
  change (ExportedFunction (Wasm := sdk_wasm A) m1 "agent_tick") with true. cbn [negb].
  change (invoke (Wasm := sdk_wasm A) m1 "agent_tick" []) with (agent_tick A m1). unfold agent_tick. rewrite Hm1.
  destruct (lowered_runs A (host_ok := node_ok) (hostCfg i) (Tick A s) (fun b : bool => [if b then 1 else 0]) (entering i) m1)
    as (g & Eg & Hg); [done|by apply HO|].
  destruct (live_act_returns (host_ok := node_ok) (hostCfg i) (Tick A s) (ho_returns _ _ _ _ HO s HI) (ho_fits _ _ _ _ HO s HI) (entering i) Hok)
    as (more & s' & i2 & EL).
  rewrite EL in Eg, Hg. cbn [fst snd fmap option_fmap option_map] in Eg, Hg.
  fold (entering i). unfold handle. change (hostCfg (entering i)) with (hostCfg i). rewrite Eg.
  destruct (live_act_post (host_ok := node_ok) (hostCfg i) (fun _ => I) (Tick A s) (tick_keeps s HI) (ho_fits _ _ _ _ HO s HI) _ _ _ _ (entering_ok i Hok) EL)
    as [HI' _].
  destruct (SealTick (EvLog i2)) as [sealed l].
  destruct (capture_sdk A I ErrPostState g (set_EvLog l i2) s' Hg HI') as (m2 & _ & ->). by intros [= <- _ _].
Qed.

(** ** One event of the loop *)
Lemma tick_lives n s id e sk m i r m' i' : kept id e sk i -> Q e -> living n s m i -> tick m i = (r, m', i') ->
  fixed i' = fixed i /\ kept id e sk i' /\
  match r with
  | Ok more => exists s', living (S n) s' m' i' /\ act_can (Tick A s) more s'
  | Err _ => living n s m' i'
  end.
Proof.
  intros Hk HQ Hl HT. pose proof Hl as [Hm HI Hlived Hn]. pose proof (k_ok _ _ _ _ Hk) as Hok.
  pose proof (Tick_fixed _ _ _ _ _ HT) as Hf. split; [done|].
  destruct r as [more|err]; [|by destruct (tick_result m i s _ _ _ HT Hm HI Hok) as [-> ->]].
  destruct (Tick_runs A I m i more m' i' s HT Hm HI Hok (ho_fits _ _ _ _ HO s HI)) as (s' & i2 & w & l & HL & HI' & Hm' & Hok2 & Ei').
  assert (act_can (Tick A s) more s') as Hcan
    by exact (live_act_can (host_ok := node_ok) (hostCfg i) _ (ho_fits _ _ _ _ HO s HI) (entering i) more s' i2 (entering_ok i Hok) HL).
  split; [|exists s'; split; [|done]; split; [done|done|..]].
  - apply (kept_fixed id e sk i i' Hk Hf). subst i'. by apply node_ok_charge.
  - apply (lived_tick A P n s more s' Hlived Hcan).
    apply (ho_leaves _ _ _ _ HO i s more s' i2 Hok); [by rewrite (k_env _ _ _ _ Hk)|done|done].
  - rewrite (Tick_number _ _ _ _ _ HT), Hn. unfold u64. rewrite Zplus_mod_idemp_l. f_equal. lia.
Qed.

(** ** The checkpoint on disk *)
(** A checkpoint that, if it can be parsed, is of a state in [K], with its
    number of ticks. *)
Definition in_life (K : nat -> AState A -> Prop) (c : bytes) : Prop :=
  forall hdr st, Checkpoint.ParseCheckpointHeader c = Ok (hdr, st) ->
  exists n s, K n s /\ I s /\ lived A P n s /\ st = Marshal A s /\ Checkpoint.TickNumber hdr = u64 (Z.of_nat n).
(** What a file store holds of the agent: no receipts, and only such a
    checkpoint. *)
Definition holds_life (K : nat -> AState A -> Prop) (id : string) (fs : FSProvider) : Prop :=
  baseDir fs = dir /\ file_at ".receipts" fs id = None /\ forall c, file_at ".checkpoint" fs id = Some c -> in_life K c.
Definition up_to (N n : nat) (_ : AState A) : Prop := (n <= N)%nat.
Lemma holds_ext K id fs fs' : baseDir fs' = baseDir fs -> (forall suf, suf ∈ suffixes -> file_at suf fs' id = file_at suf fs id) -> holds_life K id fs -> holds_life K id fs'.
Proof. intros Hb Hf (? & Hr & Hc). split; [congruence|]. split; [rewrite Hf; [done|by right; left]|]. intros c. rewrite Hf by (by left). apply Hc. Qed.

Lemma holds_more N N' id fs : (N <= N')%nat -> holds_life (up_to N) id fs -> holds_life (up_to N') id fs.
Proof.
  intros HN (? & Hr & Hc). split_and!; [done..|]. intros c Hf hdr st Hp. destruct (Hc c Hf hdr st Hp) as (n & s & Hn & ?).
  exists n, s. split; [|done]. unfold up_to in *. lia.
Qed.
Lemma checkpoint_sdk m i s : g_agent m = Some s -> I s -> exists m1, g_agent m1 = Some s /\
  Instance.Checkpoint (W := sdk_wasm A) m i = (Ok (Marshal A s), m1, set_State (Marshal A s) i).
Proof.
  intros Hm HI. pose proof (marshal_size s HI) as Hs. set (b := Marshal A s) in *.
  exists (mkGuest A (Some s) (page ++ b) b). split; [done|].
  assert (agent_checkpoint A m = Ret [u32 (blen b)] (mkGuest A (Some s) (g_mem m) b)) as E1 by (unfold agent_checkpoint; by rewrite Hm).
  assert (agent_checkpoint_ptr A (mkGuest A (Some s) (g_mem m) b) = Ret [base] (mkGuest A (Some s) (page ++ b) b)) as E2.
  { unfold agent_checkpoint_ptr. cbn [ckptBuf]. destruct (Z.eqb_spec (blen b) 0); [lia|done]. }
  unfold Instance.Checkpoint, on_module, require, mbind, M_bind, live_call, Call.
  change (ExportedFunction (Wasm := sdk_wasm A) ?g "agent_checkpoint") with true.
  change (ExportedFunction (Wasm := sdk_wasm A) ?g "agent_checkpoint_ptr") with true.
  cbv beta iota. change (invoke (Wasm := sdk_wasm A) m "agent_checkpoint" []) with (agent_checkpoint A m).
  rewrite E1. cbn [exec result0]. unfold mret, M_ret. rewrite !(u32_id (blen b)) by (unfold is_u32; lia).
  destruct (Z.eqb_spec (blen b) 0); [lia|]. cbv beta iota.
  match goal with |- context [invoke (Wasm := ?w) ?g "agent_checkpoint_ptr" []] =>
    change (invoke (Wasm := w) g "agent_checkpoint_ptr" []) with (agent_checkpoint_ptr A g) end.
  rewrite E2. cbn [exec result0]. unfold mret, M_ret, MemRead. change (u32 base) with base. cbn [mem_read sdk_wasm g_mem]. by rewrite page_app.
Qed.

Lemma fields_of id e sk n s m i b : kept id e sk i -> living n s m i -> let f := checkpoint_fields (set_State b i) in
  (Checkpoint.fields_ok f \/ - 2 ^ 63 <= Checkpoint.f_budget f < 0) /\
  forall x, Checkpoint.f_identity f = Some x -> blen (Identity.PublicKey x) = PublicKeySize /\ blen (Identity.PrivateKey x) = PrivateKeySize.
Proof.
  intros [] [_ _ _ Hn] f. destruct k_ok0 as ([Hb [Hp Hi]] & _). split; [|exact Hi]. unfold is_i64 in *.
  destruct (Z.lt_ge_cases (Budget i) 0); [right; cbn; lia|left]. split; cbn; fold (lease_info i); try apply k_lease0; cbn; try done; try lia.
  rewrite Hn. apply u64_range.
Qed.
Lemma kept_saved id e sk i b h st : kept id e sk i -> blen h = 32 -> kept id e sk (set_Storage st (set_PrevCheckpointHash h (set_State b i))).
Proof. intros [] ?. by split. Qed.
(** A save, whatever becomes of it, leaves a file of this kind. *)
Lemma save_holds (K : nat -> AState A -> Prop) n s id e m i r m' i' : K n s -> kept id e None i -> living n s m i -> holds_life K id (Storage i) -> save m i = (r, m', i') ->
  kept id e None i' /\ living n s m' i' /\ holds_life K id (Storage i') /\ bad_reads (Storage i') = bad_reads (Storage i).
Proof.
  intros HN Hk Hl Hd. pose proof Hl as [Hm HI Hlived Hn]. unfold SaveCheckpointToStorage.
  destruct (checkpoint_sdk m i s Hm HI) as (m1 & Hm1 & ->). set (b := Marshal A s).
  assert (living n s m1 (set_State b i)) as Hl1 by by split.
  assert (kept id e None (set_State b i)) as Hk1 by (destruct Hk; by split).
  unfold buildCheckpoint. destruct (Checkpoint.buildCheckpoint _ _) as [[c h]|err] eqn:Eb; [|by intros [= _ <- <-]].
  assert (blen h = 32) as Hh.
  { revert Eb. unfold Checkpoint.buildCheckpoint. destruct (Checkpoint.f_identity _); [|intros [= _ <-]; exact (k_prev _ _ _ _ Hk)].
    destruct (Lineage.SignCheckpoint _ _); [|done]. intros [= _ <-]. apply sha256_size. }
  cbn [prov_SaveCheckpoint fs_provider]. destruct (SaveCheckpoint _ _ _) as [o st] eqn:Es.
  pose proof (SaveCheckpoint_readable _ _ _ _ _ Es) as Hrd. assert (holds_life K id st) as Hst.
  { change (Storage (set_PrevCheckpointHash h (set_State b i))) with (Storage i) in Es.
    change (AgentID (set_PrevCheckpointHash h (set_State b i))) with (AgentID i) in Es. rewrite (k_id _ _ _ _ Hk) in Es.
    apply file_saved in Es as (Hc & Ho & Hb). destruct Hd as (Hdir & Hr & Hd). split; [congruence|]. split; [rewrite Ho; [done|by right; left|done]|].
    intros c' Hf hdr st' Hp. destruct Hc as [Hc|Hc]; rewrite Hc in Hf; [by eapply Hd|]. injection Hf as <-.
    destruct (fields_of id e None n s m i b Hk Hl) as [Hf Hi].
    destruct (Checkpoint.parse_built _ _ _ _ _ _ Hf Hi Eb Hp) as (sig & -> & ->). exists n, s. by split_and!. }
  pose proof (kept_saved id e None i b h st Hk Hh) as Hk2. set (i2 := set_Storage st _) in *.
  assert (living n s m1 i2) as Hl2 by by split.
  destruct (of_outcome o); [|by intros [= _ <- <-]].
  unfold CreateReceipt. rewrite (k_key _ _ _ _ Hk2). unfold persist_receipts. rewrite (k_receipts _ _ _ _ Hk2). by intros [= _ <- <-].
Qed.

(** A save leaves the agent as it was. *)
Lemma save_living n s m i r m' i' : living n s m i -> save m i = (r, m', i') -> living n s m' i'.
Proof.
  intros [Hm HI Hl Ht] E. destruct (Save_keeps (W := sdk_wasm A) TickNumber _ _ _ _ _ ltac:(by split) E) as (rc & i1 & Ec & Ev).
  destruct (checkpoint_sdk m i s Hm HI) as (m1 & Hm1 & E1). rewrite E1 in Ec. injection Ec as _ <- <-. split; [done..|].
  by rewrite Ev.
Qed.

(** ** Starting from the disk *)
Lemma resume_sdk m i s : g_agent m = Some (new A) -> I s ->
  exists m1, g_agent m1 = Some s /\ Instance.Resume (W := sdk_wasm A) (Marshal A s) m i = (Ok tt, m1, set_State (Marshal A s) i).
Proof.
  intros Hm HI. pose proof (marshal_size s HI) as Hs. set (b := Marshal A s) in *.
  exists (mkGuest A (Some s) (page ++ b) (ckptBuf m)). split; [done|].
  unfold Instance.Resume, on_module, require, mbind, M_bind, live_call, Call.
  change (ExportedFunction (Wasm := sdk_wasm A) ?g "agent_resume") with true.
  change (ExportedFunction (Wasm := sdk_wasm A) ?g "malloc") with true.
  destruct (Z.eqb_spec (blen b) 0); [lia|]. cbv beta iota.
  change (invoke (Wasm := sdk_wasm A) ?g "malloc" [?n]) with (malloc A n g). unfold malloc. cbn [exec result0 set_mem g_agent ckptBuf].
  unfold mret, M_ret, MemWrite. change (u32 base) with base. cbv beta iota. change (base =? 0) with false. cbv iota.
  cbn [mem_write sdk_wasm g_mem set_mem].
  assert (write_at base b (page ++ zeros (Z.to_nat (blen b))) = Some (page ++ b)) as ->.
  { pose proof (write_at_mid page (zeros (Z.to_nat (blen b))) [] b base eq_refl) as Hw. rewrite !app_nil_r in Hw.
    apply Hw. rewrite blen_zeros. pose proof (blen_nonneg b). lia. }
  cbn [fmap option_fmap option_map]. unfold set_mem. cbn [g_agent ckptBuf g_mem].
  change (invoke (Wasm := sdk_wasm A) ?g "agent_resume" [?p; ?n]) with (agent_resume A p n g).
  unfold agent_resume. cbn [g_agent g_mem]. rewrite Hm. destruct (Z.eqb_spec (blen b) 0); [lia|].
  assert (slice base (base + blen b) (page ++ b) = b) as ->.
  { rewrite <- (app_nil_r b) at 2. by apply slice_app_mid. }
  pose proof (marshal_roundtrip s HI) as Hr. fold b in Hr. by rewrite Hr.
Qed.
Lemma no_receipts K id i : holds_life K id (Storage i) -> AgentID i = id -> restore_receipts i = i.
Proof.
  intros (_ & Hr & _) Hid. unfold restore_receipts. cbn [prov_LoadReceipts fs_provider]. rewrite Hid.
  destruct (LoadReceipts (Storage i) id) as [d|] eqn:E; [|done]. apply load_file in E. unfold receiptPath in *. congruence.
Qed.
Lemma kept_prev id e sk i h : kept id e sk i -> blen h = 32 -> kept id e sk (set_PrevCheckpointHash h i).
Proof. intros [] ?. by split. Qed.
Lemma kept_lease id e sk i l : kept id e sk i ->
  is_u64 (Authority.GetMajorVersion l) -> is_u64 (Authority.GetLeaseGeneration l) -> kept id e sk (set_Lease (Some l) i).
Proof. intros [] ??. split; try done. cbn. split_and!; [done..|apply i64_range]. Qed.
Lemma kept_restored id e sk i b p t : kept id e sk i -> 0 <= b < 2 ^ 63 -> 0 <= p < 2 ^ 63 ->
  kept id e sk (set_TickNumber t (set_PricePerSecond p (set_Budget b i))).
Proof.
  intros [] Hb Hp. destruct k_ok0 as ((? & ? & ?) & ? & ?). split; try done; [|cbn; lia].
  split; [|done]. split_and!; [unfold is_i64; cbn; lia..|done].
Qed.
(** Loading the checkpoint: the agent is at its birth or, if a file was read
    without an error, in the state the file holds. *)
Lemma load_holds K id e sk m i r m' i' : kept id e sk i -> g_agent m = Some (new A) -> TickNumber i = 0 -> holds_life K id (Storage i) ->
  load m i = (r, m', i') -> exists n s, match LoadCheckpoint (Storage i) id, r with Ok _, Ok _ => K n s | _, _ => n = 0%nat end /\
    kept id e sk i' /\ living n s m' i' /\ holds_life K id (Storage i') /\ (unticked A i -> unticked A i').
Proof.
  intros Hk Hm Ht Hd. pose proof (k_id _ _ _ _ Hk) as Hid.
  assert (living 0 (new A) m i) as Hborn by (split; [done|by apply HO|constructor|done]).
  unfold LoadCheckpointFromStorage. cbn [prov_LoadCheckpoint fs_provider]. rewrite Hid.
  destruct (LoadCheckpoint (Storage i) id) as [c|err] eqn:El; [|destruct err; intros [= <- <- <-]; by exists 0%nat, (new A)].
  destruct (Checkpoint.ParseCheckpointHeader c) as [[hdr st]|err] eqn:Ep; [|intros [= <- <- <-]; by exists 0%nat, (new A)].
  destruct (negb _); [intros [= <- <- <-]; by exists 0%nat, (new A)|]. destruct (_ && _); [intros [= <- <- <-]; by exists 0%nat, (new A)|].
  apply load_file in El. pose proof Hd as (_ & _ & Hc). destruct (Hc c El hdr st Ep) as (n & s & HK & HI & Hl & -> & Hn).
  apply Checkpoint.parse_parsed in Ep.
  set (i1 := set_TickNumber _ _).
  assert (kept id e sk i1 /\ Storage i1 = Storage i /\ TickNumber i1 = Checkpoint.TickNumber hdr /\ (unticked A i -> unticked A i1)) as (Hk1 & Hs1 & Ht1 & Hv1).
  { pose proof (Checkpoint.p_budget _ _ _ Ep) as Hb. pose proof (Checkpoint.p_price _ _ _ Ep) as Hp.
    unfold i1. destruct (Checkpoint.HasLineage hdr); (split; [|done]); apply kept_restored; try done. by apply kept_prev, sha256_size. }
  clearbody i1. assert (holds_life K id (Storage i1)) as Hd1 by by rewrite Hs1. rewrite (no_receipts K id i1 Hd1 (k_id _ _ _ _ Hk1)).
  destruct (resume_sdk m i1 s Hm HI) as (m1 & Hm1 & ->). intros [= <- <- <-]. exists n, s. split; [done|].
  split; [destruct Hk1; by split|]. split; [|by split]. split; [done..|]. cbn. congruence.
Qed.

(** The module just loaded is an agent at its birth. *)
Lemma load_sdk wasm id st b p md sk nid ident e m i :
  loadAgent (W := sdk_wasm A) wasm id st b p md sk nid ident e = Ok (m, i) ->
  m = mkGuest A (Some (new A)) [] [] /\
  exists cfg caps man, links (H := sdk_wasm A) (functions (RegisterHostModule (Some caps) true true true)) tt = true /\
    i = mkInstance id wasm (sha256 wasm) cfg st [] b p caps man (NewEventLog DefaultMaxTicks) 0 [] 0 [] 0 0 sk nid None None
    ident (zeros 32) e O.
Proof.
  unfold loadAgent, mbind, result_bind. intros E.
  destruct (map_err ErrManifest (ParseManifest md)) as [man|]; [|done].
  destruct (map_err ErrManifest (ValidateAgainstNode _ _)); [|done].
  destruct (guard_err _ _); [|done]. cbn [CompileModule sdk_wasm] in E.
  destruct (links _ _) eqn:El in E; cbn [guard_err] in E; [|done]. cbn [InstantiateModule sdk_wasm] in E.
  match type of E with context [initialize ?h ?g ?x] => set (gi := initialize h g x) in E;
    assert (gi = (Ok tt, mkGuest A (Some (new A)) [] [], x)) as Ei by reflexivity end.
  rewrite Ei in E. change (verifyExports (W := sdk_wasm A) (mkGuest A (Some (new A)) [] [])) with (@None string) in E.
  injection E as <- <-. split; [done|]. eexists _, _, _. split; [exact El|reflexivity].
Qed.
(** An instance just loaded. *)
Lemma load_kept wasm id st b p md sk nid ident e m i :
  loadAgent (W := sdk_wasm A) wasm id st b p md sk nid ident e = Ok (m, i) ->
  is_i64 b -> is_i64 p -> 0 <= p -> env_sizes e ->
  (forall x, ident = Some x -> blen (Identity.PublicKey x) = PublicKeySize /\ blen (Identity.PrivateKey x) = PrivateKeySize) ->
  kept id e sk i /\ g_agent m = Some (new A) /\ TickNumber i = 0 /\ Storage i = st /\ unticked A i.
Proof.
  intros (-> & cfg & caps & man & Hl & ->)%load_sdk Hb Hp Hp0 He Hi. split; [|done]. split; try done; [|by apply sha256_size].
  apply node_ok_of; [|done]. by split.
Qed.
Lemma init_sdk m i s : g_agent m = Some s -> exists m1, g_agent m1 = Some s /\ Instance.Init (W := sdk_wasm A) m i = (Ok tt, m1, i).
Proof.
  intros Hm. exists (set_agent A s m). split; [done|]. unfold Instance.Init, on_module, require, mbind, M_bind, live_call, Call.
  change (ExportedFunction (Wasm := sdk_wasm A) ?g "agent_init") with true. cbv beta iota.
  change (invoke (Wasm := sdk_wasm A) m "agent_init" []) with (agent_init A m). unfold agent_init. rewrite Hm.
  by rewrite (ho_init _ _ _ _ HO).
Qed.

Local Abbreviation boot := (bootStandalone (W := sdk_wasm A)).
Local Abbreviation loop := (runTickLoop (W := sdk_wasm A)).
(** A machine an agent may run on. *)
Definition fit_machine (mc : Machine) : Prop :=
  (forall seed, rnd mc = Some seed -> blen seed = 32) /\ env_sizes (menv mc) /\ Q (menv mc).

Lemma identity_holds K id fs r fs' mc : fit_machine mc -> Identity.LoadOrGenerate fs id (rnd mc) = (r, fs') -> holds_life K id fs ->
  holds_life K id fs' /\ forall ident, r = Ok ident -> blen (Identity.PublicKey ident) = PublicKeySize /\ blen (Identity.PrivateKey ident) = PrivateKeySize.
Proof.
  intros (Hseed & _) E Hd.
  assert (forall b d st, Identity.SaveIdentity fs id d = (b, st) -> holds_life K id st) as Hsave.
  { intros b d st. cbn [Identity.SaveIdentity fs_store]. destruct (SaveIdentity fs id d) as [o st1] eqn:Es.
    intros Eo. assert (st1 = st) as <- by (destruct o as [[]|]; congruence).
    unfold SaveIdentity in Es. assert (".identity" ∈ suffixes) as Hs by by do 2 right; left.
    destruct (file_other ".identity" ".receipts" fs id d o st1 Hs ltac:(by right; left) ltac:(done) Es) as [Er Hb].
    destruct (file_other ".identity" ".checkpoint" fs id d o st1 Hs ltac:(by left) ltac:(done) Es) as [Ec _].
    destruct Hd as (Hdir & Hr & Hc). split; [congruence|]. split; [congruence|]. intros c. rewrite Ec. apply Hc. }
  assert (forall ident, Identity.PublicKey ident = ed_public (Identity.PrivateKey ident) -> blen (Identity.PrivateKey ident) = PrivateKeySize ->
    blen (Identity.PublicKey ident) = PublicKeySize /\ blen (Identity.PrivateKey ident) = PrivateKeySize) as Hk.
  { intros ident -> Hb. split; [by apply ed_public_size|done]. }
  assert ((exists d, Identity.LoadIdentity fs id = Some d /\ exists ident, Identity.UnmarshalBinary d = Ok ident /\ r = Ok ident /\ fs' = fs) \/
    (match Identity.Generate (rnd mc) with
     | Err e => (Err e, fs)
     | Ok ident => let '(saved, st) := Identity.SaveIdentity fs id (Identity.MarshalBinary ident) in
         if saved : bool then (Ok ident, st) else (Err Identity.ErrIdSave, st) end = (r, fs'))) as [(d & _ & ident & Eu & -> & ->)|Eg].
  { revert E. unfold Identity.LoadOrGenerate. destruct (Identity.LoadIdentity fs id) as [d|]; [|by right].
    destruct (Identity.UnmarshalBinary d) as [ident|] eqn:Eu; [|by right]. intros [= <- <-]. left. eauto 10. }
  - split; [done|]. intros x [= <-]. apply Identity.UnmarshalBinary_ok in Eu as [Ep Eb]. by apply Hk.
  - unfold Identity.Generate in Eg. destruct (rnd mc) as [seed|]; [|injection Eg as <- <-; by split].
    destruct (Identity.SaveIdentity fs id _) as [saved st] eqn:Es. apply Hsave in Es.
    destruct saved; injection Eg as <- <-; (split; [done|]); intros x [= <-]. apply Hk; [done|]. cbn. apply ed_new_key_size. by apply Hseed.
Qed.

Lemma boot_holds K mc wasmPath id b man fs r fs' : fit_machine mc -> boot mc wasmPath id b man dir fs = (r, fs') ->
  holds_life K id (mkFS dir (disk fs) (bad_reads fs) (scripts fs)) -> holds_life K id fs' /\
  forall m i, r = Ok (m, i) -> kept id (menv mc) None i /\ g_agent m = Some (new A) /\ TickNumber i = 0 /\ holds_life K id (Storage i).
Proof.
  intros Hmc E Hd. assert (holds_life K id (NewFSProvider dir (disk fs) (bad_reads fs) (scripts fs))) as Hd0.
  { revert Hd. apply holds_ext; [done|]. intros suf Hs. by apply file_clean. }
  unfold bootStandalone in E. destruct (Identity.LoadOrGenerate _ id (rnd mc)) as [ri fs1] eqn:Ei.
  destruct (identity_holds _ _ _ _ _ _ Hmc Ei Hd0) as [Hd1 Hk]. destruct ri as [ident|e]; [|injection E as <- <-; by split].
  injection E as El <-. split; [done|]. intros m i ->. unfold launch, LoadAgent in El. destruct (files mc wasmPath) as [wasm|]; [|done].
  destruct (loadAgent _ _ _ _ _ _ _ _ _ _) as [[m0 i0]|] eqn:Ea; [|done].
  apply load_kept in Ea as (Hk0 & Hm0 & Ht & Hs & _); [|apply i64_of_f64_range|unfold is_i64; lia|lia|by destruct Hmc as (_ & ? & _)|intros x [= <-]; by apply Hk].
  match type of El with context [Instance.Init ?g ?j] => destruct (init_sdk g j (new A) Hm0) as (m1 & Hm1 & Em1) end.
  rewrite Em1 in El. injection El as <- <-. split; [by destruct Hk0|]. split_and!; [done..|]. change (holds_life K id (Storage i0)). by rewrite Hs.
Qed.

(** The tick loop. *)
Lemma try_holds K n s id e m i r m' i' : K n s -> kept id e None i -> living n s m i -> holds_life K id (Storage i) ->
  trySaveCheckpoint (W := sdk_wasm A) m i = (r, m', i') -> kept id e None i' /\ living n s m' i' /\ holds_life K id (Storage i').
Proof.
  intros ? ? ? ? E. destruct (trySave_Save (W := sdk_wasm A) m i r m' i' E) as (rs & Es).
  apply (save_holds K n s id e) in Es as (? & ? & ? & _); done.
Qed.
Fixpoint ticks (events : list event) : nat :=
  match events with [] => O | EvTick _ :: events => S (ticks events) | _ :: events => ticks events end.
Lemma loop_holds id e events : Q e -> forall N n s m i r m' i', (n <= N)%nat -> kept id e None i -> living n s m i -> holds_life (up_to N) id (Storage i) ->
  loop events m i = (r, m', i') -> holds_life (up_to (N + ticks events)) id (Storage i').
Proof.
  intros HQ. induction events as [|[c| | |] events IH]; intros N n s m i r m' i' HN Hk Hl Hd; cbn [runTickLoop ticks].
  - intros [= _ <- <-]. by rewrite Nat.add_0_r.
  - unfold SafeTick. destruct (tick m i) as [[rt m1] i1] eqn:Et.
    destruct (tick_lives n s id e None m i _ _ _ Hk HQ Hl Et) as (Hf & Hk1 & Hl1).
    assert (Storage i1 = Storage i) as Hs1 by (unfold fixed in Hf; congruence). rewrite <- Hs1 in Hd.
    destruct rt as [more|err].
    { rewrite <- Nat.add_succ_comm. destruct Hl1 as (s1 & Hl1 & _). apply (IH (S N) (S n) s1); [lia|done..|]. apply (holds_more N); [lia|done]. }
    unfold HandleTickFailure, mbind, Run_bind. destruct (trySaveCheckpoint (W := sdk_wasm A) m1 i1) as [[rs m2] i2] eqn:Es.
    apply (try_holds (up_to N) n s id e) in Es as (? & ? & ?); [|done..]. destruct rs; intros [= _ <- <-]; (apply (holds_more N); [lia|done]).
  - unfold mbind, Run_bind. destruct (trySaveCheckpoint (W := sdk_wasm A) m i) as [[rs m1] i1] eqn:Es.
    apply (try_holds (up_to N) n s id e) in Es as (? & ? & ?); [|done..]. destruct rs; [by eapply IH|]. intros [= _ <- <-]. apply (holds_more N); [lia|done].
  - unfold mbind, Run_bind. destruct (trySaveCheckpoint (W := sdk_wasm A) m i) as [[rs m1] i1] eqn:Es.
    apply (try_holds (up_to N) n s id e) in Es as (? & ? & ?); [|done..]. destruct rs; intros [= _ <- <-]; (apply (holds_more N); [lia|done]).
  - intros [= _ <- <-]. apply (holds_more N); [lia|done].
Qed.

(** ** Any number of runs *)
(** One run of [igord run]: the machine, what its [select] receives, the
    budget and manifest flags, and how the disk behaves. *)
Record session := mkSession { se_machine : Machine; se_events : list event; se_budget : float64; se_manifest : string;
  se_bad_reads : gset string; se_scripts : list script }.
(** The directory after it. *)
Definition after_run (wasmPath id : string) (d : gmap string bytes) (x : session) : gmap string bytes :=
  disk (snd (runStandalone (W := sdk_wasm A) (se_machine x) (se_events x) wasmPath id (se_budget x) (se_manifest x) dir
    (mkFS dir d (se_bad_reads x) (se_scripts x)))).
Definition after_runs (wasmPath id : string) (d : gmap string bytes) (l : list session) : gmap string bytes :=
  fold_left (after_run wasmPath id) l d.
(** What the directory holds of the agent, as a store that can be read. *)
Definition store_of (d : gmap string bytes) : FSProvider := mkFS dir d ∅ [].

Lemma run_holds N wasmPath id d x : fit_machine (se_machine x) -> holds_life (up_to N) id (store_of d) ->
  holds_life (up_to (N + ticks (se_events x))) id (store_of (after_run wasmPath id d x)).
Proof.
  intros Hmc Hd. unfold after_run, runStandalone. set (fs := mkFS dir d _ _).
  assert (holds_life (up_to N) id (mkFS dir (disk fs) (bad_reads fs) (scripts fs))) as Hd0 by (revert Hd; by apply holds_ext).
  destruct (boot (se_machine x) wasmPath id (se_budget x) (se_manifest x) dir fs) as [r fs1] eqn:Eb.
  destruct (boot_holds _ _ _ _ _ _ _ _ _ Hmc Eb Hd0) as [Hd1 Hlive].
  assert (forall M st, holds_life (up_to M) id st -> holds_life (up_to M) id (store_of (disk st))) as Hstore.
  { intros M st Hst. revert Hst. intros Hst. pose proof Hst as (Hdir & _). revert Hst. apply holds_ext; [by rewrite Hdir|].
    intros suf _. apply file_ext; [by rewrite Hdir|done]. }
  destruct r as [[m i]|e]; [|apply (holds_more N); [lia|by apply Hstore]]. destruct (Hlive m i eq_refl) as (Hk & Hm & Ht & Hs).
  destruct (load m i) as [[rl ml] il] eqn:El. destruct (load_holds (up_to N) id _ _ _ _ _ _ _ Hk Hm Ht Hs El) as (n & s & HK & Hk1 & Hl1 & Hs1 & _).
  assert (n <= N)%nat as HN by (unfold up_to in HK; repeat case_match; lia).
  destruct (loop (se_events x) ml il) as [[rs m2] i2] eqn:Er. destruct Hmc as (_ & _ & HQ).
  apply Hstore. exact (loop_holds id _ _ HQ N n s _ _ _ _ _ HN Hk1 Hl1 Hs1 Er).
Qed.

Definition all_ticks (l : list session) : nat := sum_list_with (fun x => ticks (se_events x)) l.
Lemma runs_hold wasmPath id d sessions :
  Forall (fun x => fit_machine (se_machine x)) sessions ->
  file_at ".checkpoint" (store_of d) id = None -> file_at ".receipts" (store_of d) id = None ->
  forall c hdr st, file_at ".checkpoint" (store_of (after_runs wasmPath id d sessions)) id = Some c ->
  Checkpoint.ParseCheckpointHeader c = Ok (hdr, st) ->
  exists n s, (n <= all_ticks sessions)%nat /\ I s /\ lived A P n s /\ st = Marshal A s /\ Checkpoint.TickNumber hdr = u64 (Z.of_nat n).
Proof.
  intros Hmc Hc Hr. enough (holds_life (up_to (0 + all_ticks sessions)) id (store_of (after_runs wasmPath id d sessions))) as (_ & _ & Hd) by (intros c hdr st Hf; by apply Hd).
  assert (holds_life (up_to 0) id (store_of d)) as Hd by (split_and!; [done..|intros c; by rewrite Hc]).
  clear Hc Hr. revert d Hd. generalize 0%nat as N. induction Hmc as [|x l Hx _ IH]; intros N d Hd; cbn [all_ticks sum_list_with].
  - by rewrite Nat.add_0_r.
  - rewrite Nat.add_assoc. apply IH. by apply run_holds.
Qed.

(** C3: Runs of igord are lives of the agent, for an agent that is [hosted]:
    its [Init] does nothing and its ticks never panic, whatever the host
    answers. (The heartbeat, survivor, price and liquidation watchers,
    reconciler and sentinel are; the x402 buyer and the deployer are not,
    and the loop saves the state of a tick that failed, see
    [panicked_payment_is_booked].) Start it with [igord run] in a directory
    without checkpoint and receipts of it, any number of times: each time on
    any machine with 32-byte seeds, HTTP answers of possible size and an
    environment as [hosted] asks (for the sentinel a clock that never reads
    zero), with any flags, ticks, saves and signals, and any file operations
    failing or killing the process. Whatever checkpoint can then be parsed
    from its file is the marshalled state of the agent after some ticks of
    one of its lives, its tick number is that number, at most the ticks the
    runs were told to make: no state is torn or mixed from two ticks. *)
Theorem node_runs_are_lives wasmPath id d sessions :
  Forall (fun x => fit_machine (se_machine x)) sessions ->
  file_at ".checkpoint" (store_of d) id = None -> file_at ".receipts" (store_of d) id = None ->
  forall c hdr st, file_at ".checkpoint" (store_of (after_runs wasmPath id d sessions)) id = Some c ->
  Checkpoint.ParseCheckpointHeader c = Ok (hdr, st) ->
  exists n s, (n <= all_ticks sessions)%nat /\ I s /\ lived A P n s /\ st = Marshal A s /\ Checkpoint.TickNumber hdr = u64 (Z.of_nat n).
Proof. apply runs_hold. Qed.
End Node.
