(* ===== verification/NodeAgents.v ===== *)
(** * The shipped agents under igord

    Which agents never panic and so live on a node as NodeLife.v says, and
    what their checkpoint files can therefore hold. *)
From S2P Require Import Prelude GoFloat Crypto EventLog Manifest Wasm Hostcall ToyGuest Storage Instance Replay TickReplay Runner Igord.
From S2P Require Import Sdk SdkLogic SdkLive SdkNode AgentKit NodeLife.
From S2P Require Watchers Reconciler Sentinel Checkpoint.
From stdpp Require Import gmap strings.
Open Scope Z_scope.
#[local] Existing Instance Sentinel.checkpointable.
#[local] Existing Instance Watchers.Heartbeat.checkpointable.

(** An agent whose [Init] does nothing and whose ticks fit and return. *)
Lemma always_hosted A I `{Crypto} : I (new A) -> (forall s, Sdk.Init A s = Done tt s) ->
  (forall s, I s -> act_fits (Tick A s)) -> (forall s, I s -> act_returns (Tick A s)) ->
  hosted A I (fun _ => True) (fun _ => True).
Proof. intros. by split. Qed.

Ltac fits_all := repeat all_step; try done; cbn [op_fits]; try (by vm_compute).
Ltac returns_all := repeat returns_step.

Section Agents.
Context `{CryptoLaws}.
Lemma heartbeat_hosted : hosted Watchers.Heartbeat.agent Watchers.Heartbeat.ok (fun _ => True) (fun _ => True).
Proof.
  apply always_hosted; [by split|done|..]; intros s _; cbn [Sdk.Tick Watchers.Heartbeat.agent]; unfold Watchers.Heartbeat.Tick; tick_fold.
  - fits_all.
  - returns_all.
Qed.
Lemma survivor_hosted : hosted Watchers.Survivor.agent Watchers.Survivor.ok (fun _ => True) (fun _ => True).
Proof.
  apply always_hosted; [by split|done|..]; intros s _; cbn [Sdk.Tick Watchers.Survivor.agent]; unfold Watchers.Survivor.Tick; tick_fold.
  - fits_all.
  - returns_all.
Qed.
Lemma pricewatcher_hosted : hosted Watchers.PriceWatcher.agent Watchers.PriceWatcher.ok (fun _ => True) (fun _ => True).
Proof.
  apply always_hosted; [do 2 (try split); done|done|..]; intros s _; cbn [Sdk.Tick Watchers.PriceWatcher.agent];
    unfold Watchers.PriceWatcher.Tick, Watchers.PriceWatcher.fetch, Watchers.PriceWatcher.log_error, Watchers.PriceWatcher.milestone; tick_fold.
  - fits_all.
  - returns_all.
Qed.
Lemma slot_returns k mode w : act_returns (Watchers.Liquidation.processSlot k mode w).
Proof. unfold Watchers.Liquidation.processSlot. tick_fold. returns_all. Qed.
Lemma slot_fits k mode w : act_fits (Watchers.Liquidation.processSlot k mode w).
Proof. unfold Watchers.Liquidation.processSlot. tick_fold. repeat first [exact I | all_step]. Qed.
Lemma catchUp_returns n : forall k w, act_returns (Watchers.Liquidation.catchUp n k w).
Proof.
  induction n as [|n IH]; intros k w; [done|]. cbn [Watchers.Liquidation.catchUp].
  eapply returns_bind; [apply slot_returns|apply Watchers.Liquidation.processSlot_post|]. intros; apply IH.
Qed.
Lemma catchUp_fits n : forall k w, act_fits (Watchers.Liquidation.catchUp n k w).
Proof.
  induction n as [|n IH]; intros k w; [done|]. cbn [Watchers.Liquidation.catchUp].
  eapply all_bind; [apply slot_fits|apply Watchers.Liquidation.processSlot_post|]. intros; apply IH.
Qed.
Lemma liquidation_hosted : hosted Watchers.Liquidation.agent Watchers.Liquidation.ok (fun _ => True) (fun _ => True).
Proof.
  apply always_hosted; [by split|done|..]; intros s _; cbn [Sdk.Tick Watchers.Liquidation.agent]; unfold Watchers.Liquidation.Tick; tick_fold.
  - repeat first [exact I | all_step
      | eapply all_bind; [apply slot_fits|apply Watchers.Liquidation.processSlot_post|intros]
      | eapply all_bind; [apply catchUp_fits|apply Watchers.Liquidation.catchUp_post|intros] ].
  - repeat first [returns_step
      | eapply returns_bind; [apply slot_returns|apply Watchers.Liquidation.processSlot_post|intros]
      | eapply returns_bind; [apply catchUp_returns|apply Watchers.Liquidation.catchUp_post|intros] ].
Qed.
Lemma reconciler_hosted : hosted Reconciler.agent Reconciler.ok (fun _ => True) (fun _ => True).
Proof.
  apply always_hosted; [split; vm_compute; (done || (split; congruence))|done|..]; intros s Hs; cbn [Sdk.Tick Reconciler.agent]; [|apply Reconciler.tick_returns].
  Reconciler.unfold_handlers. tick_fold. repeat all_step; try exact I.
  - change (is_u32 (blen (Reconciler.CaseID s))). rewrite (Reconciler.ok_case _ Hs). unfold is_u32. lia.
  - change (is_u32 (blen (Reconciler.IdempotencyKey s))). rewrite (Reconciler.ok_key _ Hs). unfold is_u32. lia.
Qed.

(** The sentinel: a log with at most one, unbegun intent of 16 bytes. *)
Lemma effects_fits {B} op (f : result Effects.effect_error unit -> Sdk Sentinel.Sentinel B) s r e :
  op (Sentinel.Log s) = (r, e) -> act_fits (f r (Sentinel.set_Log e s)) -> act_fits ((Sentinel.effects op ≫= f) s).
Proof. intros E Hf. unfold Sentinel.effects. apply all_assoc, all_get. cbv beta. by rewrite E. Qed.
Lemma effects_returns {B} op (f : result Effects.effect_error unit -> Sdk Sentinel.Sentinel B) s r e :
  op (Sentinel.Log s) = (r, e) -> act_returns (f r (Sentinel.set_Log e s)) -> act_returns ((Sentinel.effects op ≫= f) s).
Proof. intros E Hf. unfold Sentinel.effects. apply returns_assoc, returns_get. cbv beta. by rewrite E. Qed.
Lemma refill_fits id d s : Sentinel.Log s = [Effects.mkIntent id Effects.Recorded d] ->
  act_fits (Sentinel.executeRefill (Effects.mkIntent id Effects.Recorded d) s).
Proof.
  intros Hl. unfold Sentinel.executeRefill, Sentinel.prune, Sentinel.say. tick_fold. cbn [Effects.ID].
  eapply effects_fits; [rewrite Hl; apply begin_one|]. cbv beta iota. repeat all_step; try exact I.
  eapply effects_fits; [apply confirm_one|]. cbv beta iota. repeat all_step; exact I.
Qed.
Lemma refill_returns id d s : blen id = 16 -> Sentinel.Log s = [Effects.mkIntent id Effects.Recorded d] ->
  act_returns (Sentinel.executeRefill (Effects.mkIntent id Effects.Recorded d) s).
Proof.
  intros Hid Hl. unfold Sentinel.executeRefill, Sentinel.prune, Sentinel.say. tick_fold. cbn [Effects.ID]. rewrite Hid.
  change (16 <? 4) with false. cbv iota.
  eapply effects_returns; [rewrite Hl; apply begin_one|]. cbv beta iota. repeat returns_step.
  eapply effects_returns; [apply confirm_one|]. cbv beta iota. repeat returns_step.
Qed.
Lemma treasury_operate_fits age s : Sentinel.Log s = [] -> act_fits (Sentinel.operate age s).
Proof.
  intros Hl. unfold Sentinel.operate, Sentinel.recordRefillIntent, Sentinel.rng, Sentinel.say. tick_fold.
  repeat first
    [ exact I | all_step
    | eapply effects_fits; [etransitivity; [exact (f_equal (Effects.Record_ _ _) Hl)|reflexivity]|cbv beta iota] ].
  all: try exact I; by vm_compute.
Qed.
Lemma operate_returns age s : Sentinel.Log s = [] -> act_returns (Sentinel.operate age s).
Proof.
  intros Hl. unfold Sentinel.operate, Sentinel.recordRefillIntent, Sentinel.rng, Sentinel.say. tick_fold.
  repeat first
    [ returns_step
    | eapply effects_returns; [etransitivity; [exact (f_equal (Effects.Record_ _ _) Hl)|reflexivity]|cbv beta iota; cbn [op_answer] in *] ].
  all: exfalso; match goal with H : blen ?k = blen (zeros _), E : (blen ?k <? 4) = true |- _ => by rewrite H in E end.
Qed.
Lemma act_on_fits age s : waiting Sentinel.limit (Sentinel.Log s) -> act_fits (Sentinel.act_on age s).
Proof.
  intros Hw. unfold Sentinel.act_on. apply all_get. cbv beta. rewrite (waiting_unresolved _ _ Hw), (waiting_first _ _ Hw).
  remember (Sentinel.Log s) as e eqn:E. symmetry in E. destruct Hw as [|id d Hid Hd]; cbn [head]; [by apply treasury_operate_fits|by apply refill_fits].
Qed.
Lemma act_on_returns age s : waiting Sentinel.limit (Sentinel.Log s) -> act_returns (Sentinel.act_on age s).
Proof.
  intros Hw. unfold Sentinel.act_on. apply returns_get. cbv beta. rewrite (waiting_unresolved _ _ Hw), (waiting_first _ _ Hw).
  remember (Sentinel.Log s) as e eqn:E. symmetry in E. destruct Hw as [|id d Hid Hd]; cbn [head]; [by apply operate_returns|by apply refill_returns].
Qed.
Lemma sentinel_fits s : Sentinel.ok s -> act_fits (Sentinel.Tick s).
Proof.
  intros Hok%Sentinel.ok_log. unfold Sentinel.Tick, Sentinel.say. tick_fold.
  repeat first [exact I | all_step | apply act_on_fits; exact Hok]. by vm_compute.
Qed.
Lemma sentinel_returns s : Sentinel.ok s -> act_returns (Sentinel.Tick s).
Proof.
  intros Hok%Sentinel.ok_log. unfold Sentinel.Tick, Sentinel.say. tick_fold.
  repeat first [returns_step | apply act_on_returns; exact Hok].
Qed.

(** A clock that never reads zero gives the sentinel a birth. *)
Definition clock_runs (e : Env) : Prop := forall n, i64 (e_now e n) <> 0.
Lemma sentinel_born_by now s : waiting Sentinel.limit (Sentinel.Log s) -> now <> 0 ->
  exists k, Sentinel.Tick s = Vis OpClockNow (Sentinel.count_tick s) k /\ act_post (fun _ s' => Sentinel.born s') (k now).
Proof.
  intros Hw Hn. eexists. split; [reflexivity|]. cbv beta.
  match goal with |- act_post ?Q ?t => change (act_post Q ((s ← get;
    _ ← (if Sentinel.BirthNano s =? 0 then _ ← modify (Sentinel.birth now); seed ← RandBytes (zeros 8);
         _ ← modify (Sentinel.set_rngState (get_u64 seed));
         Sentinel.say ([T "Treasury initialized: "] ++ Sentinel.dollars Sentinel.initialBalance) else mret tt);
    _ ← modify (Sentinel.set_LastNano now); s ← get;
    Sentinel.act_on (Z.quot (i64 (Sentinel.LastNano s - Sentinel.BirthNano s)) 1000000000)) (Sentinel.count_tick s))) end.
  unfold Sentinel.say. tick_fold. repeat first [tick_step | apply Sentinel.act_on_birth; [exact Hw|]]; [exact Hn|]. unfold Sentinel.born. zb. done.
Qed.
Lemma sentinel_hosted : hosted Sentinel.agent Sentinel.ok Sentinel.born clock_runs.
Proof.
  split; [split; try done; constructor|done|exact sentinel_fits|exact sentinel_returns|].
  intros i s more s' i' Hi HQ Hs HL. cbn [Sdk.Tick Sentinel.agent] in HL.
  destruct (sentinel_born_by (i64 (e_now (env i) (env_step i))) s (Sentinel.ok_log s Hs) (HQ _)) as (k & E & Hk).
  pose proof (sentinel_fits s Hs) as Hf. rewrite E in HL, Hf. cbn [live_act live_op act_all] in HL, Hf.
  change (now_unix_nano (entering i)) with (i64 (e_now (env i) (env_step i)), tick_env (entering i)) in HL. cbv beta iota in HL.
  set (i1 := record _ _ _) in HL. assert (node_ok i1) as Hi1 by exact Hi.
  apply (live_act_post (host_ok := node_ok) (hostCfg i) _ _ Hk) in HL as [Hb _]; [exact Hb| |exact Hi1].
  apply Hf, i64_range.
Qed.

(** ** The treasury on disk *)
Context `{JSON}.
(** C16: The treasury survives its node.  Run the sentinel with [igord run] in
    a fresh directory any number of times, fewer than 2^32 ticks in all,
    on machines whose clock never reads zero, whose random source gives
    32-byte seeds and whose HTTP client answers with statuses below 1000 and
    bodies below 2 GB: kill it in any tick or save, fail any read or write.
    Whatever checkpoint of it can then be read: one of tick 0 (a signal may
    come before the first tick) holds the newborn, empty treasury, and in any other the balance plus what
    was spent is the initial balance plus one refill for every refill counted,
    the balance is between zero and its initial value, and at most one refill
    intent is open, unbegun, and below the threshold. *)
Theorem treasury_on_disk wasmPath id dir d sessions :
  Forall (fun x => fit_machine clock_runs (se_machine x)) sessions -> Z.of_nat (all_ticks sessions) < 2 ^ 32 ->
  file_at ".checkpoint" (store_of dir d) id = None -> file_at ".receipts" (store_of dir d) id = None ->
  forall c hdr st, file_at ".checkpoint" (store_of dir (after_runs Sentinel.agent dir wasmPath id d sessions)) id = Some c ->
  Checkpoint.ParseCheckpointHeader c = Ok (hdr, st) ->
  exists s, st = Sentinel.Marshal s /\
    (Checkpoint.TickNumber hdr = 0 /\ s = new Sentinel.agent \/
     0 < Checkpoint.TickNumber hdr /\
     Sentinel.Balance s + Sentinel.SpendTotal s = Sentinel.initialBalance + Sentinel.refillAmount * Sentinel.RefillCount s /\
     0 <= Sentinel.Balance s <= Sentinel.initialBalance /\
     (Sentinel.Log s = [] \/ exists key data, Sentinel.Log s = [Effects.mkIntent key Effects.Recorded data] /\
        Sentinel.Balance s < Sentinel.refillThreshold)).
Proof.
  intros Hmc Hlt Hc Hr c hdr st Hf Hp.
  destruct (runs_hold Sentinel.agent Sentinel.ok Sentinel.born clock_runs sentinel_hosted dir wasmPath id d sessions Hmc Hc Hr c hdr st Hf Hp)
    as (n & s & Hn & _ & Hl & -> & Htn).
  exists s. split; [done|]. rewrite Htn, u64_id by (unfold is_u64; lia).
  destruct n as [|n]; [left; split; [done|by apply Sentinel.lived_zero]|right; split; [lia|]].
  destruct (Sentinel.treasury_books _ s Hl ltac:(lia)) as [[? _]|Hb]; [done|exact Hb].
Qed.
End Agents.

(** ** Witnesses: two runs with a kill in between *)
Definition at_time (start : Z) : Machine :=
  mkMachine (fun f => if bool_decide (f = "agent.wasm"%string) then Some demo_wasm else None) (Some (le_bytes 32 5))
    (mkEnv (fun n => (start + Z.of_nat n mod 1000 + 1) * 1000000000) (fun _ k => Some (zeros (Z.to_nat k))) (fun _ _ => HTimeout) (fun _ => 1000000) (fun _ => None)).
Definition two_sessions : list session := [
  mkSession (at_time 0) [EvTick (at_ 0); EvTick (at_ 0); EvCheckpoint; EvTick (at_ 0)] (f64_of_Z 10) "" ∅ [];
  mkSession (at_time 60) [EvTick (at_ 0); EvTick (at_ 0); EvTick (at_ 0); EvSignal] (f64_of_Z 10) "" ∅ []].
Definition on_disk (d : gmap string bytes) (id : string) : option (Checkpoint.CheckpointHeader * bytes) :=
  match file_at ".checkpoint" (store_of "ckpt" d) id with
  | Some c => match Checkpoint.ParseCheckpointHeader c with Ok x => Some x | Err _ => None end
  | None => None
  end.
Definition sentinel_disk : gmap string bytes := after_runs Sentinel.agent "ckpt" "agent.wasm" "a" ∅ two_sessions.
Example sentinel_ran : (fun x => Checkpoint.TickNumber (fst x)) <$> on_disk sentinel_disk "a" = Some 5.
Proof. vm_compute. reflexivity. Qed.
Lemma at_time_fits start : 0 <= start < 1000000 -> fit_machine clock_runs (at_time start).
Proof.
  intros Hs. split_and!.
  - intros seed [= <-]. reflexivity.
  - by intros n r status b.
  - intros n. cbn. pose proof (Z.mod_pos_bound (Z.of_nat n) 1000 ltac:(lia)). rewrite i64_id by (unfold is_i64; lia). lia.
Qed.
Lemma two_sessions_fit : Forall (fun x => fit_machine clock_runs (se_machine x)) two_sessions.
Proof. apply Forall_cons. split; [apply at_time_fits; lia|]. apply Forall_singleton, at_time_fits. lia. Qed.
Lemma treasury_on_disk_witness :
  match on_disk sentinel_disk "a" with
  | Some (hdr, st) => Checkpoint.TickNumber hdr = 5 /\ exists s, st = Sentinel.Marshal s /\
      Sentinel.Balance s + Sentinel.SpendTotal s = Sentinel.initialBalance + Sentinel.refillAmount * Sentinel.RefillCount s /\
      0 <= Sentinel.Balance s <= Sentinel.initialBalance /\
      (Sentinel.Log s = [] \/ exists key data, Sentinel.Log s = [Effects.mkIntent key Effects.Recorded data] /\
         Sentinel.Balance s < Sentinel.refillThreshold)
  | None => False
  end.
Proof.
  assert (match on_disk sentinel_disk "a" with Some (hdr, _) => Checkpoint.TickNumber hdr =? 5 | None => false end = true) as Hgo
    by (vm_compute; reflexivity).
  unfold on_disk in *. destruct (file_at ".checkpoint" (store_of "ckpt" sentinel_disk) "a") as [c|] eqn:Ef; [|discriminate Hgo].
  destruct (Checkpoint.ParseCheckpointHeader c) as [[hdr st]|] eqn:Ep; [|discriminate Hgo]. apply Z.eqb_eq in Hgo. split; [exact Hgo|].
  destruct (treasury_on_disk "agent.wasm" "a" "ckpt" ∅ two_sessions two_sessions_fit ltac:(reflexivity) ltac:(reflexivity) ltac:(reflexivity) c hdr st Ef Ep)
    as (s & Hs & [[H0 _]|[_ Hb]]); [rewrite Hgo in H0; discriminate H0|]. exists s. split; [exact Hs|exact Hb].
Defined.
(** The same with the heartbeat, which asks nothing of the clock. *)
Definition heartbeat_disk : gmap string bytes := after_runs Watchers.Heartbeat.agent "ckpt" "agent.wasm" "a" ∅ two_sessions.
Lemma node_runs_are_lives_witness :
  match on_disk heartbeat_disk "a" with
  | Some (hdr, st) => exists n s, (n <= 6)%nat /\ Watchers.Heartbeat.ok s /\ lived Watchers.Heartbeat.agent (fun _ => True) n s /\
      st = Watchers.Heartbeat.Marshal s /\ Checkpoint.TickNumber hdr = u64 (Z.of_nat n)
  | None => False
  end.
Proof.
  assert (is_Some (on_disk heartbeat_disk "a")) as Hgo by (vm_compute; eauto).
  unfold on_disk in *. destruct (file_at ".checkpoint" (store_of "ckpt" heartbeat_disk) "a") as [c|] eqn:Ef; [|by destruct Hgo].
  destruct (Checkpoint.ParseCheckpointHeader c) as [[hdr st]|] eqn:Ep; [|by destruct Hgo].
  refine (node_runs_are_lives Watchers.Heartbeat.agent Watchers.Heartbeat.ok (fun _ => True) (fun _ => True) heartbeat_hosted
    "ckpt" "agent.wasm" "a" ∅ two_sessions _ _ _ c hdr st Ef Ep); [|reflexivity|reflexivity].
  eapply Forall_impl; [exact two_sessions_fit|]. intros x (? & ? & _). split_and!; done.
Defined.
