(* ===== verification/DemoRun.v ===== *)
(** * The reconciliation demo, run

    The demo of Demo.v with the reconciliation agent as its WASM module. *)
From S2P Require Import Prelude GoFloat Strconv Crypto EventLog Manifest Wasm Hostcall ToyGuest Storage Instance Replay TickReplay Migration Demo.
From S2P Require Import Sdk.
From S2P Require Authority Reconciler Report Timeline.
From stdpp Require Import gmap strings.
Open Scope Z_scope.
#[local] Existing Instance Migration.demo_texts.

(** ** One run *)
Definition demo_env_at (start : Z) : Env :=
  mkEnv (fun n => (start + Z.of_nat n) * 1000000000) (fun n k => Some (repeat (byte_of_Z (Z.of_nat n)) (Z.to_nat k)))
    (fun _ _ => HTimeout) (fun _ => 1000000) (fun _ => None).
Definition demo_parts (id : string) (start : Z) : option NodeParts :=
  Some (mkParts None id "/ip4/127.0.0.1/tcp/4001" ("/tmp/" +:+ id) (demo_env_at start)).
Definition demo_stage : Stage :=
  mkStage (demo_parts "12D3KooWAaaa" 1735701245) (demo_parts "12D3KooWBbbb" 1735701270) 0 (Arrives 0 true) (fun _ => 0) (fun _ => 0).
Definition demo_file (f : string) : option bytes := if bool_decide (f = "agent.wasm"%string) then Some demo_wasm else Some (bytes_of "{}").
Definition demo_timeline : option Timeline.Timeline :=
  match runDemo (W := sdk_wasm Reconciler.agent) 5 demo_stage demo_file "agent.wasm" with Some (_, Ok tl) => Some tl | _ => None end.
Definition headline (ev : Timeline.Event) : Z * string := (Timeline.TickNumber ev, Timeline.Summary ev).

(** The agent finalizes once on node A, is migrated, skips the duplicate on
    node B and completes; the replayed ticks pass.  But the replay of ticks 10
    to 12 is listed before them. *)
Example replay_listed_before_its_ticks :
  (fun tl => (Timeline.CaseID tl, headline <$> Timeline.Events tl)) <$> demo_timeline = Some ("01010101"%string,
    [(1, "Case 01010101 detected (source: chain-A, dest: chain-B)"); (7, "Confirmation threshold met (6/6 blocks)");
     (7, "State: WaitingConfirmations -> ReadyToFinalize"); (7, "Idempotency key generated: 0e0e0e0e");
     (8, "Finalize intent recorded"); (8, "Idempotency key: 0e0e0e0e");
     (9, "Finalize EXECUTED for case 01010101 (key: 0e0e0e0e)"); (9, "State: ReadyToFinalize -> Finalized");
     (0, "Checkpoint #9 written"); (0, "HOST NODE FAILURE"); (0, "Agent migrated to node-b"); (0, "Replay verification PASSED");
     (10, "Finalize action SKIPPED"); (10, "Reason: intent 0e0e0e0e already committed");
     (11, "Acknowledgment received from chain-B"); (11, "State: Finalized -> Completed");
     (12, "Case 01010101 completed"); (12, "Side effects executed: 1 (exactly once)"); (12, "Total processing time: 11s")]%string).
Proof. vm_compute. reflexivity. Qed.
Example demo_exit_codes :
  (fun args => snd <$> main (W := sdk_wasm Reconciler.agent) 5 demo_stage demo_file args) <$> [["--wasm=agent.wasm"]; []; ["--wasm"]]%string =
  [Some 0; Some 1; Some 2].
Proof. vm_compute. reflexivity. Qed.
