(* ===== verification/MigrateLife.v ===== *)
(** * SDK agents under migration

    A node that accepts an SDK agent's package (Migration.v) runs the agent on
    from the state its checkpoint holds; whichever targets a migration tried,
    the agent lives on where it arrived, and nowhere is a checkpoint of it from
    another life. *)
From S2P Require Import Prelude GoFloat Crypto EventLog Manifest Wasm Hostcall Storage Instance Replay TickReplay Runner Migration.
From S2P Require Import Sdk SdkLogic SdkLive SdkNode SdkReplay AgentKit NodeLife.
From S2P Require Authority Identity Checkpoint.
From stdpp Require Import gmap strings.
Open Scope Z_scope.

Section Migrate.
Context (A : Agent) `{CryptoLaws} `{JSON} `{ErrorText} (I P : AState A -> Prop) (Q : Env -> Prop).
Context `{!Checkpointable A I} (HO : hosted A I P Q) (K : nat -> AState A -> Prop) (id : string).
Local Abbreviation service := (Service (W := sdk_wasm A) (St := FSProvider)).
Local Abbreviation in_life := (in_life A I P K).
Local Abbreviation living := (living A I P).
Implicit Types (p : service) (fs : FSProvider).

(** A node the agent may come to. *)
Definition disk_ok fs : Prop := bad_reads fs = ∅ /\ holds_life A I P (baseDir fs) K id fs.
Record ready p : Prop := {
  rd_sizes : env_sizes (s_env p);
  rd_env : Q (s_env p);
  rd_disk : disk_ok (storage p) }.

(** *** The disk *)
Lemma saved_ok fs c r fs' : disk_ok fs -> in_life c -> SaveCheckpoint fs id c = (r, fs') -> disk_ok fs'.
Proof.
  intros [Hb (_ & Hr & Hc)] Hl E. pose proof (SaveCheckpoint_readable _ _ _ _ _ E) as Hb'. apply file_saved in E as (Hs & Ho & _).
  split; [congruence|]. split; [done|]. split; [by rewrite Ho by (done || by right; left)|].
  intros c' Hf. destruct Hs as [Hs|Hs]; rewrite Hs in Hf; [by apply Hc|by injection Hf as <-].
Qed.
Lemma identity_ok fs d r fs' : disk_ok fs -> SaveIdentity fs id d = (r, fs') -> disk_ok fs'.
Proof.
  intros [Hb (_ & Hr & Hc)] E. pose proof (SaveIdentity_reads _ _ _ _ _ E) as Hb'.
  assert (forall suf, suf ∈ [".checkpoint"; ".receipts"]%string -> file_at suf fs' id = file_at suf fs id) as Hf.
  { intros suf Hs. apply (file_other ".identity" suf fs id d r fs'); [by do 2 right; left|clear -Hs; set_solver|clear -Hs; set_solver|done]. }
  split; [congruence|]. split; [done|]. split; [rewrite Hf; [done|by right; left]|]. intros c'. rewrite Hf by left. apply Hc.
Qed.
Lemma deleted_ok suf fs ok r fs' : suf ∈ suffixes -> disk_ok fs -> delete_at fs (agent_path suf fs id) ok = (r, fs') -> disk_ok fs'.
Proof.
  intros Hs [Hb (_ & Hr & Hc)] E.
  destruct (file_deleted suf ".receipts" _ _ _ _ _ Hs ltac:(by right; left) E) as (Hr' & _ & Hb').
  destruct (file_deleted suf ".checkpoint" _ _ _ _ _ Hs ltac:(by left) E) as (Hc' & _ & _).
  split; [congruence|]. split; [done|]. split; [destruct Hr' as [->|[_ ->]]; done|].
  intros c'. destruct Hc' as [->|[_ ->]]; [apply Hc|done].
Qed.

(** *** The target *)
Record carried (pkg : AgentPackage) : Prop := {
  ca_id : pkg_AgentID pkg = id;
  ca_life : in_life (pkg_Checkpoint pkg);
  ca_receipts : pkg_Receipts pkg = [];
  ca_budget : is_i64 (pkg_Budget pkg);
  ca_price : 0 <= pkg_Price pkg < 2 ^ 63 }.
Lemma ready_storage p fs : ready p -> disk_ok fs -> ready (with_storage fs p).
Proof. intros [] ?. by split. Qed.
Lemma restored_identity pkg fs r fs' : carried pkg -> disk_ok fs -> restoreAgentIdentity pkg fs = (r, fs') ->
  disk_ok fs' /\ LoadCheckpoint fs' id = LoadCheckpoint fs id /\
  forall x, r = Some (Ok (Some x)) -> blen (Identity.PublicKey x) = PublicKeySize /\ blen (Identity.PrivateKey x) = PrivateKeySize.
Proof.
  intros Hp Hd. unfold restoreAgentIdentity. destruct (_ =? 0); [by intros [= <- <-]|].
  destruct (Identity.UnmarshalBinary _) as [x|] eqn:Eu; [|by intros [= <- <-]].
  rewrite (ca_id _ Hp). destruct (prov_SaveIdentity fs id _) as [o st] eqn:Es.
  pose proof (identity_ok _ _ _ _ Hd Es) as Hd'. pose proof (prov_identity_keep_checkpoint _ _ _ _ _ Es) as Hl. cbn in Hl.
  destruct o; intros [= <- <-]; (split; [done|]); (split; [done|]); intros y [= <-].
  apply Identity.UnmarshalBinary_ok in Eu as [Ep Eb]. split; [rewrite Ep; by apply ed_public_size|done].
Qed.
Lemma load_ready pkg p r p' : carried pkg -> ready p -> loadMigratedAgent pkg p = (r, p') -> ready p'.
Proof.
  intros Hp Hr. unfold loadMigratedAgent. destruct (restoreAgentIdentity pkg (storage p)) as [ri st] eqn:Ei.
  destruct (restored_identity _ _ _ _ Hp (rd_disk _ Hr) Ei) as (Hd & _). pose proof (ready_storage p st Hr Hd) as Hr1.
  assert (forall names, ready (with_runtime names (with_storage st p))) as Hr2 by (intros; by destruct Hr1).
  repeat case_match_goal; intros [= _ <-]; done.
Qed.
Lemma loaded_life pkg p m i p' : carried pkg -> ready p -> LoadCheckpoint (storage p) id = Ok (pkg_Checkpoint pkg) ->
  loadMigratedAgent pkg p = (Some (Ok (m, i)), p') ->
  exists n s, K n s /\ living n s m i /\ kept id (s_env p) (signing_key p) i /\ unticked A i.
Proof.
  intros Hp Hr Hc. unfold loadMigratedAgent. destruct (restoreAgentIdentity pkg (storage p)) as [ri st] eqn:Ei.
  destruct (restored_identity _ _ _ _ Hp (rd_disk _ Hr) Ei) as (Hd & Hc' & Hk). rewrite Hc in Hc'.
  destruct ri as [[ident|]|]; [|done..]. unfold load_named, LoadAgentFromBytes. rewrite (ca_id _ Hp).
  case_bool_decide; [by destruct (loadAgent _ _ _ _ _ _ _ _ _ _) as [[? ?]|[]]|].
  destruct (loadAgent _ _ _ _ _ _ _ _ _ _) as [[m1 i1]|] eqn:Ea; [|done].
  pose proof (ca_price _ Hp). apply (load_kept A (H := _)) in Ea as (Hk1 & Hm1 & Ht1 & Hs1 & Hu1);
    [|by apply Hp|unfold is_i64; lia|lia|by apply Hr|intros x ->; by apply Hk].
  destruct (init_sdk A I P Q HO m1 i1 (new A) Hm1) as (m2 & Hm2 & ->).
  destruct (LoadCheckpointFromStorage (W := sdk_wasm A) m2 i1) as [[[u|] m3] i3] eqn:El; [|done]. intros [= <- <- <-].
  destruct Hd as [Hb Hd]. rewrite <- Hs1 in Hd.
  destruct (load_holds A I P Q HO _ K id _ _ m2 i1 _ _ _ Hk1 Hm2 Ht1 Hd El) as (n & s & HK & Hk3 & Hl3 & _ & Hu3).
  rewrite Hs1, Hc' in HK. exists n, s. split_and!; [done|done|done|by apply Hu3].
Qed.
Lemma incoming_ready now pkg p r p' : carried pkg -> ready p -> handleIncomingMigration now pkg p = (r, p') -> ready p'.
Proof.
  intros Hp Hr. unfold handleIncomingMigration. destruct (negb _); [by intros [= _ <-]|]. destruct (negb _); [by intros [= _ <-]|].
  destruct (replay_reject pkg p); [by intros [= _ <-]|]. destruct (ParseManifest _); [|by intros [= _ <-]]. destruct (negb _); [by intros [= _ <-]|].
  rewrite (ca_id _ Hp), (ca_receipts _ Hp). change (blen [] =? 0) with true. cbv iota.
  destruct (prov_SaveCheckpoint (storage p) id _) as [o st] eqn:Es.
  pose proof (ready_storage p st Hr (saved_ok _ _ _ _ (rd_disk _ Hr) (ca_life _ Hp) Es)) as Hr1.
  destruct o as [[u|e]|]; [|by intros [= _ <-]..].
  destruct (loadMigratedAgent pkg (with_storage st p)) as [rl p1] eqn:El. pose proof (load_ready _ _ _ _ Hp Hr1 El) as Hr2.
  destruct rl as [[[m i]|text]|]; intros [= _ <-]; [by destruct Hr2| |done].
  apply ready_storage; [done|]. unfold deleteOrphanedCheckpoint. cbn [prov_DeleteCheckpoint fs_provider].
  destruct (DeleteCheckpoint (storage p1) id true) as [rd fs] eqn:Ed. eapply (deleted_ok ".checkpoint"); [by left|apply (rd_disk _ Hr2)|exact Ed].
Qed.
(** [p] holds the agent, alive in a state of [K]. *)
Definition runs_on p : Prop := exists addr m i n s,
  activeAgents p !! id = Some addr /\ heap p !! addr = Some (m, i) /\ K n s /\ living n s m i /\
  kept id (s_env p) (signing_key p) i /\ Q (s_env p) /\ unticked A i.
Lemma incoming_same now pkg p r p' : handleIncomingMigration now pkg p = (r, p') -> s_env p' = s_env p /\ signing_key p' = signing_key p.
Proof.
  unfold handleIncomingMigration, loadMigratedAgent. repeat case_match_goal; intros [= _ <-]; done.
Qed.
Lemma incoming_life now pkg p started p' : carried pkg -> ready p ->
  handleIncomingMigration now pkg p = (Some started, p') -> Success started = true -> runs_on p'.
Proof.
  intros Hp Hr E Hs. destruct (incoming_same _ _ _ _ _ E) as [He Hk].
  destruct (handleIncoming_ok _ _ _ _ _ E Hs) as (_ & _ & _ & st & o & st1 & m & i & s1 & Es & Er & El & addr & Ha & Hh).
  rewrite (ca_receipts _ Hp) in Er. injection Er as _ <-. rewrite (ca_id _ Hp) in *.
  pose proof (saved_ok _ _ _ _ (rd_disk _ Hr) (ca_life _ Hp) Es) as Hd.
  pose proof (prov_checkpoint_saved (ProviderLaws := fs_provider_laws) _ _ _ _ (proj1 Hd : prov_readable st) Es) as Hl.
  destruct (loaded_life pkg (with_storage st p) m i s1 Hp (ready_storage _ _ Hr Hd) Hl El) as (n & s & HK & Hlv & Hkp & Hu).
  change (kept id (s_env p) (signing_key p) i) in Hkp. rewrite <- He, <- Hk in Hkp.
  assert (Q (s_env p')) as HQ by (rewrite He; by apply Hr). destruct (0 <? _); [|by exists addr, m, i, n, s].
  eexists addr, m, _, n, s. split_and!; [done|exact Hh|done|by destruct Hlv| |done|done].
  apply kept_lease; [done|apply u64_range|unfold is_u64; cbn; lia].
Qed.

(** *** The migration *)
Lemma packaged readFile wasmPath p pkg li : disk_ok (storage p) -> buildMigrationPackage readFile id wasmPath p = Ok (pkg, li) -> carried pkg.
Proof.
  intros [_ (_ & Hr & Hc)]. unfold buildMigrationPackage. destruct (readFile wasmPath); [|done]. cbn [prov_LoadCheckpoint fs_provider].
  destruct (LoadCheckpoint (storage p) id) as [c|] eqn:El; [|done]. apply load_file in El. specialize (Hc c El).
  assert (forall d, LoadReceipts (storage p) id <> Ok d) as Hno by (intros d Ed%load_file; congruence).
  destruct (Checkpoint.ParseCheckpointHeader c) as [[hdr st]|e] eqn:Ep; intros [= <- <-];
    (split; [done|exact Hc|cbn; by destruct (LoadReceipts _ _) as [d|]; [destruct (Hno d)|]|..]); cbn; try (unfold is_i64; lia);
    apply Checkpoint.parse_parsed in Ep; pose proof (Checkpoint.p_budget _ _ _ Ep); pose proof (Checkpoint.p_price _ _ _ Ep); unfold is_i64; lia.
Qed.
Definition ready_world (w : World (St := FSProvider)) : Prop := forall a p, peers w !! a = Some p -> ready p.
Definition arrived (target : string) (w : World (St := FSProvider)) : Prop := exists p, peers w !! target = Some p /\ runs_on p.
Lemma ready_peer target p w : ready_world w -> ready p -> ready_world (set_peer target p w).
Proof. intros Hw Hp a q. cbn. intros [[_ <-]|[_ Ha]]%lookup_insert_Some; [done|by eapply Hw]. Qed.
Lemma to_target_life d target pkg w err w' : carried pkg -> ready_world w -> migrateToTarget d target pkg w = (err, w') ->
  ready_world w' /\ (err = None -> arrived target w').
Proof.
  intros Hp Hw. unfold migrateToTarget. destruct (peers w !! target) as [p|] eqn:Ep; [|by intros [= <- <-]].
  pose proof (Hw _ _ Ep) as Hr. destruct d as [text| |now answered]; [by intros [= <- <-]..|].
  destruct (handleIncomingMigration now pkg p) as [[started|] p'] eqn:Eh; pose proof (incoming_ready _ _ _ _ _ Hp Hr Eh) as Hr'.
  - pose proof (ready_peer target p' w Hw Hr') as Hw'. destruct answered; cbn [negb]; [|by intros [= <- <-]].
    destruct (Success started) eqn:Es; intros [= <- <-]; (split; [done|]); [|done]. intros _.
    exists p'. split; [apply lookup_insert_eq|]. exact (incoming_life now pkg p started p' Hp Hr Eh Es).
  - intros [= <- <-]. split; [|done]. apply ready_peer; [done|]. by destruct Hr'.
Qed.
Lemma try_target_life cfg target pkg k : carried pkg -> forall n w v w', ready_world w -> try_target k n cfg target pkg w = (v, w') ->
  ready_world w' /\ (v = Migrated -> arrived target w').
Proof.
  intros Hp. induction k as [|k IH]; intros n w v w' Hw; cbn [try_target]; [by intros [= <- <-]|].
  destruct (next_attempt w) as [a w1] eqn:En. apply next_attempt_same in En as [_ Hp1].
  destruct (migrateToTarget (deliver a) target pkg w1) as [err w2] eqn:Em.
  destruct (to_target_life _ _ _ _ _ _ Hp ltac:(intros ? ?; rewrite Hp1; apply Hw) Em) as [Hw2 Ha].
  destruct err as [e|]; [|intros [= <- <-]; auto]. destruct (IsAmbiguous _); [by intros [= <- <-]|].
  destruct (negb _); [by intros [= <- <-]|]. destruct (_ && _); [by intros [= <- <-]|]. by apply IH.
Qed.
Lemma try_targets_life cfg pkg targets : carried pkg -> forall w v t w', ready_world w -> try_targets cfg targets pkg w = (v, t, w') ->
  ready_world w' /\ (v = Migrated -> arrived t w').
Proof.
  intros Hp. induction targets as [|t0 targets IH]; intros w v t w' Hw; cbn [try_targets]; [by intros [= <- <- <-]|].
  destruct (try_target _ _ _ _ _ _) as [v1 w1] eqn:Et. destruct (try_target_life _ _ _ _ Hp _ _ _ _ Hw Et) as [Hw1 Ha].
  destruct v1; try (by intros [= <- <- <-]; auto). by apply IH.
Qed.
Lemma handoff_storage p e p' : beginHandoff id p = (e, p') -> storage p' = storage p.
Proof. unfold beginHandoff. repeat case_match_goal; by intros [= _ <-]. Qed.
(** The command line's single attempt. *)
Lemma migrate_once_life readFile wasmPath target w w' : disk_ok (storage (me w)) -> ready_world w ->
  MigrateAgent readFile id wasmPath target w = (Ok tt, w') -> arrived target w'.
Proof.
  intros Hd Hw. unfold MigrateAgent. destruct (beginHandoff id (me w)) as [[e|] s1] eqn:Eh; [done|]. apply handoff_storage in Eh.
  rewrite <- Eh in Hd. destruct (buildMigrationPackage readFile id wasmPath s1) as [[pkg li]|] eqn:Eb; [|done]. apply packaged in Eb; [|done].
  destruct (next_attempt (set_me s1 w)) as [a w1] eqn:En. apply next_attempt_same in En as [_ Hp1].
  destruct (migrateToTarget (deliver a) target pkg w1) as [[e|] w2] eqn:Em; [done|]. intros [= <-].
  apply (to_target_life _ _ _ _ _ _ Eb ltac:(intros ? ?; rewrite Hp1; apply Hw) Em). done.
Qed.

(** C4: Migration carries the life of an agent on, for a [hosted] agent (its
    [Init] does nothing and its ticks never panic: not the x402 buyer and
    the deployer). Let the node's directory hold a checkpoint of it from one
    of its lives (a state of [K]) and no receipts, let the nodes it may go
    to hold, if anything, such a checkpoint too, and let all these
    directories be readable and these nodes' environments fit ([ready]: HTTP
    answers of possible size, and what [hosted] asks of the environment).
    Then whatever the network does, whichever targets reject the agent,
    crash or fail to answer, whichever writes fail, and however often it is
    tried: when [MigrateAgentWithRetry] reports a target, that node runs the
    agent, in a state of [K], with its tick number and not yet ticked; and
    whatever it reports, no target's directory holds a checkpoint from
    another life. *)
Theorem migration_carries_life readFile wasmPath primary candidates cfg w r w' :
  disk_ok (storage (me w)) -> ready_world w ->
  MigrateAgentWithRetry readFile id wasmPath primary candidates cfg w = (r, w') ->
  ready_world w' /\ forall target, r = Ok target -> arrived target w'.
Proof.
  intros Hd Hw. unfold MigrateAgentWithRetry. destruct (beginHandoff id (me w)) as [[e|] s1] eqn:Eh; [by intros [= <- <-]|].
  apply handoff_storage in Eh. rewrite <- Eh in Hd.
  destruct (buildMigrationPackage readFile id wasmPath s1) as [[pkg li]|] eqn:Eb; [|by intros [= <- <-]]. apply packaged in Eb; [|done].
  destruct (target_list primary candidates) as [|t ts]; [by intros [= <- <-]|].
  destruct (try_targets cfg (t :: ts) pkg (set_me s1 w)) as [[v target] w1] eqn:Et.
  destruct (try_targets_life _ _ _ Eb (set_me s1 w) _ _ _ Hw Et) as [Hw1 Ha].
  destruct v; [|destruct (activeAgents (me w) !! id)|..]; intros [= <- <-]; (split; [done|]); intros x Hx; [|done..].
  injection Hx as <-. by apply Ha.
Qed.
End Migrate.
