(* ===== verification/DemoLife.v ===== *)
(** * The reconciliation demo completes

    The demo of Demo.v with the reconciliation agent as its WASM module: the
    agent of node A lives on, through its checkpoint, on node B. *)
From S2P Require Import Prelude GoFloat Crypto EventLog Manifest Wasm Hostcall ToyGuest Storage Instance Replay TickReplay Runner Migration Demo.
From S2P Require Import Sdk SdkLogic SdkLive SdkNode SdkReplay AgentKit NodeLife NodeAgents MigrateLife DemoRun.
From S2P Require Authority Identity Checkpoint Budget Report Timeline Reconciler.
From stdpp Require Import gmap strings pretty.
Open Scope Z_scope.

#[local] Existing Instance Reconciler.checkpointable.
#[local] Existing Instance Migration.demo_texts.

(** ** The agent's hostcalls are all recorded *)
Lemma blen_shortHex b : 0 <= blen (Reconciler.shortHex b) <= 8.
Proof.
  unfold Reconciler.shortHex. pose proof (blen_nonneg b). destruct (Z.ltb_spec (blen b) 4); rewrite blen_hex; [lia|].
  unfold blen in *. rewrite length_take. lia.
Qed.
Lemma quot_i64 x : is_i64 (Z.quot (i64 x) 1000000000).
Proof.
  pose proof (i64_range x) as Hx. unfold is_i64 in *. pose proof (Z.quot_le_mono (i64 x) (2 ^ 63 - 1) 1000000000).
  pose proof (Z.quot_le_mono (- 2 ^ 63) (i64 x) 1000000000). 
  change (Z.quot (2 ^ 63 - 1) 1000000000) with 9223372036 in *. change (Z.quot (- 2 ^ 63) 1000000000) with (- 9223372036) in *. lia.
Qed.
Lemma u32_i64 x : is_u32 x -> is_i64 x.
Proof. unfold is_u32, is_i64. lia. Qed.
Lemma reconciler_recorded : recorded_agent Reconciler.agent Reconciler.ok.
Proof.
  split.
  - intros s Hs. exact (ho_fits _ _ _ _ reconciler_hosted s Hs).
  - intros s Hs. cbn [Sdk.Tick Reconciler.agent]. Reconciler.unfold_handlers. tick_fold. repeat all_step; try exact I;
      lazymatch goal with
      | |- context [flat_map] => line_recorded; unfold maxLogBytes;
          repeat match goal with |- context [blen (Reconciler.shortHex ?b)] =>
            let H := fresh in pose proof (blen_shortHex b) as H; revert H; generalize (blen (Reconciler.shortHex b)); intros end; try (intros; lia)
      | |- context [Reconciler.CaseID] => change (0 < blen (Reconciler.CaseID s) <= maxRandBytes); by rewrite (Reconciler.ok_case _ Hs)
      | _ => change (0 < blen (Reconciler.IdempotencyKey s) <= maxRandBytes); by rewrite (Reconciler.ok_key _ Hs)
      end.
    all: cbn [Reconciler.Confirmations Reconciler.RequiredConfs Reconciler.set_Confirmations Reconciler.set_TickCount].
    1: apply u32_i64, u32_range.
    1, 2: by apply u32_i64, Hs.
    destruct (_ && _); [apply quot_i64|by vm_compute].
  - cbn. intros Hin. repeat (apply elem_of_cons in Hin as [Hin|Hin]; [done|]). by apply not_elem_of_nil in Hin.
Qed.

(** ** The demo *)
Section Demo.
Context `{CryptoLaws} `{JSON} `{ErrorText}.
Local Abbreviation W := (sdk_wasm Reconciler.agent).
Local Abbreviation service := (Service (W := W) (St := FSProvider)).
Local Abbreviation node := (Instance (St := FSProvider)).
Local Abbreviation anything := (fun _ : AState Reconciler.agent => True).
Local Abbreviation anywhere := (fun _ : Env => True).
Local Abbreviation living := (living Reconciler.agent Reconciler.ok anything).
Local Abbreviation verifiable := (verifiable Reconciler.agent Reconciler.ok).
Implicit Types (m : guest Reconciler.agent) (i : node) (a b : service).

(** *** Node A *)
Lemma agent_on_a_born readFile wasmPath a m i : env_sizes (s_env a) -> agent_on_a (W := W) readFile wasmPath a = Ok (m, i) ->
  kept agentID (s_env a) None i /\ living 0 (new Reconciler.agent) m i /\ Storage i = storage a.
Proof.
  intros He. unfold agent_on_a, LoadAgent. destruct (readFile wasmPath) as [wasm|]; [|done].
  destruct (loadAgent _ _ _ _ _ _ _ _ _ _) as [[m0 i0]|] eqn:Ea; [|done].
  apply (load_kept Reconciler.agent (H := _)) in Ea as (Hk & Hm & Ht & Hs & _); [|apply i64_of_f64_range|apply i64_of_f64_range|by vm_compute|done|done].
  destruct (init_sdk _ _ _ _ reconciler_hosted m0 i0 _ Hm) as (m1 & Hm1 & ->). intros [= <- <-].
  split_and!; [done| |done]. split; [done|apply reconciler_hosted|constructor|done].
Qed.
Lemma ticks_on_a_live sk e k : forall z n s m i out m' i', kept agentID e sk i -> living n s m i ->
  ticks_on_a (W := W) k z m i = (out, Ok (m', i')) ->
  exists s', kept agentID e sk i' /\ living (k + n) s' m' i' /\ fixed i' = fixed i.
Proof.
  induction k as [|k IH]; intros z n s m i out m' i' Hk Hl; cbn [ticks_on_a]; [by intros [= _ <- <-]; exists s|].
  destruct (Instance.Tick (W := W) m i) as [[[more|e1] m1] i1] eqn:ET; [|done].
  destruct (tick_lives _ _ _ _ reconciler_hosted n s _ _ _ _ _ _ _ _ Hk I Hl ET) as (Hf & Hk1 & s1 & Hl1 & _).
  destruct (ticks_on_a k (z + 1) m1 i1) as [out1 r1] eqn:ER. intros [= _ ->].
  destruct (IH _ _ _ _ _ _ _ _ Hk1 Hl1 ER) as (s' & Hk' & Hl' & Hf'). exists s'.
  split_and!; [done|by rewrite Nat.add_succ_comm|congruence].
Qed.
(** Exactly the state the agent is left in. *)
Definition just (n : nat) (s : AState Reconciler.agent) (n' : nat) (s' : AState Reconciler.agent) : Prop := n' = n /\ s' = s.
Local Abbreviation disk_ok K := (disk_ok Reconciler.agent Reconciler.ok anything K agentID).
Lemma empty_disk K d : disk_ok K (NewFSProvider d ∅ ∅ []).
Proof.
  assert (forall suf, suf ∈ suffixes -> file_at suf (NewFSProvider d ∅ ∅ []) agentID = None) as Hf.
  { intros suf Hs. rewrite file_clean by done. unfold file_at. destruct (agent_path _ _ _); [apply lookup_empty|done]. }
  split; [done|]. split; [done|]. split; [apply Hf; by right; left|]. intros c. by rewrite Hf by (by left).
Qed.
Lemma run_on_a_live stage readFile wasmPath a out m i : env_sizes (s_env a) -> (forall K, disk_ok K (storage a)) ->
  run_on_a (W := W) stage readFile wasmPath a = (out, Ok (m, i)) ->
  exists s, living 9 s m i /\ disk_ok (just 9 s) (Storage i).
Proof.
  intros He Hd. unfold run_on_a. destruct (agent_on_a readFile wasmPath a) as [[m0 i0]|] eqn:Ea; [|done].
  destruct (agent_on_a_born _ _ _ _ _ He Ea) as (Hk & Hl & Hs).
  apply (kept_lease _ _ _ _ (Authority.NewLease Authority.DefaultLeaseConfig (lease_time stage))) in Hk; [|done..].
  destruct (ticks_on_a _ _ _ _) as [out1 r1] eqn:Et. destruct r1 as [[m1 i1]|]; [|done].
  destruct (ticks_on_a_live _ _ _ _ _ _ _ _ _ _ _ Hk ltac:(by destruct Hl) Et) as (s & Hk1 & Hl1 & Hf).
  destruct (SaveCheckpointToStorage m1 i1) as [[[u|] m2] i2] eqn:Es; [|done]. intros [= _ <- <-].
  assert (Storage i1 = storage a) as Hs1 by (unfold fixed in Hf; cbn in Hf; congruence).
  destruct (Hd (just 9 s)) as [Hb Hh]. rewrite <- Hs1 in Hb, Hh.
  destruct (save_holds _ _ _ _ (just 9 s) 9 s _ _ _ _ _ _ _ ltac:(by split) Hk1 Hl1 Hh Es) as (_ & Hl2 & Hh2 & Hb2).
  exists s. split; [done|]. split; [congruence|]. by rewrite (proj1 Hh2).
Qed.

(** *** The migration *)
Lemma move_to_b_live stage readFile wasmPath target a b epoch m i s : disk_ok (just 9 s) (storage a) ->
  (forall K, disk_ok K (storage b)) -> env_sizes (s_env b) -> rand_works (s_env b) ->
  move_to_b (W := W) stage readFile wasmPath target a b = Ok (epoch, (m, i)) ->
  exists e sk, kept agentID e sk i /\ living 9 s m i /\ verifiable m i /\ unticked Reconciler.agent i.
Proof.
  intros Ha Hb He Hr. unfold move_to_b. set (w := mkWorld a {[target := b]} _).
  destruct (MigrateAgent _ _ _ _ w) as [[[]|] w'] eqn:Em; [|done].
  eapply (migrate_once_life _ _ _ _ (hosted_in _ _ _ _ rand_works reconciler_hosted (fun _ _ => I)) (just 9 s)) in Em as
    (p & Hp & addr & m1 & i1 & n & s1 & Hact & Hheap & [-> ->] & Hl & Hk & Hq & Hu);
    [|exact Ha|intros t p; cbn; intros [_ <-]%lookup_singleton_Some; by split].
  rewrite Hp. cbn [mbind option_bind]. unfold GetActiveInstance. rewrite Hact. cbn [mbind option_bind].
  match goal with |- context [match ?x with _ => _ end] => replace x with (Some (m1, i1)) by (symmetry; exact Hheap) end. intros [= _ <- <-].
  exists (s_env p), (signing_key p). split_and!; [done..| |done].
  eapply (verifiable_born Reconciler.agent _ reconciler_recorded _ _ s); [by destruct Hl..|by apply Hk|by rewrite (k_env _ _ _ _ Hk)|done].
Qed.

(** *** Node B *)
(** The twelfth tick of a life is the first to report that no work is left. *)
Lemma has_more n s more s' : lived Reconciler.agent anything n s -> act_can (Sdk.Tick Reconciler.agent s) more s' -> more = (n <? 11)%nat.
Proof. intros [_ Hs]%Reconciler.lived_on_schedule Hc. by apply (act_post_can _ _ _ _ (Reconciler.tick_on_schedule n s Hs) Hc). Qed.
(** The agent's ticks on node B: from the [n]-th state to the twelfth. *)
Definition from_to (n : nat) (i : node) (m' : guest Reconciler.agent) (i' : node) s s' : Prop :=
  living 12 s' m' i' /\ verifiable m' i' /\ blen (ReplayWindow i') = blen (ReplayWindow i) + Z.of_nat (12 - n) /\
  Reconciler.FinalizeNano s' = Reconciler.FinalizeNano s /\ Reconciler.IdempotencyKey s' = Reconciler.IdempotencyKey s.
Lemma ticks_on_b_live e sk fuel : forall n s m i, (9 <= n <= 11)%nat -> (12 - n <= fuel)%nat ->
  kept agentID e sk i -> living n s m i -> verifiable m i -> replayWindowMax i = 0 -> blen (ReplayWindow i) <= Z.of_nat (n - 9) ->
  exists out r, ticks_on_b (W := W) fuel m i = Some (out, r) /\ forall m' i', r = Ok (m', i') -> exists s', from_to n i m' i' s s'.
Proof.
  induction fuel as [|fuel IH]; intros n s m i Hn Hf Hk Hl Hv Hmax Hw; [lia|]. cbn [ticks_on_b].
  destruct (Instance.Tick (W := W) m i) as [[[more|e1] m1] i1] eqn:ET; [|eexists _, _; split; [done|discriminate]].
  destruct (tick_lives _ _ _ _ reconciler_hosted n s _ _ _ _ _ _ _ _ Hk I Hl ET) as (_ & Hk1 & s1 & Hl1 & Hc).
  rewrite (has_more _ _ _ _ (lv_lived _ _ _ _ _ _ _ Hl) Hc).
  pose proof (verifiable_tick _ _ reconciler_recorded _ _ _ _ _ Hv ET) as Hv1.
  destruct (Tick_window _ _ _ _ _ ET) as [Hw1 Hmax1]; [unfold max_snaps, DefaultReplayWindowSize; rewrite Hmax; cbn; lia|].
  pose proof (lv_lived _ _ _ _ _ _ _ Hl) as [_ Hs]%Reconciler.lived_on_schedule.
  destruct (act_post_can _ _ _ _ (Reconciler.finalized_kept n s Hs ltac:(lia)) Hc) as [Hfin Hkey].
  destruct (Nat.ltb_spec n 11).
  - destruct (IH (S n) s1 m1 i1 ltac:(lia) ltac:(lia) Hk1 Hl1 Hv1 ltac:(lia) ltac:(lia)) as (out & r & -> & Hr).
    eexists _, _. split; [done|]. intros m' i' E. destruct (Hr m' i' E) as (s' & Hl' & Hv' & Hw' & Hf' & Hk').
    exists s'. split_and!; [done|done|lia|congruence..].
  - assert (n = 11)%nat as -> by lia. eexists _, _. split; [done|]. intros m' i' [= <- <-].
    exists s1. split_and!; [done|done|lia|done..].
Qed.
Lemma resume_live e sk fuel s m i : (3 <= fuel)%nat -> kept agentID e sk i -> living 9 s m i -> verifiable m i -> unticked Reconciler.agent i ->
  exists out r, resumeAndTick (W := W) fuel m i = Some (out, r) /\ forall m' i', r = Ok (m', i') -> exists s',
    living 12 s' m' i' /\ window_replays (W := W) i' /\ blen (ReplayWindow i') = 3 /\
    Reconciler.FinalizeNano s' = Reconciler.FinalizeNano s /\ Reconciler.IdempotencyKey s' = Reconciler.IdempotencyKey s.
Proof.
  intros Hf Hk Hl Hv (_ & Hw & Hmax & _). unfold resumeAndTick.
  destruct (ticks_on_b_live e sk fuel 9 s m i ltac:(lia) ltac:(lia) Hk Hl Hv Hmax ltac:(by rewrite Hw)) as (out & r & -> & Hr).
  cbn [mbind option_bind]. destruct r as [[m1 i1]|]; [|eexists _, _; split; [done|discriminate]].
  destruct (Hr m1 i1 eq_refl) as (s1 & Hl1 & [Hv1 _ _] & Hw1 & Hf1 & Hk1). rewrite Hw in Hw1.
  destruct (SaveCheckpointToStorage m1 i1) as [[[u|] m2] i2] eqn:Es; (eexists _, _; split; [done|]); [|discriminate].
  intros m' i' [= <- <-]. exists s1. pose proof (Save_live (W := W) _ _ _ _ _ _ _ Hv1 Es) as Hv2.
  destruct (Save_keeps (W := W) ReplayWindow _ _ _ _ _ ltac:(by split) Es) as (rc & i3 & Ec & Ew).
  destruct (Checkpoint_live (W := W) _ _ _ _ _ _ _ Hv1 Ec) as [_ Ev]. unfold live_view in Ev.
  split_and!; [exact (save_living _ _ _ _ _ _ _ _ _ _ Hl1 Es)|exact (li_window _ _ _ _ Hv2)| |done..]. rewrite Ew. injection Ev as _ _ _ _ -> _ _ _. exact Hw1.
Qed.

(** *** The replay *)
Lemma verify_window_passes i snaps passed verified :
  Forall (fun x => exists st, replays (W := W) (WASMBytes i) (CapManifest i) x st) snaps ->
  verify_window (W := W) i snaps passed verified = (""%string, passed, verified + blen snaps).
Proof.
  intros Hs. revert passed verified. induction Hs as [|x snaps (st & log & Hlog & Hst & Hrun) _ IH]; intros passed verified; cbn [verify_window].
  - by rewrite blen_nil, Z.add_0_r.
  - rewrite Hlog. unfold verify_snapshot, ReplayTick. rewrite Hrun. cbn [Error ReplayedState default]. rewrite bool_decide_true by done.
    rewrite IH, andb_true_r, blen_cons.
    by replace (verified + (1 + blen snaps)) with (verified + 1 + blen snaps) by lia.
Qed.
Lemma verify_replay_passes i : window_replays (W := W) i -> exists out, verifyReplay (W := W) i = (out, true, blen (ReplayWindow i)).
Proof. intros Hw. unfold verifyReplay. rewrite (verify_window_passes _ _ _ _ Hw). by eexists. Qed.

(** *** The whole demo *)
Lemma ready_store p : (forall K, disk_ok K (NewFSProvider (np_dir p) ∅ ∅ [])).
Proof. intros K. apply empty_disk. Qed.
(** Finalized in [s], completed in [s'], and not finalized again between. *)
Definition finalized_once (s s' : AState Reconciler.agent) : Prop :=
  Reconciler.State s = Reconciler.StateFinalized /\ Reconciler.FinalizeExecuted s = true /\
  Reconciler.State s' = Reconciler.StateCompleted /\ Reconciler.AckReceived s' = true /\
  Reconciler.FinalizeNano s' = Reconciler.FinalizeNano s /\ Reconciler.IdempotencyKey s' = Reconciler.IdempotencyKey s.
(** C5: The reconciliation demo completes, exactly once.  Whatever the two nodes'
    keys, clocks and addresses are, whatever files are read, whenever the
    lease is granted and whatever the network does with the one transfer, the
    demo ends after at most three ticks on the second node.  And if it does
    not stop with an error, the agent ran nine ticks on the first node and
    came back in the very state it left, on the second node it ran the
    remaining three to its completion, the finalize action was executed on the
    first node and not again (its time and its key are those of the ninth
    tick), and the three ticks of the second node all passed replay. *)
Theorem demo_completes fuel stage readFile wasmPath pa pb :
  (3 <= fuel)%nat -> parts_a stage = Some pa -> parts_b stage = Some pb ->
  env_sizes (np_env pa) -> env_sizes (np_env pb) -> rand_works (np_env pb) ->
  exists out r, runDemo (W := W) fuel stage readFile wasmPath = Some (out, r) /\
  forall tl, r = Ok tl -> exists a b out_a m i epoch m0 i0 out_b mb ib s9 s12,
    newDemoNode "node-a" (parts_a stage) Authority.DefaultLeaseConfig = Ok a /\
    newDemoNode "node-b" (parts_b stage) Authority.DefaultLeaseConfig = Ok b /\
    run_on_a (W := W) stage readFile wasmPath a = (out_a, Ok (m, i)) /\ living 9 s9 m i /\
    move_to_b (W := W) stage readFile wasmPath (target_of pb) (registered_on_a a m i) b = Ok (epoch, (m0, i0)) /\ living 9 s9 m0 i0 /\
    resumeAndTick (W := W) fuel m0 i0 = Some (out_b, Ok (mb, ib)) /\ living 12 s12 mb ib /\
    tl = buildTimeline (wall stage) (History (EvLog i)) (History (EvLog ib)) epoch true 3 /\
    finalized_once s9 s12.
Proof.
  intros Hf Ea Eb Hsa Hsb Hr. unfold runDemo. rewrite Ea, Eb. cbn [newDemoNode].
  set (a := NewService _ _ _ (NewFSProvider (np_dir pa) _ _ _) _ _ _). set (b := NewService _ _ _ (NewFSProvider (np_dir pb) _ _ _) _ _ _).
  destruct (run_on_a stage readFile wasmPath a) as [out1 r1] eqn:E1. destruct r1 as [[m i]|]; [|eexists _, _; split; [done|discriminate]].
  destruct (run_on_a_live stage readFile wasmPath a out1 m i Hsa (ready_store pa) E1) as (s9 & Hl9 & Hd9).
  destruct (move_to_b _ _ _ _ _ _) as [[epoch [mb ib]]|] eqn:E2; [|eexists _, _; split; [done|discriminate]].
  destruct (move_to_b_live _ _ _ _ (registered_on_a a m i) b _ _ _ _ Hd9 (ready_store pb) Hsb Hr E2) as (e & sk & Hk & Hl & Hv & Hu).
  destruct (resume_live e sk fuel s9 mb ib Hf Hk Hl Hv Hu) as (out2 & r2 & E3 & H2). rewrite E3. cbn [mbind option_bind].
  destruct r2 as [[mb' ib']|]; [|eexists _, _; split; [done|discriminate]].
  destruct (H2 mb' ib' eq_refl) as (s12 & Hl12 & Hw & H3 & Hfin & Hkey).
  destruct (verify_replay_passes ib' Hw) as [out3 ->]. rewrite H3. eexists _, _. split; [done|]. intros tl [= <-].
  exists a, b, out1, m, i, epoch, mb, ib, out2, mb', ib', s9, s12.
  pose proof (lv_lived _ _ _ _ _ _ _ Hl9) as [_ H9]%Reconciler.lived_on_schedule.
  pose proof (lv_lived _ _ _ _ _ _ _ Hl12) as [_ H12]%Reconciler.lived_on_schedule.
  split_and!; [by rewrite ?Ea|by rewrite ?Eb|done..|]. split_and!; [apply H9|apply H9|apply H12|apply H12|done|done].
Qed.
End Demo.

(** The run of DemoRun.v. *)
Definition part (id : string) (start : Z) : NodeParts := mkParts None id "/ip4/127.0.0.1/tcp/4001" ("/tmp/" +:+ id) (demo_env_at start).
Definition part_a : NodeParts := part "12D3KooWAaaa" 1735701245.
Definition part_b : NodeParts := part "12D3KooWBbbb" 1735701270.
Lemma demo_sizes t : env_sizes (demo_env_at t).
Proof. intros n r status b E. discriminate E. Qed.
Lemma demo_rand t : rand_works (demo_env_at t).
Proof. intros n k _. by eexists. Qed.
Lemma demo_completes_witness : exists tl m i s9 s12, demo_timeline = Some tl /\
  living Reconciler.agent Reconciler.ok (fun _ => True) 12 s12 m i /\ finalized_once s9 s12.
Proof.
  assert (is_Some demo_timeline) as Hd by (vm_compute; eauto).
  destruct (demo_completes 5 demo_stage demo_file "agent.wasm" part_a part_b ltac:(lia) eq_refl eq_refl
    (demo_sizes _) (demo_sizes _) (demo_rand _)) as (out & r & E & Hr).
  assert (demo_timeline = match r with Ok tl => Some tl | Err _ => None end) as Et by (unfold demo_timeline; rewrite E; by destruct r).
  destruct r as [tl'|e]; [|rewrite Et in Hd; clear -Hd; destruct Hd as [x Hx]; discriminate Hx].
  destruct (Hr tl' eq_refl) as (a & b & ? & m & i & ? & m0 & i0 & ? & mb & ib & s9 & s12 & _ & _ & _ & _ & _ & _ & _ & Hl & _ & Hs).
  exists tl', mb, ib, s9, s12. split; [exact Et|]. split; [exact Hl|exact Hs].
Defined.

(** The same agent migrated by [MigrateAgentWithRetry]; the first attempt
    fails before the package is sent. *)
Local Abbreviation W := (sdk_wasm Reconciler.agent).
Definition demo_node (p : NodeParts) : Service (W := W) (St := FSProvider) :=
  NewService None (np_id p) (np_env p) (NewFSProvider (np_dir p) ∅ ∅ []) "full" demo_price Authority.DefaultLeaseConfig.
Definition retry_world (m : guest Reconciler.agent) (i : Instance (St := FSProvider)) : World (W := W) (St := FSProvider) :=
  mkWorld (registered_on_a (demo_node part_a) m i) (<["b"%string := demo_node part_b]> ∅)
    [mkAttempt (NotSent "timeout") false; mkAttempt (transfer demo_stage) false].
Definition retry (m : guest Reconciler.agent) (i : Instance (St := FSProvider)) : result migrate_fail string * World (W := W) (St := FSProvider) :=
  MigrateAgentWithRetry demo_file agentID "agent.wasm" "b" [] DefaultRetryConfig (retry_world m i).
Lemma ready_b K : ready Reconciler.agent Reconciler.ok (fun _ => True) (fun _ => True) K agentID (demo_node part_b).
Proof. split; [apply demo_sizes|exact I|apply empty_disk]. Qed.
Lemma ready_retry K m i : ready_world Reconciler.agent Reconciler.ok (fun _ => True) (fun _ => True) K agentID (retry_world m i).
Proof.
  intros x p Hx. cbn [peers retry_world] in Hx. apply lookup_insert_Some in Hx as [[_ <-]|[_ Hx]]; [apply ready_b|by rewrite lookup_empty in Hx].
Qed.
Lemma migration_carries_life_witness : exists s w',
  arrived Reconciler.agent Reconciler.ok (fun _ => True) (fun _ => True) (just 9 s) agentID "b" w' /\
  Reconciler.FinalizeExecuted s = true.
Proof.
  assert (match run_on_a (W := W) demo_stage demo_file "agent.wasm" (demo_node part_a) with
          | (_, Ok (m, i)) => match retry m i with (Ok t, _) => bool_decide (t = "b"%string) | _ => false end
          | _ => false end = true) as E by (vm_compute; reflexivity).
  destruct (run_on_a _ _ _ (demo_node part_a)) as [out r] eqn:Er. destruct r as [[m i]|]; [|discriminate E].
  destruct (run_on_a_live demo_stage demo_file "agent.wasm" (demo_node part_a) out m i (demo_sizes _) (fun K => empty_disk K _) Er) as (s & Hl & Hd).
  clear Er.
  destruct (retry m i) as [r w'] eqn:Ew. destruct r as [t|]; [|discriminate E]. apply bool_decide_eq_true in E as ->.
  unfold retry in Ew.
  destruct (migration_carries_life Reconciler.agent Reconciler.ok (fun _ => True) (fun _ => True) reconciler_hosted (just 9 s) agentID
    demo_file "agent.wasm" "b" [] DefaultRetryConfig (retry_world m i) _ _ Hd (ready_retry _ m i) Ew) as [_ Ha].
  exists s, w'. split; [exact (Ha _ eq_refl)|]. exact (Reconciler.at_exec _ _ (proj2 (Reconciler.lived_on_schedule 9 s (lv_lived _ _ _ _ _ _ _ Hl)))).
Defined.
