(* ===== verification/Deployer.v ===== *)
(** * The self-deploying agent (agents/deployer)

    Check the budget, pay the compute provider, deploy with the receipt,
    monitor: the agent's state machine over the SDK, that it is
    [Checkpointable], and that it pays once and only once for the deployment
    it monitors. *)
From S2P Require Import Prelude Budget Codec Effects Wasm TickReplay Sdk SdkLogic AgentKit.
From S2P Require X402.
From stdpp Require Import relations strings.
Open Scope Z_scope.

Definition deployURL : string := "http://localhost:8500/v1/deploy".
Definition deployCost : Z := 500000.
Definition intentPayment : Byte.byte := byte_of_Z 1.
Definition intentDeployment : Byte.byte := byte_of_Z 2.
Definition phaseCheckBudget : Z := 0.
Definition phasePayProvider : Z := 1.
Definition phaseDeploy : Z := 2.
Definition phaseMonitor : Z := 3.
Definition phaseReconciling : Z := 4.

(** [DeploymentID] is the array, [DeployIDLen] how much of it is used. *)
Record Deployer := mk {
  TickCount : Z; BirthNano : Z; LastNano : Z; Phase : Z; DeploymentID : bytes; DeployIDLen : Z; DeployStatus : Z;
  PaidCount : Z; TotalPaid : Z; LastReceipt : bytes; Log : EffectLog }.
Definition count_tick d := mk (u64 (TickCount d + 1)) (BirthNano d) (LastNano d) (Phase d) (DeploymentID d) (DeployIDLen d) (DeployStatus d) (PaidCount d) (TotalPaid d) (LastReceipt d) (Log d).
Definition clock now d := mk (TickCount d) (if BirthNano d =? 0 then now else BirthNano d) now (Phase d) (DeploymentID d) (DeployIDLen d) (DeployStatus d) (PaidCount d) (TotalPaid d) (LastReceipt d) (Log d).
Definition set_Phase x d := mk (TickCount d) (BirthNano d) (LastNano d) x (DeploymentID d) (DeployIDLen d) (DeployStatus d) (PaidCount d) (TotalPaid d) (LastReceipt d) (Log d).
Definition set_DeployStatus x d := mk (TickCount d) (BirthNano d) (LastNano d) (Phase d) (DeploymentID d) (DeployIDLen d) x (PaidCount d) (TotalPaid d) (LastReceipt d) (Log d).
Definition count_paid amount d := mk (TickCount d) (BirthNano d) (LastNano d) (Phase d) (DeploymentID d) (DeployIDLen d) (DeployStatus d) (u32 (PaidCount d + 1)) (i64 (TotalPaid d + amount)) (LastReceipt d) (Log d).
Definition set_LastReceipt r d := mk (TickCount d) (BirthNano d) (LastNano d) (Phase d) (DeploymentID d) (DeployIDLen d) (DeployStatus d) (PaidCount d) (TotalPaid d) r (Log d).
Definition set_Log e d := mk (TickCount d) (BirthNano d) (LastNano d) (Phase d) (DeploymentID d) (DeployIDLen d) (DeployStatus d) (PaidCount d) (TotalPaid d) (LastReceipt d) e.
Definition setDeploymentID (id : bytes) d :=
  let n := Z.min (blen id) 64 in
  mk (TickCount d) (BirthNano d) (LastNano d) (Phase d) (take (Z.to_nat n) id ++ drop (Z.to_nat n) (DeploymentID d)) n (DeployStatus d)
    (PaidCount d) (TotalPaid d) (LastReceipt d) (Log d).

Definition say (l : list verb) : Sdk Deployer unit := Logf (T "[deployer] " :: l).
Definition effects (op : EffectLog -> result effect_error unit * EffectLog) : Sdk Deployer (result effect_error unit) :=
  d ← get; let '(r, e) := op (Log d) in _ ← modify (set_Log e); mret r.
Definition prune : Sdk Deployer unit := modify (fun d => set_Log (snd (Prune (Log d))) d).
(** The slice panics when the length exceeds the array. *)
Definition getDeploymentID : Sdk Deployer bytes :=
  d ← get; if blen (DeploymentID d) <? DeployIDLen d then panic else mret (take (Z.to_nat (DeployIDLen d)) (DeploymentID d)).
Definition statusName (s : Z) : string :=
  if s =? 0 then "none" else if s =? 1 then "pending" else if s =? 2 then "provisioning" else if s =? 3 then "running"
  else if s =? 4 then "terminated" else "unknown".

(** The agent has its own copies of three functions of the other agents. *)
Definition parsePaymentTerms (body : bytes) : Z * bytes * bytes := X402.parsePaymentTerms body.
Definition indexOf (s sub : bytes) : option nat := AgentKit.indexOf s sub.
Definition encodeBytesHex (data : bytes) : bytes := hex data.
(** [s[start:end]] of the first ["key":"value"]. *)
Definition indexOfFrom (s sub : bytes) (from : nat) : option nat := Nat.add from <$> indexOf (drop from s) sub.
Definition extractJSONString (data : bytes) (key : string) : bytes :=
  let needle := quoted key ++ bytes_of ":" ++ quote in
  match indexOf data needle with
  | None => []
  | Some idx =>
      let start := (idx + length needle)%nat in
      match indexOfFrom data quote start with
      | None => []
      | Some stop => take (stop - start) (drop start data)
      end
  end.

(** ** Paying *)
Definition payment_intent (amount : Z) (recipient memo : bytes) : bytes :=
  Finish (Enc_Bytes memo (Enc_Bytes recipient (Enc_Int64 amount (Enc_Raw [intentPayment] NewEncoder)))).
Definition recordPaymentIntent (amount : Z) (recipient memo : bytes) : Sdk Deployer bool :=
  key ← RandBytes (zeros 16);
  r ← effects (Record_ key (payment_intent amount recipient memo));
  match r with
  | Err e => _ ← say [T "ERROR: failed to record payment intent: "; V (effect_error_text e)]; mret false
  | Ok _ =>
      k4 ← first4 key;
      _ ← say [T "Payment intent RECORDED (key="; X k4; T "...). Waiting for checkpoint..."];
      mret false
  end.
Definition tickCheckBudget (ageSec : Z) : Sdk Deployer bool :=
  d ← get;
  if 0 <? DeployIDLen d then
    _ ← say [T "tick="; D (TickCount d); T " age="; D ageSec; T "s Have deployment, resuming monitoring."];
    _ ← modify (set_Phase phaseMonitor);
    mret true
  else
    balance ← WalletBalance;
    _ ← say [T "tick="; D (TickCount d); T " age="; D ageSec; T "s budget="; D balance; T " deploy_cost="; D deployCost];
    if deployCost <=? balance then
      _ ← say [T "Budget sufficient. Proceeding to pay compute provider."];
      _ ← modify (set_Phase phasePayProvider);
      mret true
    else
      _ ← say [T "Insufficient budget. Waiting..."];
      mret false.
Definition tickPayProvider : Sdk Deployer bool :=
  r ← HTTPPost deployURL "" [];
  let '(status, body, err) := r in
  match err with
  | Some e => _ ← say [T "HTTP error probing provider: "; V (http_error_text e)]; mret false
  | None =>
      if negb (status =? 402) then _ ← say [T "Expected 402, got "; D status]; mret false
      else
        let '(amount, recipient, memo) := parsePaymentTerms body in
        if amount <=? 0 then _ ← say [T "Invalid payment terms in 402 response"]; mret false
        else
          _ ← say [T "402 PAYMENT REQUIRED: "; D amount; T " microcents to "; V recipient; T " ("; V memo; T ")"];
          recordPaymentIntent amount recipient memo
  end.
Definition executePayment (intent : Intent) : Sdk Deployer bool :=
  let '(amount, recipient, memo, err) := X402.read_intent (tail (Data intent)) in
  if (err : bool) then
    _ ← say [T "ERROR: corrupt payment intent: "; V (bytes_of "igor: short read during decode")];
    _ ← effects (Compensate (ID intent));
    mret false
  else
    r ← effects (Begin (ID intent));
    match r with
    | Err e => _ ← say [T "ERROR: failed to begin payment: "; V (effect_error_text e)]; mret false
    | Ok _ =>
        k4 ← first4 (ID intent);
        _ ← say [T "Payment IN-FLIGHT: "; D amount; T " microcents to "; V recipient; T " (key="; X k4; T "...)"];
        p ← WalletPay amount recipient memo;
        match p with
        | Err e =>
            _ ← say [T "Payment FAILED: "; V (pay_error_text e)];
            _ ← effects (Compensate (ID intent));
            _ ← prune;
            mret false
        | Ok receipt =>
            _ ← modify (fun d => set_LastReceipt receipt (count_paid amount d));
            r ← effects (Confirm (ID intent));
            match r with
            | Err e => _ ← say [T "ERROR: failed to confirm payment: "; V (effect_error_text e)]; mret false
            | Ok _ =>
                _ ← say [T "Payment CONFIRMED: "; D amount; T " microcents (receipt="; D (blen receipt); T " bytes). Proceeding to deploy."];
                _ ← prune;
                _ ← modify (set_Phase phaseDeploy);
                mret true
            end
        end
    end.

(** ** Deploying *)
Definition deploy_intent (receipt : bytes) : bytes :=
  Finish (Enc_Bytes receipt (Enc_Raw [intentDeployment] NewEncoder)).
Definition recordDeployIntent : Sdk Deployer bool :=
  key ← RandBytes (zeros 16);
  d ← get;
  r ← effects (Record_ key (deploy_intent (LastReceipt d)));
  match r with
  | Err e => _ ← say [T "ERROR: failed to record deploy intent: "; V (effect_error_text e)]; mret false
  | Ok _ =>
      k4 ← first4 key;
      _ ← say [T "Deploy intent RECORDED (key="; X k4; T "...). Waiting for checkpoint..."];
      mret false
  end.
Definition tickDeploy : Sdk Deployer bool :=
  d ← get;
  if blen (LastReceipt d) =? 0 then
    _ ← say [T "No receipt available. Restarting payment."];
    _ ← modify (set_Phase phasePayProvider);
    mret true
  else recordDeployIntent.
(** [dd.Bytes()] and [dd.Err()]. *)
Definition read_receipt (data : bytes) : bytes * bool := let '(r, d) := Bytes (NewDecoder data) in (r, Err_ d).
Definition deploy_body : bytes :=
  bytes_of "{" ++ quoted "wasm_hash" ++ bytes_of ":" ++ quoted "0000000000000000000000000000000000000000000000000000000000000000" ++
  bytes_of "," ++ quoted "budget_offer" ++ bytes_of ":500000}".
(** The two headers, in one of the orders of Go's map iteration. *)
Definition deploy_headers (receipt : bytes) : list (string * string) :=
  [("X-Payment"%string, string_of (encodeBytesHex receipt)); ("Content-Type"%string, "application/json"%string)].
Definition abandon (intent : Intent) : Sdk Deployer bool :=
  _ ← effects (Compensate (ID intent));
  _ ← prune;
  mret false.
Definition executeDeploy (intent : Intent) : Sdk Deployer bool :=
  let '(receipt, err) := read_receipt (tail (Data intent)) in
  if (err : bool) then
    _ ← say [T "ERROR: corrupt deploy intent: "; V (bytes_of "igor: short read during decode")];
    _ ← effects (Compensate (ID intent));
    mret false
  else
    r ← effects (Begin (ID intent));
    match r with
    | Err e => _ ← say [T "ERROR: failed to begin deploy: "; V (effect_error_text e)]; mret false
    | Ok _ =>
        k4 ← first4 (ID intent);
        _ ← say [T "Deployment IN-FLIGHT (key="; X k4; T "...)"];
        p ← HTTPRequest "POST" deployURL (deploy_headers receipt) deploy_body;
        let '(status, resp, err) := p in
        match err with
        | Some e => _ ← say [T "Deploy HTTP error: "; V (http_error_text e)]; abandon intent
        | None =>
            if negb (status =? 201) then
              _ ← say [T "Deploy failed: status="; D status; T " body="; V resp]; abandon intent
            else
              let depID := extractJSONString resp "deployment_id" in
              if blen depID =? 0 then
                _ ← say [T "Deploy response missing deployment_id"]; abandon intent
              else
                _ ← modify (fun d => set_LastReceipt [] (set_DeployStatus 1 (setDeploymentID depID d)));
                r ← effects (Confirm (ID intent));
                match r with
                | Err e => _ ← say [T "ERROR: failed to confirm deploy: "; V (effect_error_text e)]; mret false
                | Ok _ =>
                    _ ← say [T "DEPLOYED: id="; V depID; T " status=pending. Now monitoring."];
                    _ ← prune;
                    _ ← modify (set_Phase phaseMonitor);
                    mret true
                end
        end
    end.

(** ** Monitoring *)
Definition status_url (depID : bytes) : string := String.append deployURL (String.append "/" (string_of depID)).
Definition apply_status (depStatus : bytes) : Sdk Deployer unit :=
  if bool_decide (depStatus = bytes_of "pending") then modify (set_DeployStatus 1)
  else if bool_decide (depStatus = bytes_of "provisioning") then modify (set_DeployStatus 2)
  else if bool_decide (depStatus = bytes_of "running") then
    d ← get;
    _ ← (if negb (DeployStatus d =? 3)
         then depID ← getDeploymentID; say [T "DEPLOYMENT RUNNING! id="; V depID; T " — self-provisioning complete."]
         else mret tt);
    modify (set_DeployStatus 3)
  else if bool_decide (depStatus = bytes_of "terminated") then modify (set_DeployStatus 4)
  else mret tt.
Definition tickMonitor (ageSec : Z) : Sdk Deployer bool :=
  d ← get;
  if DeployIDLen d =? 0 then
    _ ← say [T "No deployment to monitor. Restarting."];
    _ ← modify (set_Phase phaseCheckBudget);
    mret true
  else
    depID ← getDeploymentID;
    if negb (TickCount d mod 3 =? 0) then
      _ ← (if TickCount d mod 5 =? 0 then
             say [T "tick="; D (TickCount d); T " age="; D ageSec; T "s monitoring deployment="; V depID; T " status="; T (statusName (DeployStatus d));
                  T " payments="; D (PaidCount d); T " total_paid="; D (TotalPaid d)]
           else mret tt);
      mret false
    else
      r ← HTTPGet (status_url depID);
      let '(status, resp, err) := r in
      match err with
      | Some e => _ ← say [T "Status check error: "; V (http_error_text e)]; mret false
      | None =>
          if negb (status =? 200) then _ ← say [T "Status check failed: "; D status]; mret false
          else
            let depStatus := extractJSONString resp "status" in
            _ ← apply_status depStatus;
            _ ← say [T "tick="; D (TickCount d); T " deployment="; V depID; T " status="; V depStatus];
            mret false
      end.

(** ** Reconciling *)
Definition even_key (id : bytes) : Sdk Deployer bool :=
  match id with b :: _ => mret (Z_of_byte b mod 2 =? 0) | [] => panic end.
Definition reconcilePayment (intent : Intent) : Sdk Deployer unit :=
  k4 ← first4 (ID intent);
  _ ← say [T "RECONCILING: unresolved payment (key="; X k4; T "...)"];
  let '(amount, recipient, _, _) := X402.read_intent (tail (Data intent)) in
  paymentCompleted ← even_key (ID intent);
  if (paymentCompleted : bool) then
    _ ← modify (count_paid amount);
    r ← effects (Confirm (ID intent));
    match r with
    | Err e => say [T "ERROR: reconcile confirm failed: "; V (effect_error_text e)]
    | Ok _ => say [T "Reconciled: payment of "; D amount; T " to "; V recipient; T " COMPLETED before crash"]
    end
  else
    r ← effects (Compensate (ID intent));
    match r with
    | Err e => say [T "ERROR: reconcile compensate failed: "; V (effect_error_text e)]
    | Ok _ => say [T "Reconciled: payment of "; D amount; T " to "; V recipient; T " DID NOT complete — will retry"]
    end.
Definition undo_deploy (intent : Intent) : Sdk Deployer unit :=
  r ← effects (Compensate (ID intent));
  match r with
  | Err e => say [T "ERROR: reconcile compensate failed: "; V (effect_error_text e)]
  | Ok _ => say [T "Reconciled: deployment DID NOT complete — will retry"]
  end.
Definition reconcileDeploy (intent : Intent) : Sdk Deployer unit :=
  k4 ← first4 (ID intent);
  _ ← say [T "RECONCILING: unresolved deployment (key="; X k4; T "...)"];
  d ← get;
  if 0 <? DeployIDLen d then
    depID ← getDeploymentID;
    r ← HTTPGet (status_url depID);
    let '(status, _, err) := r in
    if bool_decide (err = None) && (status =? 200) then
      r ← effects (Confirm (ID intent));
      match r with
      | Err e => say [T "ERROR: reconcile confirm failed: "; V (effect_error_text e)]
      | Ok _ => say [T "Reconciled: deployment "; V depID; T " EXISTS — confirming"]
      end
    else undo_deploy intent
  else undo_deploy intent.
Definition reconcile (intent : Intent) : Sdk Deployer unit :=
  match Data intent with
  | [] => _ ← effects (Compensate (ID intent)); mret tt
  | c :: _ =>
      if bool_decide (c = intentPayment) then reconcilePayment intent
      else if bool_decide (c = intentDeployment) then reconcileDeploy intent
      else
        _ ← say [T "RECONCILING: unknown intent type "; D (Z_of_byte c); T ", compensating"];
        _ ← effects (Compensate (ID intent));
        mret tt
  end.

(** ** The tick *)
Definition by_phase (ageSec : Z) : Sdk Deployer bool :=
  d ← get;
  if Phase d =? phaseCheckBudget then tickCheckBudget ageSec
  else if Phase d =? phasePayProvider then tickPayProvider
  else if Phase d =? phaseDeploy then tickDeploy
  else if Phase d =? phaseMonitor then tickMonitor ageSec
  else mret false.
(** The loop over the pending intents, then normal operation. *)
Fixpoint run_pending (pending : list Intent) (ageSec : Z) : Sdk Deployer bool :=
  match pending with
  | [] => by_phase ageSec
  | intent :: pending =>
      if IState intent =? Recorded then
        match Data intent with
        | c :: _ =>
            if bool_decide (c = intentPayment) then executePayment intent
            else if bool_decide (c = intentDeployment) then executeDeploy intent
            else run_pending pending ageSec
        | [] => run_pending pending ageSec
        end
      else run_pending pending ageSec
  end.
Definition act_on (ageSec : Z) : Sdk Deployer bool :=
  d ← get;
  match Unresolved_ (Log d) with
  | i :: l =>
      _ ← modify (set_Phase phaseReconciling);
      _ ← for_each (i :: l) reconcile;
      _ ← prune;
      d ← get;
      _ ← modify (set_Phase (if 0 <? DeployIDLen d then phaseMonitor else phaseCheckBudget));
      mret true
  | [] => run_pending (Pending (Log d)) ageSec
  end.
Definition Tick : Sdk Deployer bool :=
  _ ← modify count_tick;
  now ← ClockNow;
  d ← get;
  _ ← (if BirthNano d =? 0 then say [T "Agent initialized. Self-provisioning compute."] else mret tt);
  _ ← modify (clock now);
  d ← get;
  act_on (Z.quot (i64 (LastNano d - BirthNano d)) 1000000000).

Definition Marshal (d : Deployer) : bytes :=
  Finish (Enc_Bytes (Effects.Marshal (Log d)) (Enc_Bytes (LastReceipt d) (Enc_Int64 (TotalPaid d) (Enc_Uint32 (PaidCount d)
    (Enc_Raw [byte_of_Z (DeployStatus d)] (Enc_Uint32 (DeployIDLen d) (Enc_Raw (DeploymentID d) (Enc_Raw [byte_of_Z (Phase d)]
    (Enc_Int64 (LastNano d) (Enc_Int64 (BirthNano d) (Enc_Uint64 (TickCount d) NewEncoder))))))))))).
Definition first_or (z : Z) (b : option bytes) : Z := match b with Some (c :: _) => Z_of_byte c | _ => z end.
Definition Unmarshal (data : bytes) (d : Deployer) : Deployer * bool :=
  unmarshal_with (
    tick ← Uint64; birth ← Int64; last ← Int64; phase ← FixedBytes 1; id ← ReadInto (DeploymentID d); len ← Uint32; status ← FixedBytes 1;
    paid ← Uint32; total ← Int64; receipt ← Bytes; log ← Bytes;
    mret (mk tick birth last (first_or (Phase d) phase) id len (first_or (DeployStatus d) status) paid total receipt (Effects.Unmarshal log))) data.
Definition agent : Agent := {|
  AState := Deployer; new := mk 0 0 0 0 (zeros 64) 0 0 0 0 [] []; Init := mret tt; Sdk.Tick := Tick; Sdk.Marshal := Marshal; AUnmarshal := Unmarshal;
  Imports := ["clock_now"; "rand_bytes"; "log_emit"; "wallet_balance"; "http_request"; "wallet_pay"] |}.

(** ** What a tick does *)
Definition limit : Z := 4 * 1024 * 1024 + 64.
(** Between ticks: at most one intent, recorded, of a known kind. *)
Inductive planned : EffectLog -> Prop :=
| p_none : planned []
| p_some key c data : blen key = 16 -> c = intentPayment \/ c = intentDeployment -> blen (c :: data) <= limit ->
    planned [mkIntent key Recorded (c :: data)].
Lemma planned_waiting e : planned e -> waiting limit e.
Proof. intros []; by constructor. Qed.

(** The moves under answers of [E], each with the payments it made. *)
Inductive moves (E : telling) (d : Deployer) : list Z -> Deployer -> Prop :=
(** carrying out an intent *)
| m_paid key data amount recipient memo receipt : Log d = [mkIntent key Recorded (intentPayment :: data)] ->
    blen receipt <= 64 * 1024 -> E _ (OpWalletPay amount recipient memo) (Ok receipt) ->
    moves E d [amount] (set_Phase phaseDeploy (set_Log [] (set_LastReceipt receipt (count_paid amount d))))
| m_deployed key data id : Log d = [mkIntent key Recorded (intentDeployment :: data)] -> 0 < blen id ->
    moves E d [] (set_Phase phaseMonitor (set_Log [] (set_LastReceipt [] (set_DeployStatus 1 (setDeploymentID id d)))))
| m_failed i : Log d = [i] -> moves E d [] (set_Log [] d)
| m_corrupt i : Log d = [i] -> moves E d [] d
(** normal operation *)
| m_idle : Log d = [] -> moves E d [] d
| m_resume : Log d = [] -> 0 < DeployIDLen d -> moves E d [] (set_Phase phaseMonitor d)
| m_afford : Log d = [] -> Phase d = phaseCheckBudget -> DeployIDLen d <= 0 -> moves E d [] (set_Phase phasePayProvider d)
| m_agree key data : Log d = [] -> Phase d = phasePayProvider -> blen key = 16 -> blen (intentPayment :: data) <= limit ->
    moves E d [] (set_Log [mkIntent key Recorded (intentPayment :: data)] d)
| m_no_receipt : Log d = [] -> Phase d = phaseDeploy -> LastReceipt d = [] -> moves E d [] (set_Phase phasePayProvider d)
| m_claim key data : Log d = [] -> Phase d = phaseDeploy -> blen key = 16 -> blen (intentDeployment :: data) <= limit ->
    moves E d [] (set_Log [mkIntent key Recorded (intentDeployment :: data)] d)
| m_lost : Log d = [] -> Phase d = phaseMonitor -> DeployIDLen d = 0 -> moves E d [] (set_Phase phaseCheckBudget d)
| m_status x : Log d = [] -> Phase d = phaseMonitor -> 1 <= x <= 4 -> moves E d [] (set_DeployStatus x d).

Lemma deployer_same_log d : set_Log (Log d) d = d.
Proof. by destruct d. Qed.
Section Moves.
Context {E : telling}.
Lemma deployer_effects {B} (Q : list Z -> B -> Deployer -> Prop) l op (f : result effect_error unit -> Sdk Deployer B) d r e :
  op (Log d) = (r, e) -> act_books E Q l (f r (set_Log e d)) -> act_books E Q l ((effects op ≫= f) d).
Proof. intros Eo H. unfold effects. apply books_assoc, books_get. cbv beta. by rewrite Eo. Qed.
#[local] Ltac effects_step := first
  [ eapply deployer_effects; [first [apply confirm_one | apply compensate_one]|cbv beta iota] | books_step ].

Lemma executePayment_post key data d : Log d = [mkIntent key Recorded (intentPayment :: data)] ->
  act_books E (fun l _ d' => moves E d l d') [] (executePayment (mkIntent key Recorded (intentPayment :: data)) d).
Proof.
  intros Hl. unfold executePayment, prune, say. tick_fold. cbn [ID Data tail].
  destruct (X402.read_intent data) as [[[amount recipient] memo] err] eqn:Er. destruct err; cbv beta iota.
  - repeat books_step. eapply deployer_effects; [rewrite Hl; apply compensate_recorded|]. cbv beta. books_step. rewrite <- Hl, deployer_same_log. by eapply m_corrupt.
  - eapply deployer_effects; [rewrite Hl; apply begin_one|]. cbv beta iota. repeat effects_step.
    + match goal with H : forall b, Ok ?r = Ok b -> _ |- _ => pose proof (H r eq_refl) end. by eapply (m_paid E d).
    + by eapply (m_failed E d).
Qed.
Lemma executeDeploy_post key data d : Log d = [mkIntent key Recorded (intentDeployment :: data)] ->
  act_books E (fun l _ d' => moves E d l d') [] (executeDeploy (mkIntent key Recorded (intentDeployment :: data)) d).
Proof.
  intros Hl. unfold executeDeploy, abandon, prune, say. tick_fold. cbn [ID Data tail].
  destruct (read_receipt data) as [receipt err] eqn:Er. destruct err; cbv beta iota.
  - repeat books_step. eapply deployer_effects; [rewrite Hl; apply compensate_recorded|]. cbv beta. books_step. rewrite <- Hl, deployer_same_log. by eapply m_corrupt.
  - eapply deployer_effects; [rewrite Hl; apply begin_one|]. cbv beta iota. repeat effects_step; try by eapply (m_failed E d).
    eapply (m_deployed E d); [done|]. zb. match goal with |- 0 < blen ?x => pose proof (blen_nonneg x) end. lia.
Qed.
Lemma intent_sizes amount recipient memo receipt : 
  blen (payment_intent amount recipient memo) = 17 + blen recipient + blen memo /\ blen (deploy_intent receipt) = 5 + blen receipt.
Proof. unfold payment_intent, deploy_intent. encoder_unfold. autorewrite with igor_len. lia. Qed.
Lemma check_post age d : Log d = [] -> Phase d = phaseCheckBudget -> act_books E (fun l _ d' => moves E d l d') [] (tickCheckBudget age d).
Proof.
  intros Hl Hp. unfold tickCheckBudget, say. tick_fold. repeat books_step; zb; [by apply m_resume|by apply m_afford|by apply m_idle].
Qed.
Lemma pay_post d : Log d = [] -> Phase d = phasePayProvider -> act_books E (fun l _ d' => moves E d l d') [] (tickPayProvider d).
Proof.
  intros Hl Hp. unfold tickPayProvider, recordPaymentIntent, say. tick_fold.
  repeat first [eapply deployer_effects; [rewrite Hl; reflexivity|cbv beta iota]|books_step]; try by apply m_idle.
  match goal with E : parsePaymentTerms _ = (?amount, ?r, ?m) |- _ => apply X402.parse_sizes in E; destruct (intent_sizes amount r m []) as [Hs _] end.
  apply (m_agree E d); [done|done|done|]. cbn [fst snd] in *. unfold limit. etransitivity; [apply Z.eq_le_incl, Hs|]. lia.
Qed.
Lemma deploy_post d : Log d = [] -> Phase d = phaseDeploy -> blen (LastReceipt d) <= 64 * 1024 ->
  act_books E (fun l _ d' => moves E d l d') [] (tickDeploy d).
Proof.
  intros Hl Hp Hr. unfold tickDeploy, recordDeployIntent, say. tick_fold.
  repeat first [eapply deployer_effects; [rewrite Hl; reflexivity|cbv beta iota]|books_step].
  - apply m_no_receipt; [done|done|]. zb. by apply blen_zero.
  - apply (m_claim E d); [done|done|done|]. unfold limit. etransitivity; [apply Z.eq_le_incl, (proj2 (intent_sizes 0 [] [] _))|]. lia.
Qed.
Lemma monitor_post age d : Log d = [] -> Phase d = phaseMonitor -> act_books E (fun l _ d' => moves E d l d') [] (tickMonitor age d).
Proof.
  intros Hl Hp. unfold tickMonitor, apply_status, getDeploymentID, say. tick_fold.
  repeat books_step; zb; first [by apply m_idle | by apply m_lost | apply m_status; [done|done|lia]].
Qed.
Lemma by_phase_post age d : Log d = [] -> blen (LastReceipt d) <= 64 * 1024 -> act_books E (fun l _ d' => moves E d l d') [] (by_phase age d).
Proof.
  intros Hl Hr. unfold by_phase. apply books_get. cbv beta.
  destruct (Z.eqb_spec (Phase d) phaseCheckBudget); [by apply check_post|].
  destruct (Z.eqb_spec (Phase d) phasePayProvider); [by apply pay_post|].
  destruct (Z.eqb_spec (Phase d) phaseDeploy); [by apply deploy_post|].
  destruct (Z.eqb_spec (Phase d) phaseMonitor); [by apply monitor_post|]. by apply m_idle.
Qed.
Lemma deployer_act_post age d : planned (Log d) -> blen (LastReceipt d) <= 64 * 1024 -> act_books E (fun l _ d' => moves E d l d') [] (act_on age d).
Proof.
  intros Hw Hr. unfold act_on. apply books_get. cbv beta. rewrite (waiting_unresolved _ _ (planned_waiting _ Hw)).
  remember (Log d) as e eqn:Ee. symmetry in Ee. destruct Hw as [|key c data Hk Hc Hs]; [by apply by_phase_post|].
  change (Pending [mkIntent key Recorded (c :: data)]) with [mkIntent key Recorded (c :: data)]. cbn [run_pending IState Data].
  destruct Hc as [-> | ->]; [by apply executePayment_post|by apply executeDeploy_post].
Qed.
Definition turn (now : Z) (d : Deployer) : Deployer := clock now (count_tick d).
Lemma deployer_tick_post d : planned (Log d) -> blen (LastReceipt d) <= 64 * 1024 ->
  act_books E (fun l _ d' => exists now, is_i64 now /\ moves E (turn now d) l d') [] (Tick d).
Proof.
  intros Hw Hr. unfold Tick, say. tick_fold. repeat books_step.
  all: match goal with H : is_i64 ?now |- _ => eapply books_weaken; [|apply (deployer_act_post _ (turn now d)); [exact Hw|exact Hr]]; intros; by exists now end.
Qed.
End Moves.

Record ok (d : Deployer) : Prop := {
  ok_ticks : is_u64 (TickCount d); ok_birth : is_i64 (BirthNano d); ok_last : is_i64 (LastNano d); ok_phase : 0 <= Phase d < 256;
  ok_id : blen (DeploymentID d) = 64; ok_len : 0 <= DeployIDLen d <= 64; ok_status : 0 <= DeployStatus d < 256;
  ok_paid : is_u32 (PaidCount d); ok_total : is_i64 (TotalPaid d); ok_receipt : blen (LastReceipt d) <= 64 * 1024; ok_log : planned (Log d) }.
Lemma deployer_turn_ok now d : is_i64 now -> ok d -> ok (turn now d).
Proof. intros Hn []. split; try done; [apply u64_range|]. cbn. by destruct (_ =? 0). Qed.
Lemma setDeploymentID_size id d : blen (DeploymentID d) = 64 ->
  blen (DeploymentID (setDeploymentID id d)) = 64 /\ DeployIDLen (setDeploymentID id d) = Z.min (blen id) 64.
Proof.
  intros Hd. pose proof (blen_nonneg id). split; [|done]. unfold setDeploymentID. cbn [DeploymentID]. unfold blen in *.
  rewrite length_app, length_take, length_drop. lia.
Qed.
Lemma moves_ok E d l d' : ok d -> moves E d l d' -> ok d'.
Proof.
  intros Hd Hm. pose proof Hd as []. destruct Hm; try done.
  2: { destruct (setDeploymentID_size id d ok_id0). split; try done; cbn in *; first [lia | constructor]. }
  all: split; try done; try apply u32_range; try apply i64_range; cbn; unfold phaseDeploy, phaseMonitor, phasePayProvider, phaseCheckBudget; try lia;
    constructor; auto.
Qed.
#[export] Instance checkpointable : Checkpointable agent ok.
Proof.
  split; cbn [AState agent Sdk.Marshal Sdk.Tick AUnmarshal new].
  - intros d []. pose proof (waiting_size limit (Log d) ltac:(done) (planned_waiting _ ok_log0)). unfold Marshal. encoder_unfold. autorewrite with igor_len.
    pose proof (blen_nonneg (Effects.Marshal (Log d))). pose proof (blen_nonneg (LastReceipt d)). unfold limit in *. lia.
  - intros [t b l p id n st pc tp lr e] []. unfold Unmarshal, Marshal.
    cbn [TickCount BirthNano LastNano Phase DeploymentID DeployIDLen DeployStatus PaidCount TotalPaid LastReceipt Log] in *.
    pose proof (waiting_size limit e ltac:(done) (planned_waiting _ ok_log0)). pose proof (blen_nonneg (Effects.Marshal e)). pose proof (blen_nonneg lr).
    assert (is_u32 (blen (Effects.Marshal e)) /\ is_u32 (blen lr)) as [He Hr] by (unfold is_u32, limit in *; lia).
    assert (is_u32 n) as Hn by (unfold is_u32; lia).
    assert (blen (zeros 64) = blen id) as Hid by (by rewrite blen_zeros).
    read_back. cbn [first_or]. rewrite (u64_id t), (u32_id n), (u32_id pc), (waiting_resumes limit e), !Z_of_byte_of_Z, !Z.mod_small by (done || lia || by apply planned_waiting).
    apply reads_ret.
  - intros d Hok. apply (books_post _ []). eapply books_weaken; [|apply deployer_tick_post; apply Hok].
    intros ? ? d' (now & Hn & Hm). eapply moves_ok; [|exact Hm]. by apply deployer_turn_ok.
Qed.

(** ** One payment, one deployment *)
(** A wallet whose successful payments come with a receipt. *)
Definition pays_receipt : telling := fun X o =>
  match o in sdk_op X return X -> Prop with
  | OpWalletPay _ _ _ => fun r => match r with Ok receipt => receipt <> [] | Err _ => True end
  | _ => fun _ => True
  end.
Definition plan (kind : Byte.byte) (d : Deployer) : Prop := Log d = [] \/ exists key data, Log d = [mkIntent key Recorded (kind :: data)].
(** Where a life is, with the payments made in it. *)
Inductive stage (d : Deployer) : list Z -> Prop :=
| st_unpaid : PaidCount d = 0 -> TotalPaid d = 0 -> DeployIDLen d = 0 -> Phase d = phaseCheckBudget \/ Phase d = phasePayProvider ->
    plan intentPayment d -> stage d []
| st_paid amount : PaidCount d = 1 -> TotalPaid d = i64 amount -> DeployIDLen d = 0 -> Phase d = phaseDeploy -> LastReceipt d <> [] ->
    plan intentDeployment d -> stage d [amount]
| st_deployed amount : PaidCount d = 1 -> TotalPaid d = i64 amount -> 0 < DeployIDLen d -> Phase d = phaseMonitor -> Log d = [] -> stage d [amount].
Lemma turn_stage now d l : stage d l -> stage (turn now d) l.
Proof. intros []; [by apply st_unpaid|by apply st_paid|by apply st_deployed]. Qed.
Lemma plan_kind kind kind' key data d : plan kind d -> Log d = [mkIntent key Recorded (kind' :: data)] -> kind = kind'.
Proof. intros [->|(key' & data' & ->)]; [done|]. by intros [= _ -> _]. Qed.
Ltac wrong_phase := exfalso; unfold phaseCheckBudget, phasePayProvider, phaseDeploy, phaseMonitor in *; lia.
Lemma moves_stage d l1 d' l : moves pays_receipt d l1 d' -> stage d l -> stage d' (l ++ l1).
Proof.
  intros Hm Hs. destruct Hs as [Hpc Htp Hid Hph Hpl|amount0 Hpc Htp Hid Hph Hrc Hpl|amount0 Hpc Htp Hid Hph Hlog]; cbn [app].
  - destruct Hm as [key data amount recipient memo receipt Hlog Hsz HE| | | | | | | | | | |];
      try (by apply st_unpaid; [..|left]); try (by apply st_unpaid); try lia; try wrong_phase.
    { apply st_paid; cbn; rewrite ?Hpc, ?Htp; try done. by left. }
    { by pose proof (plan_kind _ _ _ _ _ Hpl H). }
    all: apply st_unpaid; cbn; first [done | by right | by left | right; by eexists _, _].
  - destruct Hm; try (by apply st_paid; [..|left]); try (by apply st_paid); try lia; try congruence; try wrong_phase.
    + by pose proof (plan_kind _ _ _ _ _ Hpl H).
    + apply st_deployed; cbn; try done. lia.
    + apply st_paid; try done. right. by eexists _, _.
  - destruct Hm; try congruence; try wrong_phase; try (by apply st_deployed); try lia.
Qed.

(** C12: The deployer pays once.  Take any life of the agent: any number of
    ticks that return and of restarts from the state left, any refusals,
    network errors and answers of the provider, with the one condition that a
    payment the wallet reports as made comes with a receipt that is not
    empty.  Then at most one of its [wallet_pay] calls succeeded in the whole
    life, however often the deployment itself was refused; the agent counted
    exactly those payments and their sum.  It claims a deployment only after
    one payment, whose receipt it still holds, and once it monitors a
    deployment it has paid once, holds the deployment's name and has no open
    intent. *)
Theorem deployer_pays_once n d paid : told_life agent pays_receipt n d paid ->
  (length paid <= 1)%nat /\ PaidCount d = Z.of_nat (length paid) /\ TotalPaid d = i64 (foldr Z.add 0 paid) /\
  (Phase d = phaseDeploy -> length paid = 1%nat /\ LastReceipt d <> []) /\
  (Phase d = phaseMonitor -> length paid = 1%nat /\ 0 < DeployIDLen d /\ Log d = []) /\
  (DeployIDLen d <> 0 -> Phase d = phaseMonitor).
Proof.
  intros Hl. assert (ok d /\ stage d paid) as [_ Hs].
  { revert n d paid Hl. apply (told_life_invariant agent ok pays_receipt (fun _ => stage)).
    - split; try done; try (vm_compute; split; congruence); try (vm_compute; congruence). constructor.
    - apply st_unpaid; try done; by left.
    - intros n d l Hok Hs. rewrite <- (app_nil_r l). eapply books_weaken; [|apply books_shift, deployer_tick_post; apply Hok].
      intros ? ? d' (l1 & -> & now & Hn & Hm). eapply moves_stage; [exact Hm|by apply turn_stage]. }
  destruct Hs as [-> -> -> Hph _|amount -> -> -> -> Hrc _|amount -> -> Hid -> ->]; cbn [length foldr]; rewrite ?Z.add_0_r;
    unfold phaseCheckBudget, phasePayProvider, phaseDeploy, phaseMonitor in *; split_and!; auto; lia || done.
Qed.
