(* ===== verification/MockCloud.v ===== *)
(** * The deployer's compute provider (cmd/mockcloud)

    The server's handlers over its table of deployments, and the deployer
    working against it.  [encoding/json] is a parameter; of [main] the
    address and the dispatch of requests are modelled, not sockets and signals. *)
From S2P Require Import Prelude Budget Codec Effects Wasm TickReplay Sdk SdkLogic AgentKit.
From S2P Require X402 Deployer.
From stdpp Require Import gmap strings.
Open Scope Z_scope.

(** Documented behaviour of [encoding/json] that the handlers use: a string
    without characters to escape is written between quotes. *)
Definition plain (s : bytes) : Prop := Forall (fun b => 35 <= Z_of_byte b < 127 /\ Z_of_byte b <> 38 /\ Z_of_byte b <> 60 /\ Z_of_byte b <> 62 /\ Z_of_byte b <> 92) s.
Class CloudJSON := {
  json_string : bytes -> bytes;
  decode_request : bytes -> option (bytes * Z) }.
Class CloudJSONLaws (J : CloudJSON) : Prop := {
  json_plain s : plain s -> json_string s = quote ++ s ++ quote }.

Definition encodePaymentTerms (amount : Z) (recipient memo : bytes) : bytes := X402.encodePaymentTerms amount recipient memo.
Definition deploymentCost : Z := 500000.
Definition paymentRecipient : bytes := bytes_of "mockcloud-provider".
Definition paymentMemo : bytes := bytes_of "compute-deployment".
Record deployment := mkDep { dep_ID : bytes; WASMHash : bytes; Status : bytes; queryCount : Z }.
(** [main]: what the server listens on and where its requests go. *)
Definition address (envAddr : string) : string := X402.listen_addr envAddr ":8500".
Inductive route := Health | Deploy | DeployByID.
Definition mux : list (string * route) := [("/health", Health); ("/v1/deploy", Deploy); ("/v1/deploy/", DeployByID)]%string.
Record server := mkServer { deployments : gmap string deployment; counter : Z }.
Definition newServer : server := mkServer ∅ 0.

(** [http.Error]. *)
Definition http_error (msg : string) (code : Z) : Z * bytes := (code, bytes_of msg ++ [byte_of_Z 10]).

Section Handlers.
Context `{CloudJSON}.
(** [json.NewEncoder(w).Encode(dep)]. *)
Definition encode_deployment (d : deployment) : bytes :=
  bytes_of "{" ++ quoted "deployment_id" ++ bytes_of ":" ++ json_string (dep_ID d) ++ bytes_of "," ++
  quoted "wasm_hash" ++ bytes_of ":" ++ json_string (WASMHash d) ++ bytes_of "," ++
  quoted "status" ++ bytes_of ":" ++ json_string (Status d) ++ bytes_of "}" ++ [byte_of_Z 10].
Definition deployment_name (n : Z) : bytes := bytes_of "dep-" ++ bytes_of (pad0 4 n).
Definition handleDeploy (method : string) (payment body : bytes) (s : server) : (Z * bytes) * server :=
  if negb (bool_decide (method = "POST"%string)) then (http_error "method not allowed" 405, s)
  else if blen payment =? 0 then ((402, encodePaymentTerms deploymentCost paymentRecipient paymentMemo), s)
  else
    match decode_request body with
    | None => (http_error "invalid request body" 400, s)
    | Some (hash, _) =>
        let counter := i64 (counter s + 1) in
        let id := deployment_name counter in
        let dep := mkDep id hash (bytes_of "pending") 0 in
        ((201, encode_deployment dep), mkServer (<[string_of id := dep]> (deployments s)) counter)
    end.

(** [strings.TrimPrefix] and [strings.SplitN(path, "/", 2)]. *)
Definition TrimPrefix (s prefix : bytes) : bytes := if bool_decide (take (length prefix) s = prefix) then drop (length prefix) s else s.
Fixpoint split_slash (s : bytes) : bytes * option bytes :=
  match s with
  | [] => ([], None)
  | c :: s => if Z_of_byte c =? 47 then ([], Some s) else let '(a, b) := split_slash s in (c :: a, b)
  end.
Definition progress (n : Z) : bytes := bytes_of (if n <=? 1 then "pending" else if n <=? 2 then "provisioning" else "running").
Definition handleDeployByID (method : string) (path : bytes) (s : server) : (Z * bytes) * server :=
  let '(id, action) := split_slash (TrimPrefix path (bytes_of "/v1/deploy/")) in
  if blen id =? 0 then (http_error "missing deployment id" 400, s)
  else
    match deployments s !! string_of id with
    | None => (http_error "deployment not found" 404, s)
    | Some dep =>
        if bool_decide (action = Some (bytes_of "terminate")) && bool_decide (method = "POST"%string) then
          let dep := mkDep (dep_ID dep) (WASMHash dep) (bytes_of "terminated") (queryCount dep) in
          ((200, encode_deployment dep), mkServer (<[string_of id := dep]> (deployments s)) (counter s))
        else if negb (bool_decide (method = "GET"%string)) then (http_error "method not allowed" 405, s)
        else
          let n := i64 (queryCount dep + 1) in
          let dep := mkDep (dep_ID dep) (WASMHash dep) (progress n) n in
          ((200, encode_deployment dep), mkServer (<[string_of id := dep]> (deployments s)) (counter s))
    end.

(** A request as [main]'s mux dispatches it. *)
Definition find_header (k : string) (headers : list (string * string)) : bytes :=
  match List.find (fun h => bool_decide (fst h = k)) headers with Some (_, v) => bytes_of v | None => [] end.
Definition serve (method url : string) (headers : list (string * string)) (body : bytes) (s : server) : (Z * bytes) * server :=
  let path := TrimPrefix (bytes_of url) (bytes_of "http://localhost:8500") in
  match X402.mux_handler mux (string_of path) with
  | Some Health => ((200, bytes_of "ok"), s)
  | Some Deploy => handleDeploy method (find_header "X-Payment" headers) body s
  | Some DeployByID => handleDeployByID method path s
  | None => (http_error "404 page not found" 404, s)
  end.
End Handlers.

(** *** A server for computations *)
#[export] Instance plain_json : CloudJSON := {|
  json_string s := quote ++ s ++ quote;
  decode_request b := if bool_decide (b = Deployer.deploy_body) then Some (bytes_of "0000000000000000000000000000000000000000000000000000000000000000", 500000) else None |}.
#[export] Instance plain_json_laws : CloudJSONLaws plain_json.
Proof. by split. Qed.

(** ** What the deployer reads *)
Lemma indexOf_here n l : indexOf (n ++ l) n = Some 0%nat.
Proof. destruct (n ++ l) eqn:E; cbn [indexOf]; rewrite <- E, take_app_length, bool_decide_true; done. Qed.
Lemma indexOf_skip c l n : take (length n) (c :: l) <> n -> indexOf (c :: l) n = S <$> indexOf l n.
Proof. intros Hne. cbn [indexOf]. by rewrite bool_decide_false. Qed.
Lemma indexOf_quote v l : plain v -> indexOf (v ++ quote ++ l) quote = Some (length v).
Proof.
  induction v as [|c v IH]; intros Hv; [exact (indexOf_here quote l)|]. apply Forall_cons in Hv as [Hc Hv].
  cbn [app]. rewrite indexOf_skip; [by rewrite IH|]. change (length quote) with 1%nat. cbn [take].
  intros [= E]. assert (Z_of_byte c = 34) by (by rewrite E). lia.
Qed.
(** A field whose key comes first in the text. *)
Lemma extract_first c key v l : plain v -> Z_of_byte c <> 34 ->
  Deployer.extractJSONString (c :: quoted key ++ bytes_of ":" ++ quote ++ v ++ quote ++ l) key = v.
Proof.
  intros Hv Hc. unfold Deployer.extractJSONString. set (needle := quoted key ++ bytes_of ":" ++ quote).
  assert (quoted key ++ bytes_of ":" ++ quote ++ v ++ quote ++ l = needle ++ v ++ quote ++ l) as -> by (unfold needle; by rewrite <- !app_assoc).
  rewrite indexOf_skip.
  2: { unfold needle, quoted, quote. cbn [app length]. rewrite firstn_cons. intros [= E _]. by rewrite E in Hc. }
  rewrite indexOf_here. cbn [fmap option_fmap option_map Nat.add].
  unfold Deployer.indexOfFrom. cbn [drop]. rewrite drop_app_length, indexOf_quote by done. cbn [fmap option_fmap option_map].
  replace (S (length needle) + length v - S (length needle))%nat with (length v) by lia. apply take_app_length.
Qed.

(** ** The deployer against its provider *)
(** The requests of a deployer's life, served in order: the probe, the
    deployment with a receipt, three status queries. *)
Definition receipt : bytes := bytes_of "a payment receipt".
Definition status_query : string := Deployer.status_url (deployment_name 1).
Definition requests : list (string * string * list (string * string) * bytes) :=
  [("POST"%string, Deployer.deployURL, [("Content-Type"%string, ""%string)], []);
   ("POST"%string, Deployer.deployURL, Deployer.deploy_headers receipt, Deployer.deploy_body);
   ("GET"%string, status_query, [], []); ("GET"%string, status_query, [], []); ("GET"%string, status_query, [], [])].
Fixpoint serve_all (rs : list (string * string * list (string * string) * bytes)) (s : server) : list (Z * bytes * option sdk_error) :=
  match rs with
  | [] => []
  | (m, u, h, b) :: rs => let '(r, s) := serve m u h b s in (r, None) :: serve_all rs s
  end.
Definition served (n : nat) : list (Z * bytes * option sdk_error) := take 1 (drop n (serve_all requests newServer)).
(** Twelve ticks. *)
Definition story : list answers :=
  let quiet := mkAnswers 5000000000 600000 [] [] in
  [quiet; mkAnswers 5000000000 600000 (served 0) []; mkAnswers 5000000000 600000 [] [Ok receipt]; quiet;
   mkAnswers 5000000000 100000 (served 1) []; mkAnswers 5000000000 100000 (served 2) []; quiet; quiet;
   mkAnswers 5000000000 100000 (served 3) []; quiet; quiet; mkAnswers 5000000000 100000 (served 4) []].
Definition deployed : AState Deployer.agent := default (new Deployer.agent) (run_life Deployer.agent (fun _ => true) story (new Deployer.agent)).
(** Paid once, deployed, and seen running. *)
Example deploys_itself : run_life Deployer.agent (fun _ => true) story (new Deployer.agent) = Some deployed /\
  Deployer.Phase deployed = Deployer.phaseMonitor /\ Deployer.DeployStatus deployed = 3 /\ Deployer.PaidCount deployed = 1 /\
  Deployer.TotalPaid deployed = deploymentCost /\ take 8 (Deployer.DeploymentID deployed) = deployment_name 1.
Proof. vm_compute. done. Qed.
Lemma story_gives : Forall (gives Deployer.pays_receipt) story.
Proof. repeat (apply Forall_cons; split); [..|by apply Forall_nil]; split_and!; try done; intros; repeat constructor; done. Qed.
Lemma deployer_pays_once_witness : exists paid, told_life Deployer.agent Deployer.pays_receipt 12 deployed paid /\
  length paid = 1%nat /\ 0 < Deployer.DeployIDLen deployed /\ Deployer.Log deployed = [].
Proof.
  assert (Forall answers_ok story) as Hok by (apply answers_okb_ok; vm_compute; reflexivity).
  destruct (run_life_told Deployer.agent Deployer.pays_receipt _ story 0 (new Deployer.agent) [] deployed Hok story_gives (tl_born _ _) (proj1 deploys_itself))
    as (paid & Hl).
  exists paid. split; [exact Hl|]. destruct (Deployer.deployer_pays_once 12 deployed paid Hl) as (_ & _ & _ & _ & Hm & _).
  apply Hm. vm_compute. reflexivity.
Defined.
(** Were a receipt empty, the agent would take the deployment for unpaid and
    pay for it again. *)
Definition no_receipts : list answers :=
  let quiet := mkAnswers 5000000000 600000 [] [] in
  let probe := mkAnswers 5000000000 600000 (served 0) [] in
  let pay := mkAnswers 5000000000 600000 [] [Ok []] in
  [quiet; probe; pay; quiet; probe; pay].
Example empty_receipt_pays_twice :
  Deployer.PaidCount <$> run_life Deployer.agent (fun _ => true) no_receipts (new Deployer.agent) = Some 2.
Proof. vm_compute. reflexivity. Qed.

(** A status query brings a terminated deployment back to life. *)
Example terminated_runs_again :
  let path := bytes_of "/v1/deploy/" ++ deployment_name 1 in
  let s := snd (handleDeploy "POST" receipt Deployer.deploy_body newServer) in
  let s := snd (handleDeployByID "POST" (path ++ bytes_of "/terminate") s) in
  (Status <$> deployments s !! string_of (deployment_name 1)) = Some (bytes_of "terminated") /\
  let s := snd (handleDeployByID "GET" path s) in
  (Status <$> deployments s !! string_of (deployment_name 1)) = Some (bytes_of "pending").
Proof. vm_compute. done. Qed.
