(* ===== verification/Shipped.v ===== *)
(** * The shipped agents

    Every agent of the repository, compiled with the SDK, keeps the contract
    that the runtime's theorems ask of a guest (TickReplay.v). *)
From S2P Require Import Prelude Wasm TickReplay Sdk.
From S2P Require Watchers Reconciler Sentinel X402 Deployer.
Open Scope Z_scope.

(** The agent starts in a good state, and as a WASM module it keeps the
    contract between good states. *)
Definition ships (A : Agent) (I : AState A -> Prop) : Prop :=
  I (new A) /\ forall wasm, agent_contract (W := sdk_wasm A) wasm (same_agent A) (in_state A I).
Lemma checkpointable_ships A I `{!Checkpointable A I} : I (new A) -> ships A I.
Proof. intros HI. split; [done|]. apply sdk_agent_contract, _. Qed.

(** C6: Every shipped agent keeps the agent contract. Heartbeat, survivor,
    price watcher, liquidation watcher, reconciler, sentinel, x402 buyer and
    deployer start in a well-formed state; every tick, whatever the host
    answers, leaves a well-formed state or panics; two instances in the same
    state behave the same under the same answers; checkpointing makes no
    hostcall; and a fresh instance resumed from a checkpoint is in exactly
    the checkpointed state. (Replay asks in addition that the module links
    against the replay host, which the three importers of [http_request] do
    not; the theorems on whole lives under igord and migration ask that
    ticks never panic.) *)
Theorem shipped_agents_keep_contract :
  ships Watchers.Heartbeat.agent Watchers.Heartbeat.ok /\
  ships Watchers.Survivor.agent Watchers.Survivor.ok /\
  ships Watchers.PriceWatcher.agent Watchers.PriceWatcher.ok /\
  ships Watchers.Liquidation.agent Watchers.Liquidation.ok /\
  ships Reconciler.agent Reconciler.ok /\
  ships Sentinel.agent Sentinel.ok /\
  ships X402.agent X402.ok /\
  ships Deployer.agent Deployer.ok.
Proof.
  split_and!; (apply checkpointable_ships;
    [first [exact Watchers.Heartbeat.checkpointable | exact Watchers.Survivor.checkpointable | exact Watchers.PriceWatcher.checkpointable
      | exact Watchers.Liquidation.checkpointable | exact Reconciler.checkpointable | exact Sentinel.checkpointable
      | exact X402.checkpointable | exact Deployer.checkpointable]|]).
  - by split.
  - by split.
  - do 2 (try split); done.
  - by split.
  - by split.
  - split; try done. constructor.
  - split; try done. constructor.
  - split; try done. constructor.
Qed.
