(* ===== verification/Mock.v ===== *)
(** * The mock runtime (sdk/igor/mock, sdk/igor/*_stub.go)

    Agents are tested natively: the non-WASM build of the SDK dispatches every
    function to a mock backend.  [native] runs agent code on it; [expected]
    says what each call should be answered, from the calls before it. *)
From S2P Require Import Prelude Budget Wasm TickReplay Sdk SdkLogic AgentKit.
From S2P Require Sentinel.
From stdpp Require Import relations strings pretty.
Open Scope Z_scope.

(** Documented behaviour of [math/rand/v2]: a source of 32-bit numbers. *)
Class RandSource := { rand_state : Type; NewPCG : Z -> Z -> rand_state; rand_Uint32 : rand_state -> Z * rand_state }.

Section Runtime.
Context `{RandSource}.
(** Handlers are functions of how often they were called before, which stands
    for the state a Go closure keeps. *)
Definition HTTPHandler : Type := nat -> string -> string -> list (string * string) -> bytes -> Z * bytes * option sdk_error.
Definition PaymentHandler : Type := nat -> Z -> bytes -> bytes -> result sdk_error bytes.
Record Runtime := mkRuntime {
  clock : nat -> Z; clockCalls : nat; randSrc : rand_state; logs : list bytes; budget : Z; receipts : list bytes; nodePrice : Z;
  httpHandler : option HTTPHandler; httpCalls : nat; paymentHandler : option PaymentHandler; payCalls : nat }.

(** A clock that starts at [start] and advances by [delta] with every call. *)
Definition fixed_clock (start delta : Z) (calls : nat) : Z := i64 (start + i64 (Z.of_nat calls * delta)).
Definition NewDeterministic (clockStartNano randSeed : Z) : Runtime :=
  mkRuntime (fixed_clock clockStartNano 1000000000) 0 (NewPCG randSeed randSeed) [] 0 [] 0 None 0 None 0.
Definition SetClock (f : nat -> Z) r := mkRuntime f 0 (randSrc r) (logs r) (budget r) (receipts r) (nodePrice r) (httpHandler r) (httpCalls r) (paymentHandler r) (payCalls r).
Definition SetFixedClock (startNano deltaNano : Z) r := SetClock (fixed_clock startNano deltaNano) r.
Definition Logs (r : Runtime) : list bytes := logs r.
Definition ClearLogs r := mkRuntime (clock r) (clockCalls r) (randSrc r) [] (budget r) (receipts r) (nodePrice r) (httpHandler r) (httpCalls r) (paymentHandler r) (payCalls r).
Definition SetBudget b r := mkRuntime (clock r) (clockCalls r) (randSrc r) (logs r) b (receipts r) (nodePrice r) (httpHandler r) (httpCalls r) (paymentHandler r) (payCalls r).
Definition AddReceipt d r := mkRuntime (clock r) (clockCalls r) (randSrc r) (logs r) (budget r) (receipts r ++ [d]) (nodePrice r) (httpHandler r) (httpCalls r) (paymentHandler r) (payCalls r).
Definition SetNodePrice p r := mkRuntime (clock r) (clockCalls r) (randSrc r) (logs r) (budget r) (receipts r) p (httpHandler r) (httpCalls r) (paymentHandler r) (payCalls r).
Definition SetHTTPHandler h r := mkRuntime (clock r) (clockCalls r) (randSrc r) (logs r) (budget r) (receipts r) (nodePrice r) (Some h) 0 (paymentHandler r) (payCalls r).
Definition SetPaymentHandler h r := mkRuntime (clock r) (clockCalls r) (randSrc r) (logs r) (budget r) (receipts r) (nodePrice r) (httpHandler r) (httpCalls r) (Some h) 0.

(** *** MockBackend *)
Definition ClockNow r : Z * Runtime :=
  (clock r (clockCalls r),
   mkRuntime (clock r) (S (clockCalls r)) (randSrc r) (logs r) (budget r) (receipts r) (nodePrice r) (httpHandler r) (httpCalls r) (paymentHandler r) (payCalls r)).
Fixpoint fill (n : nat) (s : rand_state) : bytes * rand_state :=
  match n with
  | O => ([], s)
  | S n => let '(v, s) := rand_Uint32 s in let '(b, s) := fill n s in (byte_of_Z v :: b, s)
  end.
Definition RandBytes (buf : bytes) r : bytes * Runtime :=
  let '(b, s) := fill (length buf) (randSrc r) in
  (b, mkRuntime (clock r) (clockCalls r) s (logs r) (budget r) (receipts r) (nodePrice r) (httpHandler r) (httpCalls r) (paymentHandler r) (payCalls r)).
Definition LogEmit msg r :=
  mkRuntime (clock r) (clockCalls r) (randSrc r) (logs r ++ [msg]) (budget r) (receipts r) (nodePrice r) (httpHandler r) (httpCalls r) (paymentHandler r) (payCalls r).
Definition WalletBalance (r : Runtime) : Z := budget r.
Definition WalletReceiptCount (r : Runtime) : Z := blen (receipts r).
Definition WalletReceipt (index : Z) (r : Runtime) : result sdk_error bytes :=
  if (index <? 0) || (blen (receipts r) <=? index)
  then Err (ErrText (bytes_of "receipt index " ++ bytes_of (pretty index) ++ bytes_of " out of range"))
  else Ok (default [] (receipts r !! Z.to_nat index)).
Definition NodePrice (r : Runtime) : Z := nodePrice r.
Definition HTTPRequest (method url : string) headers body r : (Z * bytes * option sdk_error) * Runtime :=
  match httpHandler r with
  | Some h =>
      (h (httpCalls r) method url headers body,
       mkRuntime (clock r) (clockCalls r) (randSrc r) (logs r) (budget r) (receipts r) (nodePrice r) (httpHandler r) (S (httpCalls r)) (paymentHandler r) (payCalls r))
  | None => ((0, [], Some (ErrText (bytes_of "no HTTP handler configured (use SetHTTPHandler)"))), r)
  end.
Definition WalletPay (amount : Z) (recipient memo : bytes) r : result sdk_error bytes * Runtime :=
  match paymentHandler r with
  | Some h =>
      (h (payCalls r) amount recipient memo,
       mkRuntime (clock r) (clockCalls r) (randSrc r) (logs r) (budget r) (receipts r) (nodePrice r) (httpHandler r) (httpCalls r) (paymentHandler r) (S (payCalls r)))
  | None =>
      if budget r <? amount
      then (Err (ErrText (bytes_of "insufficient budget: have " ++ bytes_of (pretty (budget r)) ++ bytes_of ", need " ++ bytes_of (pretty amount))), r)
      else (Ok (bytes_of "mock-payment-receipt"), SetBudget (i64 (budget r - amount)) r)
  end.

(** *** The non-WASM SDK: [None] is the panic without a backend. *)
Definition dispatch {X} (o : sdk_op X) (mock : option Runtime) : option (X * option Runtime) :=
  match o in sdk_op X return option (X * option Runtime) with
  | OpClockNow => match mock with Some r => let '(v, r) := ClockNow r in Some (v, Some r) | None => None end
  | OpRandBytes buf =>
      if blen buf =? 0 then Some ((Ok tt, buf), mock)
      else match mock with Some r => let '(b, r) := RandBytes buf r in Some ((Ok tt, b), Some r) | None => None end
  | OpLog msg =>
      if blen msg =? 0 then Some (tt, mock) else match mock with Some r => Some (tt, Some (LogEmit msg r)) | None => None end
  | OpWalletBalance => match mock with Some r => Some (WalletBalance r, Some r) | None => None end
  | OpWalletReceiptCount => match mock with Some r => Some (WalletReceiptCount r, Some r) | None => None end
  | OpWalletReceipt index => match mock with Some r => Some (WalletReceipt index r, Some r) | None => None end
  | OpNodePrice => match mock with Some r => Some (NodePrice r, Some r) | None => None end
  | OpHTTPRequest m u h b => match mock with Some r => let '(x, r) := HTTPRequest m u h b r in Some (x, Some r) | None => None end
  | OpWalletPay a p m => match mock with Some r => let '(x, r) := WalletPay a p m r in Some (x, Some r) | None => None end
  end.
(** A native run of agent code; [None] is a panic. *)
Fixpoint native {St A} (t : act St A) (mock : option Runtime) : option (A * St * option Runtime) :=
  match t with
  | Done a s => Some (a, s, mock)
  | Panic _ => None
  | Vis o _ k => match dispatch o mock with Some (x, mock) => native (k x) mock | None => None end
  end.
(** [n] ticks of an agent under test. *)
Fixpoint native_ticks (A : Agent) (n : nat) (s : AState A) (mock : option Runtime) : option (AState A * option Runtime) :=
  match n with
  | O => Some (s, mock)
  | S n => match native (Tick A s) mock with Some (_, s, mock) => native_ticks A n s mock | None => None end
  end.

(** ** A faithful backend *)
(** A backend set up with what a node could answer. *)
Record mock_ok (r : Runtime) : Prop := {
  m_clock k : is_i64 (clock r k);
  m_budget : is_i64 (budget r);
  m_price : is_i64 (nodePrice r);
  m_count : blen (receipts r) < 2 ^ 31;
  m_receipts : Forall (fun d => blen d <= 1024) (receipts r);
  m_http h k m u hs b : httpHandler r = Some h -> is_i32 (fst (fst (h k m u hs b))) /\ blen (snd (fst (h k m u hs b))) <= 4 * 1024 * 1024;
  m_pay h k a p m d : paymentHandler r = Some h -> h k a p m = Ok d -> blen d <= 64 * 1024 }.
Lemma blen_fill n : forall s, blen (fst (fill n s)) = Z.of_nat n.
Proof.
  induction n as [|n IH]; intros s; [done|]. cbn [fill]. destruct (rand_Uint32 s) as [v s1]. specialize (IH s1).
  destruct (fill n s1) as [b s2]. cbn [fst] in *. rewrite blen_cons. lia.
Qed.
Lemma dispatch_ok {X} (o : sdk_op X) r x m' : mock_ok r -> dispatch o (Some r) = Some (x, m') ->
  op_answer o x /\ exists r', m' = Some r' /\ mock_ok r' /\ logs r `prefix_of` logs r'.
Proof.
  intros Hr. pose proof Hr as []. pose proof (blen_nonneg (receipts r)).
  assert (exists r', Some r = Some r' /\ mock_ok r' /\ logs r `prefix_of` logs r') as Hsame by (by exists r).
  destruct o; cbn [dispatch op_answer].
  - intros [= <- <-]. split; [done|]. eexists. split; [done|]. by split; [split|].
  - destruct (Z.eqb_spec (blen buf) 0); [intros [= <- <-]; by split|]. unfold RandBytes. pose proof (blen_fill (length buf) (randSrc r)) as Hf.
    destruct (fill (length buf) (randSrc r)) as [b s]. cbn [fst] in Hf. intros [= <- <-]. split; [exact Hf|]. eexists. split; [done|]. by split; [split|].
  - destruct (_ =? 0); intros [= <- <-]; (split; [done|]); [done|]. eexists. split; [done|]. split; [by split|]. by eexists.
  - intros [= <- <-]. by split.
  - intros [= <- <-]. split; [unfold WalletReceiptCount, is_i32; lia|done].
  - intros [= <- <-]. split; [|done]. unfold WalletReceipt. destruct (_ || _); [done|]. intros b [= <-].
    destruct (receipts r !! Z.to_nat index) as [d|] eqn:E; [|done]. exact (proj1 (Forall_lookup _ _) m_receipts0 _ _ E).
  - intros [= <- <-]. by split.
  - unfold HTTPRequest. destruct (httpHandler r) as [h|] eqn:Eh; intros [= <- <-].
    + split; [by apply m_http0|]. eexists. split; [done|]. split; [|done]. split; try done; cbn; by rewrite ?Eh.
    + by split.
  - unfold WalletPay. destruct (paymentHandler r) as [h|] eqn:Eh; [|destruct (budget r <? amount)]; intros [= <- <-].
    + split; [intros b; by apply m_pay0|]. eexists. split; [done|]. split; [|done]. split; try done; cbn; by rewrite ?Eh.
    + by split.
    + split; [intros b [= <-]; vm_compute; congruence|]. eexists. split; [done|]. split; [|done].
      split; try done; cbn; try apply i64_range; by rewrite ?Eh.
Qed.
Lemma native_can {St A} (t : act St A) : forall r a s m', mock_ok r -> native t (Some r) = Some (a, s, m') ->
  act_can t a s /\ exists r', m' = Some r' /\ mock_ok r' /\ logs r `prefix_of` logs r'.
Proof.
  induction t as [a0 s0|s0|X o s0 k IH]; intros r a s m' Hr; cbn [native act_can].
  - intros [= <- <- <-]. split; [done|]. by exists r.
  - done.
  - destruct (dispatch o (Some r)) as [[x m1]|] eqn:E; [|done]. destruct (dispatch_ok o r x m1 Hr E) as (Hx & r1 & -> & Hr1 & Hl1).
    intros En. destruct (IH x r1 a s m' Hr1 En) as (Hc & r' & -> & Hr' & Hl). split; [by exists x|]. exists r'. split; [done|]. split; [done|]. by etrans.
Qed.

(** *** What the backend should answer *)
(** A call of the SDK and what it was answered. *)
Inductive event : Type := Ev (X : Type) (o : sdk_op X) (x : X).
Arguments Ev {X}.
Definition clock_read (e : event) : bool := let '(Ev o _) := e in match o with OpClockNow => true | _ => false end.
Definition fetched (e : event) : bool := let '(Ev o _) := e in match o with OpHTTPRequest _ _ _ _ => true | _ => false end.
Definition asked_to_pay (e : event) : bool := let '(Ev o _) := e in match o with OpWalletPay _ _ _ => true | _ => false end.
Definition count (p : event -> bool) (h : list event) : nat := length (List.filter p h).
Definition drawn (h : list event) : nat :=
  foldr (fun e n => (let '(Ev o _) := e in match o with OpRandBytes buf => length buf | _ => 0%nat end) + n)%nat 0%nat h.
Definition logged (h : list event) : list bytes :=
  flat_map (fun e => let '(Ev o _) := e in match o with OpLog msg => if blen msg =? 0 then [] else [msg] | _ => [] end) h.
Definition paid (h : list event) : Z := foldr (fun e z => (let '(Ev o x) := e in foldr Z.add 0 (payments o x)) + z) 0 h.
(** The budget after the calls [h]; a payment handler leaves it alone. *)
Definition balance r (h : list event) : Z := match paymentHandler r with Some _ => budget r | None => i64 (budget r - paid h) end.
(** The answer to a call after the calls [h], for a backend set up as [r]: the
    clock and the handlers by how often they were called, the random bytes
    that follow those drawn, the budget less the payments made. *)
Definition expected r (h : list event) {X} (o : sdk_op X) : X :=
  match o in sdk_op X return X with
  | OpClockNow => clock r (clockCalls r + count clock_read h)
  | OpRandBytes buf => (Ok tt, fst (fill (length buf) (snd (fill (drawn h) (randSrc r)))))
  | OpLog _ => tt
  | OpWalletBalance => balance r h
  | OpWalletReceiptCount => blen (receipts r)
  | OpWalletReceipt index => WalletReceipt index r
  | OpNodePrice => nodePrice r
  | OpHTTPRequest m u hs b =>
      match httpHandler r with
      | Some handler => handler (httpCalls r + count fetched h)%nat m u hs b
      | None => (0, [], Some (ErrText (bytes_of "no HTTP handler configured (use SetHTTPHandler)")))
      end
  | OpWalletPay amount p m =>
      match paymentHandler r with
      | Some handler => handler (payCalls r + count asked_to_pay h)%nat amount p m
      | None =>
          if balance r h <? amount
          then Err (ErrText (bytes_of "insufficient budget: have " ++ bytes_of (pretty (balance r h)) ++ bytes_of ", need " ++ bytes_of (pretty amount)))
          else Ok (bytes_of "mock-payment-receipt")
      end
  end.
(** A run of agent code that makes the calls [tr] and gets their answers. *)
Fixpoint act_calls {St A} (t : act St A) (tr : list event) (a : A) (s : St) : Prop :=
  match t with
  | Done a' s' => a' = a /\ s' = s /\ tr = []
  | Panic _ => False
  | Vis o _ k => exists x tr', tr = Ev o x :: tr' /\ act_calls (k x) tr' a s
  end.
Fixpoint ticks_call (A : Agent) (n : nat) (s : AState A) (tr : list event) (s' : AState A) : Prop :=
  match n with
  | O => s' = s /\ tr = []
  | S n => exists more s1 tr1 tr2, tr = tr1 ++ tr2 /\ act_calls (Tick A s) tr1 more s1 /\ ticks_call A n s1 tr2 s'
  end.
(** Every answer of [tr] is the one expected after [h] and those before it. *)
Fixpoint as_expected r (h tr : list event) : Prop :=
  match tr with [] => True | Ev o x :: tr => x = expected r h o /\ as_expected r (h ++ [Ev o x]) tr end.
(** The backend [r'] is what [r] has become after the calls [h]. *)
Record after r (h : list event) (r' : Runtime) : Prop := {
  af_clock : clock r' = clock r; af_calls : clockCalls r' = (clockCalls r + count clock_read h)%nat;
  af_rand : randSrc r' = snd (fill (drawn h) (randSrc r)); af_logs : logs r' = logs r ++ logged h; af_budget : budget r' = balance r h;
  af_receipts : receipts r' = receipts r; af_price : nodePrice r' = nodePrice r;
  af_http : httpHandler r' = httpHandler r; af_fetched : httpHandler r <> None -> httpCalls r' = (httpCalls r + count fetched h)%nat;
  af_pay : paymentHandler r' = paymentHandler r; af_asked : paymentHandler r <> None -> payCalls r' = (payCalls r + count asked_to_pay h)%nat }.
Lemma fill_more a : forall b s, snd (fill (a + b) s) = snd (fill b (snd (fill a s))).
Proof.
  induction a as [|a IH]; intros b s; [done|]. cbn [fill Nat.add]. destruct (rand_Uint32 s) as [v s1]. specialize (IH b s1).
  destruct (fill (a + b) s1), (fill a s1). exact IH.
Qed.
Lemma count_more p h e : count p (h ++ [e]) = (count p h + if p e then 1 else 0)%nat.
Proof. unfold count. rewrite List.filter_app, length_app. cbn. by destruct (p e). Qed.
Lemma drawn_more h {X} (o : sdk_op X) x : drawn (h ++ [Ev o x]) = (drawn h + match o with OpRandBytes buf => length buf | _ => 0 end)%nat.
Proof. unfold drawn. induction h as [|e h IH]; cbn in *; lia. Qed.
Lemma logged_more h {X} (o : sdk_op X) x : logged (h ++ [Ev o x]) = logged h ++ match o with OpLog msg => if blen msg =? 0 then [] else [msg] | _ => [] end.
Proof. unfold logged. rewrite flat_map_app. cbn. by rewrite app_nil_r. Qed.
Lemma paid_more h {X} (o : sdk_op X) (x : X) : paid (h ++ [Ev o x]) = paid h + foldr Z.add 0 (payments o x).
Proof. unfold paid. induction h as [|e h IH]; cbn in *; lia. Qed.
Lemma i64_sub a b : i64 (i64 a - b) = i64 (a - b).
Proof.
  unfold i64. set (m := 2 ^ 64). set (k := 2 ^ 63). replace ((a + k) mod m - k - b + k) with ((a + k) mod m - b) by lia.
  rewrite Zminus_mod_idemp_l. do 2 f_equal. lia.
Qed.
Lemma after_start r : is_i64 (budget r) -> after r [] r.
Proof. intros Hb. split; cbn; rewrite ?Nat.add_0_r, ?app_nil_r; try done. unfold balance. cbn. rewrite Z.sub_0_r, i64_id by done. by destruct (paymentHandler r). Qed.
(** One call: the mutable backend answers as expected, and keeps up. *)
Lemma dispatch_expected r h r1 {X} (o : sdk_op X) x m : after r h r1 -> dispatch o (Some r1) = Some (x, m) ->
  x = expected r h o /\ exists r2, m = Some r2 /\ after r (h ++ [Ev o x]) r2.
Proof.
  intros Ha. pose proof Ha as [E1 E2 E3 E4 E5 E6 E7 E8 E9 E10 E11].
  assert (forall x, (forall p, p = clock_read \/ p = fetched \/ p = asked_to_pay -> p (Ev o x) = false) ->
    match o with OpRandBytes buf => length buf | _ => 0%nat end = 0%nat -> match o with OpLog msg => if blen msg =? 0 then [] else [msg] | _ => [] end = [] ->
    foldr Z.add 0 (payments o x) = 0 -> after r (h ++ [Ev o x]) r1) as Hsame.
  { intros y Hp Hd Hl Hpay. split; rewrite ?count_more, ?drawn_more, ?logged_more, ?Hp, ?Hd, ?Hl, ?Nat.add_0_r, ?app_nil_r by auto; try done.
    unfold balance. by rewrite paid_more, Hpay, Z.add_0_r. }
  assert (forall x, foldr Z.add 0 (payments o x) = 0 -> balance r (h ++ [Ev o x]) = balance r h) as Hbal
    by (intros y Hy; unfold balance; by rewrite paid_more, Hy, Z.add_0_r).
  destruct o; cbn [dispatch expected].
  - unfold ClockNow. intros [= <- <-]. rewrite E1, E2. split; [done|]. eexists. split; [done|].
    split; cbn; rewrite ?count_more, ?drawn_more, ?logged_more, ?Nat.add_0_r, ?app_nil_r, ?Hbal by done; try done; cbn; lia.
  - destruct (Z.eqb_spec (blen buf) 0) as [Hz|Hz].
    + destruct buf; [|done]. intros [= <- <-]. split; [done|]. eexists. split; [done|]. apply Hsame; try done. by intros p [->|[->| ->]].
    + unfold RandBytes. rewrite E3. destruct (fill (length buf) (snd (fill (drawn h) (randSrc r)))) as [b s] eqn:Ef. intros [= <- <-].
      split; [done|]. eexists. split; [done|].
      split; cbn; rewrite ?count_more, ?drawn_more, ?logged_more, ?Nat.add_0_r, ?app_nil_r, ?Hbal by done; try done.
      by rewrite fill_more, Ef.
  - destruct (blen msg =? 0) eqn:Hz; intros [= <- <-]; (split; [done|]); eexists; (split; [done|]).
    + apply Hsame; first [done | by rewrite Hz | by intros p [->|[->| ->]]].
    + split; cbn; rewrite ?count_more, ?drawn_more, ?logged_more, ?Nat.add_0_r, ?Hbal by done; try done. by rewrite Hz, E4, <- app_assoc.
  - intros [= <- <-]. split; [exact E5|]. eexists. split; [done|]. apply Hsame; try done. by intros p [->|[->| ->]].
  - intros [= <- <-]. unfold WalletReceiptCount. rewrite E6. split; [done|]. eexists. split; [done|]. apply Hsame; try done. by intros p [->|[->| ->]].
  - intros [= <- <-]. unfold WalletReceipt. rewrite E6. split; [done|]. eexists. split; [done|]. apply Hsame; try done. by intros p [->|[->| ->]].
  - intros [= <- <-]. unfold NodePrice. rewrite E7. split; [done|]. eexists. split; [done|]. apply Hsame; try done. by intros p [->|[->| ->]].
  - unfold HTTPRequest. rewrite E8. destruct (httpHandler r) as [handler|] eqn:Eh; intros [= <- <-].
    + rewrite E9 by done. split; [done|]. eexists. split; [done|].
      split; cbn; rewrite ?count_more, ?drawn_more, ?logged_more, ?Nat.add_0_r, ?app_nil_r, ?Hbal by done; try done; cbn; try lia.
    + split; [done|]. eexists. split; [done|].
      split; rewrite ?count_more, ?drawn_more, ?logged_more, ?Nat.add_0_r, ?app_nil_r, ?Hbal by done; try done. by rewrite Eh.
  - unfold WalletPay. rewrite E10, E5. unfold balance. destruct (paymentHandler r) as [handler|] eqn:Eh; [|destruct (_ <? _) eqn:Eb]; intros [= <- <-].
    + rewrite E11 by done. split; [done|]. eexists. split; [done|].
      split; cbn; rewrite ?count_more, ?drawn_more, ?logged_more, ?Nat.add_0_r, ?app_nil_r by done; try done; cbn; try lia; try congruence.
      unfold balance. by rewrite Eh.
    + split; [done|]. eexists. split; [done|].
      split; rewrite ?count_more, ?drawn_more, ?logged_more, ?Nat.add_0_r, ?app_nil_r, ?Hbal by done; try done; congruence.
    + split; [done|]. eexists. split; [done|].
      split; cbn; rewrite ?count_more, ?drawn_more, ?logged_more, ?Nat.add_0_r, ?app_nil_r by done; try done; try congruence.
      unfold balance. rewrite Eh, paid_more. cbn. rewrite Z.add_0_r, i64_sub. f_equal. lia.
Qed.
Lemma as_expected_app r tr1 tr2 : forall h, as_expected r h tr1 -> as_expected r (h ++ tr1) tr2 -> as_expected r h (tr1 ++ tr2).
Proof.
  induction tr1 as [|[X o x] tr1 IH]; intros h H1 H2; cbn in *; [by rewrite app_nil_r in H2|]. destruct H1 as [Hx H1]. split; [done|].
  apply IH; [done|]. by rewrite <- app_assoc.
Qed.
Lemma native_expected r {St A} (t : act St A) : forall h r1 a s m, after r h r1 -> native t (Some r1) = Some (a, s, m) ->
  exists tr r2, act_calls t tr a s /\ as_expected r h tr /\ m = Some r2 /\ after r (h ++ tr) r2.
Proof.
  induction t as [a0 s0|s0|X o s0 k IH]; intros h r1 a s m Ha; cbn [native act_calls].
  - intros [= <- <- <-]. exists [], r1. by rewrite app_nil_r.
  - done.
  - destruct (dispatch o (Some r1)) as [[x m1]|] eqn:Ed; [|done]. destruct (dispatch_expected r h r1 o x m1 Ha Ed) as (Hx & r2 & -> & Ha2).
    intros En. destruct (IH x _ r2 a s m Ha2 En) as (tr & r3 & Hc & He & -> & Ha3). exists (Ev o x :: tr), r3.
    split; [by exists x, tr|]. split; [done|]. split; [done|]. by rewrite <- app_assoc in Ha3.
Qed.
Lemma ticks_expected r (A : Agent) n : forall h r1 s s' m, after r h r1 -> native_ticks A n s (Some r1) = Some (s', m) ->
  exists tr r2, ticks_call A n s tr s' /\ as_expected r h tr /\ m = Some r2 /\ after r (h ++ tr) r2.
Proof.
  induction n as [|n IH]; intros h r1 s s' m Ha; cbn [native_ticks ticks_call].
  - intros [= <- <-]. exists [], r1. by rewrite app_nil_r.
  - destruct (native (Tick A s) (Some r1)) as [[[more s1] m1]|] eqn:En; [|done].
    destruct (native_expected r _ h r1 more s1 m1 Ha En) as (tr1 & r2 & Hc1 & He1 & -> & Ha2). intros Et.
    destruct (IH _ r2 s1 s' m Ha2 Et) as (tr2 & r3 & Hc2 & He2 & -> & Ha3). exists (tr1 ++ tr2), r3.
    split; [by exists more, s1, tr1, tr2|]. split; [by apply as_expected_app|]. split; [done|]. by rewrite app_assoc.
Qed.
Lemma ticks_lived (A : Agent) n : forall k s r s' m', mock_ok r -> lived A (fun _ => True) k s ->
  native_ticks A n s (Some r) = Some (s', m') -> lived A (fun _ => True) (n + k) s'.
Proof.
  induction n as [|n IH]; intros k s r s' m' Hr Hl; cbn [native_ticks]; [by intros [= <- <-]|].
  destruct (native (Tick A s) (Some r)) as [[[more s1] m1]|] eqn:E; [|done]. destruct (native_can _ r more s1 m1 Hr E) as (Hc & r1 & -> & Hr1 & _).
  intros En. replace (S n + k)%nat with (n + S k)%nat by lia. apply (IH (S k) s1 r1 s' m' Hr1); [|done]. by apply (lived_tick A _ k s more s1).
Qed.

(** C31: A native test tells the agent what it was set up to tell. Let a
    mock backend be set up with values of the sizes a node answers, and let
    [n] ticks of an agent return on it. Then their calls were answered one
    by one as the set-up says: the clock by its count of readings, random
    bytes in the generator's order, the balance as the budget less all
    payments so far (the default handler refuses what exceeds it; a handler
    of the test's own leaves it alone), receipts, price and HTTP handler as
    given; the log holds exactly the non-empty lines logged, and the budget
    left is that balance. And the state reached is that of some life of the
    agent, so the theorems on lives under all answers speak of the test. (A
    node need not answer the same: it refuses a negative payment, which the
    mock makes, see [negative_payment_mints].) *)
Theorem native_tests_are_lives (A : Agent) n k s r s' m' : mock_ok r -> lived A (fun _ => True) k s ->
  native_ticks A n s (Some r) = Some (s', m') ->
  lived A (fun _ => True) (n + k) s' /\
  exists calls r', ticks_call A n s calls s' /\ as_expected r [] calls /\ m' = Some r' /\
    Logs r' = Logs r ++ logged calls /\ WalletBalance r' = balance r calls.
Proof.
  intros Hr Hl En. split; [by eapply ticks_lived|].
  destruct (ticks_expected r A n [] r s s' m' (after_start r (m_budget r Hr)) En) as (tr & r' & Hc & He & -> & Ha).
  exists tr, r'. split_and!; [done|done|done|exact (af_logs _ _ _ Ha)|exact (af_budget _ _ _ Ha)].
Qed.
Lemma deterministic_ok start seed b : is_i64 b -> mock_ok (SetBudget b (NewDeterministic start seed)).
Proof. intros Hb. split; try done. intros k. apply i64_range. Qed.
(** Without a backend an agent that reads the clock panics. *)
Lemma no_backend_panics {A} (f : Z -> Sdk A bool) s : native ((AgentKit.ClockNow ≫= f) s) None = None.
Proof. done. Qed.
End Runtime.

(** ** A test run *)
#[local] Instance toy_rand : RandSource := {|
  rand_state := Z; NewPCG a b := a + b; rand_Uint32 s := (Z.shiftr s 3, (s * 1103515245 + 12345) mod 2 ^ 32) |}.
Definition bench : Runtime := SetBudget 1000 (NewDeterministic 1000000000 42).
Definition tested : AState Sentinel.agent := match native_ticks Sentinel.agent 20 (new Sentinel.agent) (Some bench) with Some (s, _) => s | None => new Sentinel.agent end.
Lemma native_tests_are_lives_witness : lived Sentinel.agent (fun _ => True) 20 tested /\ Sentinel.TickCount tested = 20.
Proof.
  split; [|vm_compute; reflexivity].
  assert (exists m', native_ticks Sentinel.agent 20 (new Sentinel.agent) (Some bench) = Some (tested, m')) as [m' E].
  { assert (match native_ticks Sentinel.agent 20 (new Sentinel.agent) (Some bench) with Some _ => true | None => false end = true) as H
      by (vm_compute; reflexivity).
    unfold tested. destruct (native_ticks Sentinel.agent 20 (new Sentinel.agent) (Some bench)) as [[s m']|]; [by exists m'|done]. }
  destruct (native_tests_are_lives Sentinel.agent 20 0 (new Sentinel.agent) bench tested m') as [Hl _].
  - apply deterministic_ok. split; vm_compute; congruence.
  - apply lived_born.
  - exact E.
  - exact Hl.
Defined.
(** The default payment handler takes any amount: a negative payment adds to
    the budget, where a node refuses it. *)
Example negative_payment_mints : (budget <$> snd (match dispatch (OpWalletPay (-500) (bytes_of "x") []) (Some bench) with Some x => x | None => (Err ErrTruncated, None) end)) = Some 1500.
Proof. vm_compute. reflexivity. Qed.
