(* ===== verification/Pricing.v ===== *)
(** * Price discovery between nodes (internal/pricing)

    The handler that answers a price query, the query, and the concurrent scan
    of many peers as a step relation over its goroutines and the channel they
    report on.  libp2p and [encoding/json] are parameters. *)
From S2P Require Import Prelude.
From stdpp Require Import relations strings.
Open Scope Z_scope.

Record PriceRequest := mkPriceRequest { AgentID : string }.
Record PriceResponse := mkPriceResponse { PricePerSecond : Z; NodeID : string }.

(** What an operation on a stream without a deadline does: return, fail (a
    reset, a closed connection), or block for ever. *)
Inductive io (A : Type) := Returned (a : A) | Broken | Blocked.
Arguments Returned {A}.
Arguments Broken {A}.
Arguments Blocked {A}.
(** [encoding/json] on the two messages, the multiaddr parser, and the network
    as the querying node sees it: connecting and opening a stream end by the
    deadline of their context, writing and reading do not; [read_from p d] is
    the read of the answer from peer [p] after [d] was sent. *)
Class PriceNet := {
  encode_request : PriceRequest -> bytes; decode_request : bytes -> option PriceRequest;
  encode_response : PriceResponse -> bytes; decode_response : bytes -> option PriceResponse;
  peerID : Type;
  parse_multiaddr : string -> option string;
  addr_info : string -> option peerID;
  connect : peerID -> bool;
  new_stream : peerID -> bool;
  send_to : peerID -> bytes -> io unit;
  read_from : peerID -> bytes -> io bytes }.
Class PriceNetLaws (N : PriceNet) : Prop := {
  request_roundtrip r : decode_request (encode_request r) = Some r;
  response_roundtrip r : decode_response (encode_response r) = Some r }.
Inductive query_error := ErrAddress | ErrPeerInfo | ErrConnect | ErrOpen | ErrSend | ErrRead.

Section Service.
Context `{PriceNet}.
Record Service := mkService { hostID : string; pricePerSecond : Z }.

(** [None]: the stream is closed without an answer. *)
Definition handlePriceQuery (s : Service) (request : bytes) : option bytes :=
  match decode_request request with
  | None => None
  | Some _ => Some (encode_response (mkPriceResponse (pricePerSecond s) (hostID s)))
  end.
(** [None]: the call never returns.  Its context bounds [Connect] and
    [NewStream] only; no deadline is set on the stream. *)
Definition QueryPeerPrice (peerAddr : string) : option (result query_error PriceResponse) :=
  match parse_multiaddr peerAddr with
  | None => Some (Err ErrAddress)
  | Some maddr =>
      match addr_info maddr with
      | None => Some (Err ErrPeerInfo)
      | Some p =>
          if negb (connect p) then Some (Err ErrConnect)
          else if negb (new_stream p) then Some (Err ErrOpen)
          else
            let request := encode_request (mkPriceRequest "") in
            match send_to p request with
            | Blocked => None
            | Broken => Some (Err ErrSend)
            | Returned _ =>
                match read_from p request with
                | Blocked => None
                | Broken => Some (Err ErrRead)
                | Returned d => match decode_response d with None => Some (Err ErrRead) | Some resp => Some (Ok resp) end
                end
            end
      end
  end.

(** A peer that runs the service, reachable at an address. *)
Record serves (addr : string) (s : Service) : Prop := {
  sv_maddr : exists maddr p, parse_multiaddr addr = Some maddr /\ addr_info maddr = Some p /\ connect p = true /\ new_stream p = true /\
    (forall d, send_to p d = Returned tt) /\
    forall d, read_from p d = match handlePriceQuery s d with Some a => Returned a | None => Broken end }.
Lemma query_serving `{!PriceNetLaws _} addr s : serves addr s ->
  QueryPeerPrice addr = Some (Ok (mkPriceResponse (pricePerSecond s) (hostID s))).
Proof.
  intros [(maddr & p & E1 & E2 & E3 & E4 & E5 & E6)]. unfold QueryPeerPrice. rewrite E1, E2, E3, E4, E5, E6. cbn [negb].
  unfold handlePriceQuery. by rewrite request_roundtrip, response_roundtrip.
Qed.

(** ** ScanPeerPrices *)
(** The goroutines that have not reported, the buffered channel (one slot per
    peer, so a report never blocks), the receives left, the responses. *)
Record scan := mkScan { running : list string; results : list (option PriceResponse); left_ : nat; responses : list PriceResponse }.
Definition to_option {E A} (r : result E A) : option A := match r with Ok a => Some a | Err _ => None end.
Definition start (peerAddrs : list string) : scan := mkScan peerAddrs [] (length peerAddrs) [].
(** A goroutine reports when its query has returned, if it ever does. *)
Inductive scan_step : scan -> scan -> Prop :=
| scan_report l1 addr l2 r rs n acc : QueryPeerPrice addr = Some r ->
    scan_step (mkScan (l1 ++ addr :: l2) rs n acc) (mkScan (l1 ++ l2) (rs ++ [to_option r]) n acc)
| scan_receive run r rs n acc : scan_step (mkScan run (r :: rs) (S n) acc) (mkScan run rs n (acc ++ option_list r)).
Definition returned (s : scan) : Prop := left_ s = 0%nat.

(** The query of a peer ends; the response it ends with, if any. *)
Definition ends (addr : string) : Prop := QueryPeerPrice addr <> None.
Definition answer (addr : string) : option PriceResponse := QueryPeerPrice addr ≫= to_option.
(** Every peer is running, reported or received, exactly once; the silent ones
    are running. *)
Record scanning (addrs : list string) (s : scan) : Prop := {
  sc_count : (length (running s) + length (results s) = left_ s)%nat;
  sc_all : responses s ++ omap id (results s) ++ omap answer (running s) ≡ₚ omap answer addrs;
  sc_silent addr : addr ∈ addrs -> ~ ends addr -> addr ∈ running s;
  sc_from addr : addr ∈ running s -> addr ∈ addrs }.
Lemma start_scanning addrs : scanning addrs (start addrs).
Proof. split; cbn; [lia|done|done|done]. Qed.
Lemma step_scanning addrs s s' : scan_step s s' -> scanning addrs s -> scanning addrs s'.
Proof.
  intros Hs [Hc Ha Hsil Hfr]. destruct Hs as [l1 addr l2 r rs n acc Hq|run r rs n acc]; cbn in *.
  - split; cbn; [rewrite !length_app in *; cbn in *; lia|..].
    + assert (answer addr = to_option r) as Han by (unfold answer; by rewrite Hq).
      rewrite <- Ha, !omap_app. cbn. rewrite Han. destruct (to_option r) as [x|]; cbn; rewrite ?app_nil_r; [|done].
      rewrite <- app_assoc. cbn. by rewrite Permutation_middle.
    + intros a Hin Hn. specialize (Hsil a Hin Hn). rewrite elem_of_app, elem_of_cons in Hsil. rewrite elem_of_app.
      destruct Hsil as [?|[->|?]]; [by left| |by right]. destruct Hn. unfold ends. by rewrite Hq.
    + intros a Hin. apply Hfr. rewrite elem_of_app in Hin. rewrite elem_of_app, elem_of_cons. tauto.
  - split; cbn; [lia| |done|done]. rewrite <- Ha. destruct r; cbn; rewrite ?app_nil_r; [|done]. by rewrite <- app_assoc.
Qed.
Definition work (s : scan) : nat := length (running s) + left_ s.
Lemma step_works s s' : scan_step s s' -> (work s' < work s)%nat.
Proof. intros []; unfold work; cbn; rewrite ?length_app; cbn; lia. Qed.
Lemma reached addrs s : rtc scan_step (start addrs) s -> scanning addrs s /\ (work s <= 2 * length addrs)%nat.
Proof.
  intros Hr. assert (scanning addrs (start addrs) /\ (work (start addrs) <= 2 * length addrs)%nat) as H0
    by (split; [apply start_scanning|unfold work; cbn; lia]).
  revert H0. generalize (start addrs) as s0, Hr. clear Hr. intros s0 Hr. induction Hr as [|s1 s2 s3 Hs _ IH]; [done|].
  intros [Hsc Hle]. apply IH. split; [by eapply step_scanning|]. apply step_works in Hs. lia.
Qed.
Lemma scan_progress addrs s : scanning addrs s -> Forall ends addrs -> returned s \/ exists s', scan_step s s'.
Proof.
  intros [Hc _ _ Hfr] Hends. destruct s as [run rs n acc]. unfold returned in *. cbn in *. destruct n as [|n]; [by left|right].
  destruct rs as [|r rs]; [|eexists; apply scan_receive]. destruct run as [|a run]; [cbn in Hc; lia|].
  destruct (QueryPeerPrice a) as [r|] eqn:Hq; [eexists; by apply (scan_report [] a run r)|].
  rewrite Forall_forall in Hends. exfalso. exact (Hends a (Hfr a ltac:(by left)) Hq).
Qed.
Lemma scan_waits addrs s : rtc scan_step (start addrs) s -> returned s -> running s = [] /\ results s = [] /\ Forall ends addrs.
Proof.
  intros [[Hc _ Hsil _] _]%reached Hret. unfold returned in Hret. rewrite Hret in Hc.
  destruct (running s) eqn:Er, (results s); cbn in *; try lia. split; [done|]. split; [done|]. apply Forall_forall. intros a Ha Hq.
  assert (~ ends a) as Hn by (intros Hn; by apply Hn). specialize (Hsil a Ha Hn). by apply not_elem_of_nil in Hsil.
Qed.

(** C40: A price scan returns every answer once, if it returns.  However the
    goroutines are scheduled and in whatever order they report, a scan of [n]
    peers takes at most [2 n] steps.  When every peer's query ends (with an
    answer or an error), it never blocks before it returns; one peer that
    accepts the stream and never answers keeps it from ever returning, since
    the query sets no deadline on the stream.  When it does return, no
    goroutine is left and its result is, up to order, the responses of exactly
    the peers whose query succeeded. *)
Theorem scan_collects_answers addrs s : rtc scan_step (start addrs) s ->
  (work s <= 2 * length addrs)%nat /\ (forall s', scan_step s s' -> (work s' < work s)%nat) /\
  (Forall ends addrs -> returned s \/ exists s', scan_step s s') /\
  (forall addr, addr ∈ addrs -> QueryPeerPrice addr = None -> ~ returned s) /\
  (returned s -> running s = [] /\ responses s ≡ₚ omap (fun addr => QueryPeerPrice addr ≫= to_option) addrs).
Proof.
  intros Hr. destruct (reached _ _ Hr) as [Hs Hw]. split; [done|]. split; [apply step_works|]. split; [by apply scan_progress|]. split.
  - intros addr Hin Hq Hret. destruct (scan_waits _ _ Hr Hret) as (_ & _ & He). rewrite Forall_forall in He. exact (He addr Hin Hq).
  - intros Hret. destruct (scan_waits _ _ Hr Hret) as (Er & Es & _). split; [done|]. destruct Hs as [_ Ha _ _].
    rewrite Er, Es in Ha. by rewrite app_nil_r in Ha.
Qed.
End Service.

(** ** Peers that answer, one unreachable, one silent *)
#[local] Instance toy_net : PriceNet := {|
  encode_request r := bytes_of (AgentID r); decode_request d := Some (mkPriceRequest (string_of d));
  encode_response r := put_u64 (u64 (PricePerSecond r)) ++ bytes_of (NodeID r);
  decode_response d := Some (mkPriceResponse (i64 (get_u64 d)) (string_of (drop 8 d)));
  peerID := string; parse_multiaddr := Some; addr_info := Some;
  connect p := negb (bool_decide (p = "c"%string)); new_stream _ := true; send_to _ _ := Returned tt;
  read_from p d := if bool_decide (p = "silent"%string) then Blocked
                   else Returned (put_u64 (if bool_decide (p = "a"%string) then 100 else 250) ++ bytes_of p) |}.
Definition peers : list string := ["a"%string; "b"%string; "c"%string].
(** "b" answers first, then "c" fails, then "a" answers. *)
Definition scanned : scan := mkScan [] [] 0 [mkPriceResponse 250 "b"; mkPriceResponse 100 "a"].
Lemma scan_collects_answers_witness :
  responses scanned ≡ₚ omap (fun addr => QueryPeerPrice addr ≫= to_option) peers /\ length (responses scanned) = 2%nat.
Proof.
  split; [|reflexivity]. refine (proj2 (proj2 (proj2 (proj2 (proj2 (scan_collects_answers peers scanned _)))) _)); [|reflexivity].
  eapply rtc_l; [exact (scan_report ["a"%string] "b" ["c"%string] (Ok (mkPriceResponse 250 "b")) [] 3 [] eq_refl)|].
  eapply rtc_l; [exact (scan_report ["a"%string] "c" [] (Err ErrConnect) [Some (mkPriceResponse 250 "b")] 3 [] eq_refl)|].
  eapply rtc_l; [exact (scan_receive ["a"%string] (Some (mkPriceResponse 250 "b")) [None] 2 [])|].
  eapply rtc_l; [exact (scan_report [] "a" [] (Ok (mkPriceResponse 100 "a")) [None] 2 [mkPriceResponse 250 "b"] eq_refl)|].
  eapply rtc_l; [exact (scan_receive [] None [Some (mkPriceResponse 100 "a")] 1 [mkPriceResponse 250 "b"])|].
  eapply rtc_l; [exact (scan_receive [] (Some (mkPriceResponse 100 "a")) [] 0 [mkPriceResponse 250 "b"])|].
  apply rtc_refl.
Defined.
(** A scan that includes the silent peer hangs, although the others answer. *)
Example silent_peer_hangs s : rtc scan_step (start ["a"%string; "silent"%string]) s -> ~ returned s.
Proof.
  intros Hr Hret. destruct (scan_waits _ _ Hr Hret) as (_ & _ & He). rewrite Forall_forall in He.
  apply (He "silent"%string); [by right; left|]. vm_compute. reflexivity.
Qed.
